(** * CSS-NES: the snapshot-driven cache and diff engine

    A shallow embedding of the palette tracker ([palette-manager.js]), the
    tile-sheet cache ([tile-cache.js]), the background layer ([bg-layer.js]),
    the sprite layer ([sprite-layer.js]) and the frame orchestrator
    ([css-renderer.js]), followed by the properties stated about them.

    JavaScript numbers that only ever hold integers are modelled as [Z];
    the places where the source relies on 32-bit wrap-around, on typed-array
    truncation or on the rounding of IEEE-754 doubles are written out. *)

From Stdlib Require Import ZArith List Bool Lia String Ascii HexadecimalString.
From stdpp Require Import base tactics option list strings gmap pretty.

Local Open Scope Z_scope.

#[local] Set Warnings "-clear-no-such-hyp".

(** ** JavaScript number primitives *)

Module JS.

(** [ToInt32]: reduce modulo 2^32 into the signed range. *)
Definition to_int32 (z : Z) : Z :=
  let m := z mod 2 ^ 32 in
  if m <? 2 ^ 31 then m else m - 2 ^ 32.

(** [ToUint32], i.e. [z >>> 0]. *)
Definition to_uint32 (z : Z) : Z := z mod 2 ^ 32.

(** Typed-array stores: [Int8Array] and [Int16Array] keep the low bits. *)
Definition to_int8 (z : Z) : Z :=
  let m := z mod 2 ^ 8 in
  if m <? 2 ^ 7 then m else m - 2 ^ 8.

Definition to_int16 (z : Z) : Z :=
  let m := z mod 2 ^ 16 in
  if m <? 2 ^ 15 then m else m - 2 ^ 16.

(** The binary64 value nearest to the integer [z], ties to the even
    significand.  Integers below 2^53 in magnitude are exact; above, the
    53-bit significand leaves a spacing of [2 ^ (log2 |z| - 52)]. *)
Definition round_double (z : Z) : Z :=
  let a := Z.abs z in
  if a <? 2 ^ 53 then z
  else
    let q := 2 ^ (Z.log2 a - 52) in
    let m := a / q in
    let r := a mod q in
    let half := q / 2 in
    let m' :=
      if r <? half then m
      else if half <? r then m + 1
      else if Z.even m then m else m + 1 in
    Z.sgn z * (m' * q).

(** [a * b] on two integer-valued doubles. *)
Definition mul (a b : Z) : Z := round_double (a * b).

(** [a ^ b]: both operands go through [ToInt32]. *)
Definition xor (a b : Z) : Z := Z.lxor (to_int32 a) (to_int32 b).

(** [a | 0]. *)
Definition or0 (a : Z) : Z := to_int32 a.

(** [a[i]] on an array of numbers used as an operand of a bit operation:
    a missing element is [undefined], which [ToInt32] sends to 0. *)
Definition get_num (l : list Z) (i : nat) : Z := nth i l 0.

(** Template-literal rendering of an integer. *)
Definition show (z : Z) : string := pretty z.

(** [z.toString(16).padStart(2, '0')]. *)
Definition hex2 (z : Z) : string :=
  let s := HexadecimalString.NilZero.string_of_int (Z.to_hex_int z) in
  if (String.length s <? 2)%nat then ("0" ++ s)%string else s.

End JS.

(** ** Tile memory *)

(** A [Tile] object of the emulator.  [tile_id] is the identity of the
    object (what [===] compares); [pix] is its pixel array, which CHR-RAM
    games mutate in place (same [tile_id], new [pix]) and which a mapper
    bank switch replaces wholesale (new [tile_id]). *)
Record Tile := mkTile { tile_id : nat; pix : list Z }.

(** What an element of [ptTile] can hold. *)
Inductive slot :=
| Undefined
| Null
| Obj (t : Tile).

(** The reference stored in a bank signature: only identity is observed. *)
Inductive jsref :=
| RUndefined
| RNull
| RObj (id : nat).

Definition ref_of (s : slot) : jsref :=
  match s with
  | Undefined => RUndefined
  | Null => RNull
  | Obj t => RObj (tile_id t)
  end.

(** [a !== b] on references. *)
Definition ref_neq (a b : jsref) : bool :=
  match a, b with
  | RUndefined, RUndefined => false
  | RNull, RNull => false
  | RObj i, RObj j => negb (Nat.eqb i j)
  | _, _ => true
  end.

(** [arr[i]] for a numeric index; out of range (or negative) reads give
    [undefined]. *)
Definition get_slot (ptTile : list slot) (i : Z) : slot :=
  if i <? 0 then Undefined else nth (Z.to_nat i) ptTile Undefined.

Definition get_ref (refs : list jsref) (i : nat) : jsref := nth i refs RUndefined.

(** ** Palette dirty tracker ([palette-manager.js]) *)

Module PaletteManager.

(** A CSS colour ['#rrggbb'] is represented by the 24-bit number whose
    six-digit hexadecimal rendering it is; [_toCSS] always produces such a
    string and [parseInt(c.slice(1), 16)] reads the number back. *)
Record t := mk {
  prevBg : list Z;
  prevSpr : list Z;
  bgColors : list Z;
  sprColors : list Z;
  dirtyBgGroups : gset Z;
  dirtySprGroups : gset Z
}.

(** [new PaletteManager()]. *)
Definition new : t :=
  mk (replicate 16 (-1)) (replicate 16 (-1))
     (replicate 16 0) (replicate 16 0) ∅ ∅.

(** [_toCSS(packed)]: the emulator stores colours as 0xBBGGRR. *)
Definition toCSS (packed : Z) : Z :=
  let r := Z.land packed 255 in
  let g := Z.land (Z.shiftr packed 8) 255 in
  let b := Z.land (Z.shiftr packed 16) 255 in
  Z.lor (Z.lor (Z.shiftl r 16) (Z.shiftl g 8)) b.

(** [palette[i]]; the extractor always hands over 16-entry slices.  Past
    the end of a shorter array the source reads [undefined], which differs
    from every stored number, where this reads 0: statements about which
    entries differ take palettes of 16 entries. *)
Definition entry (palette : list Z) (i : nat) : Z := nth i palette 0.

(** The background half of the loop body of [update]. *)
Definition stepBg (bgPalette : list Z) (i : nat) (pm : t) : t :=
  if negb (entry bgPalette i =? entry (prevBg pm) i) then
    mk (<[i := entry bgPalette i]> (prevBg pm)) (prevSpr pm)
       (<[i := toCSS (entry bgPalette i)]> (bgColors pm)) (sprColors pm)
       ({[Z.shiftr (Z.of_nat i) 2]} ∪ dirtyBgGroups pm) (dirtySprGroups pm)
  else pm.

(** The sprite half of the loop body of [update]. *)
Definition stepSpr (sprPalette : list Z) (i : nat) (pm : t) : t :=
  if negb (entry sprPalette i =? entry (prevSpr pm) i) then
    mk (prevBg pm) (<[i := entry sprPalette i]> (prevSpr pm))
       (bgColors pm) (<[i := toCSS (entry sprPalette i)]> (sprColors pm))
       (dirtyBgGroups pm) ({[Z.shiftr (Z.of_nat i) 2]} ∪ dirtySprGroups pm)
  else pm.

Definition step (bgPalette sprPalette : list Z) (pm : t) (i : nat) : t :=
  stepSpr sprPalette i (stepBg bgPalette i pm).

(** [dirtyBgGroups.clear(); dirtySprGroups.clear()]. *)
Definition clearDirty (pm : t) : t :=
  mk (prevBg pm) (prevSpr pm) (bgColors pm) (sprColors pm) ∅ ∅.

(** [update(bgPalette, sprPalette)]: the new tracker state and the
    returned flag. *)
Definition update (pm : t) (bgPalette sprPalette : list Z) : t * bool :=
  let pm' := fold_left (step bgPalette sprPalette) (seq 0 16) (clearDirty pm) in
  (pm', negb (size (dirtyBgGroups pm') =? 0)%nat
        || negb (size (dirtySprGroups pm') =? 0)%nat).

(** [getBgPaletteGroup(n)] and [getSprPaletteGroup(n)]. *)
Definition group (colors : list Z) (n : Z) : list Z :=
  let base := Z.to_nat (Z.shiftl n 2) in
  [nth base colors 0; nth (base + 1) colors 0;
   nth (base + 2) colors 0; nth (base + 3) colors 0].

Definition getBgPaletteGroup (pm : t) (n : Z) : list Z := group (bgColors pm) n.
Definition getSprPaletteGroup (pm : t) (n : Z) : list Z := group (sprColors pm) n.

(** [getBackgroundColor()]. *)
Definition getBackgroundColor (pm : t) : Z := nth 0%nat (bgColors pm) 0.

End PaletteManager.

(** ** A loop whose body may throw *)

(** [for (i of idx) body(i)] over a threaded state; [None] is an uncaught
    exception, which abandons the remaining iterations. *)
Fixpoint forM {S : Type} (idx : list nat) (body : nat → S → option S) (s : S)
  : option S :=
  match idx with
  | [] => Some s
  | i :: idx' =>
      match body i s with
      | Some s' => forM idx' body s'
      | None => None
      end
  end.

(** ** Tile-sheet cache ([tile-cache.js]) *)

Module TileCache.

(** The RGBA bytes of a 128x128 canvas.  The data URL that
    [canvas.toDataURL] returns is represented by the raster it encodes. *)
Definition ImageData := list Z.

(** What a call does to the page and the console. *)
Inductive event :=
| RenderSheet (sheetIndex : Z) (base : Z)
| RewriteStylesheet
| PerfWarning.

Record t := mk {
  blobUrls : list (option ImageData);
  styleEl : list (string * ImageData);
  tileChecksums : list Z;
  prevBankRefs : list jsref;
  updatedSheets : gset Z;
  prevBgBase : Z;
  consecRegenFrames : Z
}.

(** [new TileCache()]. *)
Definition new : t :=
  mk (replicate 12 None) [] (replicate 512 0) (replicate 8 RNull) ∅ (-1) 0.

(** [getTilePosition(index)] as the pair of pixel offsets ... *)
Definition tileOffset (index : Z) : Z * Z :=
  let col := Z.land index 15 in
  let row := Z.land (Z.shiftr index 4) 15 in
  (col * 8, row * 8).

(** ... and as the CSS [background-position] string the source returns. *)
Definition getTilePosition (index : Z) : string :=
  let '(x, y) := tileOffset index in
  ("-" ++ JS.show x ++ "px -" ++ JS.show y ++ "px")%string.

(** One iteration of the loop of [_hashPix]. *)
Definition hashStep (h p : Z) : Z :=
  let h := JS.xor h p in
  JS.or0 (JS.mul h 16777619).

(** The accumulator [h] of [_hashPix] after [n] iterations of its loop,
    from the seed [0x811c9dc5]. *)
Definition hashAfter (step : Z → Z → Z) (pix : list Z) (n : nat) : Z :=
  fold_left (fun h i => step h (JS.get_num pix i)) (seq 0 n) 2166136261.

(** [_hashPix(pix)]: 64 iterations, then [h >>> 0]. *)
Definition hashPix (pix : list Z) : Z :=
  JS.to_uint32 (hashAfter hashStep pix 64).

(** The checksum the way the specification words it: the multiplication is
    exact modulo 2^32. *)
Definition hashStep_spec (h p : Z) : Z :=
  JS.to_int32 (JS.xor h p * 16777619).

Definition hashPix_spec (pix : list Z) : Z :=
  JS.to_uint32 (hashAfter hashStep_spec pix 64).

(** [_checkBankDirty(chrBankSignature, ptBase)]: the loop returns at the
    first region whose reference differs. *)
Definition checkBankDirty (tc : t) (chrBankSignature : list jsref) (ptBase : Z)
  : bool :=
  let startRegion := if 256 <=? ptBase then 4%nat else 0%nat in
  existsb
    (fun i => ref_neq (get_ref chrBankSignature (startRegion + i))
                      (get_ref (prevBankRefs tc) (startRegion + i)))
    (seq 0 4).

(** [_updateBankRefs(chrBankSignature)]. *)
Definition updateBankRefs (tc : t) (chrBankSignature : list jsref) : t :=
  mk (blobUrls tc) (styleEl tc) (tileChecksums tc)
     (fold_left (fun refs i => <[i := get_ref chrBankSignature i]> refs)
                (seq 0 8) (prevBankRefs tc))
     (updatedSheets tc) (prevBgBase tc) (consecRegenFrames tc).

(** The loop body of [_checkCHRDirty] on (checksums, pt0Dirty, pt1Dirty).
    [tileChecksums] is a [Uint32Array]: [hashPix] already is a uint32. *)
Definition chrStep (ptTile : list slot) (st : list Z * bool * bool) (i : nat)
  : list Z * bool * bool :=
  let '(sums, pt0Dirty, pt1Dirty) := st in
  match get_slot ptTile (Z.of_nat i) with
  | Obj tile =>
      let checksum := hashPix (pix tile) in
      if negb (checksum =? nth i sums 0) then
        (<[i := checksum]> sums,
         if (i <? 256)%nat then true else pt0Dirty,
         if (i <? 256)%nat then pt1Dirty else true)
      else st
  | _ => st
  end.

(** [_checkCHRDirty(ptTile)]. *)
Definition checkCHRDirty (tc : t) (ptTile : list slot) : t * bool * bool :=
  let '(sums, pt0Dirty, pt1Dirty) :=
    fold_left (chrStep ptTile) (seq 0 512) (tileChecksums tc, false, false) in
  (mk (blobUrls tc) (styleEl tc) sums (prevBankRefs tc)
      (updatedSheets tc) (prevBgBase tc) (consecRegenFrames tc),
   pt0Dirty, pt1Dirty).

(** [parseInt(c.slice(1), 16)] split into its channels. *)
Definition parseColor (v : Z) : Z * Z * Z :=
  (Z.land (Z.shiftr v 16) 255, Z.land (Z.shiftr v 8) 255, Z.land v 255).

(** Four consecutive byte stores into the raster. *)
Definition putPixel (data : ImageData) (destOffset r g b a : Z) : ImageData :=
  let o := Z.to_nat destOffset in
  <[(o + 3)%nat := a]> (<[(o + 2)%nat := b]> (<[(o + 1)%nat := g]> (<[o := r]> data))).

(** The innermost loop body of [_renderSheet].  A colour index other than
    0..3 (or a missing pixel) makes [rgb[colorIdx]] undefined, and
    destructuring it throws. *)
Definition renderPixel (rgb : list (Z * Z * Z)) (tile : Tile) (baseX baseY : Z)
    (py px : nat) (data : ImageData) : option ImageData :=
  colorIdx ← pix tile !! (Nat.shiftl py 3 + px)%nat;
  let destOffset := ((baseY + Z.of_nat py) * 128 + (baseX + Z.of_nat px)) * 4 in
  if colorIdx =? 0 then Some (putPixel data destOffset 0 0 0 0)
  else
    '(r, g, b) ← (if colorIdx <? 0 then None else rgb !! Z.to_nat colorIdx);
    Some (putPixel data destOffset r g b 255).

Definition renderTile (rgb : list (Z * Z * Z)) (ptTile : list slot) (base : Z)
    (tileIdx : nat) (data : ImageData) : option ImageData :=
  match get_slot ptTile (base + Z.of_nat tileIdx) with
  | Obj tile =>
      let tileCol := Z.land (Z.of_nat tileIdx) 15 in
      let tileRow := Z.land (Z.shiftr (Z.of_nat tileIdx) 4) 15 in
      let baseX := tileCol * 8 in
      let baseY := tileRow * 8 in
      forM (seq 0 8)
        (fun py => forM (seq 0 8) (fun px => renderPixel rgb tile baseX baseY py px))
        data
  | _ => Some data
  end.

(** [_renderSheet(sheetIndex, ptTile, base, colors)].  [update] calls it
    for the sheets 0..11 only; for another index the source throws at
    [this.contexts[sheetIndex]], which is not modelled, so statements about
    a call on its own take [0 <= sheetIndex < 12]. *)
Definition renderSheet (tc : t) (sheetIndex : Z) (ptTile : list slot) (base : Z)
    (colors : list Z) : option t :=
  let rgb := map parseColor colors in
  data ← forM (seq 0 256) (renderTile rgb ptTile base)
              (replicate (128 * 128 * 4) 0);
  Some (mk (<[Z.to_nat sheetIndex := Some data]> (blobUrls tc)) (styleEl tc)
           (tileChecksums tc) (prevBankRefs tc) (updatedSheets tc)
           (prevBgBase tc) (consecRegenFrames tc)).

(** [this.updatedSheets.add(sheetIndex)]. *)
Definition addUpdated (tc : t) (sheetIndex : Z) : t :=
  mk (blobUrls tc) (styleEl tc) (tileChecksums tc) (prevBankRefs tc)
     ({[sheetIndex]} ∪ updatedSheets tc) (prevBgBase tc) (consecRegenFrames tc).

(** The rules of one family of classes in [_updateStylesheet]: a rule is
    written for every sheet that has a URL. *)
Definition rules (selector : string) (first : nat) (urls : list (option ImageData))
  : list (string * ImageData) :=
  flat_map
    (fun i => match nth (first + i) urls None with
              | Some url => [((selector ++ JS.show (Z.of_nat i))%string, url)]
              | None => []
              end)
    (seq 0 4).

(** [_updateStylesheet()]. *)
Definition updateStylesheet (tc : t) : t :=
  mk (blobUrls tc)
     (rules ".bg-pal-" 0 (blobUrls tc) ++ rules ".spr-b0-pal-" 4 (blobUrls tc)
        ++ rules ".spr-b1-pal-" 8 (blobUrls tc))
     (tileChecksums tc) (prevBankRefs tc) (updatedSheets tc) (prevBgBase tc)
     (consecRegenFrames tc).

(** The dirty signals that [update] derives before it regenerates. *)
Record signals := mkSignals {
  bgBaseChanged : bool;
  bgDirty : bool;
  spr0Dirty : bool;
  spr1Dirty : bool
}.

(** First part of [update]: clear [updatedSheets], compare and store the
    background base, run the bank-signature check (when a signature is
    given) and the checksum scan, and combine the signals. *)
Definition detect (tc : t) (ptTile : list slot) (bgBase : Z)
    (chrBankSignature : option (list jsref)) : t * signals :=
  let tc := mk (blobUrls tc) (styleEl tc) (tileChecksums tc) (prevBankRefs tc)
               ∅ (prevBgBase tc) (consecRegenFrames tc) in
  let bgBaseChanged := negb (bgBase =? prevBgBase tc) in
  let tc := mk (blobUrls tc) (styleEl tc) (tileChecksums tc) (prevBankRefs tc)
               (updatedSheets tc) bgBase (consecRegenFrames tc) in
  let '(bgBankDirty, sprBank0Dirty, sprBank1Dirty, tc) :=
    match chrBankSignature with
    | Some sig =>
        (checkBankDirty tc sig bgBase, checkBankDirty tc sig 0,
         checkBankDirty tc sig 256, updateBankRefs tc sig)
    | None => (false, false, false, tc)
    end in
  let '(tc, chrDirtyPT0, chrDirtyPT1) := checkCHRDirty tc ptTile in
  let bgPTIndex := if 256 <=? bgBase then 1 else 0 in
  let bgDirty :=
    bgBankDirty || (if bgPTIndex =? 0 then chrDirtyPT0 else chrDirtyPT1) in
  let spr0Dirty := sprBank0Dirty || chrDirtyPT0 in
  let spr1Dirty := sprBank1Dirty || chrDirtyPT1 in
  (tc, mkSignals bgBaseChanged bgDirty spr0Dirty spr1Dirty).

(** The body shared by the three regeneration loops:
    [if (cond) { _renderSheet(sheetIndex, ptTile, base, colors);
                 updatedSheets.add(sheetIndex) }]. *)
Definition regen (cond : bool) (sheetIndex : Z) (ptTile : list slot) (base : Z)
    (colors : list Z) (st : t * list event) : option (t * list event) :=
  if cond then
    tc ← renderSheet st.1 sheetIndex ptTile base colors;
    Some (addUpdated tc sheetIndex, st.2 ++ [RenderSheet sheetIndex base])
  else Some st.

(** Second part of [update]: the three loops over the palette groups. *)
Definition regenerate (ptTile : list slot) (pm : PaletteManager.t) (bgBase : Z)
    (sg : signals) (st : t * list event) : option (t * list event) :=
  st ← forM (seq 0 4)
        (fun palGroup =>
           let g := Z.of_nat palGroup in
           regen (bool_decide (g ∈ PaletteManager.dirtyBgGroups pm)
                  || bgDirty sg || bgBaseChanged sg)
                 g ptTile bgBase (PaletteManager.getBgPaletteGroup pm g)) st;
  st ← forM (seq 0 4)
        (fun palGroup =>
           let g := Z.of_nat palGroup in
           regen (bool_decide (g ∈ PaletteManager.dirtySprGroups pm) || spr0Dirty sg)
                 (4 + g) ptTile 0 (PaletteManager.getSprPaletteGroup pm g)) st;
  forM (seq 0 4)
    (fun palGroup =>
       let g := Z.of_nat palGroup in
       regen (bool_decide (g ∈ PaletteManager.dirtySprGroups pm) || spr1Dirty sg)
             (8 + g) ptTile 256 (PaletteManager.getSprPaletteGroup pm g)) st.

(** Last part of [update]: republish the stylesheet when something was
    regenerated, and count consecutive full regenerations. *)
Definition finish (st : t * list event) : t * list event :=
  let st :=
    if (0 <? size (updatedSheets st.1))%nat
    then (updateStylesheet st.1, st.2 ++ [RewriteStylesheet])
    else st in
  let tc := st.1 in
  if (size (updatedSheets tc) =? 12)%nat then
    let n := consecRegenFrames tc + 1 in
    (mk (blobUrls tc) (styleEl tc) (tileChecksums tc) (prevBankRefs tc)
        (updatedSheets tc) (prevBgBase tc) n,
     if n =? 60 then st.2 ++ [PerfWarning] else st.2)
  else
    (mk (blobUrls tc) (styleEl tc) (tileChecksums tc) (prevBankRefs tc)
        (updatedSheets tc) (prevBgBase tc) 0, st.2).

(** [update(ptTile, paletteManager, bgBase, sprBase, chrBankSignature)]:
    the cache after the call and what the call did, or [None] when
    [_renderSheet] throws (the exception leaves [update]; what the cache
    holds at that point is not modelled).  [sprBase] is accepted and not
    used. *)
Definition update (tc : t) (ptTile : list slot) (pm : PaletteManager.t)
    (bgBase sprBase : Z) (chrBankSignature : option (list jsref))
  : option (t * list event) :=
  let '(tc, sg) := detect tc ptTile bgBase chrBankSignature in
  st ← regenerate ptTile pm bgBase sg (tc, []);
  Some (finish st).

(** [bgSheetUpdated(palGroup)]. *)
Definition bgSheetUpdated (tc : t) (palGroup : Z) : bool :=
  bool_decide (palGroup ∈ updatedSheets tc).

(** [sprSheetUpdated(palGroup)]. *)
Definition sprSheetUpdated (tc : t) (palGroup : Z) : bool :=
  bool_decide (4 + palGroup ∈ updatedSheets tc)
  || bool_decide (8 + palGroup ∈ updatedSheets tc).

End TileCache.

(** [_extractCHRBankSignature(ppu)] of the snapshot extractor: the first
    tile of each 1KB region. *)
Definition extractCHRBankSignature (ptTile : list slot) : list jsref :=
  map (fun i => ref_of (get_slot ptTile (Z.of_nat i * 64))) (seq 0 8).

(** ** The per-frame snapshot ([ppu-state-extractor.js]) *)

Module NameTable.
Record t := mk { tile : list Z; attrib : list Z }.
End NameTable.

Module Scroll.
Record t := mk {
  coarseX : Z; coarseY : Z; fineX : Z; fineY : Z;
  nameTableH : Z; nameTableV : Z
}.
End Scroll.

Module Sprite.
Record t := mk {
  x : Z; y : Z; tileIndex : Z; palette : Z;
  flipH : bool; flipV : bool; behindBg : bool
}.
End Sprite.

Module PPUState.
Record t := mk {
  bgPalette : list Z;
  sprPalette : list Z;
  nameTables : list (option NameTable.t);
  mirrorMap : list Z;
  ptTile : list slot;
  sprites : list Sprite.t;
  scroll : Scroll.t;
  bgPatternBase : Z;
  sprPatternBase : Z;
  spriteSize : Z;
  bgVisible : bool;
  spritesVisible : bool;
  chrBankSignature : option (list jsref)
}.
End PPUState.

(** The absolute scroll position, written the same way in
    [BGLayer.update] and in [CSSRenderer.renderFrame]. *)
Definition scrollX (s : Scroll.t) : Z :=
  Scroll.coarseX s * 8 + Scroll.fineX s + Scroll.nameTableH s * 256.

Definition scrollY (s : Scroll.t) : Z :=
  Scroll.coarseY s * 8 + Scroll.fineY s + Scroll.nameTableV s * 240.

(** ** Background layer ([bg-layer.js]) *)

Module BGLayer.

(** What [update] writes on a tile div.  The attributes the constructor
    sets once ([col], [row], [ntAddr], ...) never change and are left out. *)
Record cell := mkCell {
  className : string;
  backgroundPosition : string;
  tileIdx : option Z;
  tileHex : option string;
  palette : option Z
}.

(** One logical quadrant: its container div, its 960 tile divs and the
    two baselines ([Int16Array] and [Int8Array] in the source). *)
Record quadrant := mkQuadrant {
  physNt : option Z;
  left : option Z;
  top : option Z;
  cells : list cell;
  prevTile : list Z;
  prevAttrib : list Z
}.

Record t := mk {
  display : string;
  transform : option (Z * Z);
  quadrants : list quadrant
}.

(** [new BGLayer(container)]. *)
Definition new : t :=
  mk "" None
     (replicate 4
        (mkQuadrant None None None
           (replicate 960 (mkCell "bg-tile" "" None None None))
           (replicate 960 (-1)) (replicate 960 (-1)))).

(** The loop body of [_updateQuadrant] for cell [i].  A nametable holds
    its 960 entries: on a missing tile entry the source throws at
    [tileIdx.toString(16)], where this reads 0, so statements about a
    completed [update] take well-formed nametables. *)
Definition updateCell (ntData : NameTable.t) (tileCache : TileCache.t)
    (qd : quadrant) (i : nat) : quadrant :=
  let tileIdx := nth i (NameTable.tile ntData) 0 in
  let rawAttrib := nth i (NameTable.attrib ntData) 0 in
  let palGroup := Z.shiftr (JS.to_int32 rawAttrib) 2 in
  let tileChanged := negb (tileIdx =? nth i (prevTile qd) 0) in
  let attribChanged := negb (rawAttrib =? nth i (prevAttrib qd) 0) in
  let sheetChanged := TileCache.bgSheetUpdated tileCache palGroup in
  if negb tileChanged && negb attribChanged && negb sheetChanged then qd
  else
    let div := nth i (cells qd) (mkCell "" "" None None None) in
    let '(div, prevT) :=
      if tileChanged || sheetChanged then
        (mkCell (className div) (TileCache.getTilePosition tileIdx)
                (BGLayer.tileIdx div) (tileHex div) (palette div),
         <[i := JS.to_int16 tileIdx]> (prevTile qd))
      else (div, prevTile qd) in
    let '(div, prevA) :=
      if attribChanged then
        (mkCell ("bg-tile bg-pal-" ++ JS.show palGroup)%string
                (backgroundPosition div)
                (Some tileIdx) (Some ("$" ++ JS.hex2 tileIdx)%string)
                (Some palGroup),
         <[i := JS.to_int8 rawAttrib]> (prevAttrib qd))
      else if tileChanged then
        (mkCell (className div) (backgroundPosition div)
                (Some tileIdx) (Some ("$" ++ JS.hex2 tileIdx)%string)
                (palette div),
         prevAttrib qd)
      else (div, prevAttrib qd) in
    mkQuadrant (physNt qd) (left qd) (top qd) (<[i := div]> (cells qd)) prevT prevA.

(** [_updateQuadrant(q, ntData, tileCache)] on quadrant [q]'s record. *)
Definition updateQuadrant (ntData : NameTable.t) (tileCache : TileCache.t)
    (qd : quadrant) : quadrant :=
  fold_left (updateCell ntData tileCache) (seq 0 960) qd.

(** [nameTables[mirrorMap[q]]]; a missing entry is [undefined] and a null
    one is [null], both falsy. *)
Definition lookupNT (ppuState : PPUState.t) (q : nat)
  : option (Z * NameTable.t) :=
  physNT ← PPUState.mirrorMap ppuState !! q;
  ntData ← (if physNT <? 0 then None
            else mjoin (PPUState.nameTables ppuState !! Z.to_nat physNT));
  Some (physNT, ntData).

(** The body of the first loop of [update] for quadrant [q]. *)
Definition refreshQuadrant (ppuState : PPUState.t) (tileCache : TileCache.t)
    (q : nat) (qd : quadrant) : quadrant :=
  match lookupNT ppuState q with
  | None => qd
  | Some (physNT, ntData) =>
      updateQuadrant ntData tileCache
        (mkQuadrant (Some physNT) (left qd) (top qd) (cells qd)
                    (prevTile qd) (prevAttrib qd))
  end.

(** The body of the second loop of [update]: where quadrant [q] goes. *)
Definition quadrantPosition (q : nat) (scrollX scrollY : Z) : Z * Z :=
  let col := Z.land (Z.of_nat q) 1 in
  let row := Z.shiftr (Z.of_nat q) 1 in
  let qx := col * 256 in
  let qy := row * 240 in
  let qx := if qx + 256 <=? scrollX then qx + 512 else qx in
  let qy := if qy + 240 <=? scrollY then qy + 480 else qy in
  (qx, qy).

Definition placeQuadrant (scrollX scrollY : Z) (q : nat) (qd : quadrant)
  : quadrant :=
  let '(qx, qy) := quadrantPosition q scrollX scrollY in
  mkQuadrant (physNt qd) (Some qx) (Some qy) (cells qd) (prevTile qd) (prevAttrib qd).

(** [for (let q = 0; q < 4; q++)] acting on [this.quadrants[q]]. *)
Definition forQuadrants (body : nat → quadrant → quadrant) (qs : list quadrant)
  : list quadrant :=
  fold_left (fun qs q => alter (body q) q qs) (seq 0 4) qs.

(** [update(ppuState, tileCache)]. *)
Definition update (bg : t) (ppuState : PPUState.t) (tileCache : TileCache.t) : t :=
  let display := if PPUState.bgVisible ppuState then "" else "none" in
  if negb (PPUState.bgVisible ppuState) then
    mk display (transform bg) (quadrants bg)
  else
    let qs := forQuadrants (refreshQuadrant ppuState tileCache) (quadrants bg) in
    let sx := scrollX (PPUState.scroll ppuState) in
    let sy := scrollY (PPUState.scroll ppuState) in
    let qs := forQuadrants (placeQuadrant sx sy) qs in
    mk display (Some (- sx, - sy)) qs.

End BGLayer.

(** ** Sprite layer ([sprite-layer.js]) *)

Module SpriteLayer.

(** One of the two child divs of a sprite. *)
Record half := mkHalf {
  halfDisplay : string;
  halfClassName : string;
  halfBackgroundPosition : string
}.

(** The inspection attributes [update] writes on a sprite div. *)
Record dataset := mkDataset {
  dsX : Z; dsY : Z; dsTileIdx : Z; dsTileHex : string; dsPalette : Z;
  dsFlipH : Z; dsFlipV : Z; dsPriority : string
}.

Record div := mkDiv {
  display : string;
  left : option Z;
  top : option Z;
  zIndex : option Z;
  width : option Z;
  height : option Z;
  className : string;
  transform : option (Z * Z);
  backgroundImage : string;
  backgroundPosition : string;
  data : option dataset;
  topDiv : half;
  botDiv : half
}.

Record t := mk {
  layerDisplay : string;
  spriteDivs : list div;
  prevSpriteSize : Z
}.

(** [new SpriteLayer(container)]. *)
Definition new : t :=
  mk ""
     (replicate 64
        (mkDiv "none" None None None None None "sprite" None "" "" None
               (mkHalf "" "sprite-half" "") (mkHalf "" "sprite-half" "")))
     (-1).

(** [_update8x8(i, spr, palGroup, scaleX, scaleY, sprBase, tileCache)]. *)
Definition update8x8 (d : div) (spr : Sprite.t) (palGroup scaleX scaleY sprBase : Z)
  : div :=
  let bankIdx := if sprBase =? 0 then 0 else 1 in
  mkDiv (display d) (left d) (top d) (zIndex d) (width d) (height d)
        ("sprite spr-b" ++ JS.show bankIdx ++ "-pal-" ++ JS.show palGroup)%string
        (Some (scaleX, scaleY))
        (backgroundImage d)
        (TileCache.getTilePosition (Sprite.tileIndex spr))
        (data d)
        (mkHalf "none" (halfClassName (topDiv d)) (halfBackgroundPosition (topDiv d)))
        (mkHalf "none" (halfClassName (botDiv d)) (halfBackgroundPosition (botDiv d))).

(** [const bank = (spr.tileIndex & 1) ? 256 : 0] of [_update8x16]: the
    first tile of the pattern table the sprite reads. *)
Definition bank8x16 (spr : Sprite.t) : Z :=
  if negb (Z.land (Sprite.tileIndex spr) 1 =? 0) then 256 else 0.

(** [_update8x16(i, spr, palGroup, scaleX, scaleY, sprBase, tileCache)]. *)
Definition update8x16 (d : div) (spr : Sprite.t) (palGroup scaleX scaleY sprBase : Z)
  : div :=
  let bank := bank8x16 spr in
  let bankIdx := if bank =? 0 then 0 else 1 in
  let topTileIdx := Z.land (Sprite.tileIndex spr) 254 in
  let botTileIdx := topTileIdx + 1 in
  let palClass := ("spr-b" ++ JS.show bankIdx ++ "-pal-" ++ JS.show palGroup)%string in
  let '(topPos, botPos) :=
    if Sprite.flipV spr
    then (TileCache.getTilePosition botTileIdx, TileCache.getTilePosition topTileIdx)
    else (TileCache.getTilePosition topTileIdx, TileCache.getTilePosition botTileIdx) in
  mkDiv (display d) (left d) (top d) (zIndex d) (width d) (height d)
        "sprite-8x16" (Some (scaleX, scaleY)) "none" "" (data d)
        (mkHalf "" ("sprite-half " ++ palClass)%string topPos)
        (mkHalf "" ("sprite-half " ++ palClass)%string botPos).

(** [_updateSpriteMode(is8x16)]. *)
Definition updateSpriteMode (is8x16 : bool) (divs : list div) : list div :=
  fold_left
    (fun divs i =>
       alter (fun d =>
                mkDiv (display d) (left d) (top d) (zIndex d)
                      (Some 8) (Some (if is8x16 then 16 else 8))
                      (className d) (transform d) (backgroundImage d)
                      (backgroundPosition d) (data d) (topDiv d) (botDiv d))
             i divs)
    (seq 0 64) divs.

(** The loop body of [update] on the div of sprite [i]. *)
Definition updateSprite (is8x16 : bool) (sprPatternBase : Z) (spr : Sprite.t)
    (d : div) : div :=
  let sprY := Sprite.y spr + 1 in
  let sprHeight := if is8x16 then 16 else 8 in
  if (240 <=? sprY) || (sprY + sprHeight <=? 0) then
    mkDiv "none" (left d) (top d) (zIndex d) (width d) (height d)
          (className d) (transform d) (backgroundImage d)
          (backgroundPosition d) (data d) (topDiv d) (botDiv d)
  else
    let palGroup := Z.shiftr (JS.to_int32 (Sprite.palette spr)) 2 in
    let scaleX := if Sprite.flipH spr then -1 else 1 in
    let scaleY := if Sprite.flipV spr then -1 else 1 in
    let d :=
      mkDiv "" (Some (Sprite.x spr)) (Some sprY)
            (Some (if Sprite.behindBg spr then -1 else 1))
            (width d) (height d) (className d) (transform d)
            (backgroundImage d) (backgroundPosition d)
            (Some (mkDataset (Sprite.x spr) sprY (Sprite.tileIndex spr)
                     ("$" ++ JS.hex2 (Sprite.tileIndex spr))%string palGroup
                     (if Sprite.flipH spr then 1 else 0)
                     (if Sprite.flipV spr then 1 else 0)
                     (if Sprite.behindBg spr then "behind-bg" else "in-front")))
            (topDiv d) (botDiv d) in
    if is8x16 then update8x16 d spr palGroup scaleX scaleY sprPatternBase
    else update8x8 d spr palGroup scaleX scaleY sprPatternBase.

(** [update(ppuState, tileCache)]; reading a field of a missing sprite
    record throws. *)
Definition update (sl : t) (ppuState : PPUState.t) : option t :=
  let layerDisplay := if PPUState.spritesVisible ppuState then "" else "none" in
  if negb (PPUState.spritesVisible ppuState) then
    Some (mk layerDisplay (spriteDivs sl) (prevSpriteSize sl))
  else
    let is8x16 := PPUState.spriteSize ppuState =? 1 in
    let divs :=
      if negb (PPUState.spriteSize ppuState =? prevSpriteSize sl)
      then updateSpriteMode is8x16 (spriteDivs sl) else spriteDivs sl in
    divs ← forM (seq 0 64)
      (fun i divs =>
         spr ← PPUState.sprites ppuState !! i;
         Some (alter (updateSprite is8x16 (PPUState.sprPatternBase ppuState) spr)
                     i divs))
      divs;
    Some (mk layerDisplay divs (PPUState.spriteSize ppuState)).

End SpriteLayer.

(** ** Frame orchestrator ([css-renderer.js]) *)

Module CSSRenderer.

(** The style and inspection attributes [renderFrame] writes on the
    viewport. *)
Record viewport := mkViewport {
  backgroundColor : Z;
  dsFrame : Z;
  dsScrollX : Z;
  dsScrollY : Z;
  dsBgColor : Z;
  dsBgPatternTable : string;
  dsSprPatternTable : string;
  dsSpriteSize : string;
  dsMirroring : string
}.

Record t := mk {
  paletteManager : PaletteManager.t;
  tileCache : TileCache.t;
  bgLayer : BGLayer.t;
  spriteLayer : SpriteLayer.t;
  view : option viewport;
  frameCount : Z
}.

(** [new CSSRenderer(wrapperEl)]. *)
Definition new : t :=
  mk PaletteManager.new TileCache.new BGLayer.new SpriteLayer.new None 0.

(** [renderFrame(ppuState)]: steps 1 to 6, then the frame counter.  The
    debug overlays (step 7) only read the snapshot and draw on elements of
    their own; they are not part of this model. *)
Definition renderFrame (r : t) (ppuState : PPUState.t)
  : option (t * list TileCache.event) :=
  let pm :=
    (PaletteManager.update (paletteManager r) (PPUState.bgPalette ppuState)
       (PPUState.sprPalette ppuState)).1 in
  '(tc, log) ← TileCache.update (tileCache r) (PPUState.ptTile ppuState) pm
                  (PPUState.bgPatternBase ppuState)
                  (PPUState.sprPatternBase ppuState)
                  (PPUState.chrBankSignature ppuState);
  let bg := BGLayer.update (bgLayer r) ppuState tc in
  sl ← SpriteLayer.update (spriteLayer r) ppuState;
  let s := PPUState.scroll ppuState in
  let v :=
    mkViewport (PaletteManager.getBackgroundColor pm) (frameCount r)
      (Scroll.coarseX s * 8 + Scroll.fineX s + Scroll.nameTableH s * 256)
      (Scroll.coarseY s * 8 + Scroll.fineY s + Scroll.nameTableV s * 240)
      (PaletteManager.getBackgroundColor pm)
      (if PPUState.bgPatternBase ppuState =? 0 then "$0000" else "$1000")
      (if PPUState.sprPatternBase ppuState =? 0 then "$0000" else "$1000")
      (if PPUState.spriteSize ppuState =? 0 then "8x8" else "8x16")
      (String.concat "," (map JS.show (PPUState.mirrorMap ppuState))) in
  Some (mk pm tc bg sl (Some v) (frameCount r + 1), log).

End CSSRenderer.

(** ** Data used in the statements *)

(** Two tiles whose pixel arrays differ in pixel 0 only. *)
Definition pixA : list Z :=
  [0; 0; 1; 1; 3; 0; 2; 1; 0; 1; 3; 2; 0; 2; 0; 1; 2] ++ replicate 47 0.

Definition pixB : list Z :=
  [1; 0; 1; 1; 3; 0; 2; 1; 0; 1; 3; 2; 0; 2; 0; 1; 2] ++ replicate 47 0.

(** The 256 position strings, in index order. *)
Definition allTilePositions : list string :=
  map (fun i => TileCache.getTilePosition (Z.of_nat i)) (seq 0 256).

(** A tracker that has seen one frame of all-zero palettes (so every group
    is in its dirty sets), and palettes that change entry 5 only. *)
Definition zeroPalette : list Z := replicate 16 0.
Definition trackerAfterZero : PaletteManager.t :=
  (PaletteManager.update PaletteManager.new zeroPalette zeroPalette).1.
Definition entry5Palette : list Z := <[5%nat := 255]> zeroPalette.

(** Snapshots without nametables, tiles or sprites beyond what is named. *)
Definition frameWith (scroll : Scroll.t) (bgVisible : bool) : PPUState.t :=
  PPUState.mk zeroPalette zeroPalette [None; None; None; None] [0; 1; 2; 3]
    [] [] scroll 0 0 0 bgVisible false None.

(** Scrolled one nametable and 48 pixels to the right, background shown. *)
Definition scrolledFrame : PPUState.t :=
  frameWith (Scroll.mk 6 0 0 0 1 0) true.

(** Scroll back at the origin, background hidden. *)
Definition hiddenFrame : PPUState.t :=
  frameWith (Scroll.mk 0 0 0 0 0 0) false.

(** A tile that [_renderSheet] can draw: 64 pixels, colour indices 0..3. *)
Definition tileOk (t : Tile) : bool :=
  (length (pix t) =? 64)%nat && forallb (fun c => (0 <=? c) && (c <=? 3)) (pix t).

(** Every slot is empty or holds a drawable tile. *)
Definition tilesOk (ptTile : list slot) : bool :=
  forallb (fun s => match s with Obj t => tileOk t | _ => true end) ptTile.

(** All 512 tile records are present and drawable. *)
Definition populated (ptTile : list slot) : bool :=
  (length ptTile =? 512)%nat
  && forallb (fun s => match s with Obj t => tileOk t | _ => false end) ptTile.

(** The sheets that a log says were regenerated, in order. *)
Definition renderedSheets (log : list TileCache.event) : list Z :=
  flat_map (fun e => match e with
                     | TileCache.RenderSheet i _ => [i]
                     | _ => []
                     end) log.

(** The [_renderSheet] calls that the three loops of [update] make for
    given dirty signals. *)
Definition expectedRenders (pm : PaletteManager.t) (bgBase : Z)
    (sg : TileCache.signals) : list TileCache.event :=
  flat_map (fun g : nat =>
              if bool_decide (Z.of_nat g ∈ PaletteManager.dirtyBgGroups pm)
                 || TileCache.bgDirty sg || TileCache.bgBaseChanged sg
              then [TileCache.RenderSheet (Z.of_nat g) bgBase] else []) (seq 0 4)
  ++ flat_map (fun g : nat =>
                 if bool_decide (Z.of_nat g ∈ PaletteManager.dirtySprGroups pm)
                    || TileCache.spr0Dirty sg
                 then [TileCache.RenderSheet (4 + Z.of_nat g) 0] else []) (seq 0 4)
  ++ flat_map (fun g : nat =>
                 if bool_decide (Z.of_nat g ∈ PaletteManager.dirtySprGroups pm)
                    || TileCache.spr1Dirty sg
                 then [TileCache.RenderSheet (8 + Z.of_nat g) 256] else []) (seq 0 4).

(** The part of the cache that [_renderSheet] and [_updateStylesheet] do
    not touch. *)
Definition baselines (tc : TileCache.t) : list Z * list jsref * Z * Z :=
  (TileCache.tileChecksums tc, TileCache.prevBankRefs tc,
   TileCache.prevBgBase tc, TileCache.consecRegenFrames tc).

(** A sprite div as the constructor leaves it, and an 8x16 sprite with an
    odd tile index that is flipped vertically. *)
Definition freshSpriteDiv : SpriteLayer.div :=
  SpriteLayer.mkDiv "none" None None None None None "sprite" None "" "" None
    (SpriteLayer.mkHalf "" "sprite-half" "") (SpriteLayer.mkHalf "" "sprite-half" "").

Definition flippedSprite : Sprite.t := Sprite.mk 100 50 71 8 false true false.

(** What the checksum scan stores for slot [i], and whether it finds the
    slot changed, given the checksums [sums] it starts from. *)
Definition storedAfterScan (ptTile : list slot) (sums : list Z) (i : nat) : Z :=
  match get_slot ptTile (Z.of_nat i) with
  | Obj t => TileCache.hashPix (pix t)
  | _ => nth i sums 0
  end.

Definition tileDirty (ptTile : list slot) (sums : list Z) (i : nat) : bool :=
  match get_slot ptTile (Z.of_nat i) with
  | Obj t => negb (TileCache.hashPix (pix t) =? nth i sums 0)
  | _ => false
  end.

(** A full table of 512 blank tiles with identities 0..511, and the same
    table after a mapper swapped in new tile objects (identities 512..575,
    every pixel 2) for the first 1KB region. *)
Definition fullTiles : list slot :=
  map (fun i => Obj (mkTile i (replicate 64 0))) (seq 0 512).

Definition fullTilesSwitched : list slot :=
  map (fun i => if (i <? 64)%nat then Obj (mkTile (512 + i) (replicate 64 2))
                else Obj (mkTile i (replicate 64 0)))
      (seq 0 512).

(** A table holding tile 0 and tile 256 only, and the same table after an
    in-place write to pixel 0 of tile 256. *)
Definition twoTiles : list slot :=
  [Obj (mkTile 1 (replicate 64 1))] ++ replicate 255 Undefined
    ++ [Obj (mkTile 2 (replicate 64 0))].

Definition twoTilesWritten : list slot :=
  [Obj (mkTile 1 (replicate 64 1))] ++ replicate 255 Undefined
    ++ [Obj (mkTile 2 (<[0%nat := 3]> (replicate 64 0)))].

(** The tracker on the next frame with the same all-zero palettes. *)
Definition trackerSteady : PaletteManager.t :=
  (PaletteManager.update trackerAfterZero zeroPalette zeroPalette).1.

(** The cache after a first frame over [twoTiles]. *)
Definition cacheAfterTwoTiles : TileCache.t :=
  match TileCache.update TileCache.new twoTiles trackerAfterZero 0 0
          (Some (extractCHRBankSignature twoTiles)) with
  | Some (tc, _) => tc
  | None => TileCache.new
  end.

(** A frame scrolled to coarse X 10, fine X 3, second nametable column,
    with 64 off-screen sprites. *)
Definition scrollExampleFrame : PPUState.t :=
  PPUState.mk zeroPalette zeroPalette [None; None; None; None] [0; 1; 2; 3]
    [] (replicate 64 (Sprite.mk 0 240 0 0 false false false))
    (Scroll.mk 10 5 3 2 1 0) 0 0 0 true true None.

(** A run of the palette tracker over successive frames, each a pair of
    background and sprite palettes, from a new tracker. *)
Definition paletteRun (frames : list (list Z * list Z)) : PaletteManager.t :=
  fold_left (fun pm f => (PaletteManager.update pm f.1 f.2).1) frames
            PaletteManager.new.

(** A palette as the extractor hands it over: 16 entries, none of them the
    sentinel -1 of a new tracker. *)
Definition paletteOk (p : list Z) : bool :=
  (length p =? 16)%nat && forallb (fun c => negb (c =? -1)) p.

(** Two frames of one run: black everywhere, then a red backdrop. *)
Definition redBackdrop : list Z := <[0%nat := 255]> zeroPalette.

(** The colour cache against the baseline: an entry is either still the
    constructor's pair (-1, '#000000') or the CSS form of its baseline. *)
Definition coloursFollow (prev cols : list Z) : Prop :=
  length prev = 16%nat ∧ length cols = 16%nat
  ∧ ∀ j c, prev !! j = Some c →
           (c = -1 ∧ cols !! j = Some 0)
           ∨ cols !! j = Some (PaletteManager.toCSS c).


Definition trackerFollows (pm : PaletteManager.t) : Prop :=
  coloursFollow (PaletteManager.prevBg pm) (PaletteManager.bgColors pm)
  ∧ coloursFollow (PaletteManager.prevSpr pm) (PaletteManager.sprColors pm).

(** Whether slot [i] of a tile table holds a tile record. *)
Definition present (ptTile : list slot) (i : nat) : bool :=
  match get_slot ptTile (Z.of_nat i) with Obj _ => true | _ => false end.

(** Every record the later table holds was already there in the earlier
    one (the emulator allocates all 512 records once). *)
Definition noNewTiles (ptTile ptTile' : list slot) : bool :=
  forallb (fun i => implb (present ptTile' i) (present ptTile i)) (seq 0 512).

(** Between two frames, pattern table [b] (0 or 1) was bank-switched as far
    as the signatures show: one of its four sampled references differs. *)
Definition bankSwitched (sig sig' : list jsref) (b : nat) : Prop :=
  ∃ k, (k < 4)%nat
       ∧ ref_neq (get_ref sig' (4 * b + k)) (get_ref sig (4 * b + k)) = true.

(** Between two frames, some tile of pattern table [b] hashes differently. *)
Definition bankWritten (ptTile ptTile' : list slot) (b : nat) : Prop :=
  ∃ i t t', (256 * b <= i < 256 * b + 256)%nat
            ∧ get_slot ptTile (Z.of_nat i) = Obj t
            ∧ get_slot ptTile' (Z.of_nat i) = Obj t'
            ∧ TileCache.hashPix (pix t') ≠ TileCache.hashPix (pix t).

(** The pattern table a background base selects. *)
Definition bankOf (ptBase : Z) : nat := if 256 <=? ptBase then 1%nat else 0%nat.
(** The four bytes the innermost loop body of [_renderSheet] stores for
    pixel ([px], [py]) of a tile, when it does not throw. *)
Definition pixelRGBA (rgb : list (Z * Z * Z)) (tile : Tile) (py px : nat)
  : option (list Z) :=
  colorIdx ← pix tile !! (Nat.shiftl py 3 + px)%nat;
  if colorIdx =? 0 then Some [0; 0; 0; 0]
  else
    '(r, g, b) ← (if colorIdx <? 0 then None else rgb !! Z.to_nat colorIdx);
    Some [r; g; b; 255].

(** Where the bytes of pixel ([px], [py]) of the tile in grid cell
    [tileIdx] start in the raster of a sheet. *)
Definition byteOffset (tileIdx py px : nat) : nat :=
  4 * (128 * (8 * (tileIdx / 16) + py) + (8 * (tileIdx mod 16) + px)).

(** What the loops of [_renderSheet] write: byte [v] at offset [o], by
    pixel, by pixel row and by tile. *)
Definition wrPixel (rgb : list (Z * Z * Z)) (tileIdx : nat) (tile : Tile)
    (py px o : nat) (v : Z) : Prop :=
  ∃ bytes j, pixelRGBA rgb tile py px = Some bytes ∧ (j < 4)%nat
             ∧ o = (byteOffset tileIdx py px + j)%nat ∧ nth j bytes 0 = v.

Definition wrRow (rgb : list (Z * Z * Z)) (tileIdx : nat) (tile : Tile)
    (py o : nat) (v : Z) : Prop :=
  ∃ px, (px < 8)%nat ∧ wrPixel rgb tileIdx tile py px o v.

Definition wrTile (rgb : list (Z * Z * Z)) (ptTile : list slot) (base : Z)
    (tileIdx o : nat) (v : Z) : Prop :=
  match get_slot ptTile (base + Z.of_nat tileIdx) with
  | Obj tile => ∃ py, (py < 8)%nat ∧ wrRow rgb tileIdx tile py o v
  | _ => False
  end.
(** A drawable sheet input: tile 0 striped with colour indices 1 and 2. *)
Definition stripedTiles : list slot :=
  [Obj (mkTile 7 (flat_map (fun _ => [1; 2]) (seq 0 32)))] ++ replicate 255 Null.

Definition fourColours : list Z := [0; 16711680; 65280; 255].
(** The raster [_renderSheet] draws before it publishes it. *)
Definition sheetData (ptTile : list slot) (base : Z) (colors : list Z)
  : option TileCache.ImageData :=
  forM (seq 0 256) (TileCache.renderTile (map TileCache.parseColor colors) ptTile base)
       (replicate (128 * 128 * 4) 0).

(** The first tile and the colours that [update] passes to [_renderSheet]
    for sheet [k] (0..3 background, 4..7 sprites of bank 0, 8..11 sprites
    of bank 1). *)
Definition sheetBase (bgBase : Z) (k : nat) : Z :=
  if (k <? 4)%nat then bgBase else if (k <? 8)%nat then 0 else 256.

Definition sheetColours (pm : PaletteManager.t) (k : nat) : list Z :=
  if (k <? 4)%nat then PaletteManager.getBgPaletteGroup pm (Z.of_nat k)
  else if (k <? 8)%nat then PaletteManager.getSprPaletteGroup pm (Z.of_nat (k - 4))
  else PaletteManager.getSprPaletteGroup pm (Z.of_nat (k - 8)).

(** The class selector [_updateStylesheet] writes for sheet [k]. *)
Definition sheetSelector (k : nat) : string :=
  if (k <? 4)%nat then (".bg-pal-" ++ JS.show (Z.of_nat k))%string
  else if (k <? 8)%nat then (".spr-b0-pal-" ++ JS.show (Z.of_nat (k - 4)))%string
  else (".spr-b1-pal-" ++ JS.show (Z.of_nat (k - 8)))%string.
(** What a tile div looks like when it shows tile [t] with attribute byte
    [a]: every field [_updateQuadrant] can write. *)
Definition shownCell (t a : Z) : BGLayer.cell :=
  BGLayer.mkCell ("bg-tile bg-pal-" ++ JS.show (Z.shiftr (JS.to_int32 a) 2))%string
                 (TileCache.getTilePosition t)
                 (Some t) (Some ("$" ++ JS.hex2 t)%string)
                 (Some (Z.shiftr (JS.to_int32 a) 2)).

(** A tile div agrees with its two baselines: unless the tile baseline is
    still the constructor's -1, position and tile attributes are those of
    that tile; unless the attribute baseline is still -1, class and palette
    are those of that attribute. *)
Definition cellSync (c : BGLayer.cell) (t a : Z) : bool :=
  ((t =? -1)
   || (bool_decide (BGLayer.backgroundPosition c = BGLayer.backgroundPosition (shownCell t a))
       && bool_decide (BGLayer.tileIdx c = Some t)
       && bool_decide (BGLayer.tileHex c = BGLayer.tileHex (shownCell t a))))
  && ((a =? -1)
      || (bool_decide (BGLayer.className c = BGLayer.className (shownCell t a))
          && bool_decide (BGLayer.palette c = BGLayer.palette (shownCell t a)))).

Definition quadrantSync (qd : BGLayer.quadrant) : bool :=
  (length (BGLayer.cells qd) =? 960)%nat
  && (length (BGLayer.prevTile qd) =? 960)%nat
  && (length (BGLayer.prevAttrib qd) =? 960)%nat
  && forallb (fun i => cellSync (nth i (BGLayer.cells qd)
                                     (BGLayer.mkCell "" "" None None None))
                                (nth i (BGLayer.prevTile qd) 0)
                                (nth i (BGLayer.prevAttrib qd) 0))
             (seq 0 960).

Definition layerSync (bg : BGLayer.t) : bool :=
  (length (BGLayer.quadrants bg) =? 4)%nat
  && forallb quadrantSync (BGLayer.quadrants bg).

(** A nametable as the emulator holds it: at least 960 tile and attribute
    entries, every one a value its typed-array baseline stores unchanged
    and different from the constructor's -1. *)
Definition ntOk (nt : NameTable.t) : bool :=
  (960 <=? length (NameTable.tile nt))%nat
  && (960 <=? length (NameTable.attrib nt))%nat
  && forallb (fun t => (0 <=? t) && (t <? 32768)) (firstn 960 (NameTable.tile nt))
  && forallb (fun a => (0 <=? a) && (a <? 128)) (firstn 960 (NameTable.attrib nt)).

Definition nameTablesOk (ppuState : PPUState.t) : bool :=
  forallb (fun o => match o with Some nt => ntOk nt | None => true end)
          (PPUState.nameTables ppuState).

(** A frame with one nametable (tile [i mod 256], attribute 4 everywhere)
    mirrored into all four quadrants. *)
Definition countingTable : NameTable.t :=
  NameTable.mk (map (fun i => Z.of_nat i mod 256) (seq 0 1024)) (replicate 1024 4).

Definition mirroredFrame : PPUState.t :=
  PPUState.mk zeroPalette zeroPalette [Some countingTable; None; None; None]
    [0; 0; 0; 0] [] [] (Scroll.mk 6 0 0 0 1 0) 0 0 0 true false None.
(** The 960 cells of a quadrant that shows nametable [nt]. *)
Definition shownCells (nt : NameTable.t) : list BGLayer.cell :=
  map (fun i => shownCell (nth i (NameTable.tile nt) 0) (nth i (NameTable.attrib nt) 0))
      (seq 0 960).
(** What [_updateSpriteMode] does to one sprite div. *)
Definition resized (is8x16 : bool) (d : SpriteLayer.div) : SpriteLayer.div :=
  SpriteLayer.mkDiv (SpriteLayer.display d) (SpriteLayer.left d) (SpriteLayer.top d)
    (SpriteLayer.zIndex d) (Some 8) (Some (if is8x16 then 16 else 8))
    (SpriteLayer.className d) (SpriteLayer.transform d)
    (SpriteLayer.backgroundImage d) (SpriteLayer.backgroundPosition d)
    (SpriteLayer.data d) (SpriteLayer.topDiv d) (SpriteLayer.botDiv d).

(** The div of a sprite at the start of the loop of [update]: resized when
    the sprite size differs from the one the layer was last drawn with. *)
Definition sizedDiv (sl : SpriteLayer.t) (ppuState : PPUState.t)
    (d : SpriteLayer.div) : SpriteLayer.div :=
  if negb (PPUState.spriteSize ppuState =? SpriteLayer.prevSpriteSize sl)
  then resized (PPUState.spriteSize ppuState =? 1) d else d.

(** Frames with 64 copies of one on-screen sprite, in either sprite size. *)
Definition spriteFrame (spriteSize : Z) : PPUState.t :=
  PPUState.mk zeroPalette zeroPalette [None; None; None; None] [0; 1; 2; 3]
    [] (replicate 64 flippedSprite) (Scroll.mk 0 0 0 0 0 0) 0 0 spriteSize
    true true None.
(** The shape every renderer state has: 16-entry palette baselines, 12
    sheet URLs, 512 checksums, 8 bank references, four quadrants of 960
    cells that agree with their baselines, and 64 sprite divs. *)
Definition rendererOk (r : CSSRenderer.t) : bool :=
  (length (PaletteManager.prevBg (CSSRenderer.paletteManager r)) =? 16)%nat
  && (length (PaletteManager.prevSpr (CSSRenderer.paletteManager r)) =? 16)%nat
  && (length (TileCache.blobUrls (CSSRenderer.tileCache r)) =? 12)%nat
  && (length (TileCache.tileChecksums (CSSRenderer.tileCache r)) =? 512)%nat
  && (length (TileCache.prevBankRefs (CSSRenderer.tileCache r)) =? 8)%nat
  && layerSync (CSSRenderer.bgLayer r)
  && (length (SpriteLayer.spriteDivs (CSSRenderer.spriteLayer r)) =? 64)%nat.

(** A snapshot as the extractor produces it: drawable tiles, 64 sprite
    records, well-formed nametables. *)
Definition frameOk (ppuState : PPUState.t) : bool :=
  tilesOk (PPUState.ptTile ppuState)
  && (64 <=? length (PPUState.sprites ppuState))%nat
  && nameTablesOk ppuState.

(** A frame with a striped tile, one mirrored nametable, 64 sprites and a
    red backdrop. *)
Definition demoFrame : PPUState.t :=
  PPUState.mk redBackdrop zeroPalette [Some countingTable; None; None; None]
    [0; 0; 0; 0] stripedTiles (replicate 64 flippedSprite)
    (Scroll.mk 6 0 0 0 1 0) 0 0 0 true true
    (Some (extractCHRBankSignature stripedTiles)).
(** ** Debug overlays ([debug-overlay.js]) *)

Module DebugOverlay.

(** The five overlay names [toggle] and [isActive] know.  Other strings
    are outside this model. *)
Inductive name :=
| tileGrid
| spriteBoxes
| paletteRegions
| scrollSplit
| nametableSeam.

(** The [_active] flags and what the overlay elements show.
    [spriteLayerEl] is [None] when the viewport has no sprite layer, and
    otherwise tells whether that layer carries the class
    [debug-sprite-labels].  A palette block holds the colour last written
    as its background. *)
Record t := mk {
  activeTileGrid : bool;
  activeSpriteBoxes : bool;
  activePaletteRegions : bool;
  activeScrollSplit : bool;
  activeNametableSeam : bool;
  tileGridDisplay : string;
  spriteLayerEl : option bool;
  paletteRegionsDisplay : string;
  paletteBlocks : list (option string);
  scrollSplitDisplay : string;
  scrollSplitTop : option Z;
  ntSeamVDisplay : string;
  ntSeamVLeft : option Z;
  ntSeamHDisplay : string;
  ntSeamHTop : option Z
}.

(** [new DebugOverlay(viewport)]. *)
Definition new (hasSpriteLayer : bool) : t :=
  mk false false false false false
     "none" (if hasSpriteLayer then Some false else None)
     "none" (replicate 240 None) "none" None "none" None "none" None.

Definition paletteColors : list string :=
  ["rgba(255, 0, 0, 0.15)"; "rgba(0, 255, 0, 0.15)";
   "rgba(0, 128, 255, 0.15)"; "rgba(255, 255, 0, 0.15)"]%string.

(** [isActive(name)]. *)
Definition isActive (ov : t) (n : name) : bool :=
  match n with
  | tileGrid => activeTileGrid ov
  | spriteBoxes => activeSpriteBoxes ov
  | paletteRegions => activePaletteRegions ov
  | scrollSplit => activeScrollSplit ov
  | nametableSeam => activeNametableSeam ov
  end.

Definition shown (on : bool) : string := if on then "" else "none".

(** [toggle(name)]: the overlay after the call and the returned flag. *)
Definition toggle (ov : t) (n : name) : t * bool :=
  let on := negb (isActive ov n) in
  (match n with
   | tileGrid =>
       mk on (activeSpriteBoxes ov) (activePaletteRegions ov) (activeScrollSplit ov)
          (activeNametableSeam ov) (shown on) (spriteLayerEl ov)
          (paletteRegionsDisplay ov) (paletteBlocks ov) (scrollSplitDisplay ov)
          (scrollSplitTop ov) (ntSeamVDisplay ov) (ntSeamVLeft ov)
          (ntSeamHDisplay ov) (ntSeamHTop ov)
   | spriteBoxes =>
       mk (activeTileGrid ov) on (activePaletteRegions ov) (activeScrollSplit ov)
          (activeNametableSeam ov) (tileGridDisplay ov)
          (match spriteLayerEl ov with Some _ => Some on | None => None end)
          (paletteRegionsDisplay ov) (paletteBlocks ov) (scrollSplitDisplay ov)
          (scrollSplitTop ov) (ntSeamVDisplay ov) (ntSeamVLeft ov)
          (ntSeamHDisplay ov) (ntSeamHTop ov)
   | paletteRegions =>
       mk (activeTileGrid ov) (activeSpriteBoxes ov) on (activeScrollSplit ov)
          (activeNametableSeam ov) (tileGridDisplay ov) (spriteLayerEl ov)
          (shown on) (paletteBlocks ov) (scrollSplitDisplay ov)
          (scrollSplitTop ov) (ntSeamVDisplay ov) (ntSeamVLeft ov)
          (ntSeamHDisplay ov) (ntSeamHTop ov)
   | scrollSplit =>
       mk (activeTileGrid ov) (activeSpriteBoxes ov) (activePaletteRegions ov) on
          (activeNametableSeam ov) (tileGridDisplay ov) (spriteLayerEl ov)
          (paletteRegionsDisplay ov) (paletteBlocks ov) (shown on)
          (scrollSplitTop ov) (ntSeamVDisplay ov) (ntSeamVLeft ov)
          (ntSeamHDisplay ov) (ntSeamHTop ov)
   | nametableSeam =>
       mk (activeTileGrid ov) (activeSpriteBoxes ov) (activePaletteRegions ov)
          (activeScrollSplit ov) on (tileGridDisplay ov) (spriteLayerEl ov)
          (paletteRegionsDisplay ov) (paletteBlocks ov) (scrollSplitDisplay ov)
          (scrollSplitTop ov) (shown on) (ntSeamVLeft ov)
          (shown on) (ntSeamHTop ov)
   end, on).

(** [arr[i]] on an array of numbers, for any integer index. *)
Definition get_attrib (attrib : list Z) (i : Z) : Z :=
  if i <? 0 then 0 else nth (Z.to_nat i) attrib 0.

(** The palette group [_updatePaletteRegions] computes for the 16x16
    block in column [col], row [row].  [Math.floor(a / b)] is [a / b] and
    [%] is [Z.rem]. *)
Definition blockGroup (ppuState : PPUState.t) (row col : Z) : Z :=
  let pixX := col * 16 + scrollX (PPUState.scroll ppuState) in
  let pixY := row * 16 + scrollY (PPUState.scroll ppuState) in
  let tileCol := pixX / 8 in
  let tileRow := pixY / 8 in
  let ntX := Z.rem (tileCol / 32) 2 in
  let ntY := Z.rem (tileRow / 30) 2 in
  let logicalNT := ntY * 2 + ntX in
  let localCol := Z.rem tileCol 32 in
  let localRow := Z.rem tileRow 30 in
  let nt :=
    physicalNT ← (if logicalNT <? 0 then None
                  else PPUState.mirrorMap ppuState !! Z.to_nat logicalNT);
    if physicalNT <? 0 then None
    else mjoin (PPUState.nameTables ppuState !! Z.to_nat physicalNT) in
  match nt with
  | Some nt =>
      let tileIdx := localRow * 32 + localCol in
      Z.land (get_attrib (NameTable.attrib nt) tileIdx) 3
  | None => 0
  end.

(** [_updatePaletteRegions(ppuState)]. *)
Definition updatePaletteRegions (ov : t) (ppuState : PPUState.t) : t :=
  let blocks :=
    fold_left
      (fun blocks row =>
         fold_left
           (fun blocks col =>
              let palGroup := blockGroup ppuState (Z.of_nat row) (Z.of_nat col) in
              <[(row * 16 + col)%nat := paletteColors !! Z.to_nat palGroup]> blocks)
           (seq 0 16) blocks)
      (seq 0 15) (paletteBlocks ov) in
  mk (activeTileGrid ov) (activeSpriteBoxes ov) (activePaletteRegions ov)
     (activeScrollSplit ov) (activeNametableSeam ov) (tileGridDisplay ov)
     (spriteLayerEl ov) (paletteRegionsDisplay ov) blocks (scrollSplitDisplay ov)
     (scrollSplitTop ov) (ntSeamVDisplay ov) (ntSeamVLeft ov)
     (ntSeamHDisplay ov) (ntSeamHTop ov).

(** [_updateScrollSplit(ppuState)]; [spr0HitY] is the field of that name
    of the snapshot, which [PPUState.t] does not carry. *)
Definition updateScrollSplit (ov : t) (spr0HitY : Z) : t :=
  let '(display, top) :=
    if (0 <? spr0HitY) && (spr0HitY <? 240) then (""%string, Some spr0HitY)
    else ("none"%string, scrollSplitTop ov) in
  mk (activeTileGrid ov) (activeSpriteBoxes ov) (activePaletteRegions ov)
     (activeScrollSplit ov) (activeNametableSeam ov) (tileGridDisplay ov)
     (spriteLayerEl ov) (paletteRegionsDisplay ov) (paletteBlocks ov) display top
     (ntSeamVDisplay ov) (ntSeamVLeft ov) (ntSeamHDisplay ov) (ntSeamHTop ov).

(** [_updateNametableSeam(ppuState)]. *)
Definition updateNametableSeam (ov : t) (ppuState : PPUState.t) : t :=
  let sx := scrollX (PPUState.scroll ppuState) in
  let sy := scrollY (PPUState.scroll ppuState) in
  let seamX := 256 - Z.rem sx 256 in
  let '(vDisplay, vLeft) :=
    if (0 <? seamX) && (seamX <? 256) && (0 <? sx) then (""%string, Some seamX)
    else ("none"%string, ntSeamVLeft ov) in
  let seamY := 240 - Z.rem sy 240 in
  let '(hDisplay, hTop) :=
    if (0 <? seamY) && (seamY <? 240) && (0 <? sy) then (""%string, Some seamY)
    else ("none"%string, ntSeamHTop ov) in
  mk (activeTileGrid ov) (activeSpriteBoxes ov) (activePaletteRegions ov)
     (activeScrollSplit ov) (activeNametableSeam ov) (tileGridDisplay ov)
     (spriteLayerEl ov) (paletteRegionsDisplay ov) (paletteBlocks ov)
     (scrollSplitDisplay ov) (scrollSplitTop ov) vDisplay vLeft hDisplay hTop.

(** [update(ppuState)]. *)
Definition update (ov : t) (ppuState : PPUState.t) (spr0HitY : Z) : t :=
  let ov := if activePaletteRegions ov then updatePaletteRegions ov ppuState else ov in
  let ov := if activeScrollSplit ov then updateScrollSplit ov spr0HitY else ov in
  if activeNametableSeam ov then updateNametableSeam ov ppuState else ov.

(** [window.nesDebug.toggleAll()] of the page script, on the overlay. *)
Definition toggleAll (ov : t) : t :=
  let names := [tileGrid; spriteBoxes; paletteRegions; scrollSplit; nametableSeam] in
  let anyActive := existsb (isActive ov) names in
  fold_left
    (fun ov n => if Bool.eqb (isActive ov n) anyActive then (toggle ov n).1 else ov)
    names ov.

End DebugOverlay.

(** What a user or the frame loop does to the overlays. *)
Inductive overlayAction :=
| Toggle (n : DebugOverlay.name)
| ToggleAll
| Frame (ppuState : PPUState.t) (spr0HitY : Z).

Definition overlayStep (ov : DebugOverlay.t) (a : overlayAction) : DebugOverlay.t :=
  match a with
  | Toggle n => (DebugOverlay.toggle ov n).1
  | ToggleAll => DebugOverlay.toggleAll ov
  | Frame ppuState y => DebugOverlay.update ov ppuState y
  end.

Definition overlayRun (hasSpriteLayer : bool) (acts : list overlayAction)
  : DebugOverlay.t :=
  fold_left overlayStep acts (DebugOverlay.new hasSpriteLayer).

(** An overlay that is off is not displayed; the two overlays without
    per-frame data are displayed exactly when they are on. *)
Definition overlaysConsistent (ov : DebugOverlay.t) : Prop :=
  DebugOverlay.tileGridDisplay ov
  = DebugOverlay.shown (DebugOverlay.activeTileGrid ov)
  ∧ DebugOverlay.paletteRegionsDisplay ov
    = DebugOverlay.shown (DebugOverlay.activePaletteRegions ov)
  ∧ (∀ b, DebugOverlay.spriteLayerEl ov = Some b →
          b = DebugOverlay.activeSpriteBoxes ov)
  ∧ (DebugOverlay.activeScrollSplit ov = false →
     DebugOverlay.scrollSplitDisplay ov = "none"%string)
  ∧ (DebugOverlay.activeNametableSeam ov = false →
     DebugOverlay.ntSeamVDisplay ov = "none"%string
     ∧ DebugOverlay.ntSeamHDisplay ov = "none"%string).
(** Every attribute entry of every present nametable is a multiple of 4,
    as the palette offsets 0, 4, 8 and 12 are. *)
Definition attribsAligned (ppuState : PPUState.t) : bool :=
  forallb (fun o => match o with
                    | Some nt => forallb (fun a => a mod 4 =? 0) (NameTable.attrib nt)
                    | None => true
                    end)
          (PPUState.nameTables ppuState).
(** [demoFrame] with a black backdrop: only background palette entry 0
    differs. *)
Definition demoFrameBlack : PPUState.t :=
  PPUState.mk zeroPalette zeroPalette [Some countingTable; None; None; None]
    [0; 0; 0; 0] stripedTiles (replicate 64 flippedSprite)
    (Scroll.mk 6 0 0 0 1 0) 0 0 0 true true
    (Some (extractCHRBankSignature stripedTiles)).

(** * Properties *)

(** ** Arithmetic of the bit operations *)

Lemma land_15_mod (z : Z) : Z.land z 15 = z mod 16.
Proof. change 15 with (Z.ones 4). rewrite Z.land_ones by lia. reflexivity. Qed.

Lemma shiftr_4_div (z : Z) : Z.shiftr z 4 = z / 16.
Proof. rewrite Z.shiftr_div_pow2 by lia. reflexivity. Qed.

Lemma shiftr_2_div (z : Z) : Z.shiftr z 2 = z / 4.
Proof. rewrite Z.shiftr_div_pow2 by lia. reflexivity. Qed.

Lemma tileOffset_byte (i : Z) :
  0 <= i < 256 → TileCache.tileOffset i = (i mod 16 * 8, i / 16 * 8).
Proof.
  intros Hi. unfold TileCache.tileOffset.
  rewrite !land_15_mod, shiftr_4_div.
  rewrite (Z.mod_small (i / 16)); [reflexivity|].
  split; [apply Z.div_pos; lia | apply Z.div_lt_upper_bound; lia].
Qed.

Lemma tileOffset_inj (i j : Z) :
  0 <= i < 256 → 0 <= j < 256 →
  TileCache.tileOffset i = TileCache.tileOffset j → i = j.
Proof.
  intros Hi Hj. rewrite !tileOffset_byte by assumption.
  intros [= Hc Hr].
  rewrite (Z.div_mod i 16), (Z.div_mod j 16) by lia. lia.
Qed.

Lemma tileOffset_surj (c r : Z) :
  0 <= c < 16 → 0 <= r < 16 →
  TileCache.tileOffset (r * 16 + c) = (c * 8, r * 8).
Proof.
  intros Hc Hr. rewrite tileOffset_byte by lia.
  replace ((r * 16 + c) mod 16) with c.
  2:{ rewrite Z.add_comm, Z.mod_add by lia. rewrite Z.mod_small; lia. }
  replace ((r * 16 + c) / 16) with r; [reflexivity|].
  rewrite Z.add_comm, Z.div_add by lia. rewrite Z.div_small; lia.
Qed.

Lemma allTilePositions_NoDup : NoDup allTilePositions.
Proof. apply (bool_decide_unpack _). vm_compute. exact I. Qed.

Lemma getTilePosition_inj (i j : Z) :
  0 <= i < 256 → 0 <= j < 256 →
  TileCache.getTilePosition i = TileCache.getTilePosition j → i = j.
Proof.
  intros Hi Hj Heq.
  assert (Hl : ∀ k : Z, 0 <= k < 256 →
    allTilePositions !! Z.to_nat k = Some (TileCache.getTilePosition k)).
  { intros k Hk. unfold allTilePositions.
    rewrite list_lookup_fmap, lookup_seq_lt by lia. simpl.
    rewrite Z2Nat.id by lia. reflexivity. }
  pose proof (Hl i Hi) as Li. pose proof (Hl j Hj) as Lj.
  rewrite Heq in Li.
  pose proof (NoDup_lookup _ _ _ _ allTilePositions_NoDup Li Lj).
  lia.
Qed.

(** C5. [getTilePosition] sends a tile index to the pixel offset
    ((index mod 16) * 8, (index div 16) * 8), printed as a CSS
    background-position; over the indices 0..255 the mapping is one-to-one
    and reaches each of the 256 offsets (8c, 8r) with c, r in 0..15 of the
    128x128 sheet; indices 0, 15, 16 and 255 go to (0,0), (120,0), (0,8)
    and (120,120). *)
Theorem getTilePosition_bijection :
  (∀ i, 0 <= i < 256 →
     TileCache.tileOffset i = (i mod 16 * 8, i / 16 * 8)
     ∧ TileCache.getTilePosition i
       = ("-" ++ JS.show (i mod 16 * 8) ++ "px -" ++ JS.show (i / 16 * 8) ++ "px")%string)
  ∧ (∀ i j, 0 <= i < 256 → 0 <= j < 256 →
       TileCache.tileOffset i = TileCache.tileOffset j → i = j)
  ∧ (∀ i j, 0 <= i < 256 → 0 <= j < 256 →
       TileCache.getTilePosition i = TileCache.getTilePosition j → i = j)
  ∧ (∀ c r, 0 <= c < 16 → 0 <= r < 16 →
       ∃ i, 0 <= i < 256 ∧ TileCache.tileOffset i = (c * 8, r * 8))
  ∧ (∀ i, 0 <= i < 256 →
       ∃ c r, 0 <= c < 16 ∧ 0 <= r < 16
              ∧ TileCache.tileOffset i = (c * 8, r * 8))
  ∧ TileCache.tileOffset 0 = (0, 0)
  ∧ TileCache.tileOffset 15 = (120, 0)
  ∧ TileCache.tileOffset 16 = (0, 8)
  ∧ TileCache.tileOffset 255 = (120, 120)
  ∧ TileCache.getTilePosition 0 = "-0px -0px"%string
  ∧ TileCache.getTilePosition 15 = "-120px -0px"%string
  ∧ TileCache.getTilePosition 16 = "-0px -8px"%string
  ∧ TileCache.getTilePosition 255 = "-120px -120px"%string.
Proof.
  split.
  { intros i Hi. split; [apply tileOffset_byte; assumption|].
    unfold TileCache.getTilePosition.
    rewrite tileOffset_byte by assumption. reflexivity. }
  split; [exact tileOffset_inj|].
  split; [exact getTilePosition_inj|].
  split.
  { intros c r Hc Hr. exists (r * 16 + c). split; [lia|].
    apply tileOffset_surj; assumption. }
  split.
  { intros i Hi. exists (i mod 16), (i / 16).
    split; [apply Z.mod_pos_bound; lia|].
    split; [split; [apply Z.div_pos; lia | apply Z.div_lt_upper_bound; lia]|].
    apply tileOffset_byte; assumption. }
  repeat split; vm_compute; reflexivity.
Qed.

(** ** The tile checksum *)

(** C3 (the code departs from it). Two 64-pixel arrays with colour indices
    in 0..3 that differ in pixel 0 only and have the same [_hashPix]
    checksum: the product [h * 0x01000193] is a double, which drops low
    bits once it exceeds 2^53, so the step is not one-to-one. *)
Theorem hashPix_single_pixel_collision :
  length pixA = 64%nat ∧ length pixB = 64%nat
  ∧ Forall (fun c => 0 <= c <= 3) pixA ∧ Forall (fun c => 0 <= c <= 3) pixB
  ∧ (∀ j, nth j pixA 0 ≠ nth j pixB 0 ↔ j = 0%nat)
  ∧ TileCache.hashPix pixA = 4220004920
  ∧ TileCache.hashPix pixB = 4220004920.
Proof.
  split; [reflexivity|]. split; [reflexivity|].
  split; [apply (bool_decide_unpack _); vm_compute; exact I|].
  split; [apply (bool_decide_unpack _); vm_compute; exact I|].
  split.
  { intros [|j]; simpl; [split; [reflexivity | discriminate]|].
    split; [intros H; exfalso; apply H; reflexivity | discriminate]. }
  split; vm_compute; reflexivity.
Qed.

(** The same two arrays under exact multiplication modulo 2^32. *)
Lemma hashPix_spec_pixA_pixB :
  TileCache.hashPix_spec pixA = 873921544
  ∧ TileCache.hashPix_spec pixB = 2794796025.
Proof. split; vm_compute; reflexivity. Qed.

(** The first product that the double cannot hold: iteration 0 on [pixA]. *)
Lemma hashStep_inexact :
  JS.xor 2166136261 0 * 16777619 = -35716716020605665
  ∧ JS.mul (JS.xor 2166136261 0) 16777619 = -35716716020605664.
Proof. split; vm_compute; reflexivity. Qed.

(** *** The checksum as specified is sensitive to one pixel *)

Lemma to_int32_mod (z : Z) : JS.to_int32 z mod 2 ^ 32 = z mod 2 ^ 32.
Proof.
  unfold JS.to_int32. destruct (z mod 2 ^ 32 <? 2 ^ 31).
  - apply Z.mod_mod; lia.
  - rewrite <- (Z.mod_mod z (2 ^ 32)) at 2 by lia.
    replace (z mod 2 ^ 32 - 2 ^ 32) with (z mod 2 ^ 32 + (-1) * 2 ^ 32) by lia.
    apply Z.mod_add; lia.
Qed.

Lemma to_int32_eq_iff (a b : Z) :
  JS.to_int32 a = JS.to_int32 b ↔ a mod 2 ^ 32 = b mod 2 ^ 32.
Proof.
  split.
  - intros H. rewrite <- (to_int32_mod a), <- (to_int32_mod b). congruence.
  - intros H. unfold JS.to_int32. rewrite H. reflexivity.
Qed.

Lemma lxor_mod (a b : Z) :
  Z.lxor a b mod 2 ^ 32 = Z.lxor (a mod 2 ^ 32) (b mod 2 ^ 32).
Proof.
  rewrite <- !Z.land_ones by lia.
  apply Z.bits_inj'. intros n Hn.
  rewrite Z.lxor_spec, !Z.land_spec, Z.lxor_spec.
  destruct (Z.testbit (Z.ones 32) n); rewrite ?andb_true_r, ?andb_false_r; reflexivity.
Qed.

Lemma lxor_cancel_l (a b c : Z) : Z.lxor a b = Z.lxor a c → b = c.
Proof.
  intros H.
  rewrite <- (Z.lxor_0_l b), <- (Z.lxor_0_l c), <- (Z.lxor_nilpotent a).
  rewrite !Z.lxor_assoc. congruence.
Qed.

Lemma lxor_cancel_r (a b c : Z) : Z.lxor b a = Z.lxor c a → b = c.
Proof. rewrite !(Z.lxor_comm _ a). apply lxor_cancel_l. Qed.

Lemma mul_prime_mod_inj (x y : Z) :
  (x * 16777619) mod 2 ^ 32 = (y * 16777619) mod 2 ^ 32 →
  x mod 2 ^ 32 = y mod 2 ^ 32.
Proof.
  intros H.
  assert (E : ∀ u, u mod 2 ^ 32 = ((u * 16777619) mod 2 ^ 32 * 899433627) mod 2 ^ 32).
  { intros u. rewrite Z.mul_mod_idemp_l by lia.
    rewrite <- Z.mul_assoc.
    rewrite <- Z.mul_mod_idemp_r by lia.
    change ((16777619 * 899433627) mod 2 ^ 32) with 1.
    rewrite Z.mul_1_r. reflexivity. }
  rewrite (E x), (E y), H. reflexivity.
Qed.

Lemma hashStep_spec_mod (h p : Z) :
  TileCache.hashStep_spec h p mod 2 ^ 32
  = (Z.lxor (h mod 2 ^ 32) (p mod 2 ^ 32) * 16777619) mod 2 ^ 32.
Proof.
  unfold TileCache.hashStep_spec, JS.xor.
  rewrite to_int32_mod.
  rewrite <- Z.mul_mod_idemp_l by lia.
  rewrite lxor_mod, !to_int32_mod.
  rewrite <- (Z.mul_mod_idemp_l (Z.lxor _ _)) by lia.
  rewrite lxor_mod, !Z.mod_mod by lia. reflexivity.
Qed.

Lemma hashStep_spec_inj_h (h h' p : Z) :
  h mod 2 ^ 32 ≠ h' mod 2 ^ 32 →
  TileCache.hashStep_spec h p mod 2 ^ 32
  ≠ TileCache.hashStep_spec h' p mod 2 ^ 32.
Proof.
  intros Hne Heq. apply Hne.
  rewrite !hashStep_spec_mod in Heq.
  apply mul_prime_mod_inj in Heq.
  rewrite !lxor_mod, !Z.mod_mod in Heq by lia.
  exact (lxor_cancel_r _ _ _ Heq).
Qed.

Lemma hashStep_spec_inj_p (h p p' : Z) :
  p mod 2 ^ 32 ≠ p' mod 2 ^ 32 →
  TileCache.hashStep_spec h p mod 2 ^ 32
  ≠ TileCache.hashStep_spec h p' mod 2 ^ 32.
Proof.
  intros Hne Heq. apply Hne.
  rewrite !hashStep_spec_mod in Heq.
  apply mul_prime_mod_inj in Heq.
  rewrite !lxor_mod, !Z.mod_mod in Heq by lia.
  exact (lxor_cancel_l _ _ _ Heq).
Qed.

Lemma hashAfter_S (step : Z → Z → Z) (pix : list Z) (n : nat) :
  TileCache.hashAfter step pix (S n) = step (TileCache.hashAfter step pix n) (JS.get_num pix n).
Proof. unfold TileCache.hashAfter. rewrite seq_S, fold_left_app. reflexivity. Qed.

Lemma hashAfter_agree (step : Z → Z → Z) (a b : list Z) (n : nat) :
  (∀ j, (j < n)%nat → nth j a 0 = nth j b 0) →
  TileCache.hashAfter step a n = TileCache.hashAfter step b n.
Proof.
  induction n as [|n IH]; intros Hag; [reflexivity|].
  rewrite !hashAfter_S, IH by (intros; apply Hag; lia).
  unfold JS.get_num. rewrite (Hag n) by lia. reflexivity.
Qed.

Lemma hashAfter_spec_differs (a b : list Z) (k n : nat) :
  (k < n)%nat →
  (∀ j, (j < n)%nat → j ≠ k → nth j a 0 = nth j b 0) →
  nth k a 0 mod 2 ^ 32 ≠ nth k b 0 mod 2 ^ 32 →
  TileCache.hashAfter TileCache.hashStep_spec a n mod 2 ^ 32
  ≠ TileCache.hashAfter TileCache.hashStep_spec b n mod 2 ^ 32.
Proof.
  intros Hk Hag Hne. induction n as [|n IH]; [lia|].
  rewrite !hashAfter_S. destruct (decide (k = n)) as [->|Hkn].
  - rewrite (hashAfter_agree _ a b n) by (intros; apply Hag; lia).
    apply hashStep_spec_inj_p. exact Hne.
  - unfold JS.get_num. rewrite (Hag n) by lia.
    apply hashStep_spec_inj_h. apply IH; [lia|].
    intros; apply Hag; lia.
Qed.

(** With the multiplication exact modulo 2^32, two pixel arrays that
    differ (as 32-bit values) in exactly one of the 64 positions never have
    the same checksum. *)
Lemma hashPix_spec_sensitive (a b : list Z) (k : nat) :
  (k < 64)%nat →
  (∀ j, (j < 64)%nat → j ≠ k → nth j a 0 = nth j b 0) →
  nth k a 0 mod 2 ^ 32 ≠ nth k b 0 mod 2 ^ 32 →
  TileCache.hashPix_spec a ≠ TileCache.hashPix_spec b.
Proof.
  intros Hk Hag Hne.
  unfold TileCache.hashPix_spec, JS.to_uint32.
  exact (hashAfter_spec_differs a b k 64 Hk Hag Hne).
Qed.


(** ** The palette tracker *)

Section PaletteLoop.

Variables (bgPalette sprPalette : list Z) (pm : PaletteManager.t).

(** The tracker after the first [n] iterations of the loop of [update]. *)
Let loop (n : nat) : PaletteManager.t :=
  fold_left (PaletteManager.step bgPalette sprPalette) (seq 0 n)
            (PaletteManager.clearDirty pm).

Lemma stepBg_prevBg (i : nat) (p : PaletteManager.t) :
  PaletteManager.prevBg (PaletteManager.stepBg bgPalette i p)
  = <[i := PaletteManager.entry bgPalette i]> (PaletteManager.prevBg p).
Proof.
  unfold PaletteManager.stepBg.
  destruct (PaletteManager.entry bgPalette i =? _) eqn:E; simpl; [|reflexivity].
  apply Z.eqb_eq in E. rewrite E. unfold PaletteManager.entry.
  destruct (decide (i < length (PaletteManager.prevBg p))%nat) as [Hlt|Hge].
  - rewrite list_insert_id; [reflexivity|].
    destruct (lookup_lt_is_Some_2 _ _ Hlt) as [x Hx].
    rewrite (nth_lookup_Some _ _ 0 _ Hx). exact Hx.
  - rewrite list_insert_ge by lia. reflexivity.
Qed.

Lemma stepSpr_prevSpr (i : nat) (p : PaletteManager.t) :
  PaletteManager.prevSpr (PaletteManager.stepSpr sprPalette i p)
  = <[i := PaletteManager.entry sprPalette i]> (PaletteManager.prevSpr p).
Proof.
  unfold PaletteManager.stepSpr.
  destruct (PaletteManager.entry sprPalette i =? _) eqn:E; simpl; [|reflexivity].
  apply Z.eqb_eq in E. rewrite E. unfold PaletteManager.entry.
  destruct (decide (i < length (PaletteManager.prevSpr p))%nat) as [Hlt|Hge].
  - rewrite list_insert_id; [reflexivity|].
    destruct (lookup_lt_is_Some_2 _ _ Hlt) as [x Hx].
    rewrite (nth_lookup_Some _ _ 0 _ Hx). exact Hx.
  - rewrite list_insert_ge by lia. reflexivity.
Qed.

Lemma stepBg_dirty (i : nat) (p : PaletteManager.t) :
  PaletteManager.dirtyBgGroups (PaletteManager.stepBg bgPalette i p)
  = (if negb (PaletteManager.entry bgPalette i
              =? PaletteManager.entry (PaletteManager.prevBg p) i)
     then {[Z.shiftr (Z.of_nat i) 2]} else ∅)
    ∪ PaletteManager.dirtyBgGroups p.
Proof.
  unfold PaletteManager.stepBg. destruct (negb _); simpl; [reflexivity|].
  rewrite union_empty_l_L. reflexivity.
Qed.

Lemma stepSpr_dirty (i : nat) (p : PaletteManager.t) :
  PaletteManager.dirtySprGroups (PaletteManager.stepSpr sprPalette i p)
  = (if negb (PaletteManager.entry sprPalette i
              =? PaletteManager.entry (PaletteManager.prevSpr p) i)
     then {[Z.shiftr (Z.of_nat i) 2]} else ∅)
    ∪ PaletteManager.dirtySprGroups p.
Proof.
  unfold PaletteManager.stepSpr. destruct (negb _); simpl; [reflexivity|].
  rewrite union_empty_l_L. reflexivity.
Qed.

Lemma stepSpr_bg (i : nat) (p : PaletteManager.t) :
  PaletteManager.prevBg (PaletteManager.stepSpr sprPalette i p)
  = PaletteManager.prevBg p
  ∧ PaletteManager.dirtyBgGroups (PaletteManager.stepSpr sprPalette i p)
    = PaletteManager.dirtyBgGroups p.
Proof. unfold PaletteManager.stepSpr. destruct (negb _); split; reflexivity. Qed.

Lemma stepBg_spr (i : nat) (p : PaletteManager.t) :
  PaletteManager.prevSpr (PaletteManager.stepBg bgPalette i p)
  = PaletteManager.prevSpr p
  ∧ PaletteManager.dirtySprGroups (PaletteManager.stepBg bgPalette i p)
    = PaletteManager.dirtySprGroups p.
Proof. unfold PaletteManager.stepBg. destruct (negb _); split; reflexivity. Qed.

Lemma loop_S (n : nat) :
  loop (S n) = PaletteManager.step bgPalette sprPalette (loop n) n.
Proof. unfold loop. rewrite seq_S, fold_left_app. reflexivity. Qed.

(** The loop invariant on the background half. *)
Lemma loop_bg (n : nat) :
  length (PaletteManager.prevBg (loop n)) = length (PaletteManager.prevBg pm)
  ∧ (∀ j, nth j (PaletteManager.prevBg (loop n)) 0
          = if decide (j < n ∧ j < length (PaletteManager.prevBg pm))%nat
            then PaletteManager.entry bgPalette j
            else nth j (PaletteManager.prevBg pm) 0)
  ∧ (∀ g, g ∈ PaletteManager.dirtyBgGroups (loop n)
          ↔ ∃ i, (i < n)%nat ∧ g = Z.shiftr (Z.of_nat i) 2
                 ∧ PaletteManager.entry bgPalette i
                   ≠ PaletteManager.entry (PaletteManager.prevBg pm) i).
Proof.
  induction n as [|n (IHlen & IHnth & IHd)].
  - split; [reflexivity|]. split.
    + intros j. destruct (decide _) as [[H _]|_]; [lia | reflexivity].
    + intros g. simpl. split; [set_solver | intros (i & Hi & _); lia].
  - rewrite loop_S. unfold PaletteManager.step.
    destruct (stepSpr_bg n (PaletteManager.stepBg bgPalette n (loop n))) as [-> ->].
    rewrite stepBg_prevBg, stepBg_dirty.
    split; [rewrite length_insert; exact IHlen|]. split.
    + intros j. destruct (decide (j = n)) as [->|Hjn].
      * destruct (decide (n < length (PaletteManager.prevBg pm))%nat) as [Hlt|Hge].
        -- rewrite nth_lookup, list_lookup_insert_eq by lia. simpl.
           destruct (decide _) as [_|Hn]; [reflexivity | lia].
        -- rewrite list_insert_ge by lia. rewrite IHnth.
           destruct (decide _) as [H|_]; [lia|].
           destruct (decide _) as [H|_]; [lia | reflexivity].
      * rewrite nth_lookup, list_lookup_insert_ne, <- nth_lookup by lia.
        rewrite IHnth.
        destruct (decide _) as [H|H]; destruct (decide _) as [H'|H'];
          try reflexivity; lia.
    + intros g. unfold PaletteManager.entry at 2. rewrite IHnth.
      destruct (decide _) as [H|_]; [lia|].
      fold (PaletteManager.entry (PaletteManager.prevBg pm) n).
      rewrite elem_of_union, IHd. split.
      * intros [Hg|(i & Hi & Hgi & Hne)].
        -- destruct (PaletteManager.entry bgPalette n =? _) eqn:E; simpl in Hg;
             [set_solver|].
           apply elem_of_singleton in Hg. apply Z.eqb_neq in E.
           exists n. split; [lia|]. split; assumption.
        -- exists i. split; [lia|]. split; assumption.
      * intros (i & Hi & Hgi & Hne).
        destruct (decide (i = n)) as [->|Hin].
        -- left. apply Z.eqb_neq in Hne. rewrite Hne. simpl.
           apply elem_of_singleton. exact Hgi.
        -- right. exists i. split; [lia|]. split; assumption.
Qed.

(** The loop invariant on the sprite half. *)
Lemma loop_spr (n : nat) :
  length (PaletteManager.prevSpr (loop n)) = length (PaletteManager.prevSpr pm)
  ∧ (∀ j, nth j (PaletteManager.prevSpr (loop n)) 0
          = if decide (j < n ∧ j < length (PaletteManager.prevSpr pm))%nat
            then PaletteManager.entry sprPalette j
            else nth j (PaletteManager.prevSpr pm) 0)
  ∧ (∀ g, g ∈ PaletteManager.dirtySprGroups (loop n)
          ↔ ∃ i, (i < n)%nat ∧ g = Z.shiftr (Z.of_nat i) 2
                 ∧ PaletteManager.entry sprPalette i
                   ≠ PaletteManager.entry (PaletteManager.prevSpr pm) i).
Proof.
  induction n as [|n (IHlen & IHnth & IHd)].
  - split; [reflexivity|]. split.
    + intros j. destruct (decide _) as [[H _]|_]; [lia | reflexivity].
    + intros g. simpl. split; [set_solver | intros (i & Hi & _); lia].
  - rewrite loop_S. unfold PaletteManager.step.
    rewrite stepSpr_prevSpr, stepSpr_dirty.
    destruct (stepBg_spr n (loop n)) as [-> ->].
    split; [rewrite length_insert; exact IHlen|]. split.
    + intros j. destruct (decide (j = n)) as [->|Hjn].
      * destruct (decide (n < length (PaletteManager.prevSpr pm))%nat) as [Hlt|Hge].
        -- rewrite nth_lookup, list_lookup_insert_eq by lia. simpl.
           destruct (decide _) as [_|Hn]; [reflexivity | lia].
        -- rewrite list_insert_ge by lia. rewrite IHnth.
           destruct (decide _) as [H|_]; [lia|].
           destruct (decide _) as [H|_]; [lia | reflexivity].
      * rewrite nth_lookup, list_lookup_insert_ne, <- nth_lookup by lia.
        rewrite IHnth.
        destruct (decide _) as [H|H]; destruct (decide _) as [H'|H'];
          try reflexivity; lia.
    + intros g. unfold PaletteManager.entry at 2. rewrite IHnth.
      destruct (decide _) as [H|_]; [lia|].
      fold (PaletteManager.entry (PaletteManager.prevSpr pm) n).
      rewrite elem_of_union, IHd. split.
      * intros [Hg|(i & Hi & Hgi & Hne)].
        -- destruct (PaletteManager.entry sprPalette n =? _) eqn:E; simpl in Hg;
             [set_solver|].
           apply elem_of_singleton in Hg. apply Z.eqb_neq in E.
           exists n. split; [lia|]. split; assumption.
        -- exists i. split; [lia|]. split; assumption.
      * intros (i & Hi & Hgi & Hne).
        destruct (decide (i = n)) as [->|Hin].
        -- left. apply Z.eqb_neq in Hne. rewrite Hne. simpl.
           apply elem_of_singleton. exact Hgi.
        -- right. exists i. split; [lia|]. split; assumption.
Qed.

End PaletteLoop.

(** What [update] leaves in the tracker, entry by entry and group by
    group. *)
Lemma PaletteManager_update_spec (pm : PaletteManager.t) (bg spr : list Z) :
  let pm' := (PaletteManager.update pm bg spr).1 in
  (length (PaletteManager.prevBg pm') = length (PaletteManager.prevBg pm)
   ∧ length (PaletteManager.prevSpr pm') = length (PaletteManager.prevSpr pm))
  ∧ (∀ j, (j < 16)%nat → (j < length (PaletteManager.prevBg pm))%nat →
          nth j (PaletteManager.prevBg pm') 0 = nth j bg 0)
  ∧ (∀ j, (j < 16)%nat → (j < length (PaletteManager.prevSpr pm))%nat →
          nth j (PaletteManager.prevSpr pm') 0 = nth j spr 0)
  ∧ (∀ g, g ∈ PaletteManager.dirtyBgGroups pm'
          ↔ ∃ i, (i < 16)%nat ∧ g = Z.shiftr (Z.of_nat i) 2
                 ∧ nth i bg 0 ≠ nth i (PaletteManager.prevBg pm) 0)
  ∧ (∀ g, g ∈ PaletteManager.dirtySprGroups pm'
          ↔ ∃ i, (i < 16)%nat ∧ g = Z.shiftr (Z.of_nat i) 2
                 ∧ nth i spr 0 ≠ nth i (PaletteManager.prevSpr pm) 0).
Proof.
  simpl.
  destruct (loop_bg bg spr pm 16) as (Lb & Nb & Db).
  destruct (loop_spr bg spr pm 16) as (Ls & Ns & Ds).
  split; [split; assumption|]. split.
  { intros j H1 H2. rewrite Nb. destruct (decide _) as [_|H]; [reflexivity | lia]. }
  split.
  { intros j H1 H2. rewrite Ns. destruct (decide _) as [_|H]; [reflexivity | lia]. }
  split; assumption.
Qed.

Lemma size_flag_empty (s : gset Z) : s = ∅ → negb (size s =? 0)%nat = false.
Proof. intros ->. reflexivity. Qed.

Lemma size_flag_nonempty (s : gset Z) (x : Z) :
  x ∈ s → negb (size s =? 0)%nat = true.
Proof.
  intros Hx. destruct (size s) eqn:E; [|reflexivity].
  apply size_empty_inv in E. set_solver.
Qed.

Lemma shiftr2_of_nat (i : nat) : Z.shiftr (Z.of_nat i) 2 = Z.of_nat (i / 4).
Proof. rewrite shiftr_2_div. rewrite Nat2Z.inj_div. reflexivity. Qed.

(** A call with palettes equal to the stored ones reports nothing. *)
Lemma PaletteManager_update_unchanged (pm : PaletteManager.t) (bg spr : list Z) :
  (∀ i, (i < 16)%nat → nth i bg 0 = nth i (PaletteManager.prevBg pm) 0) →
  (∀ i, (i < 16)%nat → nth i spr 0 = nth i (PaletteManager.prevSpr pm) 0) →
  PaletteManager.dirtyBgGroups (PaletteManager.update pm bg spr).1 = ∅
  ∧ PaletteManager.dirtySprGroups (PaletteManager.update pm bg spr).1 = ∅
  ∧ (PaletteManager.update pm bg spr).2 = false.
Proof.
  intros Hb Hs.
  destruct (PaletteManager_update_spec pm bg spr) as (_ & _ & _ & Db & Ds).
  assert (Eb : PaletteManager.dirtyBgGroups (PaletteManager.update pm bg spr).1 = ∅).
  { apply set_eq. intros g. rewrite Db. split; [|set_solver].
    intros (i & Hi & _ & Hne). exfalso. apply Hne, Hb, Hi. }
  assert (Es : PaletteManager.dirtySprGroups (PaletteManager.update pm bg spr).1 = ∅).
  { apply set_eq. intros g. rewrite Ds. split; [|set_solver].
    intros (i & Hi & _ & Hne). exfalso. apply Hne, Hs, Hi. }
  split; [exact Eb|]. split; [exact Es|].
  unfold PaletteManager.update in *. cbn [fst snd] in *.
  rewrite (size_flag_empty _ Eb), (size_flag_empty _ Es). reflexivity.
Qed.

(** Calling [update] twice in a row with the same 16-entry palettes: the
    second call finds nothing dirty. *)
Lemma PaletteManager_update_twice (pm : PaletteManager.t) (bg spr : list Z) :
  length (PaletteManager.prevBg pm) = 16%nat →
  length (PaletteManager.prevSpr pm) = 16%nat →
  let pm1 := (PaletteManager.update pm bg spr).1 in
  PaletteManager.dirtyBgGroups (PaletteManager.update pm1 bg spr).1 = ∅
  ∧ PaletteManager.dirtySprGroups (PaletteManager.update pm1 bg spr).1 = ∅.
Proof.
  intros Lb Ls pm1.
  destruct (PaletteManager_update_spec pm bg spr) as (_ & Nb & Ns & _ & _).
  destruct (PaletteManager_update_unchanged pm1 bg spr) as (Eb & Es & _).
  - intros i Hi. symmetry. apply Nb; lia.
  - intros i Hi. symmetry. apply Ns; lia.
  - split; assumption.
Qed.

(** C4. Whatever the tracker has stored in its 16-entry baselines (and
    whatever its dirty sets held before the call), a call whose 16-entry
    palettes differ from the stored ones at exactly entry [i] of one role
    marks group [i div 4] and nothing else in that role's set, leaves the
    other role's set empty, and returns true. *)
Theorem PaletteManager_single_entry_change
    (pm : PaletteManager.t) (bg spr : list Z) (i : nat) :
  length (PaletteManager.prevBg pm) = 16%nat →
  length (PaletteManager.prevSpr pm) = 16%nat →
  length bg = 16%nat →
  length spr = 16%nat →
  (i < 16)%nat →
  ((∀ j, (j < 16)%nat →
      (nth j bg 0 ≠ nth j (PaletteManager.prevBg pm) 0 ↔ j = i)) →
   (∀ j, (j < 16)%nat → nth j spr 0 = nth j (PaletteManager.prevSpr pm) 0) →
   PaletteManager.dirtyBgGroups (PaletteManager.update pm bg spr).1
   = {[Z.of_nat (i / 4)]}
   ∧ PaletteManager.dirtySprGroups (PaletteManager.update pm bg spr).1 = ∅
   ∧ (PaletteManager.update pm bg spr).2 = true)
  ∧ ((∀ j, (j < 16)%nat →
        (nth j spr 0 ≠ nth j (PaletteManager.prevSpr pm) 0 ↔ j = i)) →
     (∀ j, (j < 16)%nat → nth j bg 0 = nth j (PaletteManager.prevBg pm) 0) →
     PaletteManager.dirtySprGroups (PaletteManager.update pm bg spr).1
     = {[Z.of_nat (i / 4)]}
     ∧ PaletteManager.dirtyBgGroups (PaletteManager.update pm bg spr).1 = ∅
     ∧ (PaletteManager.update pm bg spr).2 = true).
Proof.
  intros _ _ _ _ Hi.
  destruct (PaletteManager_update_spec pm bg spr) as (_ & _ & _ & Db & Ds).
  split.
  - intros Hone Hsame.
    assert (Eb : PaletteManager.dirtyBgGroups (PaletteManager.update pm bg spr).1
                 = {[Z.of_nat (i / 4)]}).
    { apply set_eq. intros g. rewrite Db, elem_of_singleton. split.
      - intros (k & Hk & -> & Hne). apply Hone in Hne; [|exact Hk]. subst k.
        apply shiftr2_of_nat.
      - intros ->. exists i. split; [exact Hi|].
        split; [symmetry; apply shiftr2_of_nat|]. apply Hone; [exact Hi | reflexivity]. }
    assert (Es : PaletteManager.dirtySprGroups (PaletteManager.update pm bg spr).1 = ∅).
    { apply set_eq. intros g. rewrite Ds. split; [|set_solver].
      intros (k & Hk & _ & Hne). exfalso. apply Hne, Hsame, Hk. }
    split; [exact Eb|]. split; [exact Es|].
    unfold PaletteManager.update in *. cbn [fst snd] in *.
    rewrite (size_flag_nonempty _ (Z.of_nat (i / 4))); [reflexivity|].
    rewrite Eb. apply elem_of_singleton. reflexivity.
  - intros Hone Hsame.
    assert (Es : PaletteManager.dirtySprGroups (PaletteManager.update pm bg spr).1
                 = {[Z.of_nat (i / 4)]}).
    { apply set_eq. intros g. rewrite Ds, elem_of_singleton. split.
      - intros (k & Hk & -> & Hne). apply Hone in Hne; [|exact Hk]. subst k.
        apply shiftr2_of_nat.
      - intros ->. exists i. split; [exact Hi|].
        split; [symmetry; apply shiftr2_of_nat|]. apply Hone; [exact Hi | reflexivity]. }
    assert (Eb : PaletteManager.dirtyBgGroups (PaletteManager.update pm bg spr).1 = ∅).
    { apply set_eq. intros g. rewrite Db. split; [|set_solver].
      intros (k & Hk & _ & Hne). exfalso. apply Hne, Hsame, Hk. }
    split; [exact Es|]. split; [exact Eb|].
    unfold PaletteManager.update in *. cbn [fst snd] in *.
    rewrite (size_flag_nonempty (PaletteManager.dirtySprGroups _) (Z.of_nat (i / 4))).
    + apply orb_true_r.
    + rewrite Es. apply elem_of_singleton. reflexivity.
Qed.

(** C4, at a tracker whose dirty sets are full from the previous frame:
    changing background entry 5 leaves exactly group 1 in the background
    set and nothing in the sprite set. *)
Lemma PaletteManager_single_entry_change_witness :
  PaletteManager.dirtyBgGroups
    (PaletteManager.update trackerAfterZero entry5Palette zeroPalette).1
  = {[Z.of_nat (5 / 4)]}
  ∧ PaletteManager.dirtySprGroups
      (PaletteManager.update trackerAfterZero entry5Palette zeroPalette).1 = ∅
  ∧ (PaletteManager.update trackerAfterZero entry5Palette zeroPalette).2 = true.
Proof.
  apply (proj1 (PaletteManager_single_entry_change
                  trackerAfterZero entry5Palette zeroPalette 5
                  eq_refl eq_refl eq_refl eq_refl ltac:(lia))).
  - intros j Hj.
    do 16 (destruct j as [|j];
           [vm_compute; split; [intros H; try reflexivity; exfalso; apply H; reflexivity
                               | intros H; try discriminate H; discriminate] |]).
    lia.
  - intros j Hj.
    do 16 (destruct j as [|j]; [vm_compute; reflexivity|]). lia.
Defined.

(** ** The background layer *)

Lemma forQuadrants_lookup (body : nat → BGLayer.quadrant → BGLayer.quadrant)
    (qs : list BGLayer.quadrant) (q : nat) :
  (q < 4)%nat → BGLayer.forQuadrants body qs !! q = body q <$> (qs !! q).
Proof.
  intros Hq. unfold BGLayer.forQuadrants. simpl.
  destruct q as [|[|[|[|q]]]]; [| | | |lia];
    repeat first [ rewrite list_lookup_alter_eq
                 | rewrite list_lookup_alter_ne by lia ];
    reflexivity.
Qed.

Lemma forQuadrants_length (body : nat → BGLayer.quadrant → BGLayer.quadrant)
    (qs : list BGLayer.quadrant) :
  length (BGLayer.forQuadrants body qs) = length qs.
Proof. unfold BGLayer.forQuadrants. simpl. rewrite !length_alter. reflexivity. Qed.

Lemma quadrantPosition_spec (q : nat) (sx sy : Z) :
  BGLayer.quadrantPosition q sx sy
  = (let c := Z.of_nat q mod 2 in
     if c * 256 + 256 <=? sx then c * 256 + 512 else c * 256,
     let r := Z.of_nat q / 2 in
     if r * 240 + 240 <=? sy then r * 240 + 480 else r * 240).
Proof.
  unfold BGLayer.quadrantPosition.
  assert (Hc : Z.land (Z.of_nat q) 1 = Z.of_nat q mod 2).
  { change 1 with (Z.ones 1). rewrite Z.land_ones by lia. reflexivity. }
  assert (Hr : Z.shiftr (Z.of_nat q) 1 = Z.of_nat q / 2).
  { rewrite Z.shiftr_div_pow2 by lia. reflexivity. }
  rewrite Hc, Hr. reflexivity.
Qed.

(** C6 as stated fails when the background is hidden: after a shown frame
    scrolled to x = 304 put quadrant 0 at x = 512, a hidden frame with the
    scroll back at 0 leaves it there, where the placement rule gives 0. *)
Lemma BGLayer_hidden_frame_keeps_old_position :
  let bg1 := BGLayer.update BGLayer.new scrolledFrame TileCache.new in
  let bg2 := BGLayer.update bg1 hiddenFrame TileCache.new in
  let sx := scrollX (PPUState.scroll hiddenFrame) in
  let c := Z.of_nat 0 mod 2 in
  sx = 0
  ∧ (if c * 256 + 256 <=? sx then c * 256 + 512 else c * 256) = 0
  ∧ BGLayer.left <$> (BGLayer.quadrants bg2 !! 0%nat) = Some (Some 512)
  ∧ BGLayer.left <$> (BGLayer.quadrants bg2 !! 0%nat)
    ≠ Some (Some (if c * 256 + 256 <=? sx then c * 256 + 512 else c * 256)).
Proof. vm_compute. repeat split; try reflexivity. discriminate. Qed.

(** C6, amended. For a snapshot whose present nametables are well formed
    (so that [_updateQuadrant] does not throw before the quadrants are
    placed): when the background is shown, [update] puts quadrant [q]
    (column c = q mod 2, row r = q div 2) at x = c*256 + 512 if
    c*256 + 256 <= scrollX and at x = c*256 otherwise, and at
    y = r*240 + 480 if r*240 + 240 <= scrollY and at y = r*240 otherwise,
    and the layer still has its four quadrants; when the background is
    hidden, [update] leaves the quadrants as they were. *)
Theorem BGLayer_update_places_quadrants
    (bg : BGLayer.t) (ppuState : PPUState.t) (tileCache : TileCache.t) (q : nat) :
  nameTablesOk ppuState = true →
  length (BGLayer.quadrants bg) = 4%nat →
  (q < 4)%nat →
  let sx := scrollX (PPUState.scroll ppuState) in
  let sy := scrollY (PPUState.scroll ppuState) in
  let c := Z.of_nat q mod 2 in
  let r := Z.of_nat q / 2 in
  let bg' := BGLayer.update bg ppuState tileCache in
  (PPUState.bgVisible ppuState = true →
     length (BGLayer.quadrants bg') = 4%nat
     ∧ BGLayer.left <$> (BGLayer.quadrants bg' !! q)
       = Some (Some (if c * 256 + 256 <=? sx then c * 256 + 512 else c * 256))
     ∧ BGLayer.top <$> (BGLayer.quadrants bg' !! q)
       = Some (Some (if r * 240 + 240 <=? sy then r * 240 + 480 else r * 240)))
  ∧ (PPUState.bgVisible ppuState = false →
       BGLayer.quadrants bg' = BGLayer.quadrants bg).
Proof.
  intros _ Hlen Hq sx sy c r bg'. subst bg'. unfold BGLayer.update. split.
  - intros Hv. rewrite Hv. cbn [negb BGLayer.quadrants].
    rewrite !forQuadrants_length. split; [exact Hlen|].
    rewrite !forQuadrants_lookup by exact Hq.
    destruct (lookup_lt_is_Some_2 (BGLayer.quadrants bg) q ltac:(lia)) as [qd Hqd].
    rewrite Hqd. cbn [fmap option_fmap option_map].
    unfold BGLayer.placeQuadrant. rewrite quadrantPosition_spec.
    cbn [BGLayer.left BGLayer.top]. split; reflexivity.
  - intros Hv. rewrite Hv. reflexivity.
Qed.

(** C6 amended, on the scrolled frame: quadrant 0 goes to x = 512. *)
Lemma BGLayer_update_places_quadrants_witness :
  BGLayer.left
    <$> (BGLayer.quadrants (BGLayer.update BGLayer.new scrolledFrame TileCache.new)
         !! 0%nat)
  = Some (Some 512).
Proof.
  exact (proj1 (proj2 (proj1
    (BGLayer_update_places_quadrants BGLayer.new scrolledFrame TileCache.new 0
       eq_refl eq_refl ltac:(lia)) eq_refl))).
Defined.

Lemma refreshQuadrant_absent (ppuState : PPUState.t) (tileCache : TileCache.t)
    (q : nat) (qd : BGLayer.quadrant) :
  BGLayer.lookupNT ppuState q = None →
  BGLayer.refreshQuadrant ppuState tileCache q qd = qd.
Proof. intros H. unfold BGLayer.refreshQuadrant. rewrite H. reflexivity. Qed.

(** C8. When the mirror map sends quadrant [q] to a physical nametable
    that is null, [update] leaves the quadrant's 960 cells (class, tile
    position, inspection attributes), both baselines and its recorded
    physical nametable as they were; nothing is raised. *)
Theorem BGLayer_absent_nametable_untouched
    (bg : BGLayer.t) (ppuState : PPUState.t) (tileCache : TileCache.t)
    (q : nat) (physNT : Z) :
  (q < 4)%nat →
  PPUState.mirrorMap ppuState !! q = Some physNT →
  0 <= physNT →
  PPUState.nameTables ppuState !! Z.to_nat physNT = Some None →
  let bg' := BGLayer.update bg ppuState tileCache in
  BGLayer.cells <$> (BGLayer.quadrants bg' !! q)
  = BGLayer.cells <$> (BGLayer.quadrants bg !! q)
  ∧ BGLayer.prevTile <$> (BGLayer.quadrants bg' !! q)
    = BGLayer.prevTile <$> (BGLayer.quadrants bg !! q)
  ∧ BGLayer.prevAttrib <$> (BGLayer.quadrants bg' !! q)
    = BGLayer.prevAttrib <$> (BGLayer.quadrants bg !! q)
  ∧ BGLayer.physNt <$> (BGLayer.quadrants bg' !! q)
    = BGLayer.physNt <$> (BGLayer.quadrants bg !! q).
Proof.
  intros Hq Hm Hp Hn bg'. subst bg'. unfold BGLayer.update.
  destruct (PPUState.bgVisible ppuState); cbn [negb BGLayer.quadrants];
    [|repeat split; reflexivity].
  assert (Hno : BGLayer.lookupNT ppuState q = None).
  { unfold BGLayer.lookupNT. rewrite Hm. cbn [mbind option_bind].
    destruct (physNT <? 0) eqn:E; [reflexivity|].
    rewrite Hn. reflexivity. }
  rewrite !forQuadrants_lookup by exact Hq.
  destruct (BGLayer.quadrants bg !! q) as [qd|]; [|repeat split; reflexivity].
  cbn [fmap option_fmap option_map].
  rewrite (refreshQuadrant_absent _ _ _ _ Hno).
  unfold BGLayer.placeQuadrant.
  destruct (BGLayer.quadrantPosition q _ _). repeat split; reflexivity.
Qed.

(** C8, on a frame whose four nametables are all null, for quadrant 2. *)
Lemma BGLayer_absent_nametable_untouched_witness :
  BGLayer.cells
    <$> (BGLayer.quadrants (BGLayer.update BGLayer.new scrolledFrame TileCache.new)
         !! 2%nat)
  = BGLayer.cells <$> (BGLayer.quadrants BGLayer.new !! 2%nat).
Proof.
  exact (proj1
    (BGLayer_absent_nametable_untouched BGLayer.new scrolledFrame TileCache.new
       2 2 ltac:(lia) eq_refl ltac:(lia) eq_refl)).
Defined.

(** ** The sprite layer *)

Lemma land_1_mod (z : Z) : Z.land z 1 = z mod 2.
Proof. change 1 with (Z.ones 1). rewrite Z.land_ones by lia. reflexivity. Qed.

Lemma land_254_clearbit (z : Z) : 0 <= z < 256 → Z.land z 254 = Z.clearbit z 0.
Proof.
  intros Hz. apply Z.bits_inj'. intros n Hn.
  rewrite Z.land_spec, Z.clearbit_eqb.
  destruct (decide (n = 0)) as [->|Hn0]; [cbn; rewrite !andb_false_r; reflexivity|].
  destruct (decide (n < 8)) as [Hlt|Hge].
  - assert (Hc : n = 1 ∨ n = 2 ∨ n = 3 ∨ n = 4 ∨ n = 5 ∨ n = 6 ∨ n = 7) by lia.
    destruct Hc as [->|[->|[->|[->|[->|[->| ->]]]]]]; cbn; rewrite !andb_true_r; reflexivity.
  - assert (Hb : Z.testbit z n = false).
    { destruct (decide (z = 0)) as [->|Hz0]; [apply Z.bits_0|].
      apply Z.bits_above_log2; [lia|].
      assert (Z.log2 z < 8) by (apply Z.log2_lt_pow2; lia). lia. }
    rewrite Hb. reflexivity.
Qed.

(** The stylesheet publishes sheet [4 + 4*bank + g] under the class
    [spr-b<bank>-pal-<g>] that the sprite halves carry, and that sheet is
    the one the third and second loops of [update] draw from tile
    [256 * bank] on. *)
Lemma updateStylesheet_sprite_rule (tc : TileCache.t) (bank g : nat)
    (url : TileCache.ImageData) :
  (bank < 2)%nat → (g < 4)%nat →
  nth (4 + 4 * bank + g) (TileCache.blobUrls tc) None = Some url →
  ((".spr-b" ++ JS.show (Z.of_nat bank) ++ "-pal-" ++ JS.show (Z.of_nat g))%string,
   url)
  ∈ TileCache.styleEl (TileCache.updateStylesheet tc).
Proof.
  intros Hb Hg Hurl.
  unfold TileCache.updateStylesheet, TileCache.rules.
  cbn [TileCache.styleEl flat_map seq Nat.add].
  destruct bank as [|[|bank]]; [| |lia];
    (destruct g as [|[|[|[|g]]]]; [| | | |lia]);
    cbn [Nat.add Nat.mul] in Hurl; rewrite Hurl, <- !app_assoc;
    repeat (apply elem_of_app;
            first [ left; apply list_elem_of_singleton; reflexivity | right ]).
Qed.

(** C9. In 8x16 mode, for a sprite with a byte-sized tile index: the bank
    starts at tile 256 when the index is odd and at tile 0 when it is even,
    whatever the global sprite base, and both halves take the class of that
    bank's sheets ([spr-b1-...] or [spr-b0-...]); the top tile is the index
    with bit 0 cleared and the bottom tile is that plus 1; a vertically
    flipped sprite shows the bottom tile in the top half and the top tile
    in the bottom half. *)
Theorem SpriteLayer_update8x16_bank_and_halves
    (d : SpriteLayer.div) (spr : Sprite.t) (palGroup scaleX scaleY sprBase : Z) :
  0 <= Sprite.tileIndex spr < 256 →
  let bankIdx := if Z.odd (Sprite.tileIndex spr) then 1 else 0 in
  let topTile := Z.clearbit (Sprite.tileIndex spr) 0 in
  let botTile := topTile + 1 in
  let d' := SpriteLayer.update8x16 d spr palGroup scaleX scaleY sprBase in
  SpriteLayer.bank8x16 spr = 256 * bankIdx
  ∧ SpriteLayer.halfClassName (SpriteLayer.topDiv d')
    = ("sprite-half spr-b" ++ JS.show bankIdx ++ "-pal-" ++ JS.show palGroup)%string
  ∧ SpriteLayer.halfClassName (SpriteLayer.botDiv d')
    = ("sprite-half spr-b" ++ JS.show bankIdx ++ "-pal-" ++ JS.show palGroup)%string
  ∧ SpriteLayer.halfBackgroundPosition (SpriteLayer.topDiv d')
    = TileCache.getTilePosition (if Sprite.flipV spr then botTile else topTile)
  ∧ SpriteLayer.halfBackgroundPosition (SpriteLayer.botDiv d')
    = TileCache.getTilePosition (if Sprite.flipV spr then topTile else botTile).
Proof.
  intros Hti bankIdx topTile botTile d'.
  subst d' botTile topTile bankIdx.
  unfold SpriteLayer.update8x16, SpriteLayer.bank8x16.
  rewrite land_254_clearbit by exact Hti.
  rewrite land_1_mod, Zmod_odd.
  destruct (Z.odd (Sprite.tileIndex spr)); destruct (Sprite.flipV spr);
    cbn; repeat split; reflexivity.
Qed.

(** C9 on tile index 0x47 (odd), flipped vertically: the top half shows
    tile 0x47, the bottom tile of the pair. *)
Lemma SpriteLayer_update8x16_bank_and_halves_witness :
  SpriteLayer.halfBackgroundPosition
    (SpriteLayer.topDiv
       (SpriteLayer.update8x16 freshSpriteDiv flippedSprite 2 1 (-1) 0))
  = TileCache.getTilePosition (Z.clearbit 71 0 + 1).
Proof.
  exact (proj1 (proj2 (proj2 (proj2
    (SpriteLayer_update8x16_bank_and_halves freshSpriteDiv flippedSprite 2 1 (-1) 0
       ltac:(simpl; lia)))))).
Defined.

(** *** How [update] reaches [_update8x16] *)

Section SpriteLoop.

Variables (sprites : list Sprite.t) (f : Sprite.t → SpriteLayer.div → SpriteLayer.div).

(** The loop of [update] over the sprites [a .. a+n-1]. *)
Let loop (a n : nat) (divs : list SpriteLayer.div) : option (list SpriteLayer.div) :=
  forM (seq a n)
    (fun i divs => spr ← sprites !! i; Some (alter (f spr) i divs)) divs.

Lemma sprite_loop_lookup (n a : nat) (divs divs' : list SpriteLayer.div) (j : nat) :
  loop a n divs = Some divs' →
  divs' !! j
  = if decide (a <= j < a + n)%nat
    then match sprites !! j with
         | Some spr => f spr <$> divs !! j
         | None => divs !! j
         end
    else divs !! j.
Proof.
  unfold loop. revert a divs. induction n as [|n IH]; intros a divs; cbn [seq forM].
  - intros [= <-]. destruct (decide _); [lia | reflexivity].
  - destruct (sprites !! a) as [spr|] eqn:Ea; cbn [mbind option_bind];
      [|discriminate].
    intros H. rewrite (IH _ _ H).
    destruct (decide (S a <= j < S a + n)%nat) as [Hin|Hout].
    + destruct (decide (a <= j < a + S n)%nat); [|lia].
      rewrite list_lookup_alter_ne by lia. reflexivity.
    + destruct (decide (j = a)) as [->|Hne].
      * destruct (decide (a <= a < a + S n)%nat); [|lia].
        rewrite Ea, list_lookup_alter_eq. reflexivity.
      * destruct (decide (a <= j < a + S n)%nat); [lia|].
        rewrite list_lookup_alter_ne by lia. reflexivity.
Qed.

End SpriteLoop.

(** In 8x16 mode with the sprite layer shown, the div of every sprite whose
    adjusted Y lies in the viewport is the result of [_update8x16] on that
    sprite, with the palette group and scales [update] derives. *)
Lemma SpriteLayer_update_reaches_update8x16
    (sl sl' : SpriteLayer.t) (ppuState : PPUState.t) (i : nat) (spr : Sprite.t) :
  PPUState.spritesVisible ppuState = true →
  PPUState.spriteSize ppuState = 1 →
  SpriteLayer.update sl ppuState = Some sl' →
  (i < 64)%nat →
  PPUState.sprites ppuState !! i = Some spr →
  Sprite.y spr + 1 < 240 →
  0 < Sprite.y spr + 1 + 16 →
  (i < length (SpriteLayer.spriteDivs sl))%nat →
  ∃ d,
    SpriteLayer.spriteDivs sl' !! i
    = Some (SpriteLayer.update8x16 d spr
              (Z.shiftr (JS.to_int32 (Sprite.palette spr)) 2)
              (if Sprite.flipH spr then -1 else 1)
              (if Sprite.flipV spr then -1 else 1)
              (PPUState.sprPatternBase ppuState)).
Proof.
  intros Hv Hsize Hu Hi Hs Hy1 Hy2 Hlen. unfold SpriteLayer.update in Hu.
  rewrite Hv, Hsize in Hu. cbn [negb] in Hu. change (1 =? 1) with true in Hu.
  match type of Hu with
  | forM _ _ ?divs0 ≫= _ = _ =>
      assert (Hl0 : (i < length divs0)%nat);
      [|destruct (forM (seq 0 64) _ divs0) as [divs|] eqn:E; [|discriminate];
        pose proof (sprite_loop_lookup (PPUState.sprites ppuState)
                      (SpriteLayer.updateSprite true (PPUState.sprPatternBase ppuState))
                      64 0 divs0 divs i E) as Hl]
  end.
  { destruct (negb _); [|exact Hlen].
    unfold SpriteLayer.updateSpriteMode. cbn [seq fold_left].
    rewrite !length_alter. exact Hlen. }
  cbn in Hu. injection Hu as <-. cbn [SpriteLayer.spriteDivs].
  destruct (decide _) as [_|Hn]; [|lia]. rewrite Hs in Hl.
  match type of Hl with
  | _ = _ <$> ?l !! i => destruct (lookup_lt_is_Some_2 l i Hl0) as [d0 Hd0]
  end.
  rewrite Hd0 in Hl. cbn [fmap option_fmap option_map] in Hl.
  unfold SpriteLayer.updateSprite in Hl.
  replace (240 <=? Sprite.y spr + 1) with false in Hl
    by (symmetry; apply Z.leb_gt; lia).
  replace (Sprite.y spr + 1 + 16 <=? 0) with false in Hl
    by (symmetry; apply Z.leb_gt; lia).
  cbn [orb] in Hl. eexists. exact Hl.
Qed.

(** ** The tile-sheet cache: rendering never fails on drawable tiles *)

Lemma forM_total {S : Type} (idx : list nat) (body : nat → S → option S) (s : S) :
  (∀ i s', i ∈ idx → is_Some (body i s')) → is_Some (forM idx body s).
Proof.
  revert s. induction idx as [|i idx IH]; intros s Hb; simpl; [eauto|].
  destruct (Hb i s) as [s' Hs']; [left|]. rewrite Hs'.
  apply IH. intros j s'' Hj. apply Hb. right. exact Hj.
Qed.

Lemma tileOk_pixel (t : Tile) (n : nat) :
  tileOk t = true → (n < 64)%nat → ∃ c, pix t !! n = Some c ∧ 0 <= c <= 3.
Proof.
  unfold tileOk. intros H Hn. apply andb_true_iff in H as [Hlen Hall].
  apply Nat.eqb_eq in Hlen.
  destruct (lookup_lt_is_Some_2 (pix t) n ltac:(lia)) as [c Hc].
  exists c. split; [exact Hc|].
  rewrite forallb_forall in Hall.
  assert (Hin : In c (pix t)).
  { apply list_elem_of_In. eapply list_elem_of_lookup_2. exact Hc. }
  specialize (Hall c Hin). apply andb_true_iff in Hall as [H0 H3].
  apply Z.leb_le in H0. apply Z.leb_le in H3. lia.
Qed.

Lemma get_slot_ok (ptTile : list slot) (z : Z) (t : Tile) :
  tilesOk ptTile = true → get_slot ptTile z = Obj t → tileOk t = true.
Proof.
  unfold tilesOk, get_slot. intros Hall Hs.
  destruct (z <? 0); [discriminate|].
  destruct (nth_in_or_default (Z.to_nat z) ptTile Undefined) as [Hin|Hd];
    [|congruence].
  rewrite forallb_forall in Hall. specialize (Hall _ Hin).
  rewrite Hs in Hall. exact Hall.
Qed.

Lemma renderPixel_total (rgb : list (Z * Z * Z)) (tile : Tile) (baseX baseY : Z)
    (py px : nat) (data : TileCache.ImageData) :
  tileOk tile = true → length rgb = 4%nat → (py < 8)%nat → (px < 8)%nat →
  is_Some (TileCache.renderPixel rgb tile baseX baseY py px data).
Proof.
  intros Hok Hrgb Hpy Hpx. unfold TileCache.renderPixel.
  destruct (tileOk_pixel tile (Nat.shiftl py 3 + px) Hok) as (c & Hc & Hr).
  { rewrite Nat.shiftl_mul_pow2. simpl. lia. }
  rewrite Hc. cbn [mbind option_bind].
  destruct (c =? 0); [eauto|].
  destruct (c <? 0) eqn:E; [apply Z.ltb_lt in E; lia|].
  destruct (lookup_lt_is_Some_2 rgb (Z.to_nat c) ltac:(lia)) as [[[r g] b] Hl].
  rewrite Hl. cbn. eauto.
Qed.

Lemma renderTile_total (rgb : list (Z * Z * Z)) (ptTile : list slot) (base : Z)
    (tileIdx : nat) (data : TileCache.ImageData) :
  tilesOk ptTile = true → length rgb = 4%nat →
  is_Some (TileCache.renderTile rgb ptTile base tileIdx data).
Proof.
  intros Hok Hrgb. unfold TileCache.renderTile.
  destruct (get_slot ptTile (base + Z.of_nat tileIdx)) as [| |tile] eqn:E; [eauto..|].
  pose proof (get_slot_ok _ _ _ Hok E) as Ht.
  apply forM_total. intros py d1 Hpy.
  apply forM_total. intros px d2 Hpx.
  apply elem_of_seq in Hpy. apply elem_of_seq in Hpx.
  apply renderPixel_total; [assumption | assumption | lia | lia].
Qed.

Lemma renderSheet_total (tc : TileCache.t) (sheetIndex : Z) (ptTile : list slot)
    (base : Z) (colors : list Z) :
  tilesOk ptTile = true → length colors = 4%nat →
  is_Some (TileCache.renderSheet tc sheetIndex ptTile base colors).
Proof.
  intros Hok Hc. unfold TileCache.renderSheet.
  destruct (forM_total (seq 0 256)
              (TileCache.renderTile (map TileCache.parseColor colors) ptTile base)
              (replicate (128 * 128 * 4) 0)) as [data Hd].
  { intros i d _. apply renderTile_total; [exact Hok|].
    rewrite length_map. exact Hc. }
  rewrite Hd. cbn. eauto.
Qed.

Lemma renderSheet_inv (tc tc' : TileCache.t) (sheetIndex : Z) (ptTile : list slot)
    (base : Z) (colors : list Z) :
  TileCache.renderSheet tc sheetIndex ptTile base colors = Some tc' →
  baselines tc' = baselines tc
  ∧ TileCache.updatedSheets tc' = TileCache.updatedSheets tc.
Proof.
  unfold TileCache.renderSheet. destruct (forM _ _ _) as [data|]; [|discriminate].
  cbn. intros [= <-]. split; reflexivity.
Qed.

Lemma group_length (colors : list Z) (n : Z) :
  length (PaletteManager.group colors n) = 4%nat.
Proof. reflexivity. Qed.

(** ** The tile-sheet cache: the regeneration loops *)

Lemma regen_inv (cond : bool) (sheetIndex : Z) (ptTile : list slot) (base : Z)
    (colors : list Z) (tc tc' : TileCache.t) (log log' : list TileCache.event) :
  TileCache.regen cond sheetIndex ptTile base colors (tc, log) = Some (tc', log') →
  baselines tc' = baselines tc
  ∧ log' = log ++ (if cond then [TileCache.RenderSheet sheetIndex base] else [])
  ∧ TileCache.updatedSheets tc'
    = (if cond then {[sheetIndex]} else ∅) ∪ TileCache.updatedSheets tc.
Proof.
  unfold TileCache.regen. destruct cond.
  - cbn [fst snd].
    destruct (TileCache.renderSheet tc sheetIndex ptTile base colors) as [tc1|] eqn:E;
      [|discriminate].
    cbn. intros [= <- <-]. apply renderSheet_inv in E as [Eb Eu].
    split; [exact Eb|]. split; [reflexivity|].
    cbn. rewrite Eu. reflexivity.
  - intros [= <- <-]. split; [reflexivity|]. split; [rewrite app_nil_r; reflexivity|].
    rewrite union_empty_l_L. reflexivity.
Qed.

Lemma regen_total (cond : bool) (sheetIndex : Z) (ptTile : list slot) (base : Z)
    (colors : list Z) (st : TileCache.t * list TileCache.event) :
  tilesOk ptTile = true → length colors = 4%nat →
  is_Some (TileCache.regen cond sheetIndex ptTile base colors st).
Proof.
  intros Hok Hc. unfold TileCache.regen. destruct cond; [|eauto].
  destruct (renderSheet_total st.1 sheetIndex ptTile base colors Hok Hc) as [tc1 E].
  rewrite E. cbn. eauto.
Qed.

Section RegenLoop.

Variables (cond : nat → bool) (sheetOf : nat → Z) (ptTile : list slot) (base : Z)
          (colorsOf : nat → list Z).

(** The renders one loop makes over the palette groups [gs]. *)
Let renders (gs : list nat) : list TileCache.event :=
  flat_map (fun g => if cond g then [TileCache.RenderSheet (sheetOf g) base] else [])
           gs.

Lemma regen_loop_inv (gs : list nat) (tc tc' : TileCache.t)
    (log log' : list TileCache.event) :
  forM gs (fun g => TileCache.regen (cond g) (sheetOf g) ptTile base (colorsOf g))
       (tc, log) = Some (tc', log') →
  baselines tc' = baselines tc
  ∧ log' = log ++ renders gs
  ∧ TileCache.updatedSheets tc'
    = list_to_set (renderedSheets (renders gs)) ∪ TileCache.updatedSheets tc.
Proof.
  revert tc log. induction gs as [|g gs IH]; intros tc log; simpl.
  - intros [= <- <-]. split; [reflexivity|]. split; [rewrite app_nil_r; reflexivity|].
    rewrite union_empty_l_L. reflexivity.
  - destruct (TileCache.regen (cond g) (sheetOf g) ptTile base (colorsOf g) (tc, log))
      as [[tc1 log1]|] eqn:E; [|discriminate].
    intros Hrest. apply regen_inv in E as (Eb & El & Eu).
    apply IH in Hrest as (Rb & Rl & Ru).
    split; [congruence|]. split.
    + rewrite Rl, El, <- app_assoc. reflexivity.
    + rewrite Ru, Eu. unfold renderedSheets. rewrite flat_map_app.
      rewrite list_to_set_app_L.
      destruct (cond g); simpl; set_solver.
Qed.

Lemma regen_loop_total (gs : list nat) (st : TileCache.t * list TileCache.event) :
  tilesOk ptTile = true → (∀ g, length (colorsOf g) = 4%nat) →
  is_Some (forM gs
             (fun g => TileCache.regen (cond g) (sheetOf g) ptTile base (colorsOf g))
             st).
Proof.
  intros Hok Hc. apply forM_total. intros g s' _.
  apply regen_total; [exact Hok | apply Hc].
Qed.

End RegenLoop.

Lemma regenerate_inv (ptTile : list slot) (pm : PaletteManager.t) (bgBase : Z)
    (sg : TileCache.signals) (tc tc' : TileCache.t)
    (log log' : list TileCache.event) :
  TileCache.regenerate ptTile pm bgBase sg (tc, log) = Some (tc', log') →
  baselines tc' = baselines tc
  ∧ log' = log ++ expectedRenders pm bgBase sg
  ∧ TileCache.updatedSheets tc'
    = list_to_set (renderedSheets (expectedRenders pm bgBase sg))
      ∪ TileCache.updatedSheets tc.
Proof.
  unfold TileCache.regenerate. intros H.
  destruct (forM (seq 0 4) _ (tc, log)) as [[tc1 log1]|] eqn:E1; [|discriminate].
  cbn [mbind option_bind] in H.
  destruct (forM (seq 0 4) _ (tc1, log1)) as [[tc2 log2]|] eqn:E2; [|discriminate].
  cbn [mbind option_bind] in H.
  apply (regen_loop_inv
           (fun g => bool_decide (Z.of_nat g ∈ PaletteManager.dirtyBgGroups pm)
                     || TileCache.bgDirty sg || TileCache.bgBaseChanged sg)
           (fun g => Z.of_nat g) ptTile bgBase
           (fun g => PaletteManager.getBgPaletteGroup pm (Z.of_nat g)))
    in E1 as (B1 & L1 & U1).
  apply (regen_loop_inv
           (fun g => bool_decide (Z.of_nat g ∈ PaletteManager.dirtySprGroups pm)
                     || TileCache.spr0Dirty sg)
           (fun g => 4 + Z.of_nat g) ptTile 0
           (fun g => PaletteManager.getSprPaletteGroup pm (Z.of_nat g)))
    in E2 as (B2 & L2 & U2).
  apply (regen_loop_inv
           (fun g => bool_decide (Z.of_nat g ∈ PaletteManager.dirtySprGroups pm)
                     || TileCache.spr1Dirty sg)
           (fun g => 8 + Z.of_nat g) ptTile 256
           (fun g => PaletteManager.getSprPaletteGroup pm (Z.of_nat g)))
    in H as (B3 & L3 & U3).
  split; [congruence|]. split.
  - rewrite L3, L2, L1. unfold expectedRenders. rewrite <- !app_assoc. reflexivity.
  - rewrite U3, U2, U1. unfold expectedRenders, renderedSheets.
    rewrite !flat_map_app, !list_to_set_app_L.
    apply set_eq. intros z. rewrite !elem_of_union. tauto.
Qed.

Lemma regenerate_total (ptTile : list slot) (pm : PaletteManager.t) (bgBase : Z)
    (sg : TileCache.signals) (st : TileCache.t * list TileCache.event) :
  tilesOk ptTile = true →
  is_Some (TileCache.regenerate ptTile pm bgBase sg st).
Proof.
  intros Hok. unfold TileCache.regenerate.
  destruct (regen_loop_total
              (fun g => bool_decide (Z.of_nat g ∈ PaletteManager.dirtyBgGroups pm)
                        || TileCache.bgDirty sg || TileCache.bgBaseChanged sg)
              (fun g => Z.of_nat g) ptTile bgBase
              (fun g => PaletteManager.getBgPaletteGroup pm (Z.of_nat g))
              (seq 0 4) st Hok) as [st1 E1]; [intros; apply group_length|].
  rewrite E1. cbn [mbind option_bind].
  destruct (regen_loop_total
              (fun g => bool_decide (Z.of_nat g ∈ PaletteManager.dirtySprGroups pm)
                        || TileCache.spr0Dirty sg)
              (fun g => 4 + Z.of_nat g) ptTile 0
              (fun g => PaletteManager.getSprPaletteGroup pm (Z.of_nat g))
              (seq 0 4) st1 Hok) as [st2 E2]; [intros; apply group_length|].
  rewrite E2. cbn [mbind option_bind].
  apply regen_loop_total; [exact Hok | intros; apply group_length].
Qed.

Lemma renderedSheets_app (l1 l2 : list TileCache.event) :
  renderedSheets (l1 ++ l2) = renderedSheets l1 ++ renderedSheets l2.
Proof. unfold renderedSheets. apply flat_map_app. Qed.

(** [finish] only republishes and counts. *)
Lemma finish_spec (st : TileCache.t * list TileCache.event) :
  TileCache.updatedSheets (TileCache.finish st).1 = TileCache.updatedSheets st.1
  ∧ TileCache.tileChecksums (TileCache.finish st).1 = TileCache.tileChecksums st.1
  ∧ TileCache.prevBankRefs (TileCache.finish st).1 = TileCache.prevBankRefs st.1
  ∧ TileCache.prevBgBase (TileCache.finish st).1 = TileCache.prevBgBase st.1
  ∧ renderedSheets (TileCache.finish st).2 = renderedSheets st.2.
Proof.
  destruct st as [tc log]. unfold TileCache.finish. cbn [fst snd].
  destruct (0 <? size (TileCache.updatedSheets tc))%nat; cbn [fst snd].
  - unfold TileCache.updateStylesheet. cbn [TileCache.updatedSheets].
    destruct (size (TileCache.updatedSheets tc) =? 12)%nat; cbn;
      [destruct (_ =? 60)|]; rewrite ?renderedSheets_app, ?app_nil_r;
      repeat split; reflexivity.
  - destruct (size (TileCache.updatedSheets tc) =? 12)%nat; cbn;
      [destruct (_ =? 60)|]; rewrite ?renderedSheets_app, ?app_nil_r;
      repeat split; reflexivity.
Qed.

(** What [detect] leaves in the cache and which signals it raises. *)
Lemma detect_spec (tc : TileCache.t) (ptTile : list slot) (bgBase : Z)
    (sig : option (list jsref)) :
  ∃ sums d0 d1,
    fold_left (TileCache.chrStep ptTile) (seq 0 512)
              (TileCache.tileChecksums tc, false, false) = (sums, d0, d1)
    ∧ let d := TileCache.detect tc ptTile bgBase sig in
      TileCache.updatedSheets d.1 = ∅
      ∧ TileCache.prevBgBase d.1 = bgBase
      ∧ TileCache.tileChecksums d.1 = sums
      ∧ TileCache.prevBankRefs d.1
        = match sig with
          | Some s => TileCache.prevBankRefs (TileCache.updateBankRefs tc s)
          | None => TileCache.prevBankRefs tc
          end
      ∧ TileCache.bgBaseChanged d.2 = negb (bgBase =? TileCache.prevBgBase tc)
      ∧ TileCache.bgDirty d.2
        = match sig with
          | Some s => TileCache.checkBankDirty tc s bgBase
          | None => false
          end || (if 256 <=? bgBase then d1 else d0)
      ∧ TileCache.spr0Dirty d.2
        = match sig with
          | Some s => TileCache.checkBankDirty tc s 0
          | None => false
          end || d0
      ∧ TileCache.spr1Dirty d.2
        = match sig with
          | Some s => TileCache.checkBankDirty tc s 256
          | None => false
          end || d1.
Proof.
  destruct (fold_left (TileCache.chrStep ptTile) (seq 0 512)
              (TileCache.tileChecksums tc, false, false)) as [[sums d0] d1] eqn:E.
  exists sums, d0, d1. split; [reflexivity|].
  unfold TileCache.detect, TileCache.checkCHRDirty.
  destruct sig as [s|]; cbv beta iota zeta;
    cbn [TileCache.tileChecksums TileCache.updateBankRefs];
    rewrite E; cbv beta iota zeta; cbn [fst snd TileCache.updatedSheets
      TileCache.prevBgBase TileCache.tileChecksums TileCache.prevBankRefs
      TileCache.bgBaseChanged TileCache.bgDirty TileCache.spr0Dirty
      TileCache.spr1Dirty TileCache.updateBankRefs];
    destruct (256 <=? bgBase); repeat split; reflexivity.
Qed.

(** What a completed [update] leaves behind, in terms of the signals that
    [detect] computed. *)
Lemma update_inv (tc tc' : TileCache.t) (ptTile : list slot) (pm : PaletteManager.t)
    (bgBase sprBase : Z) (sig : option (list jsref)) (log : list TileCache.event) :
  TileCache.update tc ptTile pm bgBase sprBase sig = Some (tc', log) →
  let d := TileCache.detect tc ptTile bgBase sig in
  renderedSheets log = renderedSheets (expectedRenders pm bgBase d.2)
  ∧ TileCache.updatedSheets tc' = list_to_set (renderedSheets log)
  ∧ TileCache.tileChecksums tc' = TileCache.tileChecksums d.1
  ∧ TileCache.prevBankRefs tc' = TileCache.prevBankRefs d.1
  ∧ TileCache.prevBgBase tc' = TileCache.prevBgBase d.1.
Proof.
  intros H d. subst d. unfold TileCache.update in H.
  destruct (detect_spec tc ptTile bgBase sig) as (sums & d0 & d1 & _ & Hu & _).
  cbv zeta in Hu.
  destruct (TileCache.detect tc ptTile bgBase sig) as [tcd sg]. cbn [fst snd] in *.
  destruct (TileCache.regenerate ptTile pm bgBase sg (tcd, [])) as [[tc1 log1]|] eqn:E;
    [|discriminate].
  cbn in H. injection H as H. apply regenerate_inv in E as (B & L & U).
  destruct (finish_spec (tc1, log1)) as (F1 & F2 & F3 & F4 & F5).
  rewrite H in F1, F2, F3, F4, F5. cbn [fst snd] in *.
  unfold baselines in B. injection B as B1 B2 B3 B4.
  rewrite F5, F1, F2, F3, F4, U, Hu, L, union_empty_r_L. cbn [app].
  repeat split; assumption.
Qed.

Lemma update_total (tc : TileCache.t) (ptTile : list slot) (pm : PaletteManager.t)
    (bgBase sprBase : Z) (sig : option (list jsref)) :
  tilesOk ptTile = true →
  is_Some (TileCache.update tc ptTile pm bgBase sprBase sig).
Proof.
  intros Hok. unfold TileCache.update.
  destruct (TileCache.detect tc ptTile bgBase sig) as [tcd sg].
  destruct (regenerate_total ptTile pm bgBase sg (tcd, []) Hok) as [st E].
  rewrite E. cbn. eauto.
Qed.

(** ** The tile-sheet cache: the checksum scan *)

(** Moving the bound of "some dirty tile below [n]" from [n] to [S n]
    when tile [n] itself is clean. *)
Ltac widen_bound n :=
  split; split; intros (i & Hi & Hr & Hdi); exists i;
  (split; [|split; assumption]);
  first [lia | destruct (decide (i = n)); [congruence | lia]].

Section ChrScan.

Variables (ptTile : list slot) (sums0 : list Z).

(** The scan after its first [n] iterations. *)
Let scan (n : nat) : list Z * bool * bool :=
  fold_left (TileCache.chrStep ptTile) (seq 0 n) (sums0, false, false).

Lemma scan_S (n : nat) : scan (S n) = TileCache.chrStep ptTile (scan n) n.
Proof. unfold scan. rewrite seq_S, fold_left_app. reflexivity. Qed.

Lemma scan_inv (n : nat) :
  (n <= length sums0)%nat →
  length (scan n).1.1 = length sums0
  ∧ (∀ j, nth j (scan n).1.1 0
          = if decide (j < n)%nat then storedAfterScan ptTile sums0 j
            else nth j sums0 0)
  ∧ ((scan n).1.2 = true
     ↔ ∃ i, (i < n)%nat ∧ (i < 256)%nat ∧ tileDirty ptTile sums0 i = true)
  ∧ ((scan n).2 = true
     ↔ ∃ i, (i < n)%nat ∧ (256 <= i)%nat ∧ tileDirty ptTile sums0 i = true).
Proof.
  induction n as [|n IH]; intros Hn.
  - cbn. split; [reflexivity|]. split.
    + intros j. destruct (decide _); [lia | reflexivity].
    + split; (split; [discriminate | intros (i & Hi & _); lia]).
  - rewrite scan_S. destruct IH as (Il & In & I0 & I1); [lia|].
    destruct (scan n) as [[sums d0] d1]. cbn [fst snd] in *.
    assert (Hcur : nth n sums 0 = nth n sums0 0).
    { rewrite In. destruct (decide _); [lia | reflexivity]. }
    unfold TileCache.chrStep.
    assert (Hkeep :
      (∀ j, nth j sums 0
            = if decide (j < S n)%nat then storedAfterScan ptTile sums0 j
              else nth j sums0 0)
      ∨ ∃ t, get_slot ptTile (Z.of_nat n) = Obj t
             ∧ TileCache.hashPix (pix t) ≠ nth n sums 0).
    { destruct (get_slot ptTile (Z.of_nat n)) as [| |t] eqn:Es.
      - left. intros j. rewrite In.
        destruct (decide (j < n)%nat), (decide (j < S n)%nat); try reflexivity; try lia.
        assert (j = n) by lia. subst j. unfold storedAfterScan. rewrite Es. reflexivity.
      - left. intros j. rewrite In.
        destruct (decide (j < n)%nat), (decide (j < S n)%nat); try reflexivity; try lia.
        assert (j = n) by lia. subst j. unfold storedAfterScan. rewrite Es. reflexivity.
      - destruct (decide (TileCache.hashPix (pix t) = nth n sums 0)) as [He|Hne].
        + left. intros j. rewrite In.
          destruct (decide (j < n)%nat), (decide (j < S n)%nat);
            try reflexivity; try lia.
          assert (j = n) by lia. subst j. unfold storedAfterScan. rewrite Es.
          rewrite He, Hcur. reflexivity.
        + right. exists t. split; [reflexivity | exact Hne]. }
    assert (Hd : ∀ i, (i < S n)%nat ↔ (i < n)%nat ∨ i = n) by (intros; lia).
    destruct (get_slot ptTile (Z.of_nat n)) as [| |t] eqn:Es.
    + destruct Hkeep as [Hk|(t & Ht & _)]; [|discriminate].
      assert (Hnd : tileDirty ptTile sums0 n = false)
        by (unfold tileDirty; rewrite Es; reflexivity).
      cbn [fst snd]. split; [exact Il|]. split; [exact Hk|].
      rewrite I0, I1. widen_bound n.
    + destruct Hkeep as [Hk|(t & Ht & _)]; [|discriminate].
      assert (Hnd : tileDirty ptTile sums0 n = false)
        by (unfold tileDirty; rewrite Es; reflexivity).
      cbn [fst snd]. split; [exact Il|]. split; [exact Hk|].
      rewrite I0, I1. widen_bound n.
    + cbv zeta.
      destruct (TileCache.hashPix (pix t) =? nth n sums 0) eqn:Eh; cbn [negb].
      * apply Z.eqb_eq in Eh.
        destruct Hkeep as [Hk|(t' & Ht' & Hne)]; [|congruence].
        assert (Hnd : tileDirty ptTile sums0 n = false).
        { unfold tileDirty. rewrite Es, <- Hcur, Eh, Z.eqb_refl. reflexivity. }
        cbn [fst snd]. split; [exact Il|]. split; [exact Hk|].
        rewrite I0, I1. widen_bound n.
      * apply Z.eqb_neq in Eh.
        assert (Hdn : tileDirty ptTile sums0 n = true).
        { unfold tileDirty. rewrite Es, <- Hcur.
          apply negb_true_iff, Z.eqb_neq. exact Eh. }
        cbn [fst snd]. split; [rewrite length_insert; exact Il|]. split.
        -- intros j. destruct (decide (j = n)) as [->|Hjn].
           ++ rewrite nth_lookup, list_lookup_insert_eq by lia. cbn.
              destruct (decide _); [|lia].
              unfold storedAfterScan. rewrite Es. reflexivity.
           ++ rewrite nth_lookup, list_lookup_insert_ne, <- nth_lookup by lia.
              rewrite In.
              destruct (decide (j < n)%nat), (decide (j < S n)%nat);
                try reflexivity; lia.
        -- destruct (n <? 256)%nat eqn:E256.
           ++ apply Nat.ltb_lt in E256. split.
              ** split; [intros _; exists n; repeat split; [lia | lia | exact Hdn]
                        | reflexivity].
              ** rewrite I1. split; intros (i & Hi & Hr & Hdi);
                   exists i; (split; [|split; assumption]); lia.
           ++ apply Nat.ltb_ge in E256. split.
              ** rewrite I0. split; intros (i & Hi & Hr & Hdi);
                   exists i; (split; [|split; assumption]); lia.
              ** split; [intros _; exists n; repeat split; [lia | lia | exact Hdn]
                        | reflexivity].
Qed.

End ChrScan.

(** The whole scan, for a 512-entry checksum table. *)
Lemma scan_spec (ptTile : list slot) (sums0 sums : list Z) (d0 d1 : bool) :
  length sums0 = 512%nat →
  fold_left (TileCache.chrStep ptTile) (seq 0 512) (sums0, false, false)
  = (sums, d0, d1) →
  length sums = 512%nat
  ∧ (∀ j, (j < 512)%nat → nth j sums 0 = storedAfterScan ptTile sums0 j)
  ∧ (d0 = true ↔ ∃ i, (i < 256)%nat ∧ tileDirty ptTile sums0 i = true)
  ∧ (d1 = true
     ↔ ∃ i, (256 <= i < 512)%nat ∧ tileDirty ptTile sums0 i = true).
Proof.
  intros Hlen E.
  destruct (scan_inv ptTile sums0 512 ltac:(lia)) as (Il & In & I0 & I1).
  rewrite E in Il, In, I0, I1. cbn [fst snd] in *.
  split; [congruence|]. split.
  { intros j Hj. rewrite In. destruct (decide _); [reflexivity | lia]. }
  split.
  - rewrite I0. split; intros (i & H); exists i; intuition lia.
  - rewrite I1. split; intros (i & H); exists i; intuition lia.
Qed.

(** Once scanned, the stored checksums agree with the tiles: a tile is
    dirty against them only if its pixels changed. *)
Lemma stored_then_clean (ptTile ptTile' : list slot) (sums0 sums : list Z) (i : nat) :
  nth i sums 0 = storedAfterScan ptTile sums0 i →
  (∀ t, get_slot ptTile (Z.of_nat i) = Obj t →
        ∃ t', get_slot ptTile' (Z.of_nat i) = Obj t' ∧ pix t' = pix t) →
  (∀ t', get_slot ptTile' (Z.of_nat i) = Obj t' →
         ∃ t, get_slot ptTile (Z.of_nat i) = Obj t) →
  tileDirty ptTile' sums i = false.
Proof.
  intros Hs Hsame Hback. unfold tileDirty.
  destruct (get_slot ptTile' (Z.of_nat i)) as [| |t'] eqn:E'; [reflexivity..|].
  destruct (Hback t' eq_refl) as [t Et].
  destruct (Hsame t Et) as (t'' & Et'' & Hp). injection Et'' as <-.
  rewrite Hs. unfold storedAfterScan. rewrite Et, Hp, Z.eqb_refl. reflexivity.
Qed.

(** ** The tile-sheet cache: the bank signature *)

Lemma ref_neq_refl (r : jsref) : ref_neq r r = false.
Proof. destruct r; cbn; [reflexivity | reflexivity |]. rewrite Nat.eqb_refl. reflexivity. Qed.

Lemma updateBankRefs_get (tc : TileCache.t) (sig : list jsref) (k : nat) :
  length (TileCache.prevBankRefs tc) = 8%nat → (k < 8)%nat →
  get_ref (TileCache.prevBankRefs (TileCache.updateBankRefs tc sig)) k = get_ref sig k.
Proof.
  intros Hlen Hk. unfold TileCache.updateBankRefs. cbn [TileCache.prevBankRefs].
  destruct (TileCache.prevBankRefs tc) as [|r0 [|r1 [|r2 [|r3 [|r4 [|r5 [|r6 [|r7 [|]]]]]]]]];
    try discriminate Hlen.
  do 8 (destruct k as [|k]; [reflexivity|]). lia.
Qed.

Lemma updateBankRefs_length (tc : TileCache.t) (sig : list jsref) :
  length (TileCache.prevBankRefs (TileCache.updateBankRefs tc sig))
  = length (TileCache.prevBankRefs tc).
Proof.
  unfold TileCache.updateBankRefs. cbn [TileCache.prevBankRefs fold_left seq].
  rewrite !length_insert. reflexivity.
Qed.

Lemma checkBankDirty_iff (tc : TileCache.t) (sig : list jsref) (ptBase : Z) :
  TileCache.checkBankDirty tc sig ptBase = true
  ↔ ∃ i, (i < 4)%nat
         ∧ ref_neq (get_ref sig ((if (256 <=? ptBase)%Z then 4 else 0) + i)%nat)
                   (get_ref (TileCache.prevBankRefs tc)
                            ((if (256 <=? ptBase)%Z then 4 else 0) + i)%nat) = true.
Proof.
  unfold TileCache.checkBankDirty. rewrite existsb_exists. split.
  - intros (i & Hi & Hr). exists i. apply in_seq in Hi. split; [lia | exact Hr].
  - intros (i & Hi & Hr). exists i. split; [apply in_seq; lia | exact Hr].
Qed.

Lemma extractCHRBankSignature_get (ptTile : list slot) (k : nat) :
  (k < 8)%nat →
  get_ref (extractCHRBankSignature ptTile) k
  = ref_of (get_slot ptTile (Z.of_nat k * 64)).
Proof.
  intros Hk. unfold extractCHRBankSignature.
  do 8 (destruct k as [|k]; [reflexivity|]). lia.
Qed.

Lemma populated_slot (ptTile : list slot) (i : Z) :
  populated ptTile = true → 0 <= i < 512 →
  ∃ t, get_slot ptTile i = Obj t ∧ tileOk t = true.
Proof.
  unfold populated, get_slot. intros H Hi.
  apply andb_true_iff in H as [Hlen Hall]. apply Nat.eqb_eq in Hlen.
  destruct (i <? 0) eqn:E; [apply Z.ltb_lt in E; lia|].
  rewrite forallb_forall in Hall.
  assert (Hlt : (Z.to_nat i < length ptTile)%nat) by lia.
  specialize (Hall (nth (Z.to_nat i) ptTile Undefined) (nth_In _ _ Hlt)).
  destruct (nth (Z.to_nat i) ptTile Undefined) as [| |t]; try discriminate.
  exists t. split; [reflexivity | exact Hall].
Qed.

Lemma populated_tilesOk (ptTile : list slot) :
  populated ptTile = true → tilesOk ptTile = true.
Proof.
  unfold populated, tilesOk. intros H. apply andb_true_iff in H as [_ Hall].
  rewrite forallb_forall in *. intros s Hs. specialize (Hall s Hs).
  destruct s; [discriminate | discriminate | exact Hall].
Qed.

(** ** The tile-sheet cache: which sheets a call regenerates *)

Lemma expectedRenders_uniform (pm : PaletteManager.t) (bgBase : Z)
    (sg : TileCache.signals) (b c0 c1 : bool) :
  (∀ g : nat,
     bool_decide (Z.of_nat g ∈ PaletteManager.dirtyBgGroups pm)
     || TileCache.bgDirty sg || TileCache.bgBaseChanged sg = b) →
  (∀ g : nat,
     bool_decide (Z.of_nat g ∈ PaletteManager.dirtySprGroups pm)
     || TileCache.spr0Dirty sg = c0) →
  (∀ g : nat,
     bool_decide (Z.of_nat g ∈ PaletteManager.dirtySprGroups pm)
     || TileCache.spr1Dirty sg = c1) →
  renderedSheets (expectedRenders pm bgBase sg)
  = (if b then [0; 1; 2; 3] else [])
    ++ (if c0 then [4; 5; 6; 7] else [])
    ++ (if c1 then [8; 9; 10; 11] else []).
Proof.
  intros Hb H0 H1. unfold expectedRenders. cbn [flat_map seq].
  rewrite !Hb, !H0, !H1. destruct b, c0, c1; reflexivity.
Qed.

Lemma clean_group (s : gset Z) (g : Z) :
  s = ∅ → bool_decide (g ∈ s) = false.
Proof. intros ->. apply bool_decide_eq_false_2, not_elem_of_empty. Qed.

(** A signature that samples a populated tile table holds objects. *)
Lemma populated_signature (ptTile : list slot) (k : nat) :
  populated ptTile = true → (k < 8)%nat →
  ∃ id, get_ref (extractCHRBankSignature ptTile) k = RObj id.
Proof.
  intros Hp Hk. rewrite extractCHRBankSignature_get by exact Hk.
  destruct (populated_slot ptTile (Z.of_nat k * 64) Hp ltac:(lia)) as (t & -> & _).
  eauto.
Qed.

(** Against the references of a new cache every bank is switch-dirty. *)
Lemma checkBankDirty_new (ptTile : list slot) (ptBase : Z) :
  populated ptTile = true →
  TileCache.checkBankDirty TileCache.new (extractCHRBankSignature ptTile) ptBase
  = true.
Proof.
  intros Hp. apply checkBankDirty_iff. exists 0%nat. split; [lia|].
  destruct (256 <=? ptBase); cbn [Nat.add].
  - destruct (populated_signature ptTile 4 Hp ltac:(lia)) as [id ->]. reflexivity.
  - destruct (populated_signature ptTile 0 Hp ltac:(lia)) as [id ->]. reflexivity.
Qed.

(** Against the references stored from the same signature no bank is. *)
Lemma checkBankDirty_same (tc : TileCache.t) (sig : list jsref) (ptBase : Z) :
  (∀ k, (k < 8)%nat → get_ref (TileCache.prevBankRefs tc) k = get_ref sig k) →
  TileCache.checkBankDirty tc sig ptBase = false.
Proof.
  intros Hsame. apply not_true_is_false. intros H.
  apply checkBankDirty_iff in H as (i & Hi & Hr).
  rewrite Hsame in Hr by (destruct (256 <=? ptBase); lia).
  rewrite ref_neq_refl in Hr. discriminate.
Qed.

(** C1. On a new cache, with all 512 tile records present and their bank
    signature, the first [update] regenerates sheets 0..11 whatever the
    state of the palette tracker; when the tracker was updated from new
    before that call and is updated again with the same palettes, a second
    [update] with the same tiles, signature and bases regenerates no sheet
    and leaves [updatedSheets] empty. *)
Theorem TileCache_first_update_all_second_none
    (ptTile : list slot) (bg spr : list Z) (bgBase sprBase : Z) :
  populated ptTile = true →
  let sig := Some (extractCHRBankSignature ptTile) in
  let pm1 := (PaletteManager.update PaletteManager.new bg spr).1 in
  let pm2 := (PaletteManager.update pm1 bg spr).1 in
  (∀ pm, ∃ tc1 log1,
     TileCache.update TileCache.new ptTile pm bgBase sprBase sig = Some (tc1, log1)
     ∧ renderedSheets log1 = [0; 1; 2; 3; 4; 5; 6; 7; 8; 9; 10; 11]
     ∧ TileCache.updatedSheets tc1
       = list_to_set [0; 1; 2; 3; 4; 5; 6; 7; 8; 9; 10; 11])
  ∧ ∃ tc1 log1 tc2 log2,
      TileCache.update TileCache.new ptTile pm1 bgBase sprBase sig = Some (tc1, log1)
      ∧ TileCache.update tc1 ptTile pm2 bgBase sprBase sig = Some (tc2, log2)
      ∧ renderedSheets log2 = []
      ∧ TileCache.updatedSheets tc2 = ∅.
Proof.
  intros Hp sig pm1 pm2.
  pose proof (populated_tilesOk _ Hp) as Hok.
  assert (Hfirst : ∀ pm, ∃ tc1 log1,
    TileCache.update TileCache.new ptTile pm bgBase sprBase sig = Some (tc1, log1)
    ∧ renderedSheets log1 = [0; 1; 2; 3; 4; 5; 6; 7; 8; 9; 10; 11]
    ∧ TileCache.updatedSheets tc1
      = list_to_set [0; 1; 2; 3; 4; 5; 6; 7; 8; 9; 10; 11]).
  { intros pm.
    destruct (update_total TileCache.new ptTile pm bgBase sprBase sig Hok)
      as [[tc1 log1] E1].
    exists tc1, log1. split; [exact E1|].
    destruct (update_inv _ _ _ _ _ _ _ _ E1) as (Hr & Hu & _).
    destruct (detect_spec TileCache.new ptTile bgBase sig)
      as (sums & d0 & d1 & _ & _ & _ & _ & _ & _ & Db & D0 & D1).
    cbv zeta in Db, D0, D1. subst sig. cbv beta iota in Db, D0, D1.
    rewrite checkBankDirty_new in Db, D0, D1 by exact Hp.
    rewrite (expectedRenders_uniform _ _ _ true true true) in Hr.
    - rewrite Hu, Hr. split; reflexivity.
    - intros g. rewrite Db. rewrite orb_true_r. reflexivity.
    - intros g. rewrite D0. apply orb_true_r.
    - intros g. rewrite D1. apply orb_true_r. }
  split; [exact Hfirst|].
  destruct (Hfirst pm1) as (tc1 & log1 & E1 & _).
  destruct (update_total tc1 ptTile pm2 bgBase sprBase sig Hok) as [[tc2 log2] E2].
  exists tc1, log1, tc2, log2. split; [exact E1|]. split; [exact E2|].
  (* the cache after the first call *)
  destruct (update_inv _ _ _ _ _ _ _ _ E1) as (_ & _ & Hs1 & Hr1 & Hb1).
  destruct (detect_spec TileCache.new ptTile bgBase sig)
    as (sums & d0 & d1 & Es & _ & Eb & Esums & Erefs & _).
  cbv zeta in Eb, Esums, Erefs. rewrite Esums in Hs1. rewrite Erefs in Hr1.
  rewrite Eb in Hb1. subst sig. cbv beta iota in Hr1.
  assert (Hl0 : length (TileCache.tileChecksums TileCache.new) = 512%nat)
    by reflexivity.
  destruct (scan_spec _ _ _ _ _ Hl0 Es) as (Ls & Ns & _ & _).
  (* the signals of the second call *)
  destruct (update_inv _ _ _ _ _ _ _ _ E2) as (Hr & Hu & _).
  destruct (detect_spec tc1 ptTile bgBase (Some (extractCHRBankSignature ptTile)))
    as (sums' & d0' & d1' & Es' & _ & _ & _ & _ & Dc & Db & D0 & D1).
  cbv zeta in Dc, Db, D0, D1. cbv beta iota in Db, D0, D1.
  rewrite Hs1 in Es'.
  destruct (scan_spec _ _ _ _ _ Ls Es') as (_ & _ & C0 & C1).
  assert (Hclean : ∀ i, (i < 512)%nat → tileDirty ptTile sums i = false).
  { intros i Hi. apply (stored_then_clean ptTile ptTile (TileCache.tileChecksums TileCache.new)).
    - apply Ns. exact Hi.
    - intros t Ht. exists t. split; [exact Ht | reflexivity].
    - intros t Ht. exists t. exact Ht. }
  assert (Hd0 : d0' = false).
  { apply not_true_is_false. intros Ht. apply C0 in Ht as (i & Hi & Hd).
    rewrite Hclean in Hd by lia. discriminate. }
  assert (Hd1 : d1' = false).
  { apply not_true_is_false. intros Ht. apply C1 in Ht as (i & Hi & Hd).
    rewrite Hclean in Hd by lia. discriminate. }
  subst d0' d1'.
  assert (Hsame : ∀ base,
    TileCache.checkBankDirty tc1 (extractCHRBankSignature ptTile) base = false).
  { intros base. apply checkBankDirty_same. intros k Hk. rewrite Hr1.
    apply updateBankRefs_get; [reflexivity | exact Hk]. }
  rewrite !Hsame in Db, D0, D1. rewrite Hb1, Z.eqb_refl in Dc.
  destruct (PaletteManager_update_twice PaletteManager.new bg spr eq_refl eq_refl)
    as [Pb Ps].
  fold pm1 in Pb, Ps. fold pm2 in Pb, Ps.
  rewrite (expectedRenders_uniform _ _ _ false false false) in Hr.
  - rewrite Hu, Hr. split; reflexivity.
  - intros g. rewrite Db, Dc, (clean_group _ _ Pb).
    destruct (256 <=? bgBase); reflexivity.
  - intros g. rewrite D0, (clean_group _ _ Ps). reflexivity.
  - intros g. rewrite D1, (clean_group _ _ Ps). reflexivity.
Qed.

(** C1 on the table of 512 blank tiles with all-zero palettes. *)
Lemma TileCache_first_update_all_second_none_witness :
  ∃ tc1 log1 tc2 log2,
    TileCache.update TileCache.new fullTiles
      (PaletteManager.update PaletteManager.new zeroPalette zeroPalette).1 0 0
      (Some (extractCHRBankSignature fullTiles)) = Some (tc1, log1)
    ∧ TileCache.update tc1 fullTiles
        (PaletteManager.update
           (PaletteManager.update PaletteManager.new zeroPalette zeroPalette).1
           zeroPalette zeroPalette).1 0 0
        (Some (extractCHRBankSignature fullTiles)) = Some (tc2, log2)
    ∧ renderedSheets log2 = []
    ∧ TileCache.updatedSheets tc2 = ∅.
Proof.
  apply (TileCache_first_update_all_second_none fullTiles zeroPalette zeroPalette 0 0).
  vm_compute. reflexivity.
Defined.

Lemma get_slot_nat (ptTile : list slot) (i : nat) :
  get_slot ptTile (Z.of_nat i) = nth i ptTile Undefined.
Proof.
  unfold get_slot. destruct (Z.of_nat i <? 0) eqn:E; [apply Z.ltb_lt in E; lia|].
  rewrite Nat2Z.id. reflexivity.
Qed.

(** C2. Between two consecutive [update] calls with the same palettes and
    the same background base selecting bank 0, let the tile records of one
    1KB region [r] of bank 0 (tiles 64r .. 64r+63) be replaced by records
    with new identities, every other record staying the same object with
    the same pixels.  The second call regenerates exactly sheets 0..7: the
    four background sheets and the four sprite sheets of bank 0, and none
    of the sprite sheets of bank 1. *)
Theorem TileCache_region_switch_regenerates_bank0_only
    (tc0 : TileCache.t) (ptTile ptTile' : list slot) (pm0 : PaletteManager.t)
    (bg spr : list Z) (bgBase sprBase sprBase' : Z) (r : nat) :
  length (TileCache.tileChecksums tc0) = 512%nat →
  length (TileCache.prevBankRefs tc0) = 8%nat →
  length (PaletteManager.prevBg pm0) = 16%nat →
  length (PaletteManager.prevSpr pm0) = 16%nat →
  populated ptTile = true →
  populated ptTile' = true →
  bgBase < 256 →
  (r < 4)%nat →
  (∀ i, (64 * r <= i < 64 * r + 64)%nat →
        ref_neq (ref_of (nth i ptTile' Undefined)) (ref_of (nth i ptTile Undefined))
        = true) →
  (∀ i, (i < 512)%nat → ¬ (64 * r <= i < 64 * r + 64)%nat →
        nth i ptTile' Undefined = nth i ptTile Undefined) →
  let pm1 := (PaletteManager.update pm0 bg spr).1 in
  let pm2 := (PaletteManager.update pm1 bg spr).1 in
  ∃ tc1 log1 tc2 log2,
    TileCache.update tc0 ptTile pm1 bgBase sprBase
      (Some (extractCHRBankSignature ptTile)) = Some (tc1, log1)
    ∧ TileCache.update tc1 ptTile' pm2 bgBase sprBase'
        (Some (extractCHRBankSignature ptTile')) = Some (tc2, log2)
    ∧ renderedSheets log2 = [0; 1; 2; 3; 4; 5; 6; 7]
    ∧ TileCache.updatedSheets tc2 = list_to_set [0; 1; 2; 3; 4; 5; 6; 7].
Proof.
  intros Hl0 Hr0 Hpb Hps Hp Hp' Hbg Hr Hnew Hold pm1 pm2.
  pose proof (populated_tilesOk _ Hp) as Hok.
  pose proof (populated_tilesOk _ Hp') as Hok'.
  destruct (update_total tc0 ptTile pm1 bgBase sprBase
              (Some (extractCHRBankSignature ptTile)) Hok) as [[tc1 log1] E1].
  destruct (update_total tc1 ptTile' pm2 bgBase sprBase'
              (Some (extractCHRBankSignature ptTile')) Hok') as [[tc2 log2] E2].
  exists tc1, log1, tc2, log2. split; [exact E1|]. split; [exact E2|].
  (* the cache after the first call *)
  destruct (update_inv _ _ _ _ _ _ _ _ E1) as (_ & _ & Hs1 & Hr1 & Hb1).
  destruct (detect_spec tc0 ptTile bgBase (Some (extractCHRBankSignature ptTile)))
    as (sums & d0 & d1 & Es & _ & Eb & Esums & Erefs & _).
  cbv zeta in Eb, Esums, Erefs. rewrite Esums in Hs1. rewrite Erefs in Hr1.
  rewrite Eb in Hb1. cbv beta iota in Hr1.
  destruct (scan_spec _ _ _ _ _ Hl0 Es) as (Ls & Ns & _ & _).
  assert (Hrefs : ∀ k, (k < 8)%nat →
    get_ref (TileCache.prevBankRefs tc1) k
    = ref_of (nth (k * 64) ptTile Undefined)).
  { intros k Hk. rewrite Hr1, updateBankRefs_get by assumption.
    rewrite extractCHRBankSignature_get by exact Hk.
    replace (Z.of_nat k * 64) with (Z.of_nat (k * 64)) by lia.
    apply f_equal, get_slot_nat. }
  assert (Hsig' : ∀ k, (k < 8)%nat →
    get_ref (extractCHRBankSignature ptTile') k
    = ref_of (nth (k * 64) ptTile' Undefined)).
  { intros k Hk. rewrite extractCHRBankSignature_get by exact Hk.
    replace (Z.of_nat k * 64) with (Z.of_nat (k * 64)) by lia.
    apply f_equal, get_slot_nat. }
  (* the signals of the second call *)
  destruct (update_inv _ _ _ _ _ _ _ _ E2) as (Hrn & Hu & _).
  destruct (detect_spec tc1 ptTile' bgBase (Some (extractCHRBankSignature ptTile')))
    as (sums' & d0' & d1' & Es' & _ & _ & _ & _ & Dc & Db & D0 & D1).
  cbv zeta in Dc, Db, D0, D1. cbv beta iota in Db, D0, D1.
  rewrite Hs1 in Es'.
  destruct (scan_spec _ _ _ _ _ Ls Es') as (_ & _ & _ & C1).
  assert (Hd1 : d1' = false).
  { apply not_true_is_false. intros Ht. apply C1 in Ht as (i & Hi & Hd).
    rewrite (stored_then_clean ptTile ptTile' (TileCache.tileChecksums tc0)) in Hd;
      [discriminate | apply Ns; lia | |].
    - intros t Ht. exists t. rewrite get_slot_nat in *.
      rewrite Hold by lia. split; [exact Ht | reflexivity].
    - intros t Ht. exists t. rewrite get_slot_nat in *.
      rewrite <- Hold by lia. exact Ht. }
  assert (Hbank0 : ∀ base, base < 256 →
    TileCache.checkBankDirty tc1 (extractCHRBankSignature ptTile') base = true).
  { intros base Hbase. apply checkBankDirty_iff. exists r. split; [exact Hr|].
    rewrite (proj2 (Z.leb_gt 256 base)) by lia. cbn [Nat.add].
    rewrite Hsig', Hrefs by lia. apply Hnew. lia. }
  assert (Hbank1 :
    TileCache.checkBankDirty tc1 (extractCHRBankSignature ptTile') 256 = false).
  { apply not_true_is_false. intros Ht.
    apply checkBankDirty_iff in Ht as (i & Hi & Hn).
    change (256 <=? 256) with true in Hn. cbv iota in Hn.
    rewrite Hsig', Hrefs in Hn by lia.
    rewrite Hold in Hn by lia. rewrite ref_neq_refl in Hn. discriminate. }
  rewrite (Hbank0 bgBase Hbg) in Db. rewrite (Hbank0 0) in D0 by lia.
  rewrite Hbank1, Hd1 in D1. rewrite Hb1, Z.eqb_refl in Dc.
  destruct (PaletteManager_update_twice pm0 bg spr Hpb Hps) as [Pb Ps].
  fold pm1 in Pb, Ps. fold pm2 in Pb, Ps.
  rewrite (expectedRenders_uniform _ _ _ true true false) in Hrn.
  - rewrite Hu, Hrn. split; reflexivity.
  - intros g. rewrite Db, orb_true_r. reflexivity.
  - intros g. rewrite D0, orb_true_r. reflexivity.
  - intros g. rewrite D1, (clean_group _ _ Ps). reflexivity.
Qed.

Lemma fullTiles_nth (i : nat) :
  (i < 512)%nat → nth i fullTiles Undefined = Obj (mkTile i (replicate 64 0)).
Proof.
  intros Hi. unfold fullTiles.
  rewrite nth_lookup, list_lookup_fmap, lookup_seq_lt by lia. reflexivity.
Qed.

Lemma fullTilesSwitched_nth (i : nat) :
  (i < 512)%nat →
  nth i fullTilesSwitched Undefined
  = if (i <? 64)%nat then Obj (mkTile (512 + i) (replicate 64 2))
    else Obj (mkTile i (replicate 64 0)).
Proof.
  intros Hi. unfold fullTilesSwitched.
  rewrite nth_lookup, list_lookup_fmap, lookup_seq_lt by lia. reflexivity.
Qed.

(** C2 on the 512 blank tiles with region 0 swapped for new tile objects,
    starting from a new cache and a new tracker. *)
Lemma TileCache_region_switch_regenerates_bank0_only_witness :
  ∃ tc1 log1 tc2 log2,
    TileCache.update TileCache.new fullTiles
      (PaletteManager.update PaletteManager.new zeroPalette zeroPalette).1 0 0
      (Some (extractCHRBankSignature fullTiles)) = Some (tc1, log1)
    ∧ TileCache.update tc1 fullTilesSwitched
        (PaletteManager.update
           (PaletteManager.update PaletteManager.new zeroPalette zeroPalette).1
           zeroPalette zeroPalette).1 0 0
        (Some (extractCHRBankSignature fullTilesSwitched)) = Some (tc2, log2)
    ∧ renderedSheets log2 = [0; 1; 2; 3; 4; 5; 6; 7]
    ∧ TileCache.updatedSheets tc2 = list_to_set [0; 1; 2; 3; 4; 5; 6; 7].
Proof.
  apply (TileCache_region_switch_regenerates_bank0_only
           TileCache.new fullTiles fullTilesSwitched PaletteManager.new
           zeroPalette zeroPalette 0 0 0 0).
  - reflexivity.
  - reflexivity.
  - reflexivity.
  - reflexivity.
  - vm_compute. reflexivity.
  - vm_compute. reflexivity.
  - lia.
  - lia.
  - intros i Hi. rewrite fullTiles_nth, fullTilesSwitched_nth by lia.
    replace (i <? 64)%nat with true by (symmetry; apply Nat.ltb_lt; lia).
    cbn [ref_of tile_id ref_neq]. apply negb_true_iff, Nat.eqb_neq. lia.
  - intros i Hi Hout. rewrite fullTiles_nth, fullTilesSwitched_nth by lia.
    replace (i <? 64)%nat with false by (symmetry; apply Nat.ltb_ge; lia).
    reflexivity.
Defined.

(** ** The tile-sheet cache: the sprite-sheet query *)

Lemma renderedSheets_elem (log : list TileCache.event) (k : Z) :
  k ∈ renderedSheets log ↔ ∃ b, TileCache.RenderSheet k b ∈ log.
Proof.
  unfold renderedSheets. rewrite list_elem_of_In, in_flat_map. split.
  - intros (e & He & Hk). destruct e as [i b| |]; [|destruct Hk..].
    destruct Hk as [->|[]]. exists b. apply list_elem_of_In. exact He.
  - intros [b Hb]. exists (TileCache.RenderSheet k b).
    split; [apply list_elem_of_In; exact Hb | left; reflexivity].
Qed.

(** Case analysis on membership in a list built from conditional
    singletons. *)
Ltac split_renders H :=
  repeat match type of H with
         | _ ∈ _ ++ _ => apply elem_of_app in H as [H|H]
         | _ ∈ (if ?c then _ else _) => destruct c
         | _ ∈ [] => inversion H
         | _ ∈ [_] => apply list_elem_of_singleton in H; injection H as -> ->
         end.

(** Which base each rendered sheet is drawn from. *)
Lemma expectedRenders_elem (pm : PaletteManager.t) (bgBase : Z)
    (sg : TileCache.signals) (k b : Z) :
  TileCache.RenderSheet k b ∈ expectedRenders pm bgBase sg →
  (0 <= k < 4 ∧ b = bgBase) ∨ (4 <= k < 8 ∧ b = 0) ∨ (8 <= k < 12 ∧ b = 256).
Proof.
  unfold expectedRenders. cbn [flat_map seq]. intros H.
  split_renders H; cbn; lia.
Qed.

Lemma finish_log (st : TileCache.t * list TileCache.event) :
  ∃ tail, (TileCache.finish st).2 = st.2 ++ tail ∧ renderedSheets tail = [].
Proof.
  destruct st as [tc log]. unfold TileCache.finish. cbn [fst snd].
  destruct (0 <? size (TileCache.updatedSheets tc))%nat; cbn [fst snd];
    destruct (size (TileCache.updatedSheets _) =? 12)%nat; cbn [fst snd];
    try destruct (_ =? 60);
    rewrite <- ?app_assoc;
    first [ exists [] ; rewrite app_nil_r; split; reflexivity
          | eexists; split; reflexivity ].
Qed.

(** The log of a completed [update]: the renders of the three loops, then
    events that are not renders. *)
Lemma update_log (tc tc' : TileCache.t) (ptTile : list slot) (pm : PaletteManager.t)
    (bgBase sprBase : Z) (sig : option (list jsref)) (log : list TileCache.event) :
  TileCache.update tc ptTile pm bgBase sprBase sig = Some (tc', log) →
  ∃ tail,
    log = expectedRenders pm bgBase (TileCache.detect tc ptTile bgBase sig).2 ++ tail
    ∧ renderedSheets tail = [].
Proof.
  unfold TileCache.update. intros H.
  destruct (TileCache.detect tc ptTile bgBase sig) as [tcd sg]. cbn [fst snd].
  destruct (TileCache.regenerate ptTile pm bgBase sg (tcd, [])) as [[tc1 log1]|] eqn:E;
    [|discriminate].
  cbn in H. injection H as H. apply regenerate_inv in E as (_ & L & _).
  destruct (finish_log (tc1, log1)) as (tail & Ht & Hn).
  rewrite H in Ht. cbn [fst snd] in Ht. exists tail.
  rewrite Ht, L. split; [reflexivity | exact Hn].
Qed.

Lemma update_render_elem (tc tc' : TileCache.t) (ptTile : list slot)
    (pm : PaletteManager.t) (bgBase sprBase : Z) (sig : option (list jsref))
    (log : list TileCache.event) (k : Z) :
  TileCache.update tc ptTile pm bgBase sprBase sig = Some (tc', log) →
  (k ∈ TileCache.updatedSheets tc' ↔ ∃ b, TileCache.RenderSheet k b ∈ log)
  ∧ (∀ b, TileCache.RenderSheet k b ∈ log →
          (0 <= k < 4 ∧ b = bgBase) ∨ (4 <= k < 8 ∧ b = 0)
          ∨ (8 <= k < 12 ∧ b = 256)).
Proof.
  intros E. destruct (update_inv _ _ _ _ _ _ _ _ E) as (_ & Hu & _).
  destruct (update_log _ _ _ _ _ _ _ _ E) as (tail & Hl & Hn).
  split.
  - rewrite Hu, elem_of_list_to_set. apply renderedSheets_elem.
  - intros b Hb. rewrite Hl in Hb. apply elem_of_app in Hb as [Hb|Hb].
    + exact (expectedRenders_elem _ _ _ _ _ Hb).
    + assert (Hk : k ∈ renderedSheets tail) by (apply renderedSheets_elem; eauto).
      rewrite Hn in Hk. inversion Hk.
Qed.

(** C10. After an [update], [sprSheetUpdated(g)] for g in 0..3 is true
    exactly when that call rendered sprite sheet 4+g (group g from bank 0,
    tiles 0..255) or sprite sheet 8+g (group g from bank 1, tiles
    256..511); [update] completes on every drawable tile table; and after a
    frame whose only change is an in-place write to tile 256, only sheets
    8..11 were rendered, no bank-0 sheet was, and the query is true for
    every group. *)
Theorem TileCache_sprSheetUpdated_either_bank :
  (∀ tc ptTile pm bgBase sprBase sig tc' log g,
     0 <= g < 4 →
     TileCache.update tc ptTile pm bgBase sprBase sig = Some (tc', log) →
     (TileCache.sprSheetUpdated tc' g = true
      ↔ TileCache.RenderSheet (4 + g) 0 ∈ log
        ∨ TileCache.RenderSheet (8 + g) 256 ∈ log))
  ∧ (∀ tc ptTile pm bgBase sprBase sig,
       tilesOk ptTile = true →
       is_Some (TileCache.update tc ptTile pm bgBase sprBase sig))
  ∧ ∃ tc' log,
      TileCache.update cacheAfterTwoTiles twoTilesWritten trackerSteady 0 0
        (Some (extractCHRBankSignature twoTilesWritten)) = Some (tc', log)
      ∧ renderedSheets log = [8; 9; 10; 11]
      ∧ (∀ g, 0 <= g < 4 →
              TileCache.sprSheetUpdated tc' g = true
              ∧ TileCache.RenderSheet (4 + g) 0 ∉ log).
Proof.
  assert (Hquery : ∀ tc ptTile pm bgBase sprBase sig tc' log g,
     0 <= g < 4 →
     TileCache.update tc ptTile pm bgBase sprBase sig = Some (tc', log) →
     (TileCache.sprSheetUpdated tc' g = true
      ↔ TileCache.RenderSheet (4 + g) 0 ∈ log
        ∨ TileCache.RenderSheet (8 + g) 256 ∈ log)).
  { intros tc ptTile pm bgBase sprBase sig tc' log g Hg E.
    unfold TileCache.sprSheetUpdated.
    rewrite orb_true_iff, !bool_decide_eq_true.
    destruct (update_render_elem _ _ _ _ _ _ _ _ (4 + g) E) as [U4 B4].
    destruct (update_render_elem _ _ _ _ _ _ _ _ (8 + g) E) as [U8 B8].
    rewrite U4, U8. split.
    - intros [[b Hb]|[b Hb]].
      + left. destruct (B4 b Hb) as [[? ?]|[[? ->]|[? ?]]]; [lia | exact Hb | lia].
      + right. destruct (B8 b Hb) as [[? ?]|[[? ?]|[? ->]]]; [lia | lia | exact Hb].
    - intros [H|H]; [left | right]; eauto. }
  split; [exact Hquery|].
  split; [intros; apply update_total; assumption|].
  destruct (update_total cacheAfterTwoTiles twoTilesWritten trackerSteady 0 0
              (Some (extractCHRBankSignature twoTilesWritten)))
    as [[tc' log] E]; [vm_compute; reflexivity|].
  exists tc', log. split; [exact E|].
  destruct (update_inv _ _ _ _ _ _ _ _ E) as (Hr & Hu & _).
  assert (Hexp :
    renderedSheets
      (expectedRenders trackerSteady 0
         (TileCache.detect cacheAfterTwoTiles twoTilesWritten 0
            (Some (extractCHRBankSignature twoTilesWritten))).2)
    = [8; 9; 10; 11]) by (vm_compute; reflexivity).
  rewrite Hexp in Hr. split; [exact Hr|].
  intros g Hg. split.
  - apply (Hquery _ _ _ _ _ _ _ _ g Hg E). right.
    destruct (update_render_elem _ _ _ _ _ _ _ _ (8 + g) E) as [U8 B8].
    assert (Hin : 8 + g ∈ TileCache.updatedSheets tc').
    { rewrite Hu, Hr, elem_of_list_to_set, !elem_of_cons. lia. }
    apply U8 in Hin as [b Hb].
    destruct (B8 b Hb) as [[? ?]|[[? ?]|[? ->]]]; [lia | lia | exact Hb].
  - intros Hin.
    assert (Hk : 4 + g ∈ renderedSheets log) by (apply renderedSheets_elem; eauto).
    rewrite Hr, !elem_of_cons, elem_of_nil in Hk. lia.
Qed.

(** ** The frame orchestrator *)

Lemma SpriteLayer_update_total (sl : SpriteLayer.t) (ppuState : PPUState.t) :
  (64 <= length (PPUState.sprites ppuState))%nat →
  is_Some (SpriteLayer.update sl ppuState).
Proof.
  intros Hlen. unfold SpriteLayer.update.
  destruct (negb (PPUState.spritesVisible ppuState)); [eauto|].
  match goal with
  | |- is_Some (forM ?idx ?body ?s ≫= _) =>
      destruct (forM_total idx body s) as [divs E]
  end.
  - intros i divs Hi. apply elem_of_seq in Hi.
    destruct (lookup_lt_is_Some_2 (PPUState.sprites ppuState) i ltac:(lia))
      as [spr Hs].
    rewrite Hs. cbn. eauto.
  - rewrite E. cbn. eauto.
Qed.

(** C7. For every snapshot with drawable tiles, its 64 sprite records and
    well-formed nametables, [renderFrame] completes and the scroll
    position it records for the frame is coarseX*8 + fineX +
    nameTableH*256 horizontally and coarseY*8 + fineY + nameTableV*240
    vertically; a shown background is translated by the negation of that
    position; and coarseX = 10, fineX = 3, nameTableH = 1 give an
    absolute scroll X of 339. *)
Theorem renderFrame_scroll_position (r : CSSRenderer.t) (ppuState : PPUState.t) :
  tilesOk (PPUState.ptTile ppuState) = true →
  (64 <= length (PPUState.sprites ppuState))%nat →
  nameTablesOk ppuState = true →
  let s := PPUState.scroll ppuState in
  let sx := Scroll.coarseX s * 8 + Scroll.fineX s + Scroll.nameTableH s * 256 in
  let sy := Scroll.coarseY s * 8 + Scroll.fineY s + Scroll.nameTableV s * 240 in
  ∃ r' log v,
    CSSRenderer.renderFrame r ppuState = Some (r', log)
    ∧ CSSRenderer.view r' = Some v
    ∧ CSSRenderer.dsScrollX v = sx
    ∧ CSSRenderer.dsScrollY v = sy
    ∧ (PPUState.bgVisible ppuState = true →
       BGLayer.transform (CSSRenderer.bgLayer r') = Some (- sx, - sy))
    ∧ (Scroll.coarseX s = 10 → Scroll.fineX s = 3 → Scroll.nameTableH s = 1 →
       CSSRenderer.dsScrollX v = 339).
Proof.
  intros Hok Hspr _ s sx sy. unfold CSSRenderer.renderFrame.
  destruct (update_total (CSSRenderer.tileCache r) (PPUState.ptTile ppuState)
              (PaletteManager.update (CSSRenderer.paletteManager r)
                 (PPUState.bgPalette ppuState) (PPUState.sprPalette ppuState)).1
              (PPUState.bgPatternBase ppuState) (PPUState.sprPatternBase ppuState)
              (PPUState.chrBankSignature ppuState) Hok) as [[tc log] E].
  rewrite E. cbn [mbind option_bind].
  destruct (SpriteLayer_update_total (CSSRenderer.spriteLayer r) ppuState Hspr)
    as [sl Es].
  rewrite Es. cbn [mbind option_bind].
  eexists _, _, _. split; [reflexivity|]. cbn [CSSRenderer.view].
  split; [reflexivity|].
  cbn [CSSRenderer.dsScrollX CSSRenderer.dsScrollY CSSRenderer.bgLayer].
  split; [reflexivity|]. split; [reflexivity|]. split.
  - intros Hv. unfold BGLayer.update. rewrite Hv. reflexivity.
  - fold s. intros -> -> ->. reflexivity.
Qed.

(** C7 on the frame with coarse X 10, fine X 3 and the second nametable
    column selected. *)
Lemma renderFrame_scroll_position_witness :
  ∃ r' log v,
    CSSRenderer.renderFrame CSSRenderer.new scrollExampleFrame = Some (r', log)
    ∧ CSSRenderer.view r' = Some v
    ∧ CSSRenderer.dsScrollX v = 339
    ∧ CSSRenderer.dsScrollY v = 42
    ∧ (PPUState.bgVisible scrollExampleFrame = true →
       BGLayer.transform (CSSRenderer.bgLayer r') = Some (- 339, - 42))
    ∧ (Scroll.coarseX (PPUState.scroll scrollExampleFrame) = 10 →
       Scroll.fineX (PPUState.scroll scrollExampleFrame) = 3 →
       Scroll.nameTableH (PPUState.scroll scrollExampleFrame) = 1 →
       CSSRenderer.dsScrollX v = 339).
Proof.
  apply (renderFrame_scroll_position CSSRenderer.new scrollExampleFrame).
  - reflexivity.
  - simpl. lia.
  - reflexivity.
Defined.

(** ** The palette tracker: what a call reports and what it keeps *)

Lemma fold_left_fixed {A B : Type} (f : A → B → A) (l : list B) (a : A) :
  (∀ x, x ∈ l → f a x = a) → fold_left f l a = a.
Proof.
  induction l as [|x l IH]; intros H; [reflexivity|].
  cbn [fold_left]. rewrite (H x) by (left). apply IH.
  intros y Hy. apply H. right. exact Hy.
Qed.

(** An unchanged pair of palettes leaves the tracker as it was. *)
Lemma PaletteManager_update_noop
    (pm : PaletteManager.t) (bg spr : list Z) :
  (∀ i, (i < 16)%nat → nth i bg 0 = nth i (PaletteManager.prevBg pm) 0) →
  (∀ i, (i < 16)%nat → nth i spr 0 = nth i (PaletteManager.prevSpr pm) 0) →
  PaletteManager.update pm bg spr = (PaletteManager.clearDirty pm, false).
Proof.
  intros Hb Hs. unfold PaletteManager.update.
  rewrite fold_left_fixed; [reflexivity|].
  intros i Hi. apply elem_of_seq in Hi.
  unfold PaletteManager.step, PaletteManager.stepBg, PaletteManager.stepSpr,
    PaletteManager.entry.
  cbn [PaletteManager.clearDirty PaletteManager.prevBg PaletteManager.prevSpr].
  rewrite Hb by lia. rewrite Z.eqb_refl. cbn [negb].
  cbn [PaletteManager.prevSpr]. rewrite Hs by lia. rewrite Z.eqb_refl.
  reflexivity.
Qed.

(** X1. When no entry of either 16-entry palette differs from the stored
    16-entry baseline, [update] writes nothing: baselines and colour
    arrays stay as they were, both dirty sets are left empty and the call
    returns false. *)
Theorem PaletteManager_update_same_palettes_writes_nothing
    (pm : PaletteManager.t) (bg spr : list Z) :
  length (PaletteManager.prevBg pm) = 16%nat →
  length (PaletteManager.prevSpr pm) = 16%nat →
  length bg = 16%nat →
  length spr = 16%nat →
  (∀ i, (i < 16)%nat → nth i bg 0 = nth i (PaletteManager.prevBg pm) 0) →
  (∀ i, (i < 16)%nat → nth i spr 0 = nth i (PaletteManager.prevSpr pm) 0) →
  PaletteManager.update pm bg spr = (PaletteManager.clearDirty pm, false).
Proof. intros _ _ _ _. apply PaletteManager_update_noop. Qed.

Lemma PaletteManager_update_same_palettes_writes_nothing_witness :
  PaletteManager.update trackerAfterZero zeroPalette zeroPalette
  = (PaletteManager.clearDirty trackerAfterZero, false).
Proof.
  apply PaletteManager_update_same_palettes_writes_nothing.
  - reflexivity.
  - reflexivity.
  - reflexivity.
  - reflexivity.
  - intros i Hi. do 16 (destruct i as [|i]; [reflexivity|]). lia.
  - intros i Hi. do 16 (destruct i as [|i]; [reflexivity|]). lia.
Defined.

(** X2. On 16-entry palettes and baselines, [update] returns true
    exactly when some entry 0..15 of either palette differs from its
    baseline, and group [g] is in a dirty set exactly when [g] is one of
    0..3 and one of the entries 4g..4g+3 of that palette differs. *)
Theorem PaletteManager_update_reports_exactly
    (pm : PaletteManager.t) (bg spr : list Z) :
  length (PaletteManager.prevBg pm) = 16%nat →
  length (PaletteManager.prevSpr pm) = 16%nat →
  length bg = 16%nat →
  length spr = 16%nat →
  let pm' := (PaletteManager.update pm bg spr).1 in
  ((PaletteManager.update pm bg spr).2 = true
   ↔ ∃ i, (i < 16)%nat
          ∧ (nth i bg 0 ≠ nth i (PaletteManager.prevBg pm) 0
             ∨ nth i spr 0 ≠ nth i (PaletteManager.prevSpr pm) 0))
  ∧ (∀ g, g ∈ PaletteManager.dirtyBgGroups pm'
          ↔ 0 <= g < 4
            ∧ ∃ i, 4 * g <= Z.of_nat i < 4 * g + 4
                   ∧ nth i bg 0 ≠ nth i (PaletteManager.prevBg pm) 0)
  ∧ (∀ g, g ∈ PaletteManager.dirtySprGroups pm'
          ↔ 0 <= g < 4
            ∧ ∃ i, 4 * g <= Z.of_nat i < 4 * g + 4
                   ∧ nth i spr 0 ≠ nth i (PaletteManager.prevSpr pm) 0).
Proof.
  intros _ _ _ _ pm'.
  destruct (PaletteManager_update_spec pm bg spr) as (_ & _ & _ & Db & Ds).
  fold pm' in Db, Ds.
  assert (Hgrp : ∀ (i : nat) g, g = Z.shiftr (Z.of_nat i) 2
                                ↔ 4 * g <= Z.of_nat i < 4 * g + 4).
  { intros i g. rewrite shiftr_2_div. split.
    - intros ->. pose proof (Z.div_mod (Z.of_nat i) 4 ltac:(lia)).
      pose proof (Z.mod_pos_bound (Z.of_nat i) 4 ltac:(lia)). lia.
    - intros H. apply (Z.div_unique _ _ _ (Z.of_nat i - 4 * g)); lia. }
  assert (Hb : ∀ g, g ∈ PaletteManager.dirtyBgGroups pm'
          ↔ 0 <= g < 4
            ∧ ∃ i, 4 * g <= Z.of_nat i < 4 * g + 4
                   ∧ nth i bg 0 ≠ nth i (PaletteManager.prevBg pm) 0).
  { intros g. rewrite Db. split.
    - intros (i & Hi & Hg & Hd). apply Hgrp in Hg. split; [lia|].
      exists i. split; assumption.
    - intros (Hg & i & Hi & Hd). exists i. split; [lia|].
      split; [apply Hgrp; exact Hi | exact Hd]. }
  assert (Hs : ∀ g, g ∈ PaletteManager.dirtySprGroups pm'
          ↔ 0 <= g < 4
            ∧ ∃ i, 4 * g <= Z.of_nat i < 4 * g + 4
                   ∧ nth i spr 0 ≠ nth i (PaletteManager.prevSpr pm) 0).
  { intros g. rewrite Ds. split.
    - intros (i & Hi & Hg & Hd). apply Hgrp in Hg. split; [lia|].
      exists i. split; assumption.
    - intros (Hg & i & Hi & Hd). exists i. split; [lia|].
      split; [apply Hgrp; exact Hi | exact Hd]. }
  split; [|split; assumption].
  change ((PaletteManager.update pm bg spr).2)
    with (negb (size (PaletteManager.dirtyBgGroups pm') =? 0)%nat
          || negb (size (PaletteManager.dirtySprGroups pm') =? 0)%nat).
  split.
  - intros H. apply orb_true_iff in H as [H|H].
    + destruct (decide (PaletteManager.dirtyBgGroups pm' = ∅)) as [E|E].
      { rewrite size_flag_empty in H by exact E. discriminate. }
      apply set_choose_L in E as [g Hg]. apply Db in Hg as (i & Hi & _ & Hd).
      exists i. split; [exact Hi | left; exact Hd].
    + destruct (decide (PaletteManager.dirtySprGroups pm' = ∅)) as [E|E].
      { rewrite size_flag_empty in H by exact E. discriminate. }
      apply set_choose_L in E as [g Hg]. apply Ds in Hg as (i & Hi & _ & Hd).
      exists i. split; [exact Hi | right; exact Hd].
  - intros (i & Hi & [Hd|Hd]); apply orb_true_iff.
    + left. apply (size_flag_nonempty _ (Z.shiftr (Z.of_nat i) 2)).
      apply Db. exists i. repeat split; assumption.
    + right. apply (size_flag_nonempty _ (Z.shiftr (Z.of_nat i) 2)).
      apply Ds. exists i. repeat split; assumption.
Qed.

(** X2 at a tracker that holds the all-black palettes, when background
    entry 5 changes. *)
Lemma PaletteManager_update_reports_exactly_witness :
  let pm' := (PaletteManager.update trackerAfterZero entry5Palette zeroPalette).1 in
  ((PaletteManager.update trackerAfterZero entry5Palette zeroPalette).2 = true
   ↔ ∃ i, (i < 16)%nat
          ∧ (nth i entry5Palette 0 ≠ nth i (PaletteManager.prevBg trackerAfterZero) 0
             ∨ nth i zeroPalette 0 ≠ nth i (PaletteManager.prevSpr trackerAfterZero) 0))
  ∧ (∀ g, g ∈ PaletteManager.dirtyBgGroups pm'
          ↔ 0 <= g < 4
            ∧ ∃ i, 4 * g <= Z.of_nat i < 4 * g + 4
                   ∧ nth i entry5Palette 0
                     ≠ nth i (PaletteManager.prevBg trackerAfterZero) 0)
  ∧ (∀ g, g ∈ PaletteManager.dirtySprGroups pm'
          ↔ 0 <= g < 4
            ∧ ∃ i, 4 * g <= Z.of_nat i < 4 * g + 4
                   ∧ nth i zeroPalette 0
                     ≠ nth i (PaletteManager.prevSpr trackerAfterZero) 0).
Proof.
  apply (PaletteManager_update_reports_exactly trackerAfterZero entry5Palette
           zeroPalette).
  - reflexivity.
  - reflexivity.
  - reflexivity.
  - reflexivity.
Defined.
(** ** The palette tracker: the colour cache over a run of frames *)

Lemma coloursFollow_insert (prev cols : list Z) (i : nat) (e : Z) :
  coloursFollow prev cols →
  coloursFollow (<[i := e]> prev) (<[i := PaletteManager.toCSS e]> cols).
Proof.
  intros (Lp & Lc & H). split; [|split].
  - rewrite length_insert. exact Lp.
  - rewrite length_insert. exact Lc.
  - intros j c Hj. destruct (decide (i = j)) as [->|Hne].
    + assert (Hlt : (j < length prev)%nat).
      { apply lookup_lt_Some in Hj. rewrite length_insert in Hj. exact Hj. }
      rewrite list_lookup_insert_eq in Hj by exact Hlt. injection Hj as <-.
      right. apply list_lookup_insert_eq. lia.
    + rewrite list_lookup_insert_ne in Hj by exact Hne.
      rewrite list_lookup_insert_ne by exact Hne. apply H. exact Hj.
Qed.

Lemma trackerFollows_new : trackerFollows PaletteManager.new.
Proof.
  split; (split; [reflexivity|split; [reflexivity|]]); intros j c Hj; left;
    cbn [PaletteManager.new PaletteManager.prevBg PaletteManager.prevSpr
         PaletteManager.bgColors PaletteManager.sprColors] in *;
    apply lookup_replicate in Hj as [-> Hj];
    (split; [reflexivity | apply lookup_replicate; split; [reflexivity | exact Hj]]).
Qed.

Lemma trackerFollows_step (bg spr : list Z) (pm : PaletteManager.t) (i : nat) :
  trackerFollows pm → trackerFollows (PaletteManager.step bg spr pm i).
Proof.
  intros [Hb Hs].
  unfold PaletteManager.step, PaletteManager.stepSpr, PaletteManager.stepBg.
  destruct (negb (PaletteManager.entry bg i
                  =? PaletteManager.entry (PaletteManager.prevBg pm) i));
    cbn [PaletteManager.prevSpr];
    destruct (negb (PaletteManager.entry spr i
                    =? PaletteManager.entry (PaletteManager.prevSpr pm) i));
    split; cbn [PaletteManager.prevBg PaletteManager.prevSpr
                PaletteManager.bgColors PaletteManager.sprColors];
    try assumption; apply coloursFollow_insert; assumption.
Qed.

Lemma trackerFollows_update (pm : PaletteManager.t) (bg spr : list Z) :
  trackerFollows pm → trackerFollows (PaletteManager.update pm bg spr).1.
Proof.
  intros H. unfold PaletteManager.update. cbn [fst].
  assert (H0 : trackerFollows (PaletteManager.clearDirty pm)) by exact H.
  revert H0. generalize (PaletteManager.clearDirty pm). generalize (seq 0 16).
  intros l. induction l as [|i l IH]; intros p Hp; [exact Hp|].
  cbn [fold_left]. apply IH. apply trackerFollows_step. exact Hp.
Qed.

Lemma trackerFollows_run (frames : list (list Z * list Z)) :
  trackerFollows (paletteRun frames).
Proof.
  unfold paletteRun. generalize trackerFollows_new.
  generalize PaletteManager.new. induction frames as [|f frames IH]; intros p Hp.
  - exact Hp.
  - cbn [fold_left]. apply IH. apply trackerFollows_update. exact Hp.
Qed.

Lemma paletteRun_snoc (frames : list (list Z * list Z)) (bg spr : list Z) :
  paletteRun (frames ++ [(bg, spr)])
  = (PaletteManager.update (paletteRun frames) bg spr).1.
Proof. unfold paletteRun. rewrite fold_left_app. reflexivity. Qed.

Lemma paletteOk_spec (p : list Z) :
  paletteOk p = true → length p = 16%nat ∧ ∀ j c, p !! j = Some c → c ≠ -1.
Proof.
  unfold paletteOk. intros H. apply andb_true_iff in H as [Hl Hf].
  apply Nat.eqb_eq in Hl. split; [exact Hl|].
  intros j c Hj. rewrite forallb_forall in Hf.
  apply list_elem_of_lookup_2, list_elem_of_In in Hj. specialize (Hf c Hj).
  apply negb_true_iff, Z.eqb_neq in Hf. exact Hf.
Qed.

Lemma coloursFollow_current (prev cols : list Z) :
  coloursFollow prev cols → (∀ j c, prev !! j = Some c → c ≠ -1) →
  cols = map PaletteManager.toCSS prev.
Proof.
  intros (Lp & Lc & H) Hne. apply list_eq. intros j.
  rewrite list_lookup_fmap. destruct (prev !! j) as [c|] eqn:E.
  - destruct (H j c E) as [[Hc _]|Hc]; [destruct (Hne j c E Hc)|exact Hc].
  - apply lookup_ge_None in E. apply lookup_ge_None. lia.
Qed.

(** X3. Whatever frames a new tracker has been fed, after a frame whose
    two palettes have 16 entries each, none equal to -1, the baselines are
    that frame's palettes, every cached colour is the CSS form of the
    palette entry at the same index, and the backdrop colour is that of
    background entry 0. *)
Theorem PaletteManager_colours_follow_latest_frame
    (frames : list (list Z * list Z)) (bg spr : list Z) :
  paletteOk bg = true → paletteOk spr = true →
  let pm := paletteRun (frames ++ [(bg, spr)]) in
  PaletteManager.prevBg pm = bg
  ∧ PaletteManager.prevSpr pm = spr
  ∧ PaletteManager.bgColors pm = map PaletteManager.toCSS bg
  ∧ PaletteManager.sprColors pm = map PaletteManager.toCSS spr
  ∧ PaletteManager.getBackgroundColor pm = PaletteManager.toCSS (nth 0 bg 0).
Proof.
  intros Hb Hs pm.
  apply paletteOk_spec in Hb as [Lb Nb]. apply paletteOk_spec in Hs as [Ls Ns].
  pose proof (trackerFollows_run (frames ++ [(bg, spr)])) as [Fb Fs].
  fold pm in Fb, Fs.
  pose proof (trackerFollows_run frames) as [(Lb0 & _) (Ls0 & _)].
  destruct (PaletteManager_update_spec (paletteRun frames) bg spr)
    as ((Lb1 & Ls1) & Pb & Ps & _).
  rewrite <- paletteRun_snoc in Lb1, Ls1, Pb, Ps. fold pm in Lb1, Ls1, Pb, Ps.
  assert (Eb : PaletteManager.prevBg pm = bg).
  { apply (nth_ext _ _ 0 0); [lia|]. intros n Hn. apply Pb; lia. }
  assert (Es : PaletteManager.prevSpr pm = spr).
  { apply (nth_ext _ _ 0 0); [lia|]. intros n Hn. apply Ps; lia. }
  assert (Cb : PaletteManager.bgColors pm = map PaletteManager.toCSS bg).
  { transitivity (map PaletteManager.toCSS (PaletteManager.prevBg pm));
      [|rewrite Eb; reflexivity].
    apply coloursFollow_current; [exact Fb|]. rewrite Eb. exact Nb. }
  assert (Cs : PaletteManager.sprColors pm = map PaletteManager.toCSS spr).
  { transitivity (map PaletteManager.toCSS (PaletteManager.prevSpr pm));
      [|rewrite Es; reflexivity].
    apply coloursFollow_current; [exact Fs|]. rewrite Es. exact Ns. }
  repeat split; try assumption.
  unfold PaletteManager.getBackgroundColor. rewrite Cb.
  destruct bg as [|c bg]; [discriminate Lb | reflexivity].
Qed.

Lemma PaletteManager_colours_follow_latest_frame_witness :
  let pm := paletteRun ([(zeroPalette, zeroPalette)] ++ [(redBackdrop, zeroPalette)]) in
  PaletteManager.prevBg pm = redBackdrop
  ∧ PaletteManager.prevSpr pm = zeroPalette
  ∧ PaletteManager.bgColors pm = map PaletteManager.toCSS redBackdrop
  ∧ PaletteManager.sprColors pm = map PaletteManager.toCSS zeroPalette
  ∧ PaletteManager.getBackgroundColor pm
    = PaletteManager.toCSS (nth 0 redBackdrop 0).
Proof.
  apply (PaletteManager_colours_follow_latest_frame
           [(zeroPalette, zeroPalette)] redBackdrop zeroPalette).
  - reflexivity.
  - reflexivity.
Defined.

(** ** Colours between the tracker and the sheet renderer *)

Lemma lor_shiftl_add (hi lo k : Z) :
  0 <= k → 0 <= lo < 2 ^ k → Z.lor (Z.shiftl hi k) lo = hi * 2 ^ k + lo.
Proof.
  intros Hk Hlo. rewrite <- Z.shiftl_mul_pow2 by exact Hk.
  rewrite <- Z.lxor_lor, Z.add_nocarry_lxor; try reflexivity.
  - apply Z.bits_inj'. intros n Hn. rewrite Z.land_spec, Z.bits_0.
    destruct (Z.lt_ge_cases n k) as [Hlt|Hge].
    + rewrite Z.shiftl_spec_low by exact Hlt. reflexivity.
    + destruct (Z.eq_dec lo 0) as [->|Hz]; [rewrite Z.bits_0; apply andb_false_r|].
      rewrite (Z.bits_above_log2 lo n); [apply andb_false_r | lia |].
      apply Z.log2_lt_pow2; [lia|]. apply Z.lt_le_trans with (2 ^ k); [lia|].
      apply Z.pow_le_mono_r; lia.
  - apply Z.bits_inj'. intros n Hn. rewrite Z.land_spec, Z.bits_0.
    destruct (Z.lt_ge_cases n k) as [Hlt|Hge].
    + rewrite Z.shiftl_spec_low by exact Hlt. reflexivity.
    + destruct (Z.eq_dec lo 0) as [->|Hz]; [rewrite Z.bits_0; apply andb_false_r|].
      rewrite (Z.bits_above_log2 lo n); [apply andb_false_r | lia |].
      apply Z.log2_lt_pow2; [lia|]. apply Z.lt_le_trans with (2 ^ k); [lia|].
      apply Z.pow_le_mono_r; lia.
Qed.

Lemma land_255_mod (z : Z) : Z.land z 255 = z mod 256.
Proof. change 255 with (Z.ones 8). rewrite Z.land_ones by lia. reflexivity. Qed.

Lemma toCSS_arith (p : Z) :
  PaletteManager.toCSS p
  = p mod 256 * 65536 + (p / 256) mod 256 * 256 + (p / 65536) mod 256.
Proof.
  unfold PaletteManager.toCSS. cbv zeta. rewrite !land_255_mod.
  rewrite !Z.shiftr_div_pow2 by lia. change (2 ^ 8) with 256. change (2 ^ 16) with 65536.
  pose proof (Z.mod_pos_bound p 256 ltac:(lia)).
  pose proof (Z.mod_pos_bound (p / 256) 256 ltac:(lia)).
  pose proof (Z.mod_pos_bound (p / 65536) 256 ltac:(lia)).
  rewrite <- Z.lor_assoc. rewrite (lor_shiftl_add _ _ 8) by lia.
  rewrite (lor_shiftl_add _ _ 16) by lia. lia.
Qed.

Lemma parseColor_channels (r g b : Z) :
  0 <= r < 256 → 0 <= g < 256 → 0 <= b < 256 →
  TileCache.parseColor (r * 65536 + g * 256 + b) = (r, g, b).
Proof.
  intros Hr Hg Hb. unfold TileCache.parseColor. rewrite !land_255_mod.
  rewrite !Z.shiftr_div_pow2 by lia.
  change (2 ^ 16) with 65536. change (2 ^ 8) with 256.
  assert (E1 : (r * 65536 + g * 256 + b) / 65536 = r)
    by (symmetry; apply (Z.div_unique _ _ _ (g * 256 + b)); lia).
  assert (E2 : (r * 65536 + g * 256 + b) / 256 = r * 256 + g)
    by (symmetry; apply (Z.div_unique _ _ _ b); lia).
  assert (E3 : (r * 65536 + g * 256 + b) mod 256 = b)
    by (symmetry; apply (Z.mod_unique _ _ (r * 256 + g)); lia).
  assert (E4 : (r * 256 + g) mod 256 = g)
    by (symmetry; apply (Z.mod_unique _ _ r); lia).
  rewrite E1, E2, E3, E4, (Z.mod_small r) by lia. reflexivity.
Qed.

(** X4. For every integer [packed], [_toCSS] yields a 24-bit colour, the
    channel triple that [_renderSheet] parses from it is the low byte, the
    second byte and the third byte of [packed] in this order (red, green,
    blue of a 0xBBGGRR value), and converting twice gives back the low 24
    bits of [packed]. *)
Theorem toCSS_parseColor_channels (packed : Z) :
  0 <= PaletteManager.toCSS packed < 2 ^ 24
  ∧ TileCache.parseColor (PaletteManager.toCSS packed)
    = (packed mod 256, (packed / 256) mod 256, (packed / 65536) mod 256)
  ∧ PaletteManager.toCSS (PaletteManager.toCSS packed) = packed mod 2 ^ 24.
Proof.
  pose proof (Z.mod_pos_bound packed 256 ltac:(lia)) as Hr.
  pose proof (Z.mod_pos_bound (packed / 256) 256 ltac:(lia)) as Hg.
  pose proof (Z.mod_pos_bound (packed / 65536) 256 ltac:(lia)) as Hb.
  rewrite (toCSS_arith (PaletteManager.toCSS packed)).
  rewrite (toCSS_arith packed).
  set (r := packed mod 256) in *. set (g := (packed / 256) mod 256) in *.
  set (b := (packed / 65536) mod 256) in *.
  split; [change (2 ^ 24) with 16777216; lia|].
  split; [apply parseColor_channels; assumption|].
  assert (E1 : (r * 65536 + g * 256 + b) / 65536 = r)
    by (symmetry; apply (Z.div_unique _ _ _ (g * 256 + b)); lia).
  assert (E2 : (r * 65536 + g * 256 + b) / 256 = r * 256 + g)
    by (symmetry; apply (Z.div_unique _ _ _ b); lia).
  assert (E3 : (r * 65536 + g * 256 + b) mod 256 = b)
    by (symmetry; apply (Z.mod_unique _ _ (r * 256 + g)); lia).
  assert (E4 : (r * 256 + g) mod 256 = g)
    by (symmetry; apply (Z.mod_unique _ _ r); lia).
  rewrite E1, E2, E3, E4, (Z.mod_small r) by lia.
  change (2 ^ 24) with 16777216.
  apply (Z.mod_unique _ _ (packed / 65536 / 256)); [lia|].
  pose proof (Z.div_mod packed 256 ltac:(lia)) as D1.
  pose proof (Z.div_mod (packed / 256) 256 ltac:(lia)) as D2.
  pose proof (Z.div_mod (packed / 65536) 256 ltac:(lia)) as D3.
  assert (D4 : packed / 256 / 256 = packed / 65536)
    by (rewrite Z.div_div by lia; reflexivity).
  fold r in D1. fold g in D2. fold b in D3. lia.
Qed.
(** ** The tile-sheet cache: positions of out-of-range indices *)

(** X5. [getTilePosition] wraps any integer index onto the 16x16 grid: an
    index and its residue modulo 256 give the same position, and both
    offsets are multiples of 8 between 0 and 120. *)
Theorem getTilePosition_wraps (index : Z) :
  TileCache.tileOffset index = TileCache.tileOffset (index mod 256)
  ∧ TileCache.getTilePosition index = TileCache.getTilePosition (index mod 256)
  ∧ 0 <= (TileCache.tileOffset index).1 <= 120
  ∧ 0 <= (TileCache.tileOffset index).2 <= 120
  ∧ (TileCache.tileOffset index).1 mod 8 = 0
  ∧ (TileCache.tileOffset index).2 mod 8 = 0.
Proof.
  assert (E : ∀ z, TileCache.tileOffset z = (z mod 16 * 8, (z / 16) mod 16 * 8)).
  { intros z. unfold TileCache.tileOffset. cbv zeta.
    rewrite !land_15_mod, shiftr_4_div. reflexivity. }
  assert (Ew : TileCache.tileOffset index = TileCache.tileOffset (index mod 256)).
  { rewrite !E.
    pose proof (Z.div_mod index 16 ltac:(lia)) as D1.
    pose proof (Z.div_mod index 256 ltac:(lia)) as D2.
    pose proof (Z.div_mod (index / 16) 16 ltac:(lia)) as D3.
    assert (D4 : index / 16 / 16 = index / 256)
      by (rewrite Z.div_div by lia; reflexivity).
    pose proof (Z.mod_pos_bound index 16 ltac:(lia)) as B1.
    pose proof (Z.mod_pos_bound (index / 16) 16 ltac:(lia)) as B2.
    assert (M : index mod 256 = 16 * ((index / 16) mod 16) + index mod 16) by lia.
    assert (M1 : (index mod 256) mod 16 = index mod 16).
    { symmetry. apply (Z.mod_unique _ _ ((index / 16) mod 16)); [lia | exact M]. }
    assert (M2 : (index mod 256) / 16 = (index / 16) mod 16).
    { symmetry. apply (Z.div_unique _ _ _ (index mod 16)); [lia | exact M]. }
    rewrite M1, M2, Z.mod_mod by lia. reflexivity. }
  split; [exact Ew|]. split.
  { unfold TileCache.getTilePosition. rewrite <- Ew. reflexivity. }
  rewrite E. cbn [fst snd].
  pose proof (Z.mod_pos_bound index 16 ltac:(lia)).
  pose proof (Z.mod_pos_bound (index / 16) 16 ltac:(lia)).
  rewrite !Z.mod_mul by lia. lia.
Qed.

(** ** The tile-sheet cache: when a sheet is regenerated *)

Lemma render_loop_elem (cond : nat → bool) (sheetOf : nat → Z) (base : Z)
    (gs : list nat) (k b : Z) :
  TileCache.RenderSheet k b
  ∈ flat_map (fun g => if cond g then [TileCache.RenderSheet (sheetOf g) base] else [])
             gs
  ↔ ∃ g, g ∈ gs ∧ cond g = true ∧ k = sheetOf g ∧ b = base.
Proof.
  rewrite list_elem_of_In, in_flat_map. split.
  - intros (g & Hg & H). exists g. apply list_elem_of_In in Hg.
    destruct (cond g); [|destruct H]. destruct H as [H|[]].
    injection H as <- <-. auto.
  - intros (g & Hg & Hc & -> & ->). exists g. apply list_elem_of_In in Hg.
    split; [exact Hg|]. rewrite Hc. left. reflexivity.
Qed.

(** Which [_renderSheet] calls the three loops make, sheet by sheet. *)
Lemma expectedRenders_sheet (pm : PaletteManager.t) (bgBase : Z)
    (sg : TileCache.signals) (g : Z) :
  0 <= g < 4 →
  (TileCache.RenderSheet g bgBase ∈ expectedRenders pm bgBase sg
   ↔ bool_decide (g ∈ PaletteManager.dirtyBgGroups pm)
     || TileCache.bgDirty sg || TileCache.bgBaseChanged sg = true)
  ∧ (TileCache.RenderSheet (4 + g) 0 ∈ expectedRenders pm bgBase sg
     ↔ bool_decide (g ∈ PaletteManager.dirtySprGroups pm)
       || TileCache.spr0Dirty sg = true)
  ∧ (TileCache.RenderSheet (8 + g) 256 ∈ expectedRenders pm bgBase sg
     ↔ bool_decide (g ∈ PaletteManager.dirtySprGroups pm)
       || TileCache.spr1Dirty sg = true).
Proof.
  intros Hg. unfold expectedRenders. rewrite !elem_of_app.
  rewrite !(render_loop_elem
             (fun g => bool_decide (Z.of_nat g ∈ PaletteManager.dirtyBgGroups pm)
                       || TileCache.bgDirty sg || TileCache.bgBaseChanged sg)
             (fun g => Z.of_nat g)).
  rewrite !(render_loop_elem
             (fun g => bool_decide (Z.of_nat g ∈ PaletteManager.dirtySprGroups pm)
                       || TileCache.spr0Dirty sg)
             (fun g => 4 + Z.of_nat g)).
  rewrite !(render_loop_elem
             (fun g => bool_decide (Z.of_nat g ∈ PaletteManager.dirtySprGroups pm)
                       || TileCache.spr1Dirty sg)
             (fun g => 8 + Z.of_nat g)).
  assert (Hin : Z.to_nat g ∈ seq 0 4) by (apply elem_of_seq; lia).
  assert (Hz : Z.of_nat (Z.to_nat g) = g) by lia.
  repeat split.
  - intros [(n & Hn & Hc & E & _)|[(n & Hn & _ & E & _)|(n & Hn & _ & E & _)]];
      apply elem_of_seq in Hn; [| lia | lia].
    replace g with (Z.of_nat n) by lia. exact Hc.
  - intros Hc. left. exists (Z.to_nat g). rewrite Hz. auto.
  - intros [(n & Hn & _ & E & _)|[(n & Hn & Hc & E & _)|(n & Hn & _ & E & _)]];
      apply elem_of_seq in Hn; [lia | | lia].
    replace g with (Z.of_nat n) by lia. exact Hc.
  - intros Hc. right. left. exists (Z.to_nat g). rewrite Hz. auto.
  - intros [(n & Hn & _ & E & _)|[(n & Hn & _ & E & _)|(n & Hn & Hc & E & _)]];
      apply elem_of_seq in Hn; [lia | lia |].
    replace g with (Z.of_nat n) by lia. exact Hc.
  - intros Hc. right. right. exists (Z.to_nat g). rewrite Hz. auto.
Qed.

(** The same for a completed [update], against its log and against the
    set [updatedSheets] it leaves. *)
Lemma update_sheet_iff (tc tc' : TileCache.t) (ptTile : list slot)
    (pm : PaletteManager.t) (bgBase sprBase : Z) (sig : option (list jsref))
    (log : list TileCache.event) (g : Z) :
  TileCache.update tc ptTile pm bgBase sprBase sig = Some (tc', log) →
  0 <= g < 4 →
  let sg := (TileCache.detect tc ptTile bgBase sig).2 in
  (g ∈ TileCache.updatedSheets tc'
   ↔ bool_decide (g ∈ PaletteManager.dirtyBgGroups pm)
     || TileCache.bgDirty sg || TileCache.bgBaseChanged sg = true)
  ∧ (4 + g ∈ TileCache.updatedSheets tc'
     ↔ bool_decide (g ∈ PaletteManager.dirtySprGroups pm)
       || TileCache.spr0Dirty sg = true)
  ∧ (8 + g ∈ TileCache.updatedSheets tc'
     ↔ bool_decide (g ∈ PaletteManager.dirtySprGroups pm)
       || TileCache.spr1Dirty sg = true).
Proof.
  intros E Hg sg.
  destruct (update_log _ _ _ _ _ _ _ _ E) as (tail & -> & Ht).
  fold sg in E |- *.
  assert (Hlog : ∀ k, k ∈ TileCache.updatedSheets tc'
                      ↔ ∃ b, TileCache.RenderSheet k b ∈ expectedRenders pm bgBase sg).
  { intros k. rewrite (proj1 (update_render_elem _ _ _ _ _ _ _ _ k E)).
    split; intros [b Hb]; exists b.
    - apply elem_of_app in Hb as [Hb|Hb]; [exact Hb|].
      assert (Hk : k ∈ renderedSheets tail) by (apply renderedSheets_elem; eauto).
      rewrite Ht in Hk. inversion Hk.
    - apply elem_of_app. left. exact Hb. }
  destruct (expectedRenders_sheet pm bgBase sg g Hg) as (H0 & H4 & H8).
  rewrite <- H0, <- H4, <- H8, !Hlog. repeat split.
  - intros [b Hb]. destruct (expectedRenders_elem _ _ _ _ _ Hb) as [[_ ->]|[?|?]];
      [exact Hb | lia | lia].
  - intros H. eauto.
  - intros [b Hb]. destruct (expectedRenders_elem _ _ _ _ _ Hb) as [?|[[_ ->]|?]];
      [lia | exact Hb | lia].
  - intros H. eauto.
  - intros [b Hb]. destruct (expectedRenders_elem _ _ _ _ _ Hb) as [?|[?|[_ ->]]];
      [lia | lia | exact Hb].
  - intros H. eauto.
Qed.

Lemma update_sheet_range (tc tc' : TileCache.t) (ptTile : list slot)
    (pm : PaletteManager.t) (bgBase sprBase : Z) (sig : option (list jsref))
    (log : list TileCache.event) (k : Z) :
  TileCache.update tc ptTile pm bgBase sprBase sig = Some (tc', log) →
  k ∈ TileCache.updatedSheets tc' → 0 <= k < 12.
Proof.
  intros E Hk. destruct (update_render_elem _ _ _ _ _ _ _ _ k E) as [H1 H2].
  apply H1 in Hk as [b Hb]. specialize (H2 b Hb). lia.
Qed.

(** What a completed [update] leaves as baselines for the next call. *)
Lemma update_baselines (tc tc' : TileCache.t) (ptTile : list slot)
    (pm : PaletteManager.t) (bgBase sprBase : Z) (sig : option (list jsref))
    (log : list TileCache.event) :
  length (TileCache.tileChecksums tc) = 512%nat →
  length (TileCache.prevBankRefs tc) = 8%nat →
  TileCache.update tc ptTile pm bgBase sprBase sig = Some (tc', log) →
  length (TileCache.tileChecksums tc') = 512%nat
  ∧ length (TileCache.prevBankRefs tc') = 8%nat
  ∧ TileCache.prevBgBase tc' = bgBase
  ∧ (∀ i, (i < 512)%nat →
          nth i (TileCache.tileChecksums tc') 0
          = storedAfterScan ptTile (TileCache.tileChecksums tc) i)
  ∧ (∀ k, (k < 8)%nat →
          get_ref (TileCache.prevBankRefs tc') k
          = match sig with
            | Some s => get_ref s k
            | None => get_ref (TileCache.prevBankRefs tc) k
            end).
Proof.
  intros Hl Hr E.
  destruct (update_inv _ _ _ _ _ _ _ _ E) as (_ & _ & Hs1 & Hr1 & Hb1).
  destruct (detect_spec tc ptTile bgBase sig)
    as (sums & d0 & d1 & Es & _ & Eb & Esums & Erefs & _).
  cbv zeta in Eb, Esums, Erefs. rewrite Esums in Hs1. rewrite Erefs in Hr1.
  rewrite Eb in Hb1.
  destruct (scan_spec _ _ _ _ _ Hl Es) as (Ls & Ns & _ & _).
  rewrite Hs1, Hr1. repeat split; try assumption.
  - destruct sig; [rewrite updateBankRefs_length|]; exact Hr.
  - intros k Hk. destruct sig; [|reflexivity].
    apply updateBankRefs_get; assumption.
Qed.

(** The signals of a call after a call, in terms of the two inputs. *)
Lemma checkBankDirty_switched (tc : TileCache.t) (sig sig' : list jsref) (ptBase : Z) :
  (∀ k, (k < 8)%nat → get_ref (TileCache.prevBankRefs tc) k = get_ref sig k) →
  TileCache.checkBankDirty tc sig' ptBase = true
  ↔ bankSwitched sig sig' (bankOf ptBase).
Proof.
  intros Hrefs. rewrite checkBankDirty_iff. unfold bankSwitched, bankOf.
  destruct (256 <=? ptBase); cbn [Nat.mul Nat.add];
    split; intros (k & Hk & H); exists k; (split; [exact Hk|]).
  - rewrite <- Hrefs by lia. exact H.
  - rewrite Hrefs by lia. exact H.
  - rewrite <- Hrefs by lia. exact H.
  - rewrite Hrefs by lia. exact H.
Qed.

Lemma noNewTiles_spec (ptTile ptTile' : list slot) (i : nat) (t' : Tile) :
  noNewTiles ptTile ptTile' = true → (i < 512)%nat →
  get_slot ptTile' (Z.of_nat i) = Obj t' →
  ∃ t, get_slot ptTile (Z.of_nat i) = Obj t.
Proof.
  unfold noNewTiles. rewrite forallb_forall. intros H Hi Ht'.
  specialize (H i). rewrite in_seq in H. specialize (H ltac:(lia)).
  unfold present in H. rewrite Ht' in H.
  destruct (get_slot ptTile (Z.of_nat i)) as [| |t]; try discriminate. eauto.
Qed.

Lemma tileDirty_written (ptTile ptTile' : list slot) (sums0 sums : list Z) (i : nat) :
  noNewTiles ptTile ptTile' = true → (i < 512)%nat →
  nth i sums 0 = storedAfterScan ptTile sums0 i →
  tileDirty ptTile' sums i = true
  ↔ ∃ t t', get_slot ptTile (Z.of_nat i) = Obj t
            ∧ get_slot ptTile' (Z.of_nat i) = Obj t'
            ∧ TileCache.hashPix (pix t') ≠ TileCache.hashPix (pix t).
Proof.
  intros Hn Hi Hs. unfold tileDirty. rewrite Hs. unfold storedAfterScan. split.
  - destruct (get_slot ptTile' (Z.of_nat i)) as [| |t'] eqn:E'; try discriminate.
    destruct (noNewTiles_spec _ _ _ _ Hn Hi E') as [t E]. rewrite E.
    intros H. apply negb_true_iff, Z.eqb_neq in H. eauto.
  - intros (t & t' & -> & -> & H). apply negb_true_iff, Z.eqb_neq. exact H.
Qed.

(** X6. The invalidation rule across two consecutive calls that both pass
    a bank signature, over tables in which no tile record appears that was
    not there before.  Call a pattern table dirty when one of its four
    sampled references differs between the two signatures or one of its
    256 tiles hashes differently.  Both calls complete, and in the second
    one background sheet [g] is regenerated exactly when background group
    [g] is dirty in the tracker, or the background base differs from the
    previous call's, or the pattern table the base selects is dirty; sprite
    sheet [4+g] exactly when sprite group [g] is dirty or pattern table 0
    is; sprite sheet [8+g] exactly when sprite group [g] is dirty or
    pattern table 1 is.  No other sheet index is ever reported. *)
Theorem TileCache_regeneration_criterion
    (tc0 : TileCache.t) (ptTile ptTile' : list slot) (pm pm' : PaletteManager.t)
    (bgBase bgBase' sprBase sprBase' : Z) (sig sig' : list jsref) :
  length (TileCache.tileChecksums tc0) = 512%nat →
  length (TileCache.prevBankRefs tc0) = 8%nat →
  tilesOk ptTile = true →
  tilesOk ptTile' = true →
  noNewTiles ptTile ptTile' = true →
  ∃ tc1 log1 tc2 log2,
    TileCache.update tc0 ptTile pm bgBase sprBase (Some sig) = Some (tc1, log1)
    ∧ TileCache.update tc1 ptTile' pm' bgBase' sprBase' (Some sig') = Some (tc2, log2)
    ∧ (∀ k, k ∈ TileCache.updatedSheets tc2 → 0 <= k < 12)
    ∧ ∀ g, 0 <= g < 4 →
        (g ∈ TileCache.updatedSheets tc2
         ↔ g ∈ PaletteManager.dirtyBgGroups pm'
           ∨ bgBase' ≠ bgBase
           ∨ bankSwitched sig sig' (bankOf bgBase')
           ∨ bankWritten ptTile ptTile' (bankOf bgBase'))
        ∧ (4 + g ∈ TileCache.updatedSheets tc2
           ↔ g ∈ PaletteManager.dirtySprGroups pm'
             ∨ bankSwitched sig sig' 0 ∨ bankWritten ptTile ptTile' 0)
        ∧ (8 + g ∈ TileCache.updatedSheets tc2
           ↔ g ∈ PaletteManager.dirtySprGroups pm'
             ∨ bankSwitched sig sig' 1 ∨ bankWritten ptTile ptTile' 1).
Proof.
  intros Hl0 Hr0 Hok Hok' Hnn.
  destruct (update_total tc0 ptTile pm bgBase sprBase (Some sig) Hok)
    as [[tc1 log1] E1].
  destruct (update_total tc1 ptTile' pm' bgBase' sprBase' (Some sig') Hok')
    as [[tc2 log2] E2].
  exists tc1, log1, tc2, log2. split; [exact E1|]. split; [exact E2|].
  split; [intros k; apply (update_sheet_range _ _ _ _ _ _ _ _ _ E2)|].
  destruct (update_baselines _ _ _ _ _ _ _ _ Hl0 Hr0 E1)
    as (Ls & Lr & Hb1 & Ns & Hrefs).
  intros g Hg.
  destruct (update_sheet_iff _ _ _ _ _ _ _ _ g E2 Hg) as (H0 & H4 & H8).
  destruct (detect_spec tc1 ptTile' bgBase' (Some sig'))
    as (sums' & d0' & d1' & Es' & _ & _ & _ & _ & Dc & Db & D0 & D1).
  cbv zeta in Dc, Db, D0, D1, H0, H4, H8. cbv beta iota in Db, D0, D1.
  destruct (scan_spec _ _ _ _ _ Ls Es') as (_ & _ & C0 & C1).
  assert (W0 : d0' = true ↔ bankWritten ptTile ptTile' 0).
  { rewrite C0. unfold bankWritten. split.
    - intros (i & Hi & Hd).
      apply (tileDirty_written ptTile ptTile' (TileCache.tileChecksums tc0)) in Hd;
        [|exact Hnn | lia | apply Ns; lia].
      destruct Hd as (t & t' & ? & ? & ?). exists i, t, t'.
      repeat split; try assumption; lia.
    - intros (i & t & t' & Hi & ? & ? & ?). exists i. split; [lia|].
      apply (tileDirty_written ptTile ptTile' (TileCache.tileChecksums tc0));
        [exact Hnn | lia | apply Ns; lia | eauto]. }
  assert (W1 : d1' = true ↔ bankWritten ptTile ptTile' 1).
  { rewrite C1. unfold bankWritten. split.
    - intros (i & Hi & Hd).
      apply (tileDirty_written ptTile ptTile' (TileCache.tileChecksums tc0)) in Hd;
        [|exact Hnn | lia | apply Ns; lia].
      destruct Hd as (t & t' & ? & ? & ?). exists i, t, t'.
      repeat split; try assumption; lia.
    - intros (i & t & t' & Hi & ? & ? & ?). exists i. split; [lia|].
      apply (tileDirty_written ptTile ptTile' (TileCache.tileChecksums tc0));
        [exact Hnn | lia | apply Ns; lia | eauto]. }
  assert (S : ∀ base, TileCache.checkBankDirty tc1 sig' base = true
                      ↔ bankSwitched sig sig' (bankOf base)).
  { intros base. apply checkBankDirty_switched. exact Hrefs. }
  rewrite H0, H4, H8, Dc, Db, D0, D1, Hb1.
  rewrite !orb_true_iff, bool_decide_eq_true, negb_true_iff, Z.eqb_neq, !S.
  rewrite bool_decide_eq_true.
  change (bankOf 0) with 0%nat. change (bankOf 256) with 1%nat.
  rewrite <- W0, <- W1.
  assert (Wb : (if 256 <=? bgBase' then d1' else d0') = true
               ↔ bankWritten ptTile ptTile' (bankOf bgBase')).
  { unfold bankOf. destruct (256 <=? bgBase'); [exact W1 | exact W0]. }
  rewrite Wb. tauto.
Qed.

Lemma TileCache_regeneration_criterion_witness :
  ∃ tc1 log1 tc2 log2,
    TileCache.update TileCache.new twoTiles trackerAfterZero 0 0
      (Some (extractCHRBankSignature twoTiles)) = Some (tc1, log1)
    ∧ TileCache.update tc1 twoTilesWritten trackerSteady 0 0
        (Some (extractCHRBankSignature twoTilesWritten)) = Some (tc2, log2)
    ∧ (∀ k, k ∈ TileCache.updatedSheets tc2 → 0 <= k < 12)
    ∧ ∀ g, 0 <= g < 4 →
        (g ∈ TileCache.updatedSheets tc2
         ↔ g ∈ PaletteManager.dirtyBgGroups trackerSteady
           ∨ 0 ≠ 0
           ∨ bankSwitched (extractCHRBankSignature twoTiles)
               (extractCHRBankSignature twoTilesWritten) (bankOf 0)
           ∨ bankWritten twoTiles twoTilesWritten (bankOf 0))
        ∧ (4 + g ∈ TileCache.updatedSheets tc2
           ↔ g ∈ PaletteManager.dirtySprGroups trackerSteady
             ∨ bankSwitched (extractCHRBankSignature twoTiles)
                 (extractCHRBankSignature twoTilesWritten) 0
             ∨ bankWritten twoTiles twoTilesWritten 0)
        ∧ (8 + g ∈ TileCache.updatedSheets tc2
           ↔ g ∈ PaletteManager.dirtySprGroups trackerSteady
             ∨ bankSwitched (extractCHRBankSignature twoTiles)
                 (extractCHRBankSignature twoTilesWritten) 1
             ∨ bankWritten twoTiles twoTilesWritten 1).
Proof.
  apply (TileCache_regeneration_criterion TileCache.new twoTiles twoTilesWritten
           trackerAfterZero trackerSteady 0 0 0 0).
  - reflexivity.
  - reflexivity.
  - vm_compute. reflexivity.
  - vm_compute. reflexivity.
  - vm_compute. reflexivity.
Defined.

(** ** The tile-sheet cache: the raster of a sheet *)

Lemma nth_insert_dec {A : Type} (l : list A) (i n : nat) (x d : A) :
  nth n (<[i := x]> l) d
  = if decide (n = i ∧ (i < length l)%nat) then x else nth n l d.
Proof.
  rewrite !nth_lookup. destruct (decide _) as [[-> H]|H].
  - rewrite list_lookup_insert_eq by exact H. reflexivity.
  - destruct (decide (n = i)) as [->|Hne].
    + rewrite list_insert_ge by lia. reflexivity.
    + rewrite list_lookup_insert_ne by congruence. reflexivity.
Qed.

Lemma putPixel_length (data : TileCache.ImageData) (destOffset r g b a : Z) :
  length (TileCache.putPixel data destOffset r g b a) = length data.
Proof.
  unfold TileCache.putPixel, TileCache.ImageData. cbv zeta.
  rewrite !length_insert. reflexivity.
Qed.

Lemma putPixel_nth (data : TileCache.ImageData) (destOffset r g b a : Z) (n : nat) :
  (Z.to_nat destOffset + 3 < length data)%nat →
  nth n (TileCache.putPixel data destOffset r g b a) 0
  = if decide (Z.to_nat destOffset <= n < Z.to_nat destOffset + 4)%nat
    then nth (n - Z.to_nat destOffset) [r; g; b; a] 0
    else nth n data 0.
Proof.
  intros Hlen. unfold TileCache.putPixel, TileCache.ImageData in *. cbv zeta.
  set (o := Z.to_nat destOffset) in *.
  rewrite !nth_insert_dec, !length_insert.
  destruct (decide (o <= n < o + 4)%nat) as [Hin|Hout].
  - destruct (decide (n = o)) as [->|H0].
    { replace (o - o)%nat with 0%nat by lia. repeat (destruct (decide _); try lia);
      try reflexivity. }
    destruct (decide (n = o + 1)%nat) as [->|H1].
    { replace (o + 1 - o)%nat with 1%nat by lia.
      repeat (destruct (decide _); try lia); try reflexivity. }
    destruct (decide (n = o + 2)%nat) as [->|H2].
    { replace (o + 2 - o)%nat with 2%nat by lia.
      repeat (destruct (decide _); try lia); try reflexivity. }
    assert (n = o + 3)%nat as -> by lia.
    replace (o + 3 - o)%nat with 3%nat by lia.
    repeat (destruct (decide _); try lia); try reflexivity.
  - repeat (destruct (decide _); try lia); try reflexivity.
Qed.

Lemma renderPixel_bytes (rgb : list (Z * Z * Z)) (tile : Tile) (baseX baseY : Z)
    (py px : nat) (data data' : TileCache.ImageData) :
  TileCache.renderPixel rgb tile baseX baseY py px data = Some data' →
  ∃ r g b a,
    pixelRGBA rgb tile py px = Some [r; g; b; a]
    ∧ data' = TileCache.putPixel data
                (((baseY + Z.of_nat py) * 128 + (baseX + Z.of_nat px)) * 4) r g b a.
Proof.
  unfold TileCache.renderPixel, pixelRGBA.
  destruct (pix tile !! (Nat.shiftl py 3 + px)%nat) as [c|]; [|discriminate].
  cbn [mbind option_bind]. destruct (c =? 0).
  - intros H. injection H as <-. exists 0, 0, 0, 0. split; reflexivity.
  - destruct (if c <? 0 then None else rgb !! Z.to_nat c) as [[[r g] b]|];
      [|discriminate].
    cbn [mbind option_bind]. intros H. injection H as <-.
    exists r, g, b, 255. split; reflexivity.
Qed.

Lemma destOffset_byteOffset (tileIdx py px : nat) :
  (tileIdx < 256)%nat →
  Z.to_nat (((Z.land (Z.shiftr (Z.of_nat tileIdx) 4) 15 * 8 + Z.of_nat py) * 128
             + (Z.land (Z.of_nat tileIdx) 15 * 8 + Z.of_nat px)) * 4)
  = byteOffset tileIdx py px.
Proof.
  intros Ht. rewrite !land_15_mod, shiftr_4_div.
  rewrite (Z.mod_small (Z.of_nat tileIdx / 16)).
  2:{ split; [apply Z.div_pos; lia | apply Z.div_lt_upper_bound; lia]. }
  unfold byteOffset.
  rewrite <- (Nat2Z.id (4 * _)). f_equal.
  rewrite !Nat2Z.inj_mul, !Nat2Z.inj_add, !Nat2Z.inj_mul, !Nat2Z.inj_add,
    !Nat2Z.inj_mul, Nat2Z.inj_div, Nat2Z.inj_mod. cbn [Z.of_nat Pos.of_succ_nat Pos.succ]. lia.
Qed.

(** Distinct (tile, row, column) triples own distinct bytes. *)
Lemma byteOffset_inj (t t' py py' px px' j j' : nat) :
  (py < 8)%nat → (py' < 8)%nat → (px < 8)%nat → (px' < 8)%nat →
  (j < 4)%nat → (j' < 4)%nat →
  (byteOffset t py px + j = byteOffset t' py' px' + j')%nat →
  t = t' ∧ py = py' ∧ px = px' ∧ j = j'.
Proof.
  intros ? ? ? ? ? ?. unfold byteOffset.
  pose proof (Nat.div_mod_eq t 16). pose proof (Nat.mod_upper_bound t 16 ltac:(lia)).
  pose proof (Nat.div_mod_eq t' 16). pose proof (Nat.mod_upper_bound t' 16 ltac:(lia)).
  intros E. lia.
Qed.

Lemma byteOffset_bound (t py px : nat) :
  (t < 256)%nat → (py < 8)%nat → (px < 8)%nat →
  (byteOffset t py px + 3 < 128 * 128 * 4)%nat.
Proof.
  intros ? ? ?. unfold byteOffset.
  pose proof (Nat.div_mod_eq t 16). pose proof (Nat.mod_upper_bound t 16 ltac:(lia)).
  lia.
Qed.

(** A loop whose iterations each write a region of the raster, the regions
    of different iterations being disjoint: every write survives, and
    nothing else is touched. *)
Section WriteLoop.

Variables (L : nat) (body : nat → TileCache.ImageData → option TileCache.ImageData)
          (dom : nat → Prop) (wr : nat → nat → Z → Prop).

Hypothesis body_spec : ∀ i data data',
  dom i → length data = L → body i data = Some data' →
  length data' = L
  ∧ (∀ o v, wr i o v → nth o data' 0 = v)
  ∧ (∀ o, (∀ v, ¬ wr i o v) → nth o data' 0 = nth o data 0).

Hypothesis disjoint : ∀ i j o v v',
  dom i → dom j → i ≠ j → wr i o v → wr j o v' → False.

Lemma write_loop (idx : list nat) (data data' : TileCache.ImageData) :
  NoDup idx → (∀ i, i ∈ idx → dom i) → length data = L →
  forM idx body data = Some data' →
  length data' = L
  ∧ (∀ i o v, i ∈ idx → wr i o v → nth o data' 0 = v)
  ∧ (∀ o, (∀ i v, i ∈ idx → ¬ wr i o v) → nth o data' 0 = nth o data 0).
Proof.
  revert data. induction idx as [|i idx IH]; intros data Hnd Hdom Hlen E.
  - cbn in E. injection E as <-. split; [exact Hlen|]. split.
    + intros i o v Hi. inversion Hi.
    + reflexivity.
  - cbn [forM] in E. destruct (body i data) as [d1|] eqn:E1; [|discriminate].
    apply NoDup_cons in Hnd as [Hni Hnd].
    assert (Hdi : dom i) by (apply Hdom; left).
    destruct (body_spec i data d1 Hdi Hlen E1) as (L1 & W1 & F1).
    destruct (IH d1 Hnd (fun j Hj => Hdom j (list_elem_of_further _ _ _ Hj)) L1 E)
      as (L2 & W2 & F2).
    split; [exact L2|]. split.
    + intros i' o v Hi' Hw. apply elem_of_cons in Hi' as [->|Hi'].
      * rewrite F2; [apply W1; exact Hw|].
        intros j v' Hj Hw'. apply (disjoint i j o v v'); try assumption.
        -- apply Hdom. right. exact Hj.
        -- intros ->. contradiction.
      * apply (W2 i'); assumption.
    + intros o Hno. rewrite F2.
      * apply F1. intros v Hw. apply (Hno i v); [left | exact Hw].
      * intros j v Hj. apply Hno. right. exact Hj.
Qed.

End WriteLoop.

Lemma wrPixel_inj (rgb : list (Z * Z * Z)) (t t' : nat) (tile tile' : Tile)
    (py py' px px' o : nat) (v v' : Z) :
  (py < 8)%nat → (py' < 8)%nat → (px < 8)%nat → (px' < 8)%nat →
  wrPixel rgb t tile py px o v → wrPixel rgb t' tile' py' px' o v' →
  t = t' ∧ py = py' ∧ px = px'.
Proof.
  intros ? ? ? ? (bs & j & _ & Hj & -> & _) (bs' & j' & _ & Hj' & E & _).
  destruct (byteOffset_inj t t' py py' px px' j j') as (? & ? & ? & ?); auto.
Qed.

(** The loop over [px]: one row of a tile. *)
Lemma renderRow_spec (rgb : list (Z * Z * Z)) (tileIdx : nat) (tile : Tile)
    (py : nat) (data data' : TileCache.ImageData) :
  (tileIdx < 256)%nat → (py < 8)%nat →
  length data = (128 * 128 * 4)%nat →
  forM (seq 0 8)
    (fun px => TileCache.renderPixel rgb tile
                 (Z.land (Z.of_nat tileIdx) 15 * 8)
                 (Z.land (Z.shiftr (Z.of_nat tileIdx) 4) 15 * 8) py px)
    data = Some data' →
  length data' = (128 * 128 * 4)%nat
  ∧ (∀ o v, wrRow rgb tileIdx tile py o v → nth o data' 0 = v)
  ∧ (∀ o, (∀ v, ¬ wrRow rgb tileIdx tile py o v) → nth o data' 0 = nth o data 0).
Proof.
  intros Ht Hpy Hlen E.
  eapply (write_loop (128 * 128 * 4) _
            (fun px => (px < 8)%nat)
            (fun px => wrPixel rgb tileIdx tile py px)) in E;
    [destruct E as (Hl & Hw & Hf)| | | | |].
  6: exact Hlen.
  5: { intros px Hpx. apply elem_of_seq in Hpx. lia. }
  4: apply NoDup_seq.
  3: { intros px px' o v v' Hpx Hpx' Hne H1 H2.
       destruct (wrPixel_inj _ _ _ _ _ _ _ _ _ _ _ _ Hpy Hpy Hpx Hpx' H1 H2)
         as (_ & _ & ?). contradiction. }
  2: { intros px d d' Hpx Hd Ed.
    apply renderPixel_bytes in Ed as (r & g & b & a & Hb & ->).
    pose proof (destOffset_byteOffset tileIdx py px Ht) as Eo.
    pose proof (byteOffset_bound tileIdx py px Ht Hpy Hpx) as Hbo.
    split; [rewrite putPixel_length; exact Hd|]. split.
    + intros o v (bs & j & Hbs & Hj & -> & <-).
      rewrite Hb in Hbs. injection Hbs as <-.
      rewrite putPixel_nth by (rewrite Eo; lia). rewrite Eo.
      destruct (decide _); [|lia]. f_equal. lia.
    + intros o Hno. rewrite putPixel_nth by (rewrite Eo; lia). rewrite Eo.
      destruct (decide _) as [Hin|]; [|reflexivity].
      destruct (Hno (nth (o - byteOffset tileIdx py px) [r; g; b; a] 0)).
      exists [r; g; b; a], (o - byteOffset tileIdx py px)%nat.
      repeat split; [exact Hb | lia | lia]. }
  split; [exact Hl|]. split.
  - intros o v (px & Hpx & Hp). apply (Hw px); [apply elem_of_seq; lia | exact Hp].
  - intros o Hno. apply Hf. intros px v Hpx Hp. apply (Hno v).
    exists px. split; [apply elem_of_seq in Hpx; lia | exact Hp].
Qed.

(** The loop over [py]: one tile. *)
Lemma renderTile_spec (rgb : list (Z * Z * Z)) (ptTile : list slot) (base : Z)
    (tileIdx : nat) (data data' : TileCache.ImageData) :
  (tileIdx < 256)%nat → length data = (128 * 128 * 4)%nat →
  TileCache.renderTile rgb ptTile base tileIdx data = Some data' →
  length data' = (128 * 128 * 4)%nat
  ∧ (∀ o v, wrTile rgb ptTile base tileIdx o v → nth o data' 0 = v)
  ∧ (∀ o, (∀ v, ¬ wrTile rgb ptTile base tileIdx o v) →
          nth o data' 0 = nth o data 0).
Proof.
  intros Ht Hlen. unfold TileCache.renderTile, wrTile.
  destruct (get_slot ptTile (base + Z.of_nat tileIdx)) as [| |tile].
  - intros E. injection E as <-. split; [exact Hlen|].
    split; [intros o v []|intros; reflexivity].
  - intros E. injection E as <-. split; [exact Hlen|].
    split; [intros o v []|intros; reflexivity].
  - cbv zeta. intros E.
    eapply (write_loop (128 * 128 * 4) _
              (fun py => (py < 8)%nat)
              (fun py => wrRow rgb tileIdx tile py)) in E;
      [destruct E as (Hl & Hw & Hf)| | | | |].
    6: exact Hlen.
    5: { intros py Hpy. apply elem_of_seq in Hpy. lia. }
    4: apply NoDup_seq.
    3: { intros py py' o v v' Hpy Hpy' Hne (px & Hpx & H1) (px' & Hpx' & H2).
         destruct (wrPixel_inj _ _ _ _ _ _ _ _ _ _ _ _ Hpy Hpy' Hpx Hpx' H1 H2)
           as (_ & ? & _). contradiction. }
    2: { intros py d d' Hpy Hd Ed.
         apply (renderRow_spec rgb tileIdx tile py d d'); assumption. }
    + split; [exact Hl|]. split.
      * intros o v (py & Hpy & Hp). apply (Hw py); [apply elem_of_seq; lia | exact Hp].
      * intros o Hno. apply Hf. intros py v Hpy Hp. apply (Hno v).
        exists py. split; [apply elem_of_seq in Hpy; lia | exact Hp].
Qed.

Lemma wrTile_inj (rgb : list (Z * Z * Z)) (ptTile : list slot) (base : Z)
    (t t' o : nat) (v v' : Z) :
  wrTile rgb ptTile base t o v → wrTile rgb ptTile base t' o v' → t = t'.
Proof.
  unfold wrTile.
  destruct (get_slot ptTile (base + Z.of_nat t)) as [| |tile];
    [intros [] | intros [] |].
  destruct (get_slot ptTile (base + Z.of_nat t')) as [| |tile'];
    [intros _ [] | intros _ [] |].
  intros (py & Hpy & px & Hpx & H1) (py' & Hpy' & px' & Hpx' & H2).
  destruct (wrPixel_inj _ _ _ _ _ _ _ _ _ _ _ _ Hpy Hpy' Hpx Hpx' H1 H2) as (? & _).
  assumption.
Qed.

(** The loop over the 256 tiles: the whole raster. *)
Lemma renderTiles_spec (rgb : list (Z * Z * Z)) (ptTile : list slot) (base : Z)
    (data' : TileCache.ImageData) :
  forM (seq 0 256) (TileCache.renderTile rgb ptTile base)
       (replicate (128 * 128 * 4) 0) = Some data' →
  length data' = (128 * 128 * 4)%nat
  ∧ (∀ t o v, (t < 256)%nat → wrTile rgb ptTile base t o v → nth o data' 0 = v)
  ∧ (∀ o, (∀ t v, (t < 256)%nat → ¬ wrTile rgb ptTile base t o v) →
          nth o data' 0 = 0).
Proof.
  intros E.
  eapply (write_loop (128 * 128 * 4) _
            (fun t => (t < 256)%nat) (wrTile rgb ptTile base)) in E;
    [destruct E as (Hl & Hw & Hf)| | | | |].
  6: apply length_replicate.
  5: { intros t Ht. apply elem_of_seq in Ht. lia. }
  4: apply NoDup_seq.
  3: { intros t t' o v v' _ _ Hne H1 H2.
       destruct Hne. apply (wrTile_inj _ _ _ _ _ _ _ _ H1 H2). }
  2: { intros t d d' Ht Hd Ed.
       apply (renderTile_spec rgb ptTile base t d d'); assumption. }
  split; [exact Hl|]. split.
  - intros t o v Ht. apply Hw. apply elem_of_seq. lia.
  - intros o Hno. rewrite Hf.
    + rewrite nth_lookup. destruct (replicate _ _ !! o) as [z|] eqn:Ez; [|reflexivity].
      apply lookup_replicate in Ez as [-> _]. reflexivity.
    + intros t v Ht. apply Hno. apply elem_of_seq in Ht. lia.
Qed.

Lemma wrTile_offset (rgb : list (Z * Z * Z)) (ptTile : list slot) (base : Z)
    (t o : nat) (v : Z) :
  wrTile rgb ptTile base t o v →
  ∃ tile py px j, get_slot ptTile (base + Z.of_nat t) = Obj tile
                  ∧ (py < 8)%nat ∧ (px < 8)%nat ∧ (j < 4)%nat
                  ∧ o = (byteOffset t py px + j)%nat.
Proof.
  unfold wrTile. destruct (get_slot ptTile (base + Z.of_nat t)) as [| |tile];
    [intros [] | intros [] |].
  intros (py & Hpy & px & Hpx & bs & j & _ & Hj & Ho & _).
  exists tile, py, px, j. auto.
Qed.

Lemma byteOffset_xy (x y : nat) :
  (x < 128)%nat → (y < 128)%nat →
  (16 * (y / 8) + x / 8 < 256)%nat
  ∧ byteOffset (16 * (y / 8) + x / 8) (y mod 8) (x mod 8) = (4 * (128 * y + x))%nat.
Proof.
  intros Hx Hy.
  pose proof (Nat.div_mod_eq x 8). pose proof (Nat.mod_upper_bound x 8 ltac:(lia)).
  pose proof (Nat.div_mod_eq y 8). pose proof (Nat.mod_upper_bound y 8 ltac:(lia)).
  assert (x / 8 < 16)%nat by (apply Nat.Div0.div_lt_upper_bound; lia).
  assert (y / 8 < 16)%nat by (apply Nat.Div0.div_lt_upper_bound; lia).
  split; [lia|]. unfold byteOffset.
  assert (E1 : ((16 * (y / 8) + x / 8) / 16 = y / 8)%nat)
    by (symmetry; apply (Nat.div_unique _ _ _ (x / 8)); lia).
  assert (E2 : ((16 * (y / 8) + x / 8) mod 16 = x / 8)%nat)
    by (symmetry; apply (Nat.mod_unique _ _ (y / 8)); lia).
  rewrite E1, E2. lia.
Qed.

Lemma pixelRGBA_ok (colors : list Z) (tile : Tile) (py px : nat) :
  tileOk tile = true → length colors = 4%nat → (py < 8)%nat → (px < 8)%nat →
  ∃ c, pix tile !! (8 * py + px)%nat = Some c ∧ 0 <= c <= 3
       ∧ ((c = 0 ∧ pixelRGBA (map TileCache.parseColor colors) tile py px
                   = Some [0; 0; 0; 0])
          ∨ (0 < c
             ∧ ∃ v, colors !! Z.to_nat c = Some v
                    ∧ pixelRGBA (map TileCache.parseColor colors) tile py px
                      = Some [Z.land (Z.shiftr v 16) 255;
                              Z.land (Z.shiftr v 8) 255; Z.land v 255; 255])).
Proof.
  intros Hok Hlen Hpy Hpx.
  destruct (tileOk_pixel tile (8 * py + px) Hok ltac:(lia)) as (c & Hc & Hr).
  exists c. split; [exact Hc|]. split; [exact Hr|].
  unfold pixelRGBA. rewrite Nat.shiftl_mul_pow2.
  replace (py * 2 ^ 3)%nat with (8 * py)%nat by (cbn [Nat.pow]; lia).
  rewrite Hc. cbn [mbind option_bind].
  destruct (c =? 0) eqn:E0.
  - left. apply Z.eqb_eq in E0. auto.
  - right. apply Z.eqb_neq in E0. split; [lia|].
    destruct (colors !! Z.to_nat c) as [v|] eqn:Ev.
    2:{ apply lookup_ge_None in Ev. lia. }
    exists v. split; [reflexivity|].
    replace (c <? 0) with false by (symmetry; apply Z.ltb_ge; lia).
    rewrite list_lookup_fmap, Ev. reflexivity.
Qed.

(** X7. The raster [_renderSheet] produces.  For one of the twelve sheets
    of a cache, a table of drawable tiles and four colours the call
    completes, stores the 128x128 RGBA raster it drew under the sheet's
    index and leaves the other URLs alone.  The pixel at column [x], row [y] of that raster comes from the tile in
    grid cell ([x/8], [y/8]), that is tile [base + 16 (y/8) + x/8], at its
    own pixel ([x mod 8], [y mod 8]): colour index 0 and an absent tile
    give the transparent (0, 0, 0, 0); a colour index [c] from 1 to 3
    gives the red, green and blue bytes of [colors[c]] with alpha 255. *)
Theorem renderSheet_raster (tc : TileCache.t) (sheetIndex : Z)
    (ptTile : list slot) (base : Z) (colors : list Z) :
  length (TileCache.blobUrls tc) = 12%nat →
  0 <= sheetIndex < 12 →
  tilesOk ptTile = true → length colors = 4%nat →
  ∃ tc' data,
    TileCache.renderSheet tc sheetIndex ptTile base colors = Some tc'
    ∧ sheetData ptTile base colors = Some data
    ∧ TileCache.blobUrls tc'
      = <[Z.to_nat sheetIndex := Some data]> (TileCache.blobUrls tc)
    ∧ length data = (128 * 128 * 4)%nat
    ∧ ∀ x y : nat, (x < 128)%nat → (y < 128)%nat →
        let o := (4 * (128 * y + x))%nat in
        let rgba := [nth o data 0; nth (o + 1) data 0;
                     nth (o + 2) data 0; nth (o + 3) data 0] in
        match get_slot ptTile (base + Z.of_nat (16 * (y / 8) + x / 8)) with
        | Obj tile =>
            ∃ c, pix tile !! (8 * (y mod 8) + x mod 8)%nat = Some c
                 ∧ 0 <= c <= 3
                 ∧ ((c = 0 ∧ rgba = [0; 0; 0; 0])
                    ∨ (0 < c
                       ∧ ∃ v, colors !! Z.to_nat c = Some v
                              ∧ rgba = [Z.land (Z.shiftr v 16) 255;
                                        Z.land (Z.shiftr v 8) 255;
                                        Z.land v 255; 255]))
        | _ => rgba = [0; 0; 0; 0]
        end.
Proof.
  intros _ _ Hok Hlen.
  destruct (renderSheet_total tc sheetIndex ptTile base colors Hok Hlen) as [tc' E].
  exists tc'. unfold TileCache.renderSheet in E. cbv zeta in E.
  destruct (forM (seq 0 256) _ _) as [data|] eqn:Ed; [|discriminate].
  cbn [mbind option_bind] in E. injection E as <-. exists data.
  split.
  { unfold TileCache.renderSheet. cbv zeta. rewrite Ed. reflexivity. }
  split; [exact Ed|]. split; [reflexivity|].
  destruct (renderTiles_spec _ _ _ _ Ed) as (Hl & Hw & Hf).
  split; [exact Hl|]. intros x y Hx Hy.
  destruct (byteOffset_xy x y Hx Hy) as [HT Ho].
  set (T := (16 * (y / 8) + x / 8)%nat) in *.
  pose proof (Nat.mod_upper_bound y 8 ltac:(lia)) as Hpy.
  pose proof (Nat.mod_upper_bound x 8 ltac:(lia)) as Hpx.
  cbv zeta. rewrite <- Ho.
  destruct (get_slot ptTile (base + Z.of_nat T)) as [| |tile] eqn:Es.
  - assert (Hz : ∀ j, (j < 4)%nat →
                      nth (byteOffset T (y mod 8) (x mod 8) + j) data 0 = 0).
    { intros j Hj. apply Hf. intros t v Ht Hwt.
      apply wrTile_offset in Hwt as (tile & py & px & j' & Et & ? & ? & ? & E).
      destruct (byteOffset_inj T t (y mod 8) py (x mod 8) px j j') as (-> & _);
        auto. rewrite Es in Et. discriminate. }
    rewrite <- (Nat.add_0_r (byteOffset T (y mod 8) (x mod 8))) at 1.
    rewrite !Hz by lia. reflexivity.
  - assert (Hz : ∀ j, (j < 4)%nat →
                      nth (byteOffset T (y mod 8) (x mod 8) + j) data 0 = 0).
    { intros j Hj. apply Hf. intros t v Ht Hwt.
      apply wrTile_offset in Hwt as (tile & py & px & j' & Et & ? & ? & ? & E).
      destruct (byteOffset_inj T t (y mod 8) py (x mod 8) px j j') as (-> & _);
        auto. rewrite Es in Et. discriminate. }
    rewrite <- (Nat.add_0_r (byteOffset T (y mod 8) (x mod 8))) at 1.
    rewrite !Hz by lia. reflexivity.
  - pose proof (get_slot_ok _ _ _ Hok Es) as Htile.
    destruct (pixelRGBA_ok colors tile (y mod 8) (x mod 8) Htile Hlen Hpy Hpx)
      as (c & Hc & Hr & Hcase).
    exists c. split; [exact Hc|]. split; [exact Hr|].
    assert (Hb : ∀ bytes j,
      pixelRGBA (map TileCache.parseColor colors) tile (y mod 8) (x mod 8)
      = Some bytes → (j < 4)%nat →
      nth (byteOffset T (y mod 8) (x mod 8) + j) data 0 = nth j bytes 0).
    { intros bytes j Hbs Hj. apply (Hw T); [exact HT|].
      unfold wrTile. rewrite Es. exists (y mod 8)%nat. split; [exact Hpy|].
      exists (x mod 8)%nat. split; [exact Hpx|]. exists bytes, j. auto. }
    destruct Hcase as [[-> Hbs]|(Hpos & v & Hv & Hbs)].
    + left. split; [reflexivity|].
      rewrite <- (Nat.add_0_r (byteOffset T (y mod 8) (x mod 8))) at 1.
      rewrite !(Hb _ _ Hbs) by lia. reflexivity.
    + right. split; [exact Hpos|]. exists v. split; [exact Hv|].
      rewrite <- (Nat.add_0_r (byteOffset T (y mod 8) (x mod 8))) at 1.
      rewrite !(Hb _ _ Hbs) by lia. reflexivity.
Qed.

Lemma renderSheet_raster_witness :
  ∃ tc' data,
    TileCache.renderSheet TileCache.new 5 stripedTiles 0 fourColours = Some tc'
    ∧ sheetData stripedTiles 0 fourColours = Some data
    ∧ TileCache.blobUrls tc'
      = <[Z.to_nat 5 := Some data]> (TileCache.blobUrls TileCache.new)
    ∧ length data = (128 * 128 * 4)%nat
    ∧ ∀ x y : nat, (x < 128)%nat → (y < 128)%nat →
        let o := (4 * (128 * y + x))%nat in
        let rgba := [nth o data 0; nth (o + 1) data 0;
                     nth (o + 2) data 0; nth (o + 3) data 0] in
        match get_slot stripedTiles (0 + Z.of_nat (16 * (y / 8) + x / 8)) with
        | Obj tile =>
            ∃ c, pix tile !! (8 * (y mod 8) + x mod 8)%nat = Some c
                 ∧ 0 <= c <= 3
                 ∧ ((c = 0 ∧ rgba = [0; 0; 0; 0])
                    ∨ (0 < c
                       ∧ ∃ v, fourColours !! Z.to_nat c = Some v
                              ∧ rgba = [Z.land (Z.shiftr v 16) 255;
                                        Z.land (Z.shiftr v 8) 255;
                                        Z.land v 255; 255]))
        | _ => rgba = [0; 0; 0; 0]
        end.
Proof.
  apply (renderSheet_raster TileCache.new 5 stripedTiles 0 fourColours).
  - reflexivity.
  - lia.
  - vm_compute. reflexivity.
  - reflexivity.
Defined.

(** ** The tile-sheet cache: when [_renderSheet] throws *)

Lemma forM_None_inv {S : Type} (idx : list nat) (body : nat → S → option S) (s : S) :
  forM idx body s = None → ∃ i s', i ∈ idx ∧ body i s' = None.
Proof.
  revert s. induction idx as [|i idx IH]; intros s E; [discriminate|].
  cbn [forM] in E. destruct (body i s) as [s1|] eqn:E1.
  - destruct (IH s1 E) as (j & s' & Hj & Hb). exists j, s'. split; [right|]; assumption.
  - exists i, s. split; [left | exact E1].
Qed.

Lemma forM_fails {S : Type} (idx : list nat) (body : nat → S → option S) (i : nat) :
  i ∈ idx → (∀ s, body i s = None) → ∀ s, forM idx body s = None.
Proof.
  intros Hi Hb. induction idx as [|j idx IH]; intros s; [inversion Hi|].
  cbn [forM]. destruct (decide (j = i)) as [->|Hne].
  - rewrite Hb. reflexivity.
  - destruct (body j s); [|reflexivity]. apply IH.
    apply elem_of_cons in Hi as [->|Hi]; [contradiction | exact Hi].
Qed.

Lemma renderPixel_None (rgb : list (Z * Z * Z)) (tile : Tile) (baseX baseY : Z)
    (py px : nat) (data : TileCache.ImageData) :
  TileCache.renderPixel rgb tile baseX baseY py px data = None
  ↔ pixelRGBA rgb tile py px = None.
Proof.
  unfold TileCache.renderPixel, pixelRGBA.
  destruct (pix tile !! (Nat.shiftl py 3 + px)%nat) as [c|]; [|tauto].
  cbn [mbind option_bind]. destruct (c =? 0); [split; discriminate|].
  destruct (if c <? 0 then None else rgb !! Z.to_nat c) as [[[r g] b]|];
    cbn [mbind option_bind]; [split; discriminate | tauto].
Qed.

Lemma pixelRGBA_None (colors : list Z) (tile : Tile) (py px : nat) :
  pixelRGBA (map TileCache.parseColor colors) tile py px = None
  ↔ pix tile !! (8 * py + px)%nat = None
    ∨ ∃ c, pix tile !! (8 * py + px)%nat = Some c ∧ c ≠ 0
           ∧ (c < 0 ∨ Z.of_nat (length colors) <= c).
Proof.
  unfold pixelRGBA. rewrite Nat.shiftl_mul_pow2.
  replace (py * 2 ^ 3)%nat with (8 * py)%nat by (cbn [Nat.pow]; lia).
  destruct (pix tile !! (8 * py + px)%nat) as [c|]; cbn [mbind option_bind].
  2:{ split; [left; reflexivity | reflexivity]. }
  destruct (c =? 0) eqn:E0.
  { apply Z.eqb_eq in E0. split; [discriminate|].
    intros [H|(c' & H & Hne & _)]; [discriminate | congruence]. }
  apply Z.eqb_neq in E0. destruct (c <? 0) eqn:En.
  { apply Z.ltb_lt in En. cbn [mbind option_bind]. split; [|reflexivity].
    intros _. right. exists c. auto. }
  apply Z.ltb_ge in En. rewrite list_lookup_fmap.
  destruct (colors !! Z.to_nat c) as [v|] eqn:Ev; cbn [fmap option_fmap option_map].
  - destruct (TileCache.parseColor v) as [[r g] b]. cbn [mbind option_bind].
    split; [discriminate|].
    intros [H|(c' & H & _ & [Hlt|Hge])]; [discriminate | |];
      injection H as <-; [lia|].
    apply lookup_lt_Some in Ev. lia.
  - cbn [mbind option_bind]. split; [|reflexivity]. intros _. right. exists c.
    apply lookup_ge_None in Ev. repeat split; [assumption|]. right. lia.
Qed.

(** X8. Called for one of the twelve sheets, [_renderSheet] throws
    exactly when one of the 256 slots it reads holds a tile of which one of the first 64 pixels is missing, or is a
    colour index other than 0 for which [colors] has no entry (negative, or
    not below the number of colours).  Absent tiles never make it throw. *)
Theorem renderSheet_throws_iff (tc : TileCache.t) (sheetIndex : Z)
    (ptTile : list slot) (base : Z) (colors : list Z) :
  0 <= sheetIndex < 12 →
  TileCache.renderSheet tc sheetIndex ptTile base colors = None
  ↔ ∃ (tileIdx py px : nat) (tile : Tile),
      (tileIdx < 256)%nat ∧ (py < 8)%nat ∧ (px < 8)%nat
      ∧ get_slot ptTile (base + Z.of_nat tileIdx) = Obj tile
      ∧ (pix tile !! (8 * py + px)%nat = None
         ∨ ∃ c, pix tile !! (8 * py + px)%nat = Some c ∧ c ≠ 0
                ∧ (c < 0 ∨ Z.of_nat (length colors) <= c)).
Proof.
  intros _. unfold TileCache.renderSheet. cbv zeta. split.
  - destruct (forM (seq 0 256) _ _) as [data|] eqn:E; [discriminate|]. intros _.
    apply forM_None_inv in E as (t & s & Ht & E). apply elem_of_seq in Ht.
    unfold TileCache.renderTile in E.
    destruct (get_slot ptTile (base + Z.of_nat t)) as [| |tile] eqn:Es;
      try discriminate.
    cbv zeta in E. apply forM_None_inv in E as (py & s' & Hpy & E).
    apply forM_None_inv in E as (px & s'' & Hpx & E).
    apply elem_of_seq in Hpy, Hpx. apply renderPixel_None, pixelRGBA_None in E.
    exists t, py, px, tile. repeat split; try lia; assumption.
  - intros (t & py & px & tile & Ht & Hpy & Hpx & Es & Hbad).
    apply pixelRGBA_None in Hbad.
    rewrite (forM_fails (seq 0 256) _ t); [reflexivity | apply elem_of_seq; lia |].
    intros s. unfold TileCache.renderTile. rewrite Es. cbv zeta.
    apply (forM_fails (seq 0 8) _ py); [apply elem_of_seq; lia|].
    intros s'. apply (forM_fails (seq 0 8) _ px); [apply elem_of_seq; lia|].
    intros s''. apply renderPixel_None. exact Hbad.
Qed.

(** X8 for sheet 5 of a new cache, over the striped table and four
    colours. *)
Lemma renderSheet_throws_iff_witness :
  TileCache.renderSheet TileCache.new 5 stripedTiles 0 fourColours = None
  ↔ ∃ (tileIdx py px : nat) (tile : Tile),
      (tileIdx < 256)%nat ∧ (py < 8)%nat ∧ (px < 8)%nat
      ∧ get_slot stripedTiles (0 + Z.of_nat tileIdx) = Obj tile
      ∧ (pix tile !! (8 * py + px)%nat = None
         ∨ ∃ c, pix tile !! (8 * py + px)%nat = Some c ∧ c ≠ 0
                ∧ (c < 0 ∨ Z.of_nat (length fourColours) <= c)).
Proof.
  apply (renderSheet_throws_iff TileCache.new 5 stripedTiles 0 fourColours).
  lia.
Defined.

(** ** The tile-sheet cache: what a call publishes *)

Lemma renderSheet_urls (tc tc' : TileCache.t) (sheetIndex : Z) (ptTile : list slot)
    (base : Z) (colors : list Z) :
  TileCache.renderSheet tc sheetIndex ptTile base colors = Some tc' →
  ∃ data, sheetData ptTile base colors = Some data
          ∧ TileCache.blobUrls tc'
            = <[Z.to_nat sheetIndex := Some data]> (TileCache.blobUrls tc)
          ∧ TileCache.styleEl tc' = TileCache.styleEl tc.
Proof.
  unfold TileCache.renderSheet, sheetData. cbv zeta.
  destruct (forM (seq 0 256) _ _) as [data|]; [|discriminate].
  cbn [mbind option_bind]. intros H. injection H as <-. exists data.
  repeat split; reflexivity.
Qed.

Lemma regen_urls (cond : bool) (sheetIndex : Z) (ptTile : list slot) (base : Z)
    (colors : list Z) (tc tc' : TileCache.t) (log log' : list TileCache.event) :
  TileCache.regen cond sheetIndex ptTile base colors (tc, log) = Some (tc', log') →
  TileCache.styleEl tc' = TileCache.styleEl tc
  ∧ if cond
    then ∃ data, sheetData ptTile base colors = Some data
                 ∧ TileCache.blobUrls tc'
                   = <[Z.to_nat sheetIndex := Some data]> (TileCache.blobUrls tc)
    else TileCache.blobUrls tc' = TileCache.blobUrls tc.
Proof.
  unfold TileCache.regen. destruct cond.
  - cbn [fst snd].
    destruct (TileCache.renderSheet tc sheetIndex ptTile base colors) as [tc1|] eqn:E;
      [|discriminate].
    cbn [mbind option_bind]. intros H. injection H as <- _.
    apply renderSheet_urls in E as (data & Hd & Hu & Hs).
    split; [exact Hs|]. exists data. split; assumption.
  - intros H. injection H as <- _. split; reflexivity.
Qed.

Section RegenUrls.

Variables (cond : nat → bool) (sheetOf : nat → Z) (ptTile : list slot) (base : Z)
          (colorsOf : nat → list Z).

Hypothesis sheetOf_inj : ∀ g g', Z.to_nat (sheetOf g) = Z.to_nat (sheetOf g') → g = g'.

Lemma regen_loop_urls (gs : list nat) (tc tc' : TileCache.t)
    (log log' : list TileCache.event) :
  NoDup gs →
  forM gs (fun g => TileCache.regen (cond g) (sheetOf g) ptTile base (colorsOf g))
       (tc, log) = Some (tc', log') →
  TileCache.styleEl tc' = TileCache.styleEl tc
  ∧ length (TileCache.blobUrls tc') = length (TileCache.blobUrls tc)
  ∧ (∀ n, (∀ g, g ∈ gs → cond g = true → Z.to_nat (sheetOf g) ≠ n) →
          TileCache.blobUrls tc' !! n = TileCache.blobUrls tc !! n)
  ∧ (∀ g, g ∈ gs → cond g = true →
          (Z.to_nat (sheetOf g) < length (TileCache.blobUrls tc))%nat →
          ∃ data, sheetData ptTile base (colorsOf g) = Some data
                  ∧ TileCache.blobUrls tc' !! Z.to_nat (sheetOf g)
                    = Some (Some data)).
Proof.
  revert tc log. induction gs as [|g gs IH]; intros tc log Hnd H.
  - cbn in H. injection H as <- _. repeat split; try reflexivity.
    intros g Hg. inversion Hg.
  - cbn [forM] in H.
    destruct (TileCache.regen (cond g) (sheetOf g) ptTile base (colorsOf g) (tc, log))
      as [[tc1 log1]|] eqn:E; [|discriminate].
    apply NoDup_cons in Hnd as [Hni Hnd].
    apply regen_urls in E as (S1 & U1).
    destruct (IH tc1 log1 Hnd H) as (S2 & L2 & F2 & W2).
    assert (L1 : length (TileCache.blobUrls tc1) = length (TileCache.blobUrls tc)).
    { destruct (cond g); [destruct U1 as (data & _ & ->); apply length_insert|].
      rewrite U1. reflexivity. }
    split; [congruence|]. split; [congruence|]. split.
    + intros n Hn. rewrite F2.
      * destruct (cond g) eqn:Ec; [|rewrite U1; reflexivity].
        destruct U1 as (data & _ & ->). apply list_lookup_insert_ne.
        apply Hn; [left | exact Ec].
      * intros g' Hg'. apply Hn. right. exact Hg'.
    + intros g' Hg' Hc Hlt. apply elem_of_cons in Hg' as [->|Hg'].
      * rewrite Hc in U1. destruct U1 as (data & Hd & Hu). exists data.
        split; [exact Hd|]. rewrite F2.
        -- rewrite Hu. apply list_lookup_insert_eq. exact Hlt.
        -- intros g' Hg' _ Heq. apply sheetOf_inj in Heq. subst g'. contradiction.
      * apply W2; [exact Hg' | exact Hc | lia].
Qed.

End RegenUrls.

Local Ltac side :=
  let g := fresh "g" in let H := fresh "H" in
  intros g H ? ?; apply elem_of_seq in H; lia.

Lemma regenerate_urls (ptTile : list slot) (pm : PaletteManager.t) (bgBase : Z)
    (sg : TileCache.signals) (tc tc' : TileCache.t)
    (log log' : list TileCache.event) (k : nat) :
  TileCache.regenerate ptTile pm bgBase sg (tc, log) = Some (tc', log') →
  length (TileCache.blobUrls tc) = 12%nat → (k < 12)%nat →
  TileCache.styleEl tc' = TileCache.styleEl tc
  ∧ length (TileCache.blobUrls tc') = 12%nat
  ∧ (TileCache.RenderSheet (Z.of_nat k) (sheetBase bgBase k)
       ∈ expectedRenders pm bgBase sg →
     ∃ data, sheetData ptTile (sheetBase bgBase k) (sheetColours pm k) = Some data
             ∧ TileCache.blobUrls tc' !! k = Some (Some data))
  ∧ (TileCache.RenderSheet (Z.of_nat k) (sheetBase bgBase k)
       ∉ expectedRenders pm bgBase sg →
     TileCache.blobUrls tc' !! k = TileCache.blobUrls tc !! k).
Proof.
  unfold TileCache.regenerate. intros H Hlen Hk.
  destruct (forM (seq 0 4) _ (tc, log)) as [[tc1 log1]|] eqn:E1; [|discriminate].
  cbn [mbind option_bind] in H.
  destruct (forM (seq 0 4) _ (tc1, log1)) as [[tc2 log2]|] eqn:E2; [|discriminate].
  cbn [mbind option_bind] in H.
  apply (regen_loop_urls
           (fun g => bool_decide (Z.of_nat g ∈ PaletteManager.dirtyBgGroups pm)
                     || TileCache.bgDirty sg || TileCache.bgBaseChanged sg)
           (fun g => Z.of_nat g) ptTile bgBase
           (fun g => PaletteManager.getBgPaletteGroup pm (Z.of_nat g)))
    in E1 as (S1 & L1 & F1 & W1); [|intros; lia|apply NoDup_seq].
  apply (regen_loop_urls
           (fun g => bool_decide (Z.of_nat g ∈ PaletteManager.dirtySprGroups pm)
                     || TileCache.spr0Dirty sg)
           (fun g => 4 + Z.of_nat g) ptTile 0
           (fun g => PaletteManager.getSprPaletteGroup pm (Z.of_nat g)))
    in E2 as (S2 & L2 & F2 & W2); [|intros; lia|apply NoDup_seq].
  apply (regen_loop_urls
           (fun g => bool_decide (Z.of_nat g ∈ PaletteManager.dirtySprGroups pm)
                     || TileCache.spr1Dirty sg)
           (fun g => 8 + Z.of_nat g) ptTile 256
           (fun g => PaletteManager.getSprPaletteGroup pm (Z.of_nat g)))
    in H as (S3 & L3 & F3 & W3); [|intros; lia|apply NoDup_seq].
  split; [congruence|]. split; [congruence|].
  assert (Hg : 0 <= Z.of_nat (k mod 4) < 4)
    by (pose proof (Nat.mod_upper_bound k 4 ltac:(lia)); lia).
  destruct (expectedRenders_sheet pm bgBase sg _ Hg) as (X0 & X4 & X8).
  pose proof (Nat.div_mod_eq k 4) as Hdm.
  pose proof (Nat.mod_upper_bound k 4 ltac:(lia)) as Hm.
  unfold sheetBase, sheetColours.
  destruct (k <? 4)%nat eqn:K4; [apply Nat.ltb_lt in K4|apply Nat.ltb_ge in K4].
  { assert (Ek : (k mod 4 = k)%nat) by (apply Nat.mod_small; lia).
    rewrite Ek in X0. rewrite X0. split.
    - intros Hc. destruct (W1 k) as (data & Hd & Hu);
        [apply elem_of_seq; lia | exact Hc | rewrite Nat2Z.id; lia |].
      exists data. split; [exact Hd|]. rewrite Nat2Z.id in Hu.
      rewrite F3, F2; [exact Hu | side | side].
    - intros Hc. rewrite F3, F2, F1; [reflexivity | | side | side].
      intros g Hg' Hcg Heq. rewrite Nat2Z.id in Heq. subst g. contradiction. }
  destruct (k <? 8)%nat eqn:K8; [apply Nat.ltb_lt in K8|apply Nat.ltb_ge in K8].
  { assert (Ek : Z.of_nat k = 4 + Z.of_nat (k mod 4)) by lia.
    assert (Ek' : (k - 4 = k mod 4)%nat) by lia.
    rewrite Ek, X4, Ek'. split.
    - intros Hc. destruct (W2 (k mod 4)%nat) as (data & Hd & Hu);
        [apply elem_of_seq; lia | exact Hc | lia |].
      exists data. split; [exact Hd|].
      replace (Z.to_nat (4 + Z.of_nat (k mod 4))) with k in Hu by lia.
      rewrite F3; [exact Hu | side].
    - intros Hc. rewrite F3, F2, F1; [reflexivity | side | | side].
      intros g Hg' Hcg Heq. assert (g = k mod 4)%nat by lia. subst g. contradiction. }
  assert (Ek : Z.of_nat k = 8 + Z.of_nat (k mod 4)) by lia.
  assert (Ek' : (k - 8 = k mod 4)%nat) by lia.
  rewrite Ek, X8, Ek'. split.
  - intros Hc. destruct (W3 (k mod 4)%nat) as (data & Hd & Hu);
      [apply elem_of_seq; lia | exact Hc | lia |].
    exists data. split; [exact Hd|].
    replace (Z.to_nat (8 + Z.of_nat (k mod 4))) with k in Hu by lia. exact Hu.
  - intros Hc. rewrite F3, F2, F1; [reflexivity | side | side |].
    intros g Hg' Hcg Heq. assert (g = k mod 4)%nat by lia. subst g. contradiction.
Qed.

Lemma detect_urls (tc : TileCache.t) (ptTile : list slot) (bgBase : Z)
    (sig : option (list jsref)) :
  let d := TileCache.detect tc ptTile bgBase sig in
  TileCache.blobUrls d.1 = TileCache.blobUrls tc
  ∧ TileCache.styleEl d.1 = TileCache.styleEl tc
  ∧ TileCache.consecRegenFrames d.1 = TileCache.consecRegenFrames tc.
Proof.
  destruct (fold_left (TileCache.chrStep ptTile) (seq 0 512)
              (TileCache.tileChecksums tc, false, false)) as [[sums d0] d1] eqn:E.
  unfold TileCache.detect, TileCache.checkCHRDirty.
  destruct sig as [s|]; cbv beta iota zeta;
    cbn [TileCache.tileChecksums TileCache.updateBankRefs];
    rewrite E; cbv beta iota zeta; cbn [fst snd TileCache.blobUrls
      TileCache.styleEl TileCache.consecRegenFrames TileCache.updateBankRefs];
    repeat split; reflexivity.
Qed.

Lemma update_decompose (tc tc' : TileCache.t) (ptTile : list slot)
    (pm : PaletteManager.t) (bgBase sprBase : Z) (sig : option (list jsref))
    (log : list TileCache.event) :
  TileCache.update tc ptTile pm bgBase sprBase sig = Some (tc', log) →
  ∃ tc1 log1,
    TileCache.regenerate ptTile pm bgBase (TileCache.detect tc ptTile bgBase sig).2
      ((TileCache.detect tc ptTile bgBase sig).1, []) = Some (tc1, log1)
    ∧ TileCache.finish (tc1, log1) = (tc', log).
Proof.
  unfold TileCache.update. intros H.
  destruct (TileCache.detect tc ptTile bgBase sig) as [tcd sg]. cbn [fst snd].
  destruct (TileCache.regenerate ptTile pm bgBase sg (tcd, [])) as [[tc1 log1]|];
    [|discriminate].
  cbn [mbind option_bind] in H. injection H as H. exists tc1, log1.
  split; [reflexivity | exact H].
Qed.

Lemma finish_urls (tc : TileCache.t) (log : list TileCache.event) :
  let st' := TileCache.finish (tc, log) in
  TileCache.blobUrls st'.1 = TileCache.blobUrls tc
  ∧ TileCache.styleEl st'.1
    = (if (0 <? size (TileCache.updatedSheets tc))%nat
       then TileCache.styleEl (TileCache.updateStylesheet tc)
       else TileCache.styleEl tc)
  ∧ TileCache.consecRegenFrames st'.1
    = (if (size (TileCache.updatedSheets tc) =? 12)%nat
       then TileCache.consecRegenFrames tc + 1 else 0)
  ∧ st'.2
    = log
      ++ (if (0 <? size (TileCache.updatedSheets tc))%nat
          then [TileCache.RewriteStylesheet] else [])
      ++ (if (size (TileCache.updatedSheets tc) =? 12)%nat
             && (TileCache.consecRegenFrames tc + 1 =? 60)
          then [TileCache.PerfWarning] else []).
Proof.
  unfold TileCache.finish. cbn [fst snd].
  destruct (0 <? size (TileCache.updatedSheets tc))%nat; cbn [fst snd];
    unfold TileCache.updateStylesheet;
    cbn [TileCache.updatedSheets TileCache.consecRegenFrames];
    destruct (size (TileCache.updatedSheets tc) =? 12)%nat; cbn [andb];
    try destruct (TileCache.consecRegenFrames tc + 1 =? 60);
    cbn [fst snd TileCache.blobUrls TileCache.styleEl TileCache.consecRegenFrames];
    rewrite <- ?app_assoc, ?app_nil_r; repeat split; reflexivity.
Qed.

Lemma size_pos_nonempty (s : gset Z) : (0 <? size s)%nat = true ↔ s ≠ ∅.
Proof.
  rewrite Nat.ltb_lt. split.
  - intros H ->. rewrite size_empty in H. lia.
  - intros H. assert (size s ≠ 0%nat); [|lia].
    apply size_non_empty_iff. intros E. apply H. apply leibniz_equiv. exact E.
Qed.

Lemma rules_elem (selector : string) (first : nat)
    (urls : list (option TileCache.ImageData)) (i : nat) (url : TileCache.ImageData) :
  (i < 4)%nat → urls !! (first + i)%nat = Some (Some url) →
  ((selector ++ JS.show (Z.of_nat i))%string, url) ∈ TileCache.rules selector first urls.
Proof.
  intros Hi Hu. unfold TileCache.rules. apply list_elem_of_In, in_flat_map.
  exists i. split; [apply in_seq; lia|].
  rewrite (nth_lookup_Some _ _ None _ Hu). left. reflexivity.
Qed.

Lemma updateStylesheet_rule (tc : TileCache.t) (k : nat) (url : TileCache.ImageData) :
  (k < 12)%nat → TileCache.blobUrls tc !! k = Some (Some url) →
  (sheetSelector k, url) ∈ TileCache.styleEl (TileCache.updateStylesheet tc).
Proof.
  intros Hk Hu. unfold TileCache.updateStylesheet, sheetSelector.
  cbn [TileCache.styleEl]. rewrite !elem_of_app.
  destruct (k <? 4)%nat eqn:K4; [apply Nat.ltb_lt in K4|apply Nat.ltb_ge in K4].
  { left. apply rules_elem; [lia | exact Hu]. }
  destruct (k <? 8)%nat eqn:K8; [apply Nat.ltb_lt in K8|apply Nat.ltb_ge in K8].
  { right. left. apply rules_elem; [lia|].
    replace (4 + (k - 4))%nat with k by lia. exact Hu. }
  right. right. apply rules_elem; [lia|].
  replace (8 + (k - 8))%nat with k by lia. exact Hu.
Qed.

(** What a completed [update] publishes, sheet by sheet. *)
Lemma update_publishes
    (tc tc' : TileCache.t) (ptTile : list slot) (pm : PaletteManager.t)
    (bgBase sprBase : Z) (sig : option (list jsref)) (log : list TileCache.event) :
  length (TileCache.blobUrls tc) = 12%nat →
  TileCache.update tc ptTile pm bgBase sprBase sig = Some (tc', log) →
  (∀ k, (k < 12)%nat →
     (Z.of_nat k ∈ TileCache.updatedSheets tc' →
      ∃ data, sheetData ptTile (sheetBase bgBase k) (sheetColours pm k) = Some data
              ∧ TileCache.blobUrls tc' !! k = Some (Some data)
              ∧ (sheetSelector k, data) ∈ TileCache.styleEl tc')
     ∧ (Z.of_nat k ∉ TileCache.updatedSheets tc' →
        TileCache.blobUrls tc' !! k = TileCache.blobUrls tc !! k))
  ∧ (TileCache.updatedSheets tc' = ∅ →
     TileCache.styleEl tc' = TileCache.styleEl tc
     ∧ TileCache.blobUrls tc' = TileCache.blobUrls tc
     ∧ TileCache.RewriteStylesheet ∉ log)
  ∧ (TileCache.updatedSheets tc' ≠ ∅ → TileCache.RewriteStylesheet ∈ log).
Proof.
  intros Hlen E.
  destruct (update_decompose _ _ _ _ _ _ _ _ E) as (tc1 & log1 & Er & Ef).
  destruct (detect_urls tc ptTile bgBase sig) as (Du & Ds & _). cbv zeta in Du, Ds.
  destruct (finish_urls tc1 log1) as (Fu & Fs & _ & Fl). cbv zeta in Fu, Fs, Fl.
  rewrite Ef in Fu, Fs, Fl. cbn [fst snd] in Fu, Fs, Fl.
  destruct (finish_spec (tc1, log1)) as (Fup & _). rewrite Ef in Fup.
  cbn [fst snd] in Fup.
  assert (Hl0 : length (TileCache.blobUrls (TileCache.detect tc ptTile bgBase sig).1)
                = 12%nat) by (rewrite Du; exact Hlen).
  assert (Hlog : ∀ k : nat, (k < 12)%nat →
    Z.of_nat k ∈ TileCache.updatedSheets tc'
    ↔ TileCache.RenderSheet (Z.of_nat k) (sheetBase bgBase k)
        ∈ expectedRenders pm bgBase (TileCache.detect tc ptTile bgBase sig).2).
  { intros k Hk. destruct (update_render_elem _ _ _ _ _ _ _ _ (Z.of_nat k) E)
      as [H1 _].
    destruct (update_log _ _ _ _ _ _ _ _ E) as (tail & El & Ht).
    rewrite H1, El. split.
    - intros [b Hb]. apply elem_of_app in Hb as [Hb|Hb].
      + destruct (expectedRenders_elem _ _ _ _ _ Hb) as [[? ->]|[[? ->]|[? ->]]];
          unfold sheetBase;
          [replace (k <? 4)%nat with true by (symmetry; apply Nat.ltb_lt; lia)
          |replace (k <? 4)%nat with false by (symmetry; apply Nat.ltb_ge; lia);
           replace (k <? 8)%nat with true by (symmetry; apply Nat.ltb_lt; lia)
          |replace (k <? 4)%nat with false by (symmetry; apply Nat.ltb_ge; lia);
           replace (k <? 8)%nat with false by (symmetry; apply Nat.ltb_ge; lia)];
          exact Hb.
      + assert (Hk' : Z.of_nat k ∈ renderedSheets tail)
          by (apply renderedSheets_elem; eauto).
        rewrite Ht in Hk'. inversion Hk'.
    - intros Hb. exists (sheetBase bgBase k). apply elem_of_app. left. exact Hb. }
  split; [|split].
  - intros k Hk.
    destruct (regenerate_urls _ _ _ _ _ _ _ _ k Er Hl0 Hk) as (_ & L1 & W & F).
    rewrite (Hlog k Hk). split.
    + intros Hin. destruct (W Hin) as (data & Hd & Hu). exists data.
      split; [exact Hd|]. rewrite Fu. split; [exact Hu|].
      rewrite Fs.
      assert (Hne : TileCache.updatedSheets tc1 ≠ ∅).
      { rewrite <- Fup. intros He. apply (Hlog k Hk) in Hin. rewrite He in Hin.
        inversion Hin. }
      rewrite (proj2 (size_pos_nonempty _) Hne).
      apply updateStylesheet_rule; assumption.
    + intros Hnin. rewrite Fu, (F Hnin), Du. reflexivity.
  - intros He. rewrite Fup in He.
    assert (Hz : (0 <? size (TileCache.updatedSheets tc1))%nat = false).
    { rewrite He, size_empty. reflexivity. }
    rewrite Hz in Fs, Fl.
    destruct (regenerate_urls _ _ _ _ _ _ _ _ 0%nat Er Hl0 ltac:(lia))
      as (S1 & L1 & _ & _).
    split; [rewrite Fs, S1, Ds; reflexivity|]. split.
    + apply list_eq. intros n. destruct (decide (n < 12)%nat) as [Hn|Hn].
      * destruct (regenerate_urls _ _ _ _ _ _ _ _ n Er Hl0 Hn) as (_ & _ & _ & F).
        rewrite Fu, F, Du; [reflexivity|]. rewrite <- (Hlog n Hn), Fup, He.
        intros Hin. inversion Hin.
      * rewrite Fu. rewrite !(proj2 (lookup_ge_None _ _)); [reflexivity | lia | lia].
    + rewrite Fl. destruct (update_log _ _ _ _ _ _ _ _ E) as (tail & El & Ht).
      intros Hin. rewrite !elem_of_app in Hin.
      destruct Hin as [Hin|[Hin|Hin]].
      * destruct (regenerate_inv _ _ _ _ _ _ _ _ Er) as (_ & L & _). cbn [app] in L.
        rewrite L in Hin. unfold expectedRenders in Hin.
        rewrite !elem_of_app, !list_elem_of_In, !in_flat_map in Hin.
        destruct Hin as [(g & _ & Hg)|[(g & _ & Hg)|(g & _ & Hg)]];
          (destruct (_ || _) in Hg; [destruct Hg as [Hg|[]]; discriminate | destruct Hg]).
      * inversion Hin.
      * destruct (_ && _); inversion Hin. subst. inversion H1.
  - intros Hne. rewrite Fup in Hne. rewrite Fl.
    rewrite (proj2 (size_pos_nonempty _) Hne).
    rewrite !elem_of_app. right. left. left.
Qed.

(** X9. What [update] publishes, sheet by sheet.  Over a table of drawable
    tiles the call completes.  For each of
    the twelve sheets: if the call reports it as updated, its URL now
    holds the raster drawn from the table passed to this call, starting at
    the background base (sheets 0..3), tile 0 (sheets 4..7) or tile 256
    (sheets 8..11), in the colours of its palette group, and the
    stylesheet has the rule that binds the sheet's class to that raster;
    if not, its URL is the one the cache held before the call.  When no
    sheet is updated the stylesheet is left as it was. *)
Theorem TileCache_update_publishes_sheets
    (tc : TileCache.t) (ptTile : list slot) (pm : PaletteManager.t)
    (bgBase sprBase : Z) (sig : option (list jsref)) :
  length (TileCache.blobUrls tc) = 12%nat →
  tilesOk ptTile = true →
  ∃ tc' log,
    TileCache.update tc ptTile pm bgBase sprBase sig = Some (tc', log)
    ∧ (∀ k, (k < 12)%nat →
       (Z.of_nat k ∈ TileCache.updatedSheets tc' →
        ∃ data, sheetData ptTile (sheetBase bgBase k) (sheetColours pm k) = Some data
                ∧ TileCache.blobUrls tc' !! k = Some (Some data)
                ∧ (sheetSelector k, data) ∈ TileCache.styleEl tc')
       ∧ (Z.of_nat k ∉ TileCache.updatedSheets tc' →
          TileCache.blobUrls tc' !! k = TileCache.blobUrls tc !! k))
    ∧ (TileCache.updatedSheets tc' = ∅ →
       TileCache.styleEl tc' = TileCache.styleEl tc
       ∧ TileCache.blobUrls tc' = TileCache.blobUrls tc
       ∧ TileCache.RewriteStylesheet ∉ log)
    ∧ (TileCache.updatedSheets tc' ≠ ∅ → TileCache.RewriteStylesheet ∈ log).
Proof.
  intros Hlen Hok.
  destruct (update_total tc ptTile pm bgBase sprBase sig Hok) as [[tc' log] E].
  exists tc', log. split; [exact E|].
  apply (update_publishes tc tc' ptTile pm bgBase sprBase sig log); assumption.
Qed.

Lemma TileCache_update_publishes_sheets_witness :
  ∃ tc' log,
    TileCache.update TileCache.new stripedTiles trackerAfterZero 0 0 None
    = Some (tc', log)
    ∧ (∀ k, (k < 12)%nat →
       (Z.of_nat k ∈ TileCache.updatedSheets tc' →
        ∃ data, sheetData stripedTiles (sheetBase 0 k) (sheetColours trackerAfterZero k) = Some data
                ∧ TileCache.blobUrls tc' !! k = Some (Some data)
                ∧ (sheetSelector k, data) ∈ TileCache.styleEl tc')
       ∧ (Z.of_nat k ∉ TileCache.updatedSheets tc' →
          TileCache.blobUrls tc' !! k = TileCache.blobUrls TileCache.new !! k))
    ∧ (TileCache.updatedSheets tc' = ∅ →
       TileCache.styleEl tc' = TileCache.styleEl TileCache.new
       ∧ TileCache.blobUrls tc' = TileCache.blobUrls TileCache.new
       ∧ TileCache.RewriteStylesheet ∉ log)
    ∧ (TileCache.updatedSheets tc' ≠ ∅ → TileCache.RewriteStylesheet ∈ log).
Proof.
  apply (TileCache_update_publishes_sheets TileCache.new stripedTiles
           trackerAfterZero 0 0 None).
  - reflexivity.
  - vm_compute. reflexivity.
Defined.

(** X10. The regeneration counter and the console warning.  Over a table
    of drawable tiles the call completes; it leaves the counter of
    consecutive full regenerations one higher when all twelve sheets were
    regenerated and at zero otherwise, and it logs the performance warning
    exactly when all twelve were regenerated and the counter stood at 59.
    All twelve are regenerated exactly when the set of updated sheets has
    size 12. *)
Theorem TileCache_update_counts_full_regenerations
    (tc : TileCache.t) (ptTile : list slot) (pm : PaletteManager.t)
    (bgBase sprBase : Z) (sig : option (list jsref)) :
  tilesOk ptTile = true →
  ∃ tc' log,
    TileCache.update tc ptTile pm bgBase sprBase sig = Some (tc', log)
    ∧ (size (TileCache.updatedSheets tc') = 12%nat
       ↔ ∀ k, 0 <= k < 12 → k ∈ TileCache.updatedSheets tc')
    ∧ TileCache.consecRegenFrames tc'
      = (if (size (TileCache.updatedSheets tc') =? 12)%nat
         then TileCache.consecRegenFrames tc + 1 else 0)
    ∧ (TileCache.PerfWarning ∈ log
       ↔ size (TileCache.updatedSheets tc') = 12%nat
         ∧ TileCache.consecRegenFrames tc = 59).
Proof.
  intros Hok.
  destruct (update_total tc ptTile pm bgBase sprBase sig Hok) as [[tc' log] E].
  exists tc', log. split; [exact E|].
  destruct (update_decompose _ _ _ _ _ _ _ _ E) as (tc1 & log1 & Er & Ef).
  destruct (detect_urls tc ptTile bgBase sig) as (_ & _ & Dc). cbv zeta in Dc.
  destruct (finish_urls tc1 log1) as (_ & _ & Fc & Fl). cbv zeta in Fc, Fl.
  rewrite Ef in Fc, Fl. cbn [fst snd] in Fc, Fl.
  destruct (finish_spec (tc1, log1)) as (Fup & _). rewrite Ef in Fup.
  cbn [fst snd] in Fup.
  destruct (regenerate_inv _ _ _ _ _ _ _ _ Er) as (B & L & _). cbn [app] in L.
  unfold baselines in B. injection B as _ _ _ Bc. rewrite Dc in Bc.
  rewrite <- Fup in Fc, Fl. rewrite Bc in Fc, Fl.
  set (full := list_to_set [0; 1; 2; 3; 4; 5; 6; 7; 8; 9; 10; 11] : gset Z).
  assert (Hsub : TileCache.updatedSheets tc' ⊆ full).
  { intros k Hk. apply (update_sheet_range _ _ _ _ _ _ _ _ _ E) in Hk.
    unfold full. rewrite elem_of_list_to_set, !elem_of_cons. lia. }
  assert (Hfull : size full = 12%nat) by reflexivity.
  split; [|split].
  - split.
    + intros Hs k Hk.
      assert (Heq : TileCache.updatedSheets tc' = full)
        by (apply set_subseteq_size_eq; [exact Hsub | lia]).
      rewrite Heq. unfold full. rewrite elem_of_list_to_set, !elem_of_cons. lia.
    + intros Hall.
      assert (Heq : TileCache.updatedSheets tc' = full).
      { apply set_eq. intros k. split; [apply Hsub|]. unfold full.
        rewrite elem_of_list_to_set, !elem_of_cons. intros Hk. apply Hall.
        rewrite elem_of_nil in Hk. lia. }
      rewrite Heq. exact Hfull.
  - exact Fc.
  - rewrite Fl, L, !elem_of_app. split.
    + intros [Hin|[Hin|Hin]].
      * unfold expectedRenders in Hin.
        rewrite !elem_of_app, !list_elem_of_In, !in_flat_map in Hin.
        destruct Hin as [(g & _ & Hg)|[(g & _ & Hg)|(g & _ & Hg)]];
          (destruct (_ || _) in Hg; [destruct Hg as [Hg|[]]; discriminate | destruct Hg]).
      * destruct (0 <? _)%nat; inversion Hin; subst. inversion H1.
      * destruct (size (TileCache.updatedSheets tc') =? 12)%nat eqn:E12;
          [|inversion Hin].
        destruct (TileCache.consecRegenFrames tc + 1 =? 60) eqn:E60;
          [|inversion Hin].
        apply Nat.eqb_eq in E12. apply Z.eqb_eq in E60. split; [exact E12 | lia].
    + intros [Hs Hc]. right. right. rewrite Hs, Hc. left.
Qed.

Lemma TileCache_update_counts_full_regenerations_witness :
  ∃ tc' log,
    TileCache.update TileCache.new stripedTiles trackerAfterZero 0 0 None
    = Some (tc', log)
    ∧ (size (TileCache.updatedSheets tc') = 12%nat
       ↔ ∀ k, 0 <= k < 12 → k ∈ TileCache.updatedSheets tc')
    ∧ TileCache.consecRegenFrames tc'
      = (if (size (TileCache.updatedSheets tc') =? 12)%nat
         then TileCache.consecRegenFrames TileCache.new + 1 else 0)
    ∧ (TileCache.PerfWarning ∈ log
       ↔ size (TileCache.updatedSheets tc') = 12%nat
         ∧ TileCache.consecRegenFrames TileCache.new = 59).
Proof.
  apply (TileCache_update_counts_full_regenerations TileCache.new stripedTiles
           trackerAfterZero 0 0 None).
  vm_compute. reflexivity.
Defined.

(** X11. Calls without a bank signature (as the unit tests make them).
    The stored bank references are left alone, and a sheet is regenerated
    only for a dirty palette group, a changed background base or a tile of
    its pattern table that hashes differently from the previous call:
    tile records swapped for others with the same checksums go unnoticed. *)
Theorem TileCache_update_without_signature
    (tc0 : TileCache.t) (ptTile ptTile' : list slot) (pm pm' : PaletteManager.t)
    (bgBase bgBase' sprBase sprBase' : Z) (sig : option (list jsref)) :
  length (TileCache.tileChecksums tc0) = 512%nat →
  length (TileCache.prevBankRefs tc0) = 8%nat →
  tilesOk ptTile = true →
  tilesOk ptTile' = true →
  noNewTiles ptTile ptTile' = true →
  ∃ tc1 log1 tc2 log2,
    TileCache.update tc0 ptTile pm bgBase sprBase sig = Some (tc1, log1)
    ∧ TileCache.update tc1 ptTile' pm' bgBase' sprBase' None = Some (tc2, log2)
    ∧ TileCache.prevBankRefs tc2 = TileCache.prevBankRefs tc1
    ∧ ∀ g, 0 <= g < 4 →
        (g ∈ TileCache.updatedSheets tc2
         ↔ g ∈ PaletteManager.dirtyBgGroups pm'
           ∨ bgBase' ≠ bgBase
           ∨ bankWritten ptTile ptTile' (bankOf bgBase'))
        ∧ (4 + g ∈ TileCache.updatedSheets tc2
           ↔ g ∈ PaletteManager.dirtySprGroups pm' ∨ bankWritten ptTile ptTile' 0)
        ∧ (8 + g ∈ TileCache.updatedSheets tc2
           ↔ g ∈ PaletteManager.dirtySprGroups pm' ∨ bankWritten ptTile ptTile' 1).
Proof.
  intros Hl0 Hr0 Hok Hok' Hnn.
  destruct (update_total tc0 ptTile pm bgBase sprBase sig Hok) as [[tc1 log1] E1].
  destruct (update_total tc1 ptTile' pm' bgBase' sprBase' None Hok')
    as [[tc2 log2] E2].
  exists tc1, log1, tc2, log2. split; [exact E1|]. split; [exact E2|].
  destruct (update_baselines _ _ _ _ _ _ _ _ Hl0 Hr0 E1)
    as (Ls & Lr & Hb1 & Ns & Hrefs).
  destruct (detect_spec tc1 ptTile' bgBase' None)
    as (sums' & d0' & d1' & Es' & _ & _ & _ & Er & Dc & Db & D0 & D1).
  cbv zeta in Er, Dc, Db, D0, D1. cbv beta iota in Er, Db, D0, D1.
  split.
  { destruct (update_inv _ _ _ _ _ _ _ _ E2) as (_ & _ & _ & Hr2 & _).
    rewrite Hr2. exact Er. }
  intros g Hg.
  destruct (update_sheet_iff _ _ _ _ _ _ _ _ g E2 Hg) as (H0 & H4 & H8).
  cbv zeta in H0, H4, H8.
  destruct (scan_spec _ _ _ _ _ Ls Es') as (_ & _ & C0 & C1).
  assert (W0 : d0' = true ↔ bankWritten ptTile ptTile' 0).
  { rewrite C0. unfold bankWritten. split.
    - intros (i & Hi & Hd).
      apply (tileDirty_written ptTile ptTile' (TileCache.tileChecksums tc0)) in Hd;
        [|exact Hnn | lia | apply Ns; lia].
      destruct Hd as (t & t' & ? & ? & ?). exists i, t, t'.
      repeat split; try assumption; lia.
    - intros (i & t & t' & Hi & ? & ? & ?). exists i. split; [lia|].
      apply (tileDirty_written ptTile ptTile' (TileCache.tileChecksums tc0));
        [exact Hnn | lia | apply Ns; lia | eauto]. }
  assert (W1 : d1' = true ↔ bankWritten ptTile ptTile' 1).
  { rewrite C1. unfold bankWritten. split.
    - intros (i & Hi & Hd).
      apply (tileDirty_written ptTile ptTile' (TileCache.tileChecksums tc0)) in Hd;
        [|exact Hnn | lia | apply Ns; lia].
      destruct Hd as (t & t' & ? & ? & ?). exists i, t, t'.
      repeat split; try assumption; lia.
    - intros (i & t & t' & Hi & ? & ? & ?). exists i. split; [lia|].
      apply (tileDirty_written ptTile ptTile' (TileCache.tileChecksums tc0));
        [exact Hnn | lia | apply Ns; lia | eauto]. }
  rewrite H0, H4, H8, Dc, Db, D0, D1, Hb1. cbn [orb].
  rewrite !orb_true_iff, !bool_decide_eq_true, negb_true_iff, Z.eqb_neq.
  rewrite <- W0, <- W1.
  assert (Wb : (if 256 <=? bgBase' then d1' else d0') = true
               ↔ bankWritten ptTile ptTile' (bankOf bgBase')).
  { unfold bankOf. destruct (256 <=? bgBase'); [exact W1 | exact W0]. }
  rewrite Wb. tauto.
Qed.

Lemma TileCache_update_without_signature_witness :
  ∃ tc1 log1 tc2 log2,
    TileCache.update TileCache.new twoTiles trackerAfterZero 0 0 None
    = Some (tc1, log1)
    ∧ TileCache.update tc1 twoTilesWritten trackerSteady 0 0 None = Some (tc2, log2)
    ∧ TileCache.prevBankRefs tc2 = TileCache.prevBankRefs tc1
    ∧ ∀ g, 0 <= g < 4 →
        (g ∈ TileCache.updatedSheets tc2
         ↔ g ∈ PaletteManager.dirtyBgGroups trackerSteady
           ∨ 0 ≠ 0
           ∨ bankWritten twoTiles twoTilesWritten (bankOf 0))
        ∧ (4 + g ∈ TileCache.updatedSheets tc2
           ↔ g ∈ PaletteManager.dirtySprGroups trackerSteady
             ∨ bankWritten twoTiles twoTilesWritten 0)
        ∧ (8 + g ∈ TileCache.updatedSheets tc2
           ↔ g ∈ PaletteManager.dirtySprGroups trackerSteady
             ∨ bankWritten twoTiles twoTilesWritten 1).
Proof.
  apply (TileCache_update_without_signature TileCache.new twoTiles twoTilesWritten
           trackerAfterZero trackerSteady 0 0 0 0 None).
  - reflexivity.
  - reflexivity.
  - vm_compute. reflexivity.
  - vm_compute. reflexivity.
  - vm_compute. reflexivity.
Defined.

(** ** The background layer: cells against the nametable *)

Lemma to_int16_small (z : Z) : -32768 <= z < 32768 → JS.to_int16 z = z.
Proof.
  intros H. unfold JS.to_int16. cbv zeta.
  change (2 ^ 16) with 65536. change (2 ^ 15) with 32768.
  destruct (Z.lt_ge_cases z 0).
  - replace (z mod 65536) with (z + 65536)
      by (apply (Z.mod_unique _ _ (-1)); lia).
    replace (z + 65536 <? 32768) with false by (symmetry; apply Z.ltb_ge; lia). lia.
  - rewrite Z.mod_small by lia.
    replace (z <? 32768) with true by (symmetry; apply Z.ltb_lt; lia). reflexivity.
Qed.

Lemma to_int8_small (z : Z) : -128 <= z < 128 → JS.to_int8 z = z.
Proof.
  intros H. unfold JS.to_int8. cbv zeta.
  change (2 ^ 8) with 256. change (2 ^ 7) with 128.
  destruct (Z.lt_ge_cases z 0).
  - replace (z mod 256) with (z + 256) by (apply (Z.mod_unique _ _ (-1)); lia).
    replace (z + 256 <? 128) with false by (symmetry; apply Z.ltb_ge; lia). lia.
  - rewrite Z.mod_small by lia.
    replace (z <? 128) with true by (symmetry; apply Z.ltb_lt; lia). reflexivity.
Qed.

Lemma cellSync_shown (t a : Z) : cellSync (shownCell t a) t a = true.
Proof.
  unfold cellSync. rewrite !bool_decide_eq_true_2 by reflexivity.
  rewrite !orb_true_r. reflexivity.
Qed.

Lemma cellSync_fields (c : BGLayer.cell) (t a : Z) :
  cellSync c t a = true →
  (t ≠ -1 →
     BGLayer.backgroundPosition c = TileCache.getTilePosition t
     ∧ BGLayer.tileIdx c = Some t
     ∧ BGLayer.tileHex c = Some ("$" ++ JS.hex2 t)%string)
  ∧ (a ≠ -1 →
       BGLayer.className c
       = ("bg-tile bg-pal-" ++ JS.show (Z.shiftr (JS.to_int32 a) 2))%string
       ∧ BGLayer.palette c = Some (Z.shiftr (JS.to_int32 a) 2)).
Proof.
  unfold cellSync. intros H. apply andb_true_iff in H as [Ht Ha]. split.
  - intros Hne. apply orb_true_iff in Ht as [Ht|Ht];
      [apply Z.eqb_eq in Ht; contradiction|].
    apply andb_true_iff in Ht as [Ht H3]. apply andb_true_iff in Ht as [H1 H2].
    apply bool_decide_eq_true in H1, H2, H3. auto.
  - intros Hne. apply orb_true_iff in Ha as [Ha|Ha];
      [apply Z.eqb_eq in Ha; contradiction|].
    apply andb_true_iff in Ha as [H1 H2].
    apply bool_decide_eq_true in H1, H2. auto.
Qed.

Lemma list_insert_nth_id {A : Type} (l : list A) (i : nat) (d : A) :
  (i < length l)%nat → <[i := nth i l d]> l = l.
Proof.
  intros Hi. apply list_insert_id. apply lookup_lt_is_Some_2 in Hi as [x Hx].
  rewrite (nth_lookup_Some _ _ d _ Hx). exact Hx.
Qed.

Lemma cell_eq (c c' : BGLayer.cell) :
  BGLayer.className c = BGLayer.className c' →
  BGLayer.backgroundPosition c = BGLayer.backgroundPosition c' →
  BGLayer.tileIdx c = BGLayer.tileIdx c' →
  BGLayer.tileHex c = BGLayer.tileHex c' →
  BGLayer.palette c = BGLayer.palette c' →
  c = c'.
Proof. destruct c, c'. cbn. intros -> -> -> -> ->. reflexivity. Qed.

(** One iteration of [_updateQuadrant] on a cell that agrees with its
    baselines: whichever branch runs, the cell ends up showing the
    nametable entry and both baselines hold that entry. *)
Lemma updateCell_shows (ntData : NameTable.t) (tileCache : TileCache.t)
    (qd : BGLayer.quadrant) (i : nat) :
  let t := nth i (NameTable.tile ntData) 0 in
  let a := nth i (NameTable.attrib ntData) 0 in
  (i < length (BGLayer.cells qd))%nat →
  (i < length (BGLayer.prevTile qd))%nat →
  (i < length (BGLayer.prevAttrib qd))%nat →
  0 <= t < 32768 → 0 <= a < 128 →
  cellSync (nth i (BGLayer.cells qd) (BGLayer.mkCell "" "" None None None))
           (nth i (BGLayer.prevTile qd) 0) (nth i (BGLayer.prevAttrib qd) 0) = true →
  BGLayer.updateCell ntData tileCache qd i
  = BGLayer.mkQuadrant (BGLayer.physNt qd) (BGLayer.left qd) (BGLayer.top qd)
      (<[i := shownCell t a]> (BGLayer.cells qd))
      (<[i := t]> (BGLayer.prevTile qd))
      (<[i := a]> (BGLayer.prevAttrib qd)).
Proof.
  intros t a Hc Hpt Hpa Ht Ha Hsync.
  apply cellSync_fields in Hsync as [St Sa].
  unfold BGLayer.updateCell. fold t. fold a. cbv zeta.
  set (c := nth i (BGLayer.cells qd) (BGLayer.mkCell "" "" None None None)) in *.
  rewrite (to_int16_small t) by lia. rewrite (to_int8_small a) by lia.
  destruct (t =? nth i (BGLayer.prevTile qd) 0) eqn:Et;
    [apply Z.eqb_eq in Et|apply Z.eqb_neq in Et];
    (destruct (a =? nth i (BGLayer.prevAttrib qd) 0) eqn:Ea;
      [apply Z.eqb_eq in Ea|apply Z.eqb_neq in Ea]);
    destruct (TileCache.bgSheetUpdated tileCache (Z.shiftr (JS.to_int32 a) 2));
    cbn [negb andb orb];
    try (rewrite <- Et in St; specialize (St ltac:(lia)); destruct St as (S1 & S2 & S3));
    try (rewrite <- Ea in Sa; specialize (Sa ltac:(lia)); destruct Sa as (S4 & S5));
    try (assert (Ec : c = shownCell t a)
           by (apply cell_eq; unfold shownCell;
               cbn [BGLayer.className BGLayer.backgroundPosition BGLayer.tileIdx
                    BGLayer.tileHex BGLayer.palette]; assumption));
    try (assert (Ept : <[i := t]> (BGLayer.prevTile qd) = BGLayer.prevTile qd)
           by (rewrite Et; apply list_insert_nth_id; exact Hpt));
    try (assert (Epa : <[i := a]> (BGLayer.prevAttrib qd) = BGLayer.prevAttrib qd)
           by (rewrite Ea; apply list_insert_nth_id; exact Hpa));
    try (assert (Ecs : <[i := shownCell t a]> (BGLayer.cells qd) = BGLayer.cells qd)
           by (rewrite <- Ec; apply list_insert_nth_id; exact Hc));
    rewrite ?Ept, ?Epa; unfold shownCell;
    cbn [BGLayer.className BGLayer.backgroundPosition BGLayer.tileIdx
         BGLayer.tileHex BGLayer.palette];
    rewrite ?S1, ?S2, ?S3, ?S4, ?S5; try reflexivity.
  unfold shownCell in Ecs. rewrite Ecs. destruct qd; reflexivity.
Qed.

Lemma ntOk_spec (nt : NameTable.t) :
  ntOk nt = true →
  (960 <= length (NameTable.tile nt))%nat
  ∧ (960 <= length (NameTable.attrib nt))%nat
  ∧ ∀ i, (i < 960)%nat →
         0 <= nth i (NameTable.tile nt) 0 < 32768
         ∧ 0 <= nth i (NameTable.attrib nt) 0 < 128.
Proof.
  unfold ntOk. intros H.
  apply andb_true_iff in H as [H Ha]. apply andb_true_iff in H as [H Ht].
  apply andb_true_iff in H as [Lt La].
  apply Nat.leb_le in Lt, La. split; [exact Lt|]. split; [exact La|].
  intros i Hi. rewrite forallb_forall in Ht, Ha. split.
  - assert (Hin : In (nth i (NameTable.tile nt) 0) (firstn 960 (NameTable.tile nt))).
    { apply list_elem_of_In, list_elem_of_lookup. exists i.
      rewrite lookup_take_lt by lia.
      assert (Hlt : (i < length (NameTable.tile nt))%nat) by lia.
      apply lookup_lt_is_Some_2 in Hlt as [y Hy].
      rewrite (nth_lookup_Some _ _ 0 _ Hy). exact Hy. }
    apply Ht in Hin. apply andb_true_iff in Hin as [H1 H2].
    apply Z.leb_le in H1. apply Z.ltb_lt in H2. lia.
  - assert (Hin : In (nth i (NameTable.attrib nt) 0) (firstn 960 (NameTable.attrib nt))).
    { apply list_elem_of_In, list_elem_of_lookup. exists i.
      rewrite lookup_take_lt by lia.
      assert (Hlt : (i < length (NameTable.attrib nt))%nat) by lia.
      apply lookup_lt_is_Some_2 in Hlt as [y Hy].
      rewrite (nth_lookup_Some _ _ 0 _ Hy). exact Hy. }
    apply Ha in Hin. apply andb_true_iff in Hin as [H1 H2].
    apply Z.leb_le in H1. apply Z.ltb_lt in H2. lia.
Qed.

Lemma quadrantSync_spec (qd : BGLayer.quadrant) :
  quadrantSync qd = true →
  length (BGLayer.cells qd) = 960%nat
  ∧ length (BGLayer.prevTile qd) = 960%nat
  ∧ length (BGLayer.prevAttrib qd) = 960%nat
  ∧ ∀ i, (i < 960)%nat →
         cellSync (nth i (BGLayer.cells qd) (BGLayer.mkCell "" "" None None None))
                  (nth i (BGLayer.prevTile qd) 0)
                  (nth i (BGLayer.prevAttrib qd) 0) = true.
Proof.
  unfold quadrantSync. intros H.
  apply andb_true_iff in H as [H Hf]. apply andb_true_iff in H as [H La].
  apply andb_true_iff in H as [Lc Lt]. apply Nat.eqb_eq in Lc, Lt, La.
  repeat split; try assumption.
  intros i Hi. rewrite forallb_forall in Hf. apply Hf. apply in_seq. lia.
Qed.

Lemma nth_app_drop {A : Type} (front l : list A) (n : nat) (d : A) :
  length front = n → nth n (front ++ drop n l) d = nth n l d.
Proof.
  intros Hl. rewrite !nth_lookup. rewrite lookup_app_r by lia.
  rewrite Hl, Nat.sub_diag, lookup_drop, Nat.add_0_r. reflexivity.
Qed.

Lemma insert_app_drop {A : Type} (front l : list A) (n : nat) (x : A) :
  length front = n → (n < length l)%nat →
  <[n := x]> (front ++ drop n l) = (front ++ [x]) ++ drop (S n) l.
Proof.
  intros Hl Hn. rewrite insert_app_r_alt by lia. rewrite Hl, Nat.sub_diag.
  apply lookup_lt_is_Some_2 in Hn as [y Hy].
  rewrite (drop_S _ _ _ Hy). cbn. rewrite <- app_assoc. reflexivity.
Qed.

(** The loop of [_updateQuadrant] after [n] iterations. *)
Lemma updateQuadrant_prefix (nt : NameTable.t) (tileCache : TileCache.t)
    (qd : BGLayer.quadrant) (n : nat) :
  quadrantSync qd = true → ntOk nt = true → (n <= 960)%nat →
  fold_left (BGLayer.updateCell nt tileCache) (seq 0 n) qd
  = BGLayer.mkQuadrant (BGLayer.physNt qd) (BGLayer.left qd) (BGLayer.top qd)
      (map (fun i => shownCell (nth i (NameTable.tile nt) 0)
                               (nth i (NameTable.attrib nt) 0)) (seq 0 n)
         ++ drop n (BGLayer.cells qd))
      (take n (NameTable.tile nt) ++ drop n (BGLayer.prevTile qd))
      (take n (NameTable.attrib nt) ++ drop n (BGLayer.prevAttrib qd)).
Proof.
  intros Hs Hnt. destruct (quadrantSync_spec _ Hs) as (Lc & Lt & La & Hcell).
  destruct (ntOk_spec _ Hnt) as (Lnt & Lna & Hr).
  induction n as [|n IH]; intros Hn.
  - cbn [seq fold_left map take app]. rewrite !drop_0. destruct qd; reflexivity.
  - rewrite seq_S, fold_left_app, IH by lia. cbn [fold_left Nat.add].
    assert (L1 : length (map (fun i => shownCell (nth i (NameTable.tile nt) 0)
                                         (nth i (NameTable.attrib nt) 0)) (seq 0 n))
                 = n) by (rewrite length_map, length_seq; reflexivity).
    assert (L2 : length (take n (NameTable.tile nt)) = n)
      by (rewrite length_take; lia).
    assert (L3 : length (take n (NameTable.attrib nt)) = n)
      by (rewrite length_take; lia).
    destruct (Hr n ltac:(lia)) as [Rt Ra].
    rewrite updateCell_shows;
      cbn [BGLayer.cells BGLayer.prevTile BGLayer.prevAttrib BGLayer.physNt
           BGLayer.left BGLayer.top];
      rewrite ?length_app, ?length_drop, ?L1, ?L2, ?L3; try lia.
    + rewrite !insert_app_drop by (assumption || lia).
      rewrite map_app. cbn [map].
      assert (Ht : (n < length (NameTable.tile nt))%nat) by lia.
      assert (Ha : (n < length (NameTable.attrib nt))%nat) by lia.
      apply lookup_lt_is_Some_2 in Ht as [x Hx].
      apply lookup_lt_is_Some_2 in Ha as [y Hy].
      rewrite (take_S_r _ _ _ Hx), (take_S_r _ _ _ Hy).
      rewrite (nth_lookup_Some _ _ 0 _ Hx), (nth_lookup_Some _ _ 0 _ Hy).
      reflexivity.
    + rewrite !nth_app_drop by assumption. apply Hcell. lia.
Qed.

(** [_updateQuadrant] on a quadrant that agrees with its baselines, for a
    well-formed nametable: all 960 cells show the table, and the baselines
    hold its first 960 entries. *)
Lemma updateQuadrant_shows (nt : NameTable.t) (tileCache : TileCache.t)
    (qd : BGLayer.quadrant) :
  quadrantSync qd = true → ntOk nt = true →
  BGLayer.updateQuadrant nt tileCache qd
  = BGLayer.mkQuadrant (BGLayer.physNt qd) (BGLayer.left qd) (BGLayer.top qd)
      (shownCells nt) (take 960 (NameTable.tile nt)) (take 960 (NameTable.attrib nt)).
Proof.
  intros Hs Hnt. unfold BGLayer.updateQuadrant.
  rewrite (updateQuadrant_prefix nt tileCache qd 960 Hs Hnt) by lia.
  destruct (quadrantSync_spec _ Hs) as (Lc & Lt & La & _).
  rewrite !drop_ge, !app_nil_r by lia. reflexivity.
Qed.

Lemma shownCells_sync (nt : NameTable.t) (physNt left top : option Z) :
  ntOk nt = true →
  quadrantSync (BGLayer.mkQuadrant physNt left top (shownCells nt)
                  (take 960 (NameTable.tile nt)) (take 960 (NameTable.attrib nt)))
  = true.
Proof.
  intros Hnt. destruct (ntOk_spec _ Hnt) as (Lnt & Lna & _).
  unfold quadrantSync.
  cbn [BGLayer.cells BGLayer.prevTile BGLayer.prevAttrib].
  assert (Lc : length (shownCells nt) = 960%nat)
    by (unfold shownCells; rewrite length_map, length_seq; reflexivity).
  rewrite Lc, !length_take, !Nat.min_l by lia.
  rewrite !Nat.eqb_refl. cbn [andb].
  apply forallb_forall. intros i Hi. apply in_seq in Hi.
  assert (E1 : nth i (shownCells nt) (BGLayer.mkCell "" "" None None None)
               = shownCell (nth i (NameTable.tile nt) 0) (nth i (NameTable.attrib nt) 0)).
  { unfold shownCells. rewrite nth_lookup, list_lookup_fmap, lookup_seq_lt by lia.
    reflexivity. }
  assert (E2 : nth i (take 960 (NameTable.tile nt)) 0 = nth i (NameTable.tile nt) 0)
    by (rewrite !nth_lookup, lookup_take_lt by lia; reflexivity).
  assert (E3 : nth i (take 960 (NameTable.attrib nt)) 0 = nth i (NameTable.attrib nt) 0)
    by (rewrite !nth_lookup, lookup_take_lt by lia; reflexivity).
  rewrite E1, E2, E3. apply cellSync_shown.
Qed.

Lemma layerSync_spec (bg : BGLayer.t) :
  layerSync bg = true →
  length (BGLayer.quadrants bg) = 4%nat
  ∧ ∀ q qd, BGLayer.quadrants bg !! q = Some qd → quadrantSync qd = true.
Proof.
  unfold layerSync. intros H. apply andb_true_iff in H as [Hl Hf].
  apply Nat.eqb_eq in Hl. split; [exact Hl|].
  intros q qd Hq. rewrite forallb_forall in Hf. apply Hf.
  apply list_elem_of_In, list_elem_of_lookup. eauto.
Qed.

Lemma layerSync_intro (bg : BGLayer.t) :
  length (BGLayer.quadrants bg) = 4%nat →
  (∀ q qd, BGLayer.quadrants bg !! q = Some qd → quadrantSync qd = true) →
  layerSync bg = true.
Proof.
  intros Hl Hq. unfold layerSync. rewrite Hl. cbn [Nat.eqb andb].
  apply forallb_forall. intros qd Hin.
  apply list_elem_of_In, list_elem_of_lookup in Hin as [q Hq']. eauto.
Qed.

Lemma lookupNT_ok (ppuState : PPUState.t) (q : nat) (p : Z) (nt : NameTable.t) :
  nameTablesOk ppuState = true → BGLayer.lookupNT ppuState q = Some (p, nt) →
  ntOk nt = true.
Proof.
  unfold nameTablesOk, BGLayer.lookupNT. intros Hok H.
  destruct (PPUState.mirrorMap ppuState !! q) as [p'|]; [|discriminate].
  cbn [mbind option_bind] in H.
  destruct (p' <? 0); [discriminate|].
  destruct (PPUState.nameTables ppuState !! Z.to_nat p') as [[nt'|]|] eqn:E;
    cbn in H; try discriminate.
  injection H as _ <-. rewrite forallb_forall in Hok.
  apply (Hok (Some nt')). apply list_elem_of_In, list_elem_of_lookup. eauto.
Qed.

Lemma refreshQuadrant_shows (ppuState : PPUState.t) (tileCache : TileCache.t)
    (q : nat) (qd : BGLayer.quadrant) :
  quadrantSync qd = true → nameTablesOk ppuState = true →
  BGLayer.refreshQuadrant ppuState tileCache q qd
  = match BGLayer.lookupNT ppuState q with
    | None => qd
    | Some (p, nt) =>
        BGLayer.mkQuadrant (Some p) (BGLayer.left qd) (BGLayer.top qd)
          (shownCells nt) (take 960 (NameTable.tile nt))
          (take 960 (NameTable.attrib nt))
    end.
Proof.
  intros Hs Hok. unfold BGLayer.refreshQuadrant.
  destruct (BGLayer.lookupNT ppuState q) as [[p nt]|] eqn:E; [|reflexivity].
  rewrite updateQuadrant_shows; [reflexivity | exact Hs |].
  apply (lookupNT_ok _ _ _ _ Hok E).
Qed.

Lemma refreshQuadrant_sync (ppuState : PPUState.t) (tileCache : TileCache.t)
    (q : nat) (qd : BGLayer.quadrant) :
  quadrantSync qd = true → nameTablesOk ppuState = true →
  quadrantSync (BGLayer.refreshQuadrant ppuState tileCache q qd) = true.
Proof.
  intros Hs Hok. rewrite refreshQuadrant_shows by assumption.
  destruct (BGLayer.lookupNT ppuState q) as [[p nt]|] eqn:E; [|exact Hs].
  apply shownCells_sync. apply (lookupNT_ok _ _ _ _ Hok E).
Qed.

Lemma placeQuadrant_sync (sx sy : Z) (q : nat) (qd : BGLayer.quadrant) :
  quadrantSync (BGLayer.placeQuadrant sx sy q qd) = quadrantSync qd.
Proof.
  unfold BGLayer.placeQuadrant.
  destruct (BGLayer.quadrantPosition q sx sy) as [qx qy]. reflexivity.
Qed.

Lemma forQuadrants_lookup_ge (body : nat → BGLayer.quadrant → BGLayer.quadrant)
    (qs : list BGLayer.quadrant) (q : nat) :
  (length qs <= q)%nat → BGLayer.forQuadrants body qs !! q = None.
Proof.
  intros H. apply lookup_ge_None. rewrite forQuadrants_length. exact H.
Qed.

(** The quadrants after a visible frame, one by one. *)
Lemma update_quadrant_lookup (bg : BGLayer.t) (ppuState : PPUState.t)
    (tileCache : TileCache.t) (q : nat) :
  PPUState.bgVisible ppuState = true → (q < 4)%nat →
  BGLayer.quadrants (BGLayer.update bg ppuState tileCache) !! q
  = (fun qd => BGLayer.placeQuadrant (scrollX (PPUState.scroll ppuState))
                 (scrollY (PPUState.scroll ppuState)) q
                 (BGLayer.refreshQuadrant ppuState tileCache q qd))
    <$> BGLayer.quadrants bg !! q.
Proof.
  intros Hv Hq. unfold BGLayer.update. rewrite Hv. cbn [negb BGLayer.quadrants].
  rewrite !forQuadrants_lookup by exact Hq.
  destruct (BGLayer.quadrants bg !! q); reflexivity.
Qed.

(** [update] keeps the cells in agreement with their baselines. *)
Lemma update_layerSync (bg : BGLayer.t) (ppuState : PPUState.t)
    (tileCache : TileCache.t) :
  layerSync bg = true → nameTablesOk ppuState = true →
  layerSync (BGLayer.update bg ppuState tileCache) = true.
Proof.
  intros Hs Hok. destruct (layerSync_spec _ Hs) as [Hl Hq].
  destruct (PPUState.bgVisible ppuState) eqn:Hv.
  2:{ unfold BGLayer.update. rewrite Hv. cbn [negb]. exact Hs. }
  apply layerSync_intro.
  - unfold BGLayer.update. rewrite Hv. cbn [negb BGLayer.quadrants].
    rewrite !forQuadrants_length. exact Hl.
  - intros q qd' Hq'.
    assert (Hlt : (q < 4)%nat).
    { apply lookup_lt_Some in Hq'. unfold BGLayer.update in Hq'. rewrite Hv in Hq'.
      cbn [negb BGLayer.quadrants] in Hq'. rewrite !forQuadrants_length in Hq'. lia. }
    rewrite update_quadrant_lookup in Hq' by assumption.
    destruct (lookup_lt_is_Some_2 (BGLayer.quadrants bg) q ltac:(lia)) as [qd E].
    rewrite E in Hq'. injection Hq' as <-. rewrite placeQuadrant_sync.
    apply refreshQuadrant_sync; [apply (Hq q qd E) | exact Hok].
Qed.

(** X12. The background layer shows the nametables.  From a layer whose
    cells agree with their baselines (as a new layer does, and as this
    call leaves it), a visible frame with well-formed nametables leaves
    every quadrant whose nametable is present with all 960 cells showing
    that table: cell [i] has the position of tile [tile[i]], the class and
    palette of [attrib[i] >> 2] and the tile attributes of [tile[i]];
    the baselines hold the table's first 960 entries, whatever the cache
    reports and whatever the layer showed before. *)
Theorem BGLayer_update_shows_nametable
    (bg : BGLayer.t) (ppuState : PPUState.t) (tileCache : TileCache.t) :
  layerSync bg = true →
  nameTablesOk ppuState = true →
  PPUState.bgVisible ppuState = true →
  let bg' := BGLayer.update bg ppuState tileCache in
  layerSync bg' = true
  ∧ ∀ q p nt, (q < 4)%nat → BGLayer.lookupNT ppuState q = Some (p, nt) →
      ∃ qd, BGLayer.quadrants bg' !! q = Some qd
            ∧ BGLayer.physNt qd = Some p
            ∧ BGLayer.cells qd = shownCells nt
            ∧ BGLayer.prevTile qd = take 960 (NameTable.tile nt)
            ∧ BGLayer.prevAttrib qd = take 960 (NameTable.attrib nt).
Proof.
  intros Hs Hok Hv bg'. destruct (layerSync_spec _ Hs) as [Hl Hq].
  split.
  - apply update_layerSync; assumption.
  - intros q p nt Hlt Hnt. unfold bg'.
    rewrite update_quadrant_lookup by assumption.
    destruct (BGLayer.quadrants bg !! q) as [qd|] eqn:E.
    2:{ apply lookup_ge_None in E. lia. }
    eexists. split; [reflexivity|].
    rewrite refreshQuadrant_shows by (try apply (Hq q qd E); assumption).
    rewrite Hnt. unfold BGLayer.placeQuadrant.
    destruct (BGLayer.quadrantPosition q _ _) as [qx qy]. repeat split; reflexivity.
Qed.

Lemma BGLayer_update_shows_nametable_witness :
  let bg' := BGLayer.update BGLayer.new mirroredFrame TileCache.new in
  layerSync bg' = true
  ∧ ∀ q p nt, (q < 4)%nat → BGLayer.lookupNT mirroredFrame q = Some (p, nt) →
      ∃ qd, BGLayer.quadrants bg' !! q = Some qd
            ∧ BGLayer.physNt qd = Some p
            ∧ BGLayer.cells qd = shownCells nt
            ∧ BGLayer.prevTile qd = take 960 (NameTable.tile nt)
            ∧ BGLayer.prevAttrib qd = take 960 (NameTable.attrib nt).
Proof.
  apply (BGLayer_update_shows_nametable BGLayer.new mirroredFrame TileCache.new).
  - vm_compute. reflexivity.
  - vm_compute. reflexivity.
  - reflexivity.
Defined.

Lemma placeQuadrant_twice (sx sy : Z) (q : nat) (qd : BGLayer.quadrant) :
  BGLayer.placeQuadrant sx sy q (BGLayer.placeQuadrant sx sy q qd)
  = BGLayer.placeQuadrant sx sy q qd.
Proof.
  unfold BGLayer.placeQuadrant.
  destruct (BGLayer.quadrantPosition q sx sy) as [qx qy]. reflexivity.
Qed.

Lemma update_visible_eta (bg : BGLayer.t) (ppuState : PPUState.t)
    (tileCache : TileCache.t) :
  PPUState.bgVisible ppuState = true →
  BGLayer.update bg ppuState tileCache
  = BGLayer.mk "" (Some (- scrollX (PPUState.scroll ppuState),
                         - scrollY (PPUState.scroll ppuState)))
      (BGLayer.quadrants (BGLayer.update bg ppuState tileCache)).
Proof. intros Hv. unfold BGLayer.update. rewrite Hv. reflexivity. Qed.

(** What the layer shows does not depend on what the tile cache reports. *)
Lemma BGLayer_update_any_cache (bg : BGLayer.t) (ppuState : PPUState.t)
    (tileCache tileCache' : TileCache.t) :
  layerSync bg = true → nameTablesOk ppuState = true →
  BGLayer.update bg ppuState tileCache = BGLayer.update bg ppuState tileCache'.
Proof.
  intros Hs Hok. destruct (layerSync_spec _ Hs) as [Hl Hq].
  destruct (PPUState.bgVisible ppuState) eqn:Hv.
  2:{ unfold BGLayer.update. rewrite Hv. cbn [negb]. reflexivity. }
  assert (Hqs : BGLayer.quadrants (BGLayer.update bg ppuState tileCache)
                = BGLayer.quadrants (BGLayer.update bg ppuState tileCache')).
  { apply list_eq. intros q. destruct (decide (q < 4)%nat) as [Hlt|Hge].
    - rewrite !update_quadrant_lookup by assumption.
      destruct (lookup_lt_is_Some_2 (BGLayer.quadrants bg) q ltac:(lia)) as [qd E].
      rewrite E. cbn [fmap option_fmap option_map]. rewrite !refreshQuadrant_shows
        by (try apply (Hq q qd E); assumption). reflexivity.
    - unfold BGLayer.update. rewrite Hv. cbn [negb BGLayer.quadrants].
      rewrite !forQuadrants_lookup_ge; [reflexivity | |];
        rewrite ?forQuadrants_length; lia. }
  rewrite (update_visible_eta bg ppuState tileCache Hv),
    (update_visible_eta bg ppuState tileCache' Hv), Hqs. reflexivity.
Qed.

(** A second [update] with the same snapshot changes nothing. *)
Lemma BGLayer_update_again (bg : BGLayer.t) (ppuState : PPUState.t)
    (tileCache tileCache' : TileCache.t) :
  layerSync bg = true → nameTablesOk ppuState = true →
  BGLayer.update (BGLayer.update bg ppuState tileCache) ppuState tileCache'
  = BGLayer.update bg ppuState tileCache.
Proof.
  intros Hs Hok. destruct (layerSync_spec _ Hs) as [Hl Hq].
  destruct (PPUState.bgVisible ppuState) eqn:Hv.
  2:{ unfold BGLayer.update. rewrite Hv. cbn [negb BGLayer.transform BGLayer.quadrants].
      reflexivity. }
  pose proof (update_layerSync bg ppuState tileCache Hs Hok) as Hs'.
  destruct (layerSync_spec _ Hs') as [Hl' Hq'].
  assert (Hqs : BGLayer.quadrants
                  (BGLayer.update (BGLayer.update bg ppuState tileCache)
                     ppuState tileCache')
                = BGLayer.quadrants (BGLayer.update bg ppuState tileCache)).
  { apply list_eq. intros q. destruct (decide (q < 4)%nat) as [Hlt|Hge].
    - rewrite (update_quadrant_lookup (BGLayer.update bg ppuState tileCache))
        by assumption.
      destruct (BGLayer.quadrants (BGLayer.update bg ppuState tileCache) !! q)
        as [qd'|] eqn:E'.
      2:{ apply lookup_ge_None in E'. lia. }
      cbn [fmap option_fmap option_map]. f_equal.
      rewrite refreshQuadrant_shows by (try apply (Hq' q qd' E'); assumption).
      rewrite update_quadrant_lookup in E' by assumption.
      destruct (BGLayer.quadrants bg !! q) as [qd|] eqn:E; [|discriminate].
      injection E' as <-.
      rewrite (refreshQuadrant_shows ppuState tileCache)
        by (try apply (Hq q qd E); assumption).
      destruct (BGLayer.lookupNT ppuState q) as [[p nt]|].
      + unfold BGLayer.placeQuadrant.
        destruct (BGLayer.quadrantPosition q _ _) as [qx qy]. reflexivity.
      + apply placeQuadrant_twice.
    - rewrite !(proj2 (lookup_ge_None _ _)); [reflexivity | lia |].
      unfold BGLayer.update at 1. rewrite Hv. cbn [negb BGLayer.quadrants].
      rewrite !forQuadrants_length. lia. }
  rewrite (update_visible_eta _ ppuState tileCache' Hv), Hqs.
  symmetry. apply update_visible_eta. exact Hv.
Qed.

(** X13. Diffing in the background layer is transparent.  From a layer
    whose cells agree with their baselines and for well-formed nametables,
    the layer after [update] does not depend on what the tile cache
    reports: the skipped writes would have written what is already there.
    Hence a second [update] with the same snapshot changes nothing. *)
Theorem BGLayer_update_diffing_is_transparent
    (bg : BGLayer.t) (ppuState : PPUState.t) (tileCache tileCache' : TileCache.t) :
  layerSync bg = true →
  nameTablesOk ppuState = true →
  BGLayer.update bg ppuState tileCache = BGLayer.update bg ppuState tileCache'
  ∧ BGLayer.update (BGLayer.update bg ppuState tileCache) ppuState tileCache'
    = BGLayer.update bg ppuState tileCache.
Proof.
  intros Hs Hok. split.
  - apply BGLayer_update_any_cache; assumption.
  - apply BGLayer_update_again; assumption.
Qed.

Lemma BGLayer_update_diffing_is_transparent_witness :
  BGLayer.update BGLayer.new mirroredFrame TileCache.new
  = BGLayer.update BGLayer.new mirroredFrame cacheAfterTwoTiles
  ∧ BGLayer.update (BGLayer.update BGLayer.new mirroredFrame TileCache.new)
      mirroredFrame cacheAfterTwoTiles
    = BGLayer.update BGLayer.new mirroredFrame TileCache.new.
Proof.
  apply (BGLayer_update_diffing_is_transparent BGLayer.new mirroredFrame
           TileCache.new cacheAfterTwoTiles).
  - vm_compute. reflexivity.
  - vm_compute. reflexivity.
Defined.

(** ** The background layer: the wrap-around placement covers the viewport *)

(** X14. For a scroll position inside the 512x480 nametable space, every
    pixel of the 256x240 viewport lies in exactly one of the four placed
    quadrants: the point at viewport offset ([vx], [vy]), that is at
    ([scrollX + vx], [scrollY + vy]) in layer coordinates, is inside
    quadrant [q]'s rectangle exactly when [q]'s column is the parity of
    [(scrollX + vx) / 256] and its row the parity of [(scrollY + vy) / 240];
    inside that quadrant it falls on the nametable pixel
    ([(scrollX + vx) mod 256], [(scrollY + vy) mod 240]). *)
Theorem quadrantPosition_covers_viewport (sx sy vx vy : Z) (q : nat) :
  0 <= sx < 512 → 0 <= sy < 480 → 0 <= vx < 256 → 0 <= vy < 240 →
  (q < 4)%nat →
  let x := sx + vx in
  let y := sy + vy in
  let qx := (BGLayer.quadrantPosition q sx sy).1 in
  let qy := (BGLayer.quadrantPosition q sx sy).2 in
  ((qx <= x < qx + 256 ∧ qy <= y < qy + 240)
   ↔ Z.of_nat q = 2 * ((y / 240) mod 2) + (x / 256) mod 2)
  ∧ (qx <= x < qx + 256 → x - qx = x mod 256)
  ∧ (qy <= y < qy + 240 → y - qy = y mod 240).
Proof.
  intros Hsx Hsy Hvx Hvy Hq x y qx qy.
  subst qx qy. rewrite quadrantPosition_spec. cbv zeta. cbn [fst snd].
  assert (Hx : (x < 256 ∧ x / 256 = 0) ∨ (256 <= x < 512 ∧ x / 256 = 1)
               ∨ (512 <= x ∧ x / 256 = 2)).
  { destruct (Z.lt_ge_cases x 256); [left; split; [lia|]|].
    { apply Z.div_small. lia. }
    destruct (Z.lt_ge_cases x 512); [right; left|right; right]; (split; [lia|]).
    - symmetry. apply (Z.div_unique _ _ _ (x - 256)); lia.
    - symmetry. apply (Z.div_unique _ _ _ (x - 512)); lia. }
  assert (Hy : (y < 240 ∧ y / 240 = 0) ∨ (240 <= y < 480 ∧ y / 240 = 1)
               ∨ (480 <= y ∧ y / 240 = 2)).
  { destruct (Z.lt_ge_cases y 240); [left; split; [lia|]|].
    { apply Z.div_small. lia. }
    destruct (Z.lt_ge_cases y 480); [right; left|right; right]; (split; [lia|]).
    - symmetry. apply (Z.div_unique _ _ _ (y - 240)); lia.
    - symmetry. apply (Z.div_unique _ _ _ (y - 480)); lia. }
  assert (Mx : x mod 256 = x - 256 * (x / 256))
    by (pose proof (Z.div_mod x 256 ltac:(lia)); lia).
  assert (My : y mod 240 = y - 240 * (y / 240))
    by (pose proof (Z.div_mod y 240 ltac:(lia)); lia).
  rewrite Mx, My.
  assert (x = sx + vx) by reflexivity. assert (y = sy + vy) by reflexivity.
  destruct q as [|[|[|[|q]]]]; [| | | |lia];
    [change (Z.of_nat 0) with 0 | change (Z.of_nat 1) with 1
    | change (Z.of_nat 2) with 2 | change (Z.of_nat 3) with 3];
    change (0 mod 2) with 0; change (1 mod 2) with 1;
    change (2 mod 2) with 0; change (3 mod 2) with 1;
    change (0 / 2) with 0; change (1 / 2) with 0;
    change (2 / 2) with 1; change (3 / 2) with 1;
    destruct Hx as [[Hx ->]|[[Hx ->]|[Hx ->]]];
    destruct Hy as [[Hy ->]|[[Hy ->]|[Hy ->]]];
    change (0 mod 2) with 0; change (1 mod 2) with 1; change (2 mod 2) with 0;
    repeat match goal with
           | |- context [?a <=? ?b] =>
               destruct (Z.leb_spec a b)
           end; lia.
Qed.

Lemma quadrantPosition_covers_viewport_witness :
  let x := 339 + 200 in
  let y := 42 + 100 in
  let qx := (BGLayer.quadrantPosition 0 339 42).1 in
  let qy := (BGLayer.quadrantPosition 0 339 42).2 in
  ((qx <= x < qx + 256 ∧ qy <= y < qy + 240)
   ↔ Z.of_nat 0 = 2 * ((y / 240) mod 2) + (x / 256) mod 2)
  ∧ (qx <= x < qx + 256 → x - qx = x mod 256)
  ∧ (qy <= y < qy + 240 → y - qy = y mod 240).
Proof.
  apply (quadrantPosition_covers_viewport 339 42 200 100 0); lia.
Defined.

(** ** The sprite layer *)

Lemma fold_alter_lookup {A : Type} (f : A → A) (n : nat) (l : list A) (j : nat) :
  fold_left (fun l i => alter f i l) (seq 0 n) l !! j
  = if decide (j < n)%nat then f <$> l !! j else l !! j.
Proof.
  induction n as [|n IH].
  - cbn. destruct (decide _); [lia | reflexivity].
  - rewrite seq_S, fold_left_app. cbn [fold_left Nat.add].
    destruct (decide (j = n)) as [->|Hne].
    + rewrite list_lookup_alter_eq, IH.
      destruct (decide (n < n)%nat); [lia|].
      destruct (decide (n < S n)%nat); [reflexivity | lia].
    + rewrite list_lookup_alter_ne by congruence. rewrite IH.
      destruct (decide (j < n)%nat), (decide (j < S n)%nat); try lia; reflexivity.
Qed.

Lemma updateSpriteMode_lookup (is8x16 : bool) (divs : list SpriteLayer.div) (j : nat) :
  SpriteLayer.updateSpriteMode is8x16 divs !! j
  = if decide (j < 64)%nat then resized is8x16 <$> divs !! j else divs !! j.
Proof. unfold SpriteLayer.updateSpriteMode. apply (fold_alter_lookup (resized is8x16)). Qed.

Lemma updateSpriteMode_length (is8x16 : bool) (divs : list SpriteLayer.div) :
  length (SpriteLayer.updateSpriteMode is8x16 divs) = length divs.
Proof.
  unfold SpriteLayer.updateSpriteMode. generalize (seq 0 64). intros l. revert divs.
  induction l as [|i l IH]; intros divs; [reflexivity|].
  cbn [fold_left]. rewrite IH, length_alter. reflexivity.
Qed.

Lemma sprite_loop_length (sprites : list Sprite.t)
    (f : Sprite.t → SpriteLayer.div → SpriteLayer.div) (idx : list nat)
    (divs divs' : list SpriteLayer.div) :
  forM idx (fun i divs => spr ← sprites !! i; Some (alter (f spr) i divs)) divs
  = Some divs' →
  length divs' = length divs.
Proof.
  revert divs. induction idx as [|i idx IH]; intros divs H.
  - cbn in H. injection H as <-. reflexivity.
  - cbn [forM] in H. destruct (sprites !! i) as [spr|]; [|discriminate].
    cbn [mbind option_bind] in H. rewrite (IH _ H), length_alter. reflexivity.
Qed.

Lemma sizedDiv_lookup (sl : SpriteLayer.t) (ppuState : PPUState.t) (j : nat) :
  (if negb (PPUState.spriteSize ppuState =? SpriteLayer.prevSpriteSize sl)
   then SpriteLayer.updateSpriteMode (PPUState.spriteSize ppuState =? 1)
          (SpriteLayer.spriteDivs sl)
   else SpriteLayer.spriteDivs sl) !! j
  = if decide (j < 64)%nat
    then sizedDiv sl ppuState <$> SpriteLayer.spriteDivs sl !! j
    else SpriteLayer.spriteDivs sl !! j.
Proof.
  unfold sizedDiv.
  destruct (negb (PPUState.spriteSize ppuState =? SpriteLayer.prevSpriteSize sl)).
  - apply updateSpriteMode_lookup.
  - destruct (decide _); [|reflexivity].
    destruct (SpriteLayer.spriteDivs sl !! j); reflexivity.
Qed.

(** The divs after a frame that shows the sprite layer, one by one. *)
Lemma SpriteLayer_update_lookup (sl sl' : SpriteLayer.t) (ppuState : PPUState.t) :
  PPUState.spritesVisible ppuState = true →
  SpriteLayer.update sl ppuState = Some sl' →
  SpriteLayer.layerDisplay sl' = ""%string
  ∧ SpriteLayer.prevSpriteSize sl' = PPUState.spriteSize ppuState
  ∧ length (SpriteLayer.spriteDivs sl') = length (SpriteLayer.spriteDivs sl)
  ∧ (∀ j, (j < 64)%nat → is_Some (PPUState.sprites ppuState !! j))
  ∧ (∀ j spr, (j < 64)%nat → PPUState.sprites ppuState !! j = Some spr →
       SpriteLayer.spriteDivs sl' !! j
       = (fun d => SpriteLayer.updateSprite (PPUState.spriteSize ppuState =? 1)
                     (PPUState.sprPatternBase ppuState) spr (sizedDiv sl ppuState d))
         <$> SpriteLayer.spriteDivs sl !! j)
  ∧ (∀ j, (64 <= j)%nat →
       SpriteLayer.spriteDivs sl' !! j = SpriteLayer.spriteDivs sl !! j).
Proof.
  intros Hv Hu. unfold SpriteLayer.update in Hu. rewrite Hv in Hu. cbn [negb] in Hu.
  cbv zeta in Hu.
  destruct (forM (seq 0 64) _ _) as [divs|] eqn:E; [|discriminate].
  cbn [mbind option_bind] in Hu. injection Hu as <-.
  cbn [SpriteLayer.layerDisplay SpriteLayer.prevSpriteSize SpriteLayer.spriteDivs].
  split; [reflexivity|]. split; [reflexivity|].
  pose proof (fun j => sprite_loop_lookup (PPUState.sprites ppuState)
                (SpriteLayer.updateSprite (PPUState.spriteSize ppuState =? 1)
                   (PPUState.sprPatternBase ppuState)) 64 0 _ divs j E) as Hl.
  split.
  { rewrite (sprite_loop_length _ _ _ _ _ E).
    destruct (negb _); [apply updateSpriteMode_length | reflexivity]. }
  split.
  { intros j Hj. destruct (PPUState.sprites ppuState !! j) eqn:Ej; [eauto|].
    exfalso. rewrite (forM_fails (seq 0 64) _ j) in E; [discriminate | |].
    - apply elem_of_seq. lia.
    - intros s. rewrite Ej. reflexivity. }
  split.
  - intros j spr Hj Hs. rewrite Hl. destruct (decide _) as [_|Hn]; [|lia].
    rewrite Hs, sizedDiv_lookup. destruct (decide _) as [_|Hn]; [|lia].
    destruct (SpriteLayer.spriteDivs sl !! j); reflexivity.
  - intros j Hj. rewrite Hl. destruct (decide _) as [Hn|_]; [lia|].
    rewrite sizedDiv_lookup. destruct (decide _) as [Hn|_]; [lia|]. reflexivity.
Qed.

Lemma updateSprite_idem (is8x16 : bool) (sprPatternBase : Z) (spr : Sprite.t)
    (d : SpriteLayer.div) :
  SpriteLayer.updateSprite is8x16 sprPatternBase spr
    (SpriteLayer.updateSprite is8x16 sprPatternBase spr d)
  = SpriteLayer.updateSprite is8x16 sprPatternBase spr d.
Proof.
  unfold SpriteLayer.updateSprite. cbv zeta.
  destruct ((240 <=? Sprite.y spr + 1)
            || (Sprite.y spr + 1 + (if is8x16 then 16 else 8) <=? 0));
    [reflexivity|].
  destruct is8x16.
  - unfold SpriteLayer.update8x16. cbv zeta.
    destruct (Sprite.flipV spr); reflexivity.
  - reflexivity.
Qed.

(** X15. Which sprites a frame shows.  With the sprite layer visible and 64
    sprite records, [update] completes, and for every sprite [i]: if its
    adjusted Y ([y + 1]) is 240 or more, or the sprite ends at or above
    line 0, its div is hidden and, apart from the size set on a change of
    sprite mode, nothing else on it is written; otherwise the div is shown
    at ([x], [y + 1]) with z-index -1 behind the background and 1 in front,
    and scale factors -1 for flipped axes. *)
Theorem SpriteLayer_update_culls_offscreen
    (sl : SpriteLayer.t) (ppuState : PPUState.t) :
  (64 <= length (PPUState.sprites ppuState))%nat →
  PPUState.spritesVisible ppuState = true →
  ∃ sl',
    SpriteLayer.update sl ppuState = Some sl'
    ∧ ∀ i spr d, (i < 64)%nat →
        PPUState.sprites ppuState !! i = Some spr →
        SpriteLayer.spriteDivs sl !! i = Some d →
        let h := if PPUState.spriteSize ppuState =? 1 then 16 else 8 in
        let d0 := sizedDiv sl ppuState d in
        (240 <= Sprite.y spr + 1 ∨ Sprite.y spr + 1 + h <= 0 →
         SpriteLayer.spriteDivs sl' !! i
         = Some (SpriteLayer.mkDiv "none" (SpriteLayer.left d0) (SpriteLayer.top d0)
                   (SpriteLayer.zIndex d0) (SpriteLayer.width d0)
                   (SpriteLayer.height d0) (SpriteLayer.className d0)
                   (SpriteLayer.transform d0) (SpriteLayer.backgroundImage d0)
                   (SpriteLayer.backgroundPosition d0) (SpriteLayer.data d0)
                   (SpriteLayer.topDiv d0) (SpriteLayer.botDiv d0)))
        ∧ (Sprite.y spr + 1 < 240 → 0 < Sprite.y spr + 1 + h →
           ∃ d', SpriteLayer.spriteDivs sl' !! i = Some d'
                 ∧ SpriteLayer.display d' = ""%string
                 ∧ SpriteLayer.left d' = Some (Sprite.x spr)
                 ∧ SpriteLayer.top d' = Some (Sprite.y spr + 1)
                 ∧ SpriteLayer.zIndex d'
                   = Some (if Sprite.behindBg spr then -1 else 1)
                 ∧ SpriteLayer.transform d'
                   = Some (if Sprite.flipH spr then -1 else 1,
                           if Sprite.flipV spr then -1 else 1)
                 ∧ SpriteLayer.width d' = SpriteLayer.width d0
                 ∧ SpriteLayer.height d' = SpriteLayer.height d0).
Proof.
  intros Hlen Hv.
  destruct (SpriteLayer_update_total sl ppuState Hlen) as [sl' E].
  exists sl'. split; [exact E|].
  destruct (SpriteLayer_update_lookup sl sl' ppuState Hv E)
    as (_ & _ & _ & _ & Hl & _).
  intros i spr d Hi Hs Hd h d0. rewrite (Hl i spr Hi Hs), Hd.
  cbn [fmap option_fmap option_map]. fold d0.
  unfold SpriteLayer.updateSprite. cbv zeta. fold h. split.
  - intros Hc.
    replace ((240 <=? Sprite.y spr + 1) || (Sprite.y spr + 1 + h <=? 0)) with true.
    + reflexivity.
    + symmetry. apply orb_true_iff. destruct Hc; [left|right]; apply Z.leb_le; lia.
  - intros H1 H2.
    replace ((240 <=? Sprite.y spr + 1) || (Sprite.y spr + 1 + h <=? 0)) with false.
    + eexists. split; [reflexivity|].
      subst h. destruct (PPUState.spriteSize ppuState =? 1).
      * unfold SpriteLayer.update8x16. cbv zeta.
        destruct (Sprite.flipV spr); repeat split; reflexivity.
      * repeat split; reflexivity.
    + symmetry. apply orb_false_iff. split; apply Z.leb_gt; lia.
Qed.

Lemma SpriteLayer_update_culls_offscreen_witness :
  ∃ sl',
    SpriteLayer.update SpriteLayer.new scrollExampleFrame = Some sl'
    ∧ ∀ i spr d, (i < 64)%nat →
        PPUState.sprites scrollExampleFrame !! i = Some spr →
        SpriteLayer.spriteDivs SpriteLayer.new !! i = Some d →
        let h := if PPUState.spriteSize scrollExampleFrame =? 1 then 16 else 8 in
        let d0 := sizedDiv SpriteLayer.new scrollExampleFrame d in
        (240 <= Sprite.y spr + 1 ∨ Sprite.y spr + 1 + h <= 0 →
         SpriteLayer.spriteDivs sl' !! i
         = Some (SpriteLayer.mkDiv "none" (SpriteLayer.left d0) (SpriteLayer.top d0)
                   (SpriteLayer.zIndex d0) (SpriteLayer.width d0)
                   (SpriteLayer.height d0) (SpriteLayer.className d0)
                   (SpriteLayer.transform d0) (SpriteLayer.backgroundImage d0)
                   (SpriteLayer.backgroundPosition d0) (SpriteLayer.data d0)
                   (SpriteLayer.topDiv d0) (SpriteLayer.botDiv d0)))
        ∧ (Sprite.y spr + 1 < 240 → 0 < Sprite.y spr + 1 + h →
           ∃ d', SpriteLayer.spriteDivs sl' !! i = Some d'
                 ∧ SpriteLayer.display d' = ""%string
                 ∧ SpriteLayer.left d' = Some (Sprite.x spr)
                 ∧ SpriteLayer.top d' = Some (Sprite.y spr + 1)
                 ∧ SpriteLayer.zIndex d'
                   = Some (if Sprite.behindBg spr then -1 else 1)
                 ∧ SpriteLayer.transform d'
                   = Some (if Sprite.flipH spr then -1 else 1,
                           if Sprite.flipV spr then -1 else 1)
                 ∧ SpriteLayer.width d' = SpriteLayer.width d0
                 ∧ SpriteLayer.height d' = SpriteLayer.height d0).
Proof.
  apply (SpriteLayer_update_culls_offscreen SpriteLayer.new scrollExampleFrame).
  - vm_compute. lia.
  - reflexivity.
Defined.

Lemma sizedDiv_same (sl : SpriteLayer.t) (ppuState : PPUState.t) (d : SpriteLayer.div) :
  SpriteLayer.prevSpriteSize sl = PPUState.spriteSize ppuState →
  sizedDiv sl ppuState d = d.
Proof. intros H. unfold sizedDiv. rewrite H, Z.eqb_refl. reflexivity. Qed.

Lemma SpriteLayer_eq (a b : SpriteLayer.t) :
  SpriteLayer.layerDisplay a = SpriteLayer.layerDisplay b →
  SpriteLayer.spriteDivs a = SpriteLayer.spriteDivs b →
  SpriteLayer.prevSpriteSize a = SpriteLayer.prevSpriteSize b →
  a = b.
Proof. destruct a, b. cbn. intros -> -> ->. reflexivity. Qed.

(** A second [update] with the same snapshot returns the same layer. *)
Lemma SpriteLayer_update_again (sl sl1 : SpriteLayer.t) (ppuState : PPUState.t) :
  (64 <= length (PPUState.sprites ppuState))%nat →
  SpriteLayer.update sl ppuState = Some sl1 →
  SpriteLayer.update sl1 ppuState = Some sl1.
Proof.
  intros Hlen E1.
  destruct (PPUState.spritesVisible ppuState) eqn:Hv.
  2:{ unfold SpriteLayer.update in *. rewrite Hv in *. cbn [negb] in *.
      injection E1 as <-. reflexivity. }
  destruct (SpriteLayer_update_total sl1 ppuState Hlen) as [sl2 E2].
  rewrite E2. f_equal.
  destruct (SpriteLayer_update_lookup sl sl1 ppuState Hv E1)
    as (D1 & P1 & _ & Hs & L1 & G1).
  destruct (SpriteLayer_update_lookup sl1 sl2 ppuState Hv E2)
    as (D2 & P2 & _ & _ & L2 & G2).
  apply SpriteLayer_eq; [congruence | | congruence].
  apply list_eq. intros j. destruct (decide (j < 64)%nat) as [Hj|Hj].
  - destruct (Hs j Hj) as [spr Hspr].
    rewrite (L2 j spr Hj Hspr), (L1 j spr Hj Hspr).
    destruct (SpriteLayer.spriteDivs sl !! j) as [d|]; [|reflexivity].
    cbn [fmap option_fmap option_map]. f_equal.
    rewrite (sizedDiv_same sl1) by exact P1. apply updateSprite_idem.
  - apply G2. lia.
Qed.

(** X16. Redrawing the same snapshot changes nothing in the sprite layer:
    with 64 sprite records [update] completes, and a second [update] with
    the same snapshot returns the layer the first one left. *)
Theorem SpriteLayer_update_idempotent (sl : SpriteLayer.t) (ppuState : PPUState.t) :
  (64 <= length (PPUState.sprites ppuState))%nat →
  ∃ sl1,
    SpriteLayer.update sl ppuState = Some sl1
    ∧ SpriteLayer.update sl1 ppuState = Some sl1.
Proof.
  intros Hlen.
  destruct (SpriteLayer_update_total sl ppuState Hlen) as [sl1 E1].
  exists sl1. split; [exact E1|]. apply (SpriteLayer_update_again sl); assumption.
Qed.

Lemma SpriteLayer_update_idempotent_witness :
  ∃ sl1,
    SpriteLayer.update SpriteLayer.new (spriteFrame 1) = Some sl1
    ∧ SpriteLayer.update sl1 (spriteFrame 1) = Some sl1.
Proof.
  apply (SpriteLayer_update_idempotent SpriteLayer.new (spriteFrame 1)).
  vm_compute. lia.
Defined.

(** X17. What [_update8x8] leaves alone.  Let a frame in 8x16 mode be
    followed by a frame in 8x8 mode, the sprite layer being visible in
    both, and let sprite [i] be on screen in both.  After the second
    frame its div is shown with the 8x8 class of the sprite pattern base
    and of its palette group, the position of its tile, both halves hidden
    and height 8, and its [backgroundImage] is still the ['none'] that
    [_update8x16] wrote on the first frame. *)
Theorem SpriteLayer_8x8_after_8x16_keeps_backgroundImage
    (sl : SpriteLayer.t) (frameA frameB : PPUState.t) (i : nat)
    (sprA sprB : Sprite.t) :
  (64 <= length (PPUState.sprites frameA))%nat →
  (64 <= length (PPUState.sprites frameB))%nat →
  PPUState.spritesVisible frameA = true →
  PPUState.spritesVisible frameB = true →
  PPUState.spriteSize frameA = 1 →
  PPUState.spriteSize frameB = 0 →
  (i < 64)%nat →
  (i < length (SpriteLayer.spriteDivs sl))%nat →
  PPUState.sprites frameA !! i = Some sprA →
  PPUState.sprites frameB !! i = Some sprB →
  -17 < Sprite.y sprA < 239 →
  -9 < Sprite.y sprB < 239 →
  ∃ sl1 sl2 d,
    SpriteLayer.update sl frameA = Some sl1
    ∧ SpriteLayer.update sl1 frameB = Some sl2
    ∧ SpriteLayer.spriteDivs sl2 !! i = Some d
    ∧ SpriteLayer.display d = ""%string
    ∧ SpriteLayer.className d
      = ("sprite spr-b"
         ++ JS.show (if (PPUState.sprPatternBase frameB =? 0)%Z then 0 else 1)
         ++ "-pal-" ++ JS.show (Z.shiftr (JS.to_int32 (Sprite.palette sprB)) 2))%string
    ∧ SpriteLayer.backgroundPosition d
      = TileCache.getTilePosition (Sprite.tileIndex sprB)
    ∧ SpriteLayer.height d = Some 8
    ∧ SpriteLayer.halfDisplay (SpriteLayer.topDiv d) = "none"%string
    ∧ SpriteLayer.halfDisplay (SpriteLayer.botDiv d) = "none"%string
    ∧ SpriteLayer.backgroundImage d = "none"%string.
Proof.
  intros HlA HlB HvA HvB HsA HsB Hi Hd HA HB HyA HyB.
  destruct (SpriteLayer_update_total sl frameA HlA) as [sl1 E1].
  destruct (SpriteLayer_update_total sl1 frameB HlB) as [sl2 E2].
  exists sl1, sl2.
  destruct (SpriteLayer_update_lookup sl sl1 frameA HvA E1)
    as (_ & P1 & _ & _ & L1 & _).
  destruct (SpriteLayer_update_lookup sl1 sl2 frameB HvB E2)
    as (_ & _ & _ & _ & L2 & _).
  destruct (lookup_lt_is_Some_2 _ _ Hd) as [d0 Hd0].
  rewrite (L2 i sprB Hi HB), (L1 i sprA Hi HA), Hd0.
  cbn [fmap option_fmap option_map]. eexists.
  split; [exact E1|]. split; [exact E2|]. split; [reflexivity|].
  assert (S2 : ∀ d, sizedDiv sl1 frameB d = resized false d).
  { intros d. unfold sizedDiv. rewrite P1, HsA, HsB. reflexivity. }
  rewrite S2, HsA, HsB. change (0 =? 1) with false. change (1 =? 1) with true.
  unfold SpriteLayer.updateSprite. cbv zeta.
  replace (240 <=? Sprite.y sprA + 1) with false by (symmetry; apply Z.leb_gt; lia).
  replace (Sprite.y sprA + 1 + 16 <=? 0) with false by (symmetry; apply Z.leb_gt; lia).
  replace (240 <=? Sprite.y sprB + 1) with false by (symmetry; apply Z.leb_gt; lia).
  replace (Sprite.y sprB + 1 + 8 <=? 0) with false by (symmetry; apply Z.leb_gt; lia).
  cbn [orb]. unfold SpriteLayer.update8x16. cbv zeta.
  destruct (Sprite.flipV sprA); repeat split; reflexivity.
Qed.

Lemma SpriteLayer_8x8_after_8x16_keeps_backgroundImage_witness :
  ∃ sl1 sl2 d,
    SpriteLayer.update SpriteLayer.new (spriteFrame 1) = Some sl1
    ∧ SpriteLayer.update sl1 (spriteFrame 0) = Some sl2
    ∧ SpriteLayer.spriteDivs sl2 !! 0%nat = Some d
    ∧ SpriteLayer.display d = ""%string
    ∧ SpriteLayer.className d
      = ("sprite spr-b"
         ++ JS.show (if (PPUState.sprPatternBase (spriteFrame 0) =? 0)%Z then 0 else 1)
         ++ "-pal-"
         ++ JS.show (Z.shiftr (JS.to_int32 (Sprite.palette flippedSprite)) 2))%string
    ∧ SpriteLayer.backgroundPosition d
      = TileCache.getTilePosition (Sprite.tileIndex flippedSprite)
    ∧ SpriteLayer.height d = Some 8
    ∧ SpriteLayer.halfDisplay (SpriteLayer.topDiv d) = "none"%string
    ∧ SpriteLayer.halfDisplay (SpriteLayer.botDiv d) = "none"%string
    ∧ SpriteLayer.backgroundImage d = "none"%string.
Proof.
  apply (SpriteLayer_8x8_after_8x16_keeps_backgroundImage SpriteLayer.new
           (spriteFrame 1) (spriteFrame 0) 0 flippedSprite flippedSprite).
  - vm_compute. lia.
  - vm_compute. lia.
  - reflexivity.
  - reflexivity.
  - reflexivity.
  - reflexivity.
  - lia.
  - vm_compute. lia.
  - reflexivity.
  - reflexivity.
  - vm_compute. split; reflexivity.
  - vm_compute. split; reflexivity.
Defined.

(** ** The frame orchestrator *)

(** Two consecutive calls over the same tile table, signature and
    background base: only the tracker's dirty groups regenerate sheets. *)
Lemma update_same_tables (tc0 tc1 tc2 : TileCache.t) (ptTile : list slot)
    (pm pm' : PaletteManager.t) (bgBase sprBase sprBase' : Z)
    (sig : option (list jsref)) (log1 log2 : list TileCache.event) (g : Z) :
  length (TileCache.tileChecksums tc0) = 512%nat →
  length (TileCache.prevBankRefs tc0) = 8%nat →
  TileCache.update tc0 ptTile pm bgBase sprBase sig = Some (tc1, log1) →
  TileCache.update tc1 ptTile pm' bgBase sprBase' sig = Some (tc2, log2) →
  0 <= g < 4 →
  (g ∈ TileCache.updatedSheets tc2 ↔ g ∈ PaletteManager.dirtyBgGroups pm')
  ∧ (4 + g ∈ TileCache.updatedSheets tc2 ↔ g ∈ PaletteManager.dirtySprGroups pm')
  ∧ (8 + g ∈ TileCache.updatedSheets tc2 ↔ g ∈ PaletteManager.dirtySprGroups pm').
Proof.
  intros Hl0 Hr0 E1 E2 Hg.
  destruct (update_baselines _ _ _ _ _ _ _ _ Hl0 Hr0 E1)
    as (Ls & Lr & Hb1 & Ns & Hrefs).
  destruct (update_sheet_iff _ _ _ _ _ _ _ _ g E2 Hg) as (H0 & H4 & H8).
  destruct (detect_spec tc1 ptTile bgBase sig)
    as (sums' & d0' & d1' & Es' & _ & _ & _ & _ & Dc & Db & D0 & D1).
  cbv zeta in Dc, Db, D0, D1, H0, H4, H8.
  destruct (scan_spec _ _ _ _ _ Ls Es') as (_ & _ & C0 & C1).
  assert (Hclean : ∀ i, (i < 512)%nat →
    tileDirty ptTile (TileCache.tileChecksums tc1) i = false).
  { intros i Hi.
    apply (stored_then_clean ptTile ptTile (TileCache.tileChecksums tc0)).
    - apply Ns. exact Hi.
    - intros t Ht. exists t. split; [exact Ht | reflexivity].
    - intros t Ht. exists t. exact Ht. }
  assert (Hd0 : d0' = false).
  { apply not_true_is_false. intros Ht. apply C0 in Ht as (i & Hi & Hd).
    rewrite Hclean in Hd by lia. discriminate. }
  assert (Hd1 : d1' = false).
  { apply not_true_is_false. intros Ht. apply C1 in Ht as (i & Hi & Hd).
    rewrite Hclean in Hd by lia. discriminate. }
  assert (Hbank : ∀ base,
    match sig with
    | Some s => TileCache.checkBankDirty tc1 s base
    | None => false
    end = false).
  { intros base. destruct sig as [s|]; [|reflexivity].
    apply checkBankDirty_same. exact Hrefs. }
  rewrite H0, H4, H8, Dc, Db, D0, D1, !Hbank, Hd0, Hd1, Hb1, Z.eqb_refl.
  cbn [negb]. destruct (256 <=? bgBase); rewrite !orb_false_r;
    rewrite !bool_decide_eq_true; tauto.
Qed.

Lemma update_urls_length (tc tc' : TileCache.t) (ptTile : list slot)
    (pm : PaletteManager.t) (bgBase sprBase : Z) (sig : option (list jsref))
    (log : list TileCache.event) :
  length (TileCache.blobUrls tc) = 12%nat →
  TileCache.update tc ptTile pm bgBase sprBase sig = Some (tc', log) →
  length (TileCache.blobUrls tc') = 12%nat.
Proof.
  intros Hlen E.
  destruct (update_decompose _ _ _ _ _ _ _ _ E) as (tc1 & log1 & Er & Ef).
  destruct (detect_urls tc ptTile bgBase sig) as (Du & _ & _). cbv zeta in Du.
  destruct (finish_urls tc1 log1) as (Fu & _). cbv zeta in Fu.
  rewrite Ef in Fu. cbn [fst] in Fu. rewrite Fu.
  assert (Hl0 : length (TileCache.blobUrls (TileCache.detect tc ptTile bgBase sig).1)
                = 12%nat) by (rewrite Du; exact Hlen).
  destruct (regenerate_urls _ _ _ _ _ _ _ _ 0%nat Er Hl0 ltac:(lia)) as (_ & L & _).
  exact L.
Qed.

(** A call that regenerates nothing does nothing one can see. *)
Lemma update_nothing (tc tc' : TileCache.t) (ptTile : list slot)
    (pm : PaletteManager.t) (bgBase sprBase : Z) (sig : option (list jsref))
    (log : list TileCache.event) :
  length (TileCache.blobUrls tc) = 12%nat →
  TileCache.update tc ptTile pm bgBase sprBase sig = Some (tc', log) →
  TileCache.updatedSheets tc' = ∅ →
  log = []
  ∧ TileCache.blobUrls tc' = TileCache.blobUrls tc
  ∧ TileCache.styleEl tc' = TileCache.styleEl tc.
Proof.
  intros Hlen E He.
  destruct (update_publishes _ _ _ _ _ _ _ _ Hlen E) as (_ & Hn & _).
  destruct (Hn He) as (Hs & Hu & _). split; [|split; assumption].
  destruct (update_decompose _ _ _ _ _ _ _ _ E) as (tc1 & log1 & Er & Ef).
  destruct (finish_urls tc1 log1) as (_ & _ & _ & Fl). cbv zeta in Fl.
  destruct (finish_spec (tc1, log1)) as (Fup & _).
  rewrite Ef in Fl, Fup. cbn [fst snd] in Fl, Fup.
  rewrite <- Fup, He, size_empty in Fl. cbn [Nat.ltb Nat.leb Nat.eqb andb] in Fl.
  rewrite !app_nil_r in Fl. subst log.
  destruct (regenerate_inv _ _ _ _ _ _ _ _ Er) as (_ & L & U). cbn [app] in L.
  rewrite L. rewrite <- Fup, He in U.
  destruct (expectedRenders pm bgBase (TileCache.detect tc ptTile bgBase sig).2)
    as [|e l] eqn:Ee; [reflexivity|].
  exfalso. assert (Hin : e ∈ e :: l) by left. rewrite <- Ee in Hin.
  unfold expectedRenders in Hin.
  rewrite !elem_of_app, !list_elem_of_In, !in_flat_map in Hin.
  assert (Hk : ∃ k b, e = TileCache.RenderSheet k b).
  { destruct Hin as [(g & _ & Hg)|[(g & _ & Hg)|(g & _ & Hg)]];
      (destruct (_ || _) in Hg; [destruct Hg as [<-|[]]; eauto | destruct Hg]). }
  destruct Hk as (k & b & ->).
  assert (Hkin : k ∈ (∅ : gset Z)).
  { rewrite U. apply elem_of_union. left. apply elem_of_list_to_set.
    apply renderedSheets_elem. exists b. left. }
  inversion Hkin.
Qed.

Lemma rendererOk_spec (r : CSSRenderer.t) :
  rendererOk r = true →
  length (PaletteManager.prevBg (CSSRenderer.paletteManager r)) = 16%nat
  ∧ length (PaletteManager.prevSpr (CSSRenderer.paletteManager r)) = 16%nat
  ∧ length (TileCache.blobUrls (CSSRenderer.tileCache r)) = 12%nat
  ∧ length (TileCache.tileChecksums (CSSRenderer.tileCache r)) = 512%nat
  ∧ length (TileCache.prevBankRefs (CSSRenderer.tileCache r)) = 8%nat
  ∧ layerSync (CSSRenderer.bgLayer r) = true
  ∧ length (SpriteLayer.spriteDivs (CSSRenderer.spriteLayer r)) = 64%nat.
Proof.
  unfold rendererOk. rewrite !andb_true_iff, !Nat.eqb_eq. tauto.
Qed.

Lemma frameOk_spec (ppuState : PPUState.t) :
  frameOk ppuState = true →
  tilesOk (PPUState.ptTile ppuState) = true
  ∧ (64 <= length (PPUState.sprites ppuState))%nat
  ∧ nameTablesOk ppuState = true.
Proof.
  unfold frameOk. rewrite !andb_true_iff, Nat.leb_le. tauto.
Qed.

Lemma SpriteLayer_update_length (sl sl' : SpriteLayer.t) (ppuState : PPUState.t) :
  SpriteLayer.update sl ppuState = Some sl' →
  length (SpriteLayer.spriteDivs sl') = length (SpriteLayer.spriteDivs sl).
Proof.
  intros E. destruct (PPUState.spritesVisible ppuState) eqn:Hv.
  - destruct (SpriteLayer_update_lookup sl sl' ppuState Hv E) as (_ & _ & L & _).
    exact L.
  - unfold SpriteLayer.update in E. rewrite Hv in E. cbn [negb] in E.
    injection E as <-. reflexivity.
Qed.

(** [renderFrame] in terms of its steps. *)
Lemma renderFrame_steps (r : CSSRenderer.t) (ppuState : PPUState.t)
    (tc : TileCache.t) (log : list TileCache.event) (sl : SpriteLayer.t) :
  let pm := (PaletteManager.update (CSSRenderer.paletteManager r)
               (PPUState.bgPalette ppuState) (PPUState.sprPalette ppuState)).1 in
  TileCache.update (CSSRenderer.tileCache r) (PPUState.ptTile ppuState) pm
    (PPUState.bgPatternBase ppuState) (PPUState.sprPatternBase ppuState)
    (PPUState.chrBankSignature ppuState) = Some (tc, log) →
  SpriteLayer.update (CSSRenderer.spriteLayer r) ppuState = Some sl →
  ∃ r', CSSRenderer.renderFrame r ppuState = Some (r', log)
        ∧ CSSRenderer.paletteManager r' = pm
        ∧ CSSRenderer.tileCache r' = tc
        ∧ CSSRenderer.bgLayer r'
          = BGLayer.update (CSSRenderer.bgLayer r) ppuState tc
        ∧ CSSRenderer.spriteLayer r' = sl
        ∧ CSSRenderer.frameCount r' = CSSRenderer.frameCount r + 1
        ∧ CSSRenderer.backgroundColor <$> CSSRenderer.view r'
          = Some (PaletteManager.getBackgroundColor pm).
Proof.
  intros pm E Es. unfold CSSRenderer.renderFrame. fold pm.
  rewrite E. cbn [mbind option_bind]. rewrite Es. cbn [mbind option_bind].
  eexists. split; [reflexivity|]. repeat split; reflexivity.
Qed.

(** X18. [renderFrame] on a well-formed snapshot (drawable tiles, 64
    sprite records, well-formed nametables) never throws, advances the
    frame counter by one, paints the viewport in the tracker's backdrop
    colour and leaves the renderer in the shape it is created with:
    16-entry palette baselines, 12 sheet URLs, 512 checksums, 8 bank
    references, four quadrants whose 960 cells agree with their
    baselines, 64 sprite divs. *)
Theorem renderFrame_keeps_renderer_wellformed
    (r : CSSRenderer.t) (ppuState : PPUState.t) :
  rendererOk r = true → frameOk ppuState = true →
  ∃ r' log,
    CSSRenderer.renderFrame r ppuState = Some (r', log)
    ∧ rendererOk r' = true
    ∧ CSSRenderer.frameCount r' = CSSRenderer.frameCount r + 1
    ∧ CSSRenderer.backgroundColor <$> CSSRenderer.view r'
      = Some (PaletteManager.getBackgroundColor (CSSRenderer.paletteManager r')).
Proof.
  intros Hr Hf.
  destruct (rendererOk_spec _ Hr) as (Pb & Ps & Lu & Lc & Lr & Hs & Ld).
  destruct (frameOk_spec _ Hf) as (Hok & Hspr & Hnt).
  destruct (update_total (CSSRenderer.tileCache r) (PPUState.ptTile ppuState)
              (PaletteManager.update (CSSRenderer.paletteManager r)
                 (PPUState.bgPalette ppuState) (PPUState.sprPalette ppuState)).1
              (PPUState.bgPatternBase ppuState) (PPUState.sprPatternBase ppuState)
              (PPUState.chrBankSignature ppuState) Hok) as [[tc log] E].
  destruct (SpriteLayer_update_total (CSSRenderer.spriteLayer r) ppuState Hspr)
    as [sl Es].
  destruct (renderFrame_steps r ppuState tc log sl E Es)
    as (r' & Er & Hpm & Htc & Hbg & Hsl & Hfc & Hbc).
  exists r', log. split; [exact Er|]. split; [|split; [exact Hfc|]].
  - unfold rendererOk. rewrite Hpm, Htc, Hbg, Hsl.
    destruct (PaletteManager_update_spec (CSSRenderer.paletteManager r)
                (PPUState.bgPalette ppuState) (PPUState.sprPalette ppuState))
      as ((L1 & L2) & _).
    rewrite L1, L2, Pb, Ps.
    rewrite (update_urls_length _ _ _ _ _ _ _ _ Lu E).
    destruct (update_baselines _ _ _ _ _ _ _ _ Lc Lr E) as (L3 & L4 & _).
    rewrite L3, L4, (SpriteLayer_update_length _ _ _ Es), Ld.
    rewrite (update_layerSync (CSSRenderer.bgLayer r) ppuState tc Hs Hnt).
    reflexivity.
  - rewrite Hbc, Hpm. reflexivity.
Qed.

Lemma renderFrame_keeps_renderer_wellformed_witness :
  ∃ r' log,
    CSSRenderer.renderFrame CSSRenderer.new demoFrame = Some (r', log)
    ∧ rendererOk r' = true
    ∧ CSSRenderer.frameCount r' = CSSRenderer.frameCount CSSRenderer.new + 1
    ∧ CSSRenderer.backgroundColor <$> CSSRenderer.view r'
      = Some (PaletteManager.getBackgroundColor (CSSRenderer.paletteManager r')).
Proof.
  apply (renderFrame_keeps_renderer_wellformed CSSRenderer.new demoFrame).
  - vm_compute. reflexivity.
  - vm_compute. reflexivity.
Defined.

(** X19. Rendering the same snapshot twice.  From a well-formed renderer
    and snapshot both calls complete, and the second one regenerates no
    sheet, logs nothing, and leaves the sheet URLs, the stylesheet, the
    cached colours, the background layer and the sprite layer exactly as
    the first call left them; only the frame counter moves on. *)
Theorem renderFrame_same_snapshot_settles
    (r : CSSRenderer.t) (ppuState : PPUState.t) :
  rendererOk r = true → frameOk ppuState = true →
  ∃ r1 log1 r2 log2,
    CSSRenderer.renderFrame r ppuState = Some (r1, log1)
    ∧ CSSRenderer.renderFrame r1 ppuState = Some (r2, log2)
    ∧ log2 = []
    ∧ TileCache.updatedSheets (CSSRenderer.tileCache r2) = ∅
    ∧ TileCache.blobUrls (CSSRenderer.tileCache r2)
      = TileCache.blobUrls (CSSRenderer.tileCache r1)
    ∧ TileCache.styleEl (CSSRenderer.tileCache r2)
      = TileCache.styleEl (CSSRenderer.tileCache r1)
    ∧ PaletteManager.bgColors (CSSRenderer.paletteManager r2)
      = PaletteManager.bgColors (CSSRenderer.paletteManager r1)
    ∧ PaletteManager.sprColors (CSSRenderer.paletteManager r2)
      = PaletteManager.sprColors (CSSRenderer.paletteManager r1)
    ∧ CSSRenderer.bgLayer r2 = CSSRenderer.bgLayer r1
    ∧ CSSRenderer.spriteLayer r2 = CSSRenderer.spriteLayer r1
    ∧ CSSRenderer.frameCount r2 = CSSRenderer.frameCount r + 2.
Proof.
  intros Hr Hf.
  destruct (rendererOk_spec _ Hr) as (Pb & Ps & Lu & Lc & Lr & Hs & Ld).
  destruct (frameOk_spec _ Hf) as (Hok & Hspr & Hnt).
  set (bg := PPUState.bgPalette ppuState) in *.
  set (spr := PPUState.sprPalette ppuState) in *.
  set (pm1 := (PaletteManager.update (CSSRenderer.paletteManager r) bg spr).1).
  destruct (update_total (CSSRenderer.tileCache r) (PPUState.ptTile ppuState) pm1
              (PPUState.bgPatternBase ppuState) (PPUState.sprPatternBase ppuState)
              (PPUState.chrBankSignature ppuState) Hok) as [[tc1 log1] E1].
  destruct (SpriteLayer_update_total (CSSRenderer.spriteLayer r) ppuState Hspr)
    as [sl1 Es1].
  destruct (renderFrame_steps r ppuState tc1 log1 sl1 E1 Es1)
    as (r1 & Er1 & Hpm1 & Htc1 & Hbg1 & Hsl1 & Hfc1 & _).
  fold bg spr pm1 in Hpm1.
  (* the tracker on the second frame *)
  destruct (PaletteManager_update_spec (CSSRenderer.paletteManager r) bg spr)
    as (_ & Nb & Ns & _).
  fold pm1 in Nb, Ns.
  assert (Epm : PaletteManager.update pm1 bg spr
                = (PaletteManager.clearDirty pm1, false)).
  { apply PaletteManager_update_noop.
    - intros i Hi. symmetry. apply Nb; lia.
    - intros i Hi. symmetry. apply Ns; lia. }
  (* the second frame *)
  destruct (update_total tc1 (PPUState.ptTile ppuState)
              (PaletteManager.clearDirty pm1)
              (PPUState.bgPatternBase ppuState) (PPUState.sprPatternBase ppuState)
              (PPUState.chrBankSignature ppuState) Hok) as [[tc2 log2] E2].
  pose proof (SpriteLayer_update_again _ _ _ Hspr Es1) as Es2.
  destruct (renderFrame_steps r1 ppuState tc2 log2 sl1)
    as (r2 & Er2 & Hpm2 & Htc2 & Hbg2 & Hsl2 & Hfc2 & _).
  { rewrite Hpm1, Htc1. fold bg spr. rewrite Epm. exact E2. }
  { rewrite Hsl1. exact Es2. }
  rewrite Hpm1 in Hpm2. fold bg spr in Hpm2. rewrite Epm in Hpm2. cbn [fst] in Hpm2.
  exists r1, log1, r2, log2. split; [exact Er1|]. split; [exact Er2|].
  assert (Hempty : TileCache.updatedSheets tc2 = ∅).
  { apply set_eq. intros k. split; [|intros Hk; inversion Hk].
    intros Hk. exfalso.
    pose proof (update_sheet_range _ _ _ _ _ _ _ _ _ E2 Hk) as Hrange.
    assert (Hg : 0 <= k mod 4 < 4) by (apply Z.mod_pos_bound; lia).
    destruct (update_same_tables _ _ _ _ _ _ _ _ _ _ _ _ (k mod 4) Lc Lr E1 E2 Hg)
      as (H0 & H4 & H8).
    cbn [PaletteManager.clearDirty PaletteManager.dirtyBgGroups
         PaletteManager.dirtySprGroups] in H0, H4, H8.
    pose proof (Z.div_mod k 4 ltac:(lia)) as Hdm.
    assert (Hcase : k = k mod 4 ∨ k = 4 + k mod 4 ∨ k = 8 + k mod 4) by lia.
    destruct Hcase as [Hc|[Hc|Hc]]; rewrite Hc in Hk.
    - apply H0 in Hk. inversion Hk.
    - apply H4 in Hk. inversion Hk.
    - apply H8 in Hk. inversion Hk. }
  pose proof (update_urls_length _ _ _ _ _ _ _ _ Lu E1) as Lu1.
  destruct (update_nothing _ _ _ _ _ _ _ _ Lu1 E2 Hempty) as (Hlog & Hu & Hst).
  rewrite Htc2, Htc1, Hpm2, Hpm1, Hbg2, Hbg1, Hsl2, Hsl1, Hfc2, Hfc1.
  repeat split; try assumption; try reflexivity.
  - apply BGLayer_update_again; assumption.
  - lia.
Qed.

Lemma renderFrame_same_snapshot_settles_witness :
  ∃ r1 log1 r2 log2,
    CSSRenderer.renderFrame CSSRenderer.new demoFrame = Some (r1, log1)
    ∧ CSSRenderer.renderFrame r1 demoFrame = Some (r2, log2)
    ∧ log2 = []
    ∧ TileCache.updatedSheets (CSSRenderer.tileCache r2) = ∅
    ∧ TileCache.blobUrls (CSSRenderer.tileCache r2)
      = TileCache.blobUrls (CSSRenderer.tileCache r1)
    ∧ TileCache.styleEl (CSSRenderer.tileCache r2)
      = TileCache.styleEl (CSSRenderer.tileCache r1)
    ∧ PaletteManager.bgColors (CSSRenderer.paletteManager r2)
      = PaletteManager.bgColors (CSSRenderer.paletteManager r1)
    ∧ PaletteManager.sprColors (CSSRenderer.paletteManager r2)
      = PaletteManager.sprColors (CSSRenderer.paletteManager r1)
    ∧ CSSRenderer.bgLayer r2 = CSSRenderer.bgLayer r1
    ∧ CSSRenderer.spriteLayer r2 = CSSRenderer.spriteLayer r1
    ∧ CSSRenderer.frameCount r2 = CSSRenderer.frameCount CSSRenderer.new + 2.
Proof.
  apply (renderFrame_same_snapshot_settles CSSRenderer.new demoFrame).
  - vm_compute. reflexivity.
  - vm_compute. reflexivity.
Defined.

(** ** The debug overlays *)

Local Ltac overlay_cases :=
  repeat match goal with
         | b : bool |- _ => destruct b
         | o : option bool |- _ => destruct o
         end;
  cbn in *; repeat split; intros;
  repeat match goal with
         | H : Some _ = Some _ |- _ => injection H as H
         | H : ?a = false → _ |- _ =>
             first [specialize (H eq_refl) | clear H]
         | H : _ ∧ _ |- _ => destruct H
         | H : ∀ b : bool, Some ?c = Some b → _ |- _ => specialize (H c eq_refl)
         | H : ∀ b : bool, None = Some b → _ |- _ => clear H
         end;
  try congruence; try reflexivity; try assumption.

Lemma toggle_consistent (ov : DebugOverlay.t) (n : DebugOverlay.name) :
  overlaysConsistent ov → overlaysConsistent (DebugOverlay.toggle ov n).1.
Proof.
  unfold overlaysConsistent. destruct ov. intros (H1 & H2 & H3 & H4 & H5).
  cbn in H1, H2, H3, H4, H5. subst.
  destruct n; cbn [DebugOverlay.toggle fst DebugOverlay.isActive
    DebugOverlay.tileGridDisplay DebugOverlay.paletteRegionsDisplay
    DebugOverlay.spriteLayerEl DebugOverlay.scrollSplitDisplay
    DebugOverlay.ntSeamVDisplay DebugOverlay.ntSeamHDisplay
    DebugOverlay.activeTileGrid DebugOverlay.activeSpriteBoxes
    DebugOverlay.activePaletteRegions DebugOverlay.activeScrollSplit
    DebugOverlay.activeNametableSeam]; overlay_cases.
Qed.

Lemma update_consistent (ov : DebugOverlay.t) (ppuState : PPUState.t) (y : Z) :
  overlaysConsistent ov → overlaysConsistent (DebugOverlay.update ov ppuState y).
Proof.
  unfold overlaysConsistent. destruct ov. intros (H1 & H2 & H3 & H4 & H5).
  cbn in H1, H2, H3, H4, H5. subst.
  unfold DebugOverlay.update, DebugOverlay.updatePaletteRegions,
    DebugOverlay.updateScrollSplit, DebugOverlay.updateNametableSeam.
  cbv zeta.
  cbn [DebugOverlay.tileGridDisplay DebugOverlay.paletteRegionsDisplay
    DebugOverlay.spriteLayerEl DebugOverlay.scrollSplitDisplay
    DebugOverlay.ntSeamVDisplay DebugOverlay.ntSeamHDisplay
    DebugOverlay.activeTileGrid DebugOverlay.activeSpriteBoxes
    DebugOverlay.activePaletteRegions DebugOverlay.activeScrollSplit
    DebugOverlay.activeNametableSeam].
  destruct activePaletteRegions, activeScrollSplit, activeNametableSeam;
    cbn [DebugOverlay.tileGridDisplay DebugOverlay.paletteRegionsDisplay
      DebugOverlay.spriteLayerEl DebugOverlay.scrollSplitDisplay
      DebugOverlay.ntSeamVDisplay DebugOverlay.ntSeamHDisplay
      DebugOverlay.activeTileGrid DebugOverlay.activeSpriteBoxes
      DebugOverlay.activePaletteRegions DebugOverlay.activeScrollSplit
      DebugOverlay.activeNametableSeam];
    repeat match goal with
           | |- context [if ?c then _ else _] =>
               match c with
               | context [Z.ltb] => destruct c
               end
           end;
    cbn [DebugOverlay.tileGridDisplay DebugOverlay.paletteRegionsDisplay
      DebugOverlay.spriteLayerEl DebugOverlay.scrollSplitDisplay
      DebugOverlay.ntSeamVDisplay DebugOverlay.ntSeamHDisplay
      DebugOverlay.activeTileGrid DebugOverlay.activeSpriteBoxes
      DebugOverlay.activePaletteRegions DebugOverlay.activeScrollSplit
      DebugOverlay.activeNametableSeam];
    repeat split; try assumption; try reflexivity; try discriminate;
    try (intros Hx; specialize (H4 Hx); assumption);
    try (intros Hx; apply H5 in Hx; tauto);
    try (apply H5; reflexivity).
Qed.

Lemma toggleAll_consistent (ov : DebugOverlay.t) :
  overlaysConsistent ov → overlaysConsistent (DebugOverlay.toggleAll ov).
Proof.
  unfold DebugOverlay.toggleAll. cbv zeta.
  generalize (existsb (DebugOverlay.isActive ov)
                [DebugOverlay.tileGrid; DebugOverlay.spriteBoxes;
                 DebugOverlay.paletteRegions; DebugOverlay.scrollSplit;
                 DebugOverlay.nametableSeam]).
  intros any.
  generalize [DebugOverlay.tileGrid; DebugOverlay.spriteBoxes;
              DebugOverlay.paletteRegions; DebugOverlay.scrollSplit;
              DebugOverlay.nametableSeam].
  intros names. revert ov. induction names as [|n names IH]; intros ov H.
  - exact H.
  - cbn [fold_left]. apply IH.
    destruct (Bool.eqb _ _); [apply toggle_consistent|]; exact H.
Qed.

(** X20. An overlay that is off is never displayed.  After any sequence
    of toggles, toggle-alls and frames, from a new overlay: the tile grid
    and the palette regions are displayed exactly when they are on, the
    sprite layer carries the label class exactly when sprite boxes are on,
    and the scroll-split line and both seam lines are hidden whenever their
    overlay is off. *)
Theorem DebugOverlay_off_means_hidden
    (hasSpriteLayer : bool) (acts : list overlayAction) :
  overlaysConsistent (overlayRun hasSpriteLayer acts).
Proof.
  unfold overlayRun.
  assert (H0 : overlaysConsistent (DebugOverlay.new hasSpriteLayer)).
  { unfold overlaysConsistent. destruct hasSpriteLayer; cbn; repeat split;
      try reflexivity; intros b Hb; congruence. }
  revert H0. generalize (DebugOverlay.new hasSpriteLayer).
  induction acts as [|a acts IH]; intros ov H; [exact H|].
  cbn [fold_left]. apply IH. destruct a as [n| |st y]; cbn [overlayStep].
  - apply toggle_consistent. exact H.
  - apply toggleAll_consistent. exact H.
  - apply update_consistent. exact H.
Qed.

(** X21. [toggleAll] leaves the five overlays in one common state: all
    off when at least one was on, all on when none was. *)
Theorem DebugOverlay_toggleAll_uniform (ov : DebugOverlay.t) (n : DebugOverlay.name) :
  DebugOverlay.isActive (DebugOverlay.toggleAll ov) n
  = negb (existsb (DebugOverlay.isActive ov)
            [DebugOverlay.tileGrid; DebugOverlay.spriteBoxes;
             DebugOverlay.paletteRegions; DebugOverlay.scrollSplit;
             DebugOverlay.nametableSeam]).
Proof.
  destruct ov as [a1 a2 a3 a4 a5 ? ? ? ? ? ? ? ? ? ?].
  destruct a1, a2, a3, a4, a5, n; reflexivity.
Qed.

Lemma quadrantPosition_left (q : nat) (sx sy : Z) :
  (q < 4)%nat →
  (BGLayer.quadrantPosition q sx sy).1
  = if decide (q = 0 ∨ q = 2)%nat
    then (if 256 <=? sx then 512 else 0)
    else (if 512 <=? sx then 768 else 256).
Proof.
  intros Hq. rewrite quadrantPosition_spec. cbv zeta. cbn [fst].
  destruct q as [|[|[|[|q]]]]; [| | | |lia];
    [change (Z.of_nat 0 mod 2) with 0 | change (Z.of_nat 1 mod 2) with 1
    | change (Z.of_nat 2 mod 2) with 0 | change (Z.of_nat 3 mod 2) with 1];
    destruct (decide _) as [Hd|Hd]; try lia; try (exfalso; apply Hd; lia);
    reflexivity.
Qed.

Lemma quadrantPosition_top (q : nat) (sx sy : Z) :
  (q < 4)%nat →
  (BGLayer.quadrantPosition q sx sy).2
  = if decide (q = 0 ∨ q = 1)%nat
    then (if 240 <=? sy then 480 else 0)
    else (if 480 <=? sy then 720 else 240).
Proof.
  intros Hq. rewrite quadrantPosition_spec. cbv zeta. cbn [snd].
  destruct q as [|[|[|[|q]]]]; [| | | |lia];
    [change (Z.of_nat 0 / 2) with 0 | change (Z.of_nat 1 / 2) with 0
    | change (Z.of_nat 2 / 2) with 1 | change (Z.of_nat 3 / 2) with 1];
    destruct (decide _) as [Hd|Hd]; try lia; try (exfalso; apply Hd; lia);
    reflexivity.
Qed.

(** X22. The seam lines sit on the quadrant edges.  With the scroll
    position inside the 512x480 nametable space, [_updateNametableSeam]
    shows the vertical line exactly when the left edge of one of the
    quadrants, as the background layer places them, lies strictly inside
    the viewport, and then at that edge's viewport column; likewise the
    horizontal line and the top edges. *)
Theorem DebugOverlay_seam_on_quadrant_edge
    (ov : DebugOverlay.t) (ppuState : PPUState.t) :
  let sx := scrollX (PPUState.scroll ppuState) in
  let sy := scrollY (PPUState.scroll ppuState) in
  let ov' := DebugOverlay.updateNametableSeam ov ppuState in
  0 <= sx < 512 → 0 <= sy < 480 →
  (DebugOverlay.ntSeamVDisplay ov' = ""%string
   ∨ DebugOverlay.ntSeamVDisplay ov' = "none"%string)
  ∧ (DebugOverlay.ntSeamVDisplay ov' = ""%string
     ↔ ∃ q, (q < 4)%nat ∧ 0 < (BGLayer.quadrantPosition q sx sy).1 - sx < 256)
  ∧ (∀ q, (q < 4)%nat → 0 < (BGLayer.quadrantPosition q sx sy).1 - sx < 256 →
          DebugOverlay.ntSeamVLeft ov'
          = Some ((BGLayer.quadrantPosition q sx sy).1 - sx))
  ∧ (DebugOverlay.ntSeamHDisplay ov' = ""%string
     ∨ DebugOverlay.ntSeamHDisplay ov' = "none"%string)
  ∧ (DebugOverlay.ntSeamHDisplay ov' = ""%string
     ↔ ∃ q, (q < 4)%nat ∧ 0 < (BGLayer.quadrantPosition q sx sy).2 - sy < 240)
  ∧ (∀ q, (q < 4)%nat → 0 < (BGLayer.quadrantPosition q sx sy).2 - sy < 240 →
          DebugOverlay.ntSeamHTop ov'
          = Some ((BGLayer.quadrantPosition q sx sy).2 - sy)).
Proof.
  intros sx sy ov' Hsx Hsy.
  assert (Qx : ∀ q, (q < 4)%nat →
    (BGLayer.quadrantPosition q sx sy).1
    = if decide (q = 0 ∨ q = 2)%nat then (if 256 <=? sx then 512 else 0) else 256).
  { intros q Hq. rewrite (quadrantPosition_left q sx sy Hq).
    destruct (decide _) as [Hd|Hd];
      destruct (decide (q = 0 ∨ q = 2)%nat); try tauto; try reflexivity.
    replace (512 <=? sx) with false by (symmetry; apply Z.leb_gt; lia).
    reflexivity. }
  assert (Qy : ∀ q, (q < 4)%nat →
    (BGLayer.quadrantPosition q sx sy).2
    = if decide (q = 0 ∨ q = 1)%nat then (if 240 <=? sy then 480 else 0) else 240).
  { intros q Hq. rewrite (quadrantPosition_top q sx sy Hq).
    destruct (decide _) as [Hd|Hd];
      destruct (decide (q = 0 ∨ q = 1)%nat); try tauto; try reflexivity.
    replace (480 <=? sy) with false by (symmetry; apply Z.leb_gt; lia).
    reflexivity. }
  assert (Rx : Z.rem sx 256 = if 256 <=? sx then sx - 256 else sx).
  { rewrite Z.rem_mod_nonneg by lia. destruct (Z.leb_spec 256 sx).
    - symmetry. apply (Z.mod_unique _ _ 1); lia.
    - apply Z.mod_small. lia. }
  assert (Ry : Z.rem sy 240 = if 240 <=? sy then sy - 240 else sy).
  { rewrite Z.rem_mod_nonneg by lia. destruct (Z.leb_spec 240 sy).
    - symmetry. apply (Z.mod_unique _ _ 1); lia.
    - apply Z.mod_small. lia. }
  subst ov'. unfold DebugOverlay.updateNametableSeam. cbv zeta.
  fold sx. fold sy. rewrite Rx, Ry.
  destruct ((0 <? 256 - (if 256 <=? sx then sx - 256 else sx))
            && (256 - (if 256 <=? sx then sx - 256 else sx) <? 256) && (0 <? sx))
    eqn:Ex;
    destruct ((0 <? 240 - (if 240 <=? sy then sy - 240 else sy))
              && (240 - (if 240 <=? sy then sy - 240 else sy) <? 240) && (0 <? sy))
      eqn:Ey;
    cbn [DebugOverlay.ntSeamVDisplay DebugOverlay.ntSeamVLeft
         DebugOverlay.ntSeamHDisplay DebugOverlay.ntSeamHTop];
    rewrite ?andb_true_iff, ?andb_false_iff, ?Z.ltb_lt, ?Z.ltb_ge in Ex, Ey;
    (split; [auto|]); (split; [|split; [|split; [auto|split]]]).
  all: try (split; [intros _|reflexivity]).
  all: try (split; [discriminate|]).
  all: try (intros (q & Hq & He); rewrite ?(Qx q Hq), ?(Qy q Hq) in He;
            destruct (decide _); destruct (Z.leb_spec 256 sx);
            destruct (Z.leb_spec 240 sy); lia).
  all: try (intros q Hq He; rewrite ?(Qx q Hq), ?(Qy q Hq) in *;
            destruct (decide _); destruct (Z.leb_spec 256 sx);
            destruct (Z.leb_spec 240 sy); first [f_equal; lia | lia]).
  all: try (destruct (Z.leb_spec 256 sx);
            [exists 0%nat | exists 1%nat]; (split; [lia|]);
            rewrite Qx by lia; destruct (decide _); try lia;
            destruct (Z.leb_spec 256 sx); lia).
  all: try (destruct (Z.leb_spec 240 sy);
            [exists 0%nat | exists 2%nat]; (split; [lia|]);
            rewrite Qy by lia; destruct (decide _); try lia;
            destruct (Z.leb_spec 240 sy); lia).
Qed.

Lemma DebugOverlay_seam_on_quadrant_edge_witness :
  let ov' := DebugOverlay.updateNametableSeam (DebugOverlay.new true)
               scrollExampleFrame in
  (DebugOverlay.ntSeamVDisplay ov' = ""%string
   ∨ DebugOverlay.ntSeamVDisplay ov' = "none"%string)
  ∧ (DebugOverlay.ntSeamVDisplay ov' = ""%string
     ↔ ∃ q, (q < 4)%nat ∧ 0 < (BGLayer.quadrantPosition q 339 42).1 - 339 < 256)
  ∧ (∀ q, (q < 4)%nat → 0 < (BGLayer.quadrantPosition q 339 42).1 - 339 < 256 →
          DebugOverlay.ntSeamVLeft ov'
          = Some ((BGLayer.quadrantPosition q 339 42).1 - 339))
  ∧ (DebugOverlay.ntSeamHDisplay ov' = ""%string
     ∨ DebugOverlay.ntSeamHDisplay ov' = "none"%string)
  ∧ (DebugOverlay.ntSeamHDisplay ov' = ""%string
     ↔ ∃ q, (q < 4)%nat ∧ 0 < (BGLayer.quadrantPosition q 339 42).2 - 42 < 240)
  ∧ (∀ q, (q < 4)%nat → 0 < (BGLayer.quadrantPosition q 339 42).2 - 42 < 240 →
          DebugOverlay.ntSeamHTop ov'
          = Some ((BGLayer.quadrantPosition q 339 42).2 - 42)).
Proof.
  apply (DebugOverlay_seam_on_quadrant_edge (DebugOverlay.new true)
           scrollExampleFrame).
  - vm_compute. split; [discriminate | reflexivity].
  - vm_compute. split; [discriminate | reflexivity].
Defined.

(** ** The debug overlays: palette regions *)

Lemma fold_left_ext_in {A B : Type} (f g : A → B → A) (l : list B) (a : A) :
  (∀ a x, In x l → f a x = g a x) → fold_left f l a = fold_left g l a.
Proof.
  revert a. induction l as [|x l IH]; intros a H; [reflexivity|].
  cbn [fold_left]. rewrite (H a x) by (left; reflexivity).
  apply IH. intros a' y Hy. apply H. right. exact Hy.
Qed.

Lemma fold_insert_const {A : Type} (v : A) (idx : list nat) (l : list A) (i : nat) :
  fold_left (fun l j => <[j := v]> l) idx l !! i
  = if decide (i ∈ idx ∧ (i < length l)%nat) then Some v else l !! i.
Proof.
  revert l. induction idx as [|j idx IH]; intros l.
  - cbn. destruct (decide _) as [[H _]|_]; [inversion H | reflexivity].
  - cbn [fold_left]. rewrite IH, length_insert.
    destruct (decide (i ∈ idx ∧ (i < length l)%nat)) as [[H1 H2]|Hn].
    + destruct (decide _) as [_|Hn]; [reflexivity|].
      exfalso. apply Hn. split; [right|]; assumption.
    + destruct (decide (i = j)) as [->|Hne].
      * destruct (decide (j < length l)%nat) as [Hl|Hl].
        -- rewrite list_lookup_insert_eq by exact Hl.
           destruct (decide _) as [_|Hn']; [reflexivity|].
           exfalso. apply Hn'. split; [left | exact Hl].
        -- rewrite list_insert_ge by lia.
           destruct (decide _) as [[_ H2]|_]; [lia | reflexivity].
      * rewrite list_lookup_insert_ne by congruence.
        destruct (decide _) as [[H1 H2]|_]; [|reflexivity].
        exfalso. apply Hn. apply elem_of_cons in H1 as [?|H1]; [congruence|].
        split; assumption.
Qed.

Lemma get_attrib_aligned (attrib : list Z) (i : Z) :
  forallb (fun a => a mod 4 =? 0) attrib = true →
  Z.land (DebugOverlay.get_attrib attrib i) 3 = 0.
Proof.
  intros Hnt. change 3 with (Z.ones 2). rewrite Z.land_ones by lia.
  change (2 ^ 2) with 4. unfold DebugOverlay.get_attrib.
  destruct (i <? 0); [reflexivity|].
  destruct (nth_in_or_default (Z.to_nat i) attrib 0) as [Hin|Hd];
    [|rewrite Hd; reflexivity].
  rewrite forallb_forall in Hnt. apply Hnt in Hin. apply Z.eqb_eq in Hin. exact Hin.
Qed.

Lemma blockGroup_aligned (ppuState : PPUState.t) (row col : Z) :
  attribsAligned ppuState = true → DebugOverlay.blockGroup ppuState row col = 0.
Proof.
  intros Hal. unfold DebugOverlay.blockGroup. cbv zeta.
  match goal with
  | |- match ?o with _ => _ end = 0 => destruct o as [nt|] eqn:Ent
  end; [|reflexivity].
  apply get_attrib_aligned.
  match type of Ent with
  | ?o ≫= _ = _ => destruct o as [p|]; [|discriminate]
  end.
  cbn [mbind option_bind] in Ent. destruct (p <? 0); [discriminate|].
  destruct (PPUState.nameTables ppuState !! Z.to_nat p) as [[nt'|]|] eqn:E;
    cbn in Ent; try discriminate.
  injection Ent as <-. unfold attribsAligned in Hal.
  rewrite forallb_forall in Hal.
  apply (Hal (Some nt')). apply list_elem_of_In, list_elem_of_lookup. eauto.
Qed.

(** X23. The palette-region overlay masks the attribute entry with 3,
    where the background layer shifts it right by 2.  When every
    attribute entry of the present nametables is a multiple of 4 (the
    values 0, 4, 8 and 12 whose quotient by 4 the background layer uses as
    the palette group), the mask is 0 for every block:
    [_updatePaletteRegions] paints all 240 blocks in the colour of group
    0, whatever the scroll position and the attributes. *)
Theorem DebugOverlay_palette_regions_all_group0
    (ov : DebugOverlay.t) (ppuState : PPUState.t) :
  length (DebugOverlay.paletteBlocks ov) = 240%nat →
  attribsAligned ppuState = true →
  DebugOverlay.paletteBlocks (DebugOverlay.updatePaletteRegions ov ppuState)
  = replicate 240 (Some "rgba(255, 0, 0, 0.15)"%string).
Proof.
  intros Hlen Hal. unfold DebugOverlay.updatePaletteRegions. cbv zeta.
  cbn [DebugOverlay.paletteBlocks].
  set (v := Some "rgba(255, 0, 0, 0.15)"%string).
  assert (Hfold : ∀ blocks : list (option string),
    fold_left
      (fun blocks row =>
         fold_left
           (fun blocks col =>
              <[(row * 16 + col)%nat :=
                  DebugOverlay.paletteColors
                    !! Z.to_nat (DebugOverlay.blockGroup ppuState (Z.of_nat row)
                                   (Z.of_nat col))]> blocks)
           (seq 0 16) blocks)
      (seq 0 15) blocks
    = fold_left (fun (l : list (option string)) j => <[j := v]> l)
        (flat_map (fun row => map (fun col => (row * 16 + col)%nat) (seq 0 16))
                  (seq 0 15)) blocks).
  { generalize (seq 0 15). intros rows. induction rows as [|row rows IH]; intros blocks.
    - reflexivity.
    - cbn [fold_left flat_map]. rewrite fold_left_app, IH. f_equal.
      generalize (seq 0 16). intros cols. revert blocks.
      induction cols as [|col cols IHc]; intros blocks; [reflexivity|].
      cbn [fold_left map]. rewrite IHc, blockGroup_aligned by exact Hal.
      reflexivity. }
  rewrite Hfold.
  assert (Hidx : flat_map (fun row => map (fun col => (row * 16 + col)%nat) (seq 0 16))
                   (seq 0 15) = seq 0 240) by reflexivity.
  rewrite Hidx. apply list_eq. intros i. rewrite fold_insert_const.
  destruct (decide _) as [[Hi _]|Hn].
  - apply elem_of_seq in Hi. symmetry. apply lookup_replicate. split; [reflexivity | lia].
  - assert (Hge : (240 <= i)%nat).
    { destruct (decide (i < 240)%nat) as [Hlt|]; [|lia]. exfalso. apply Hn.
      split; [apply elem_of_seq; lia | lia]. }
    rewrite !(proj2 (lookup_ge_None _ _)); [reflexivity | | lia].
    rewrite length_replicate. exact Hge.
Qed.

Lemma DebugOverlay_palette_regions_all_group0_witness :
  DebugOverlay.paletteBlocks
    (DebugOverlay.updatePaletteRegions (DebugOverlay.new true) mirroredFrame)
  = replicate 240 (Some "rgba(255, 0, 0, 0.15)"%string).
Proof.
  apply (DebugOverlay_palette_regions_all_group0 (DebugOverlay.new true)
           mirroredFrame).
  - reflexivity.
  - vm_compute. reflexivity.
Defined.

(** ** The tile checksum: what it reads *)

Lemma to_int32_range (z : Z) : - 2 ^ 31 <= JS.to_int32 z < 2 ^ 31.
Proof.
  unfold JS.to_int32. cbv zeta.
  pose proof (Z.mod_pos_bound z (2 ^ 32) ltac:(lia)) as Hm.
  destruct (z mod 2 ^ 32 <? 2 ^ 31) eqn:E;
    [apply Z.ltb_lt in E | apply Z.ltb_ge in E]; lia.
Qed.

Lemma hashStep_congr (h p p' : Z) :
  p mod 2 ^ 32 = p' mod 2 ^ 32 → TileCache.hashStep h p = TileCache.hashStep h p'.
Proof.
  intros H. unfold TileCache.hashStep, JS.xor. cbv zeta.
  rewrite (proj2 (to_int32_eq_iff p p') H). reflexivity.
Qed.

(** X24. The checksum of a tile is an unsigned 32-bit number (so the
    [Uint32Array] of stored checksums holds it unchanged), and it reads
    pixels 0..63 only, each through [ToInt32]: two pixel arrays whose
    entries 0..63 agree modulo 2^32, a missing entry counting as 0, have
    the same checksum. *)
Theorem hashPix_reads_64_pixels_mod_2_32 (pix pix' : list Z) :
  0 <= TileCache.hashPix pix < 2 ^ 32
  ∧ ((∀ j, (j < 64)%nat → nth j pix 0 mod 2 ^ 32 = nth j pix' 0 mod 2 ^ 32) →
     TileCache.hashPix pix = TileCache.hashPix pix').
Proof.
  split.
  - unfold TileCache.hashPix, JS.to_uint32. apply Z.mod_pos_bound. lia.
  - intros H. unfold TileCache.hashPix. f_equal.
    assert (Hn : ∀ n, (n <= 64)%nat →
      TileCache.hashAfter TileCache.hashStep pix n
      = TileCache.hashAfter TileCache.hashStep pix' n).
    { induction n as [|n IH]; intros Hn; [reflexivity|].
      rewrite !hashAfter_S, IH by lia. apply hashStep_congr.
      unfold JS.get_num. apply H. lia. }
    apply Hn. lia.
Qed.

(** ** The frame orchestrator: a palette change between two frames *)

(** X25. A palette change re-renders the sheets of that palette group
    and no others.  Let two well-formed snapshots with 16-entry palettes
    and the same tile table, bank signature and background base be
    rendered one after the other.  On the second frame background sheet [g] is reported updated
    exactly when one of the background palette entries 4g..4g+3 differs
    between the two snapshots, and a sprite sheet of group [g] exactly
    when one of the sprite palette entries 4g..4g+3 differs. *)
Theorem renderFrame_palette_change_rerenders_group
    (r : CSSRenderer.t) (frameA frameB : PPUState.t) :
  rendererOk r = true → frameOk frameA = true → frameOk frameB = true →
  length (PPUState.bgPalette frameA) = 16%nat →
  length (PPUState.sprPalette frameA) = 16%nat →
  length (PPUState.bgPalette frameB) = 16%nat →
  length (PPUState.sprPalette frameB) = 16%nat →
  PPUState.ptTile frameB = PPUState.ptTile frameA →
  PPUState.chrBankSignature frameB = PPUState.chrBankSignature frameA →
  PPUState.bgPatternBase frameB = PPUState.bgPatternBase frameA →
  ∃ r1 log1 r2 log2,
    CSSRenderer.renderFrame r frameA = Some (r1, log1)
    ∧ CSSRenderer.renderFrame r1 frameB = Some (r2, log2)
    ∧ ∀ g, 0 <= g < 4 →
        (TileCache.bgSheetUpdated (CSSRenderer.tileCache r2) g = true
         ↔ ∃ j : nat, 4 * g <= Z.of_nat j < 4 * g + 4
                      ∧ nth j (PPUState.bgPalette frameB) 0
                        ≠ nth j (PPUState.bgPalette frameA) 0)
        ∧ (TileCache.sprSheetUpdated (CSSRenderer.tileCache r2) g = true
           ↔ ∃ j : nat, 4 * g <= Z.of_nat j < 4 * g + 4
                        ∧ nth j (PPUState.sprPalette frameB) 0
                          ≠ nth j (PPUState.sprPalette frameA) 0).
Proof.
  intros Hr HfA HfB _ _ _ _ Hpt Hsig Hbase.
  destruct (rendererOk_spec _ Hr) as (Pb & Ps & Lu & Lc & Lr & Hs & Ld).
  destruct (frameOk_spec _ HfA) as (HokA & HsprA & HntA).
  destruct (frameOk_spec _ HfB) as (HokB & HsprB & HntB).
  set (pm1 := (PaletteManager.update (CSSRenderer.paletteManager r)
                 (PPUState.bgPalette frameA) (PPUState.sprPalette frameA)).1).
  destruct (update_total (CSSRenderer.tileCache r) (PPUState.ptTile frameA) pm1
              (PPUState.bgPatternBase frameA) (PPUState.sprPatternBase frameA)
              (PPUState.chrBankSignature frameA) HokA) as [[tc1 log1] E1].
  destruct (SpriteLayer_update_total (CSSRenderer.spriteLayer r) frameA HsprA)
    as [sl1 Es1].
  destruct (renderFrame_steps r frameA tc1 log1 sl1 E1 Es1)
    as (r1 & Er1 & Hpm1 & Htc1 & _ & Hsl1 & _).
  fold pm1 in Hpm1.
  set (pm2 := (PaletteManager.update pm1 (PPUState.bgPalette frameB)
                 (PPUState.sprPalette frameB)).1).
  destruct (update_total tc1 (PPUState.ptTile frameB) pm2
              (PPUState.bgPatternBase frameB) (PPUState.sprPatternBase frameB)
              (PPUState.chrBankSignature frameB) HokB) as [[tc2 log2] E2].
  destruct (SpriteLayer_update_total sl1 frameB HsprB) as [sl2 Es2].
  destruct (renderFrame_steps r1 frameB tc2 log2 sl2)
    as (r2 & Er2 & _ & Htc2 & _).
  { rewrite Hpm1, Htc1. exact E2. }
  { rewrite Hsl1. exact Es2. }
  exists r1, log1, r2, log2. split; [exact Er1|]. split; [exact Er2|].
  intros g Hg. rewrite Htc2. rewrite Hpt, Hsig, Hbase in E2.
  destruct (update_same_tables _ _ _ _ _ _ _ _ _ _ _ _ g Lc Lr E1 E2 Hg)
    as (H0 & H4 & H8).
  destruct (PaletteManager_update_spec (CSSRenderer.paletteManager r)
              (PPUState.bgPalette frameA) (PPUState.sprPalette frameA))
    as ((Lb1 & Ls1) & Nb & Ns & _).
  fold pm1 in Lb1, Ls1, Nb, Ns.
  destruct (PaletteManager_update_spec pm1 (PPUState.bgPalette frameB)
              (PPUState.sprPalette frameB)) as (_ & _ & _ & Db & Ds).
  fold pm2 in Db, Ds.
  assert (Hgrp : ∀ (i : nat) g, g = Z.shiftr (Z.of_nat i) 2
                                ↔ 4 * g <= Z.of_nat i < 4 * g + 4).
  { intros i g'. rewrite shiftr_2_div. split.
    - intros ->. pose proof (Z.div_mod (Z.of_nat i) 4 ltac:(lia)).
      pose proof (Z.mod_pos_bound (Z.of_nat i) 4 ltac:(lia)). lia.
    - intros H. apply (Z.div_unique _ _ _ (Z.of_nat i - 4 * g')); lia. }
  unfold TileCache.bgSheetUpdated, TileCache.sprSheetUpdated.
  rewrite orb_true_iff, !bool_decide_eq_true, H0, H4, H8, Db, Ds. split.
  - split.
    + intros (i & Hi & Hgi & Hd). exists i. split; [apply Hgrp; exact Hgi|].
      rewrite <- (Nb i) by lia. exact Hd.
    + intros (i & Hi & Hd). exists i. split; [lia|]. split; [apply Hgrp; exact Hi|].
      rewrite (Nb i) by lia. exact Hd.
  - split.
    + intros [(i & Hi & Hgi & Hd)|(i & Hi & Hgi & Hd)]; exists i;
        (split; [apply Hgrp; exact Hgi|]); rewrite <- (Ns i) by lia; exact Hd.
    + intros (i & Hi & Hd). left. exists i. split; [lia|].
      split; [apply Hgrp; exact Hi|]. rewrite (Ns i) by lia. exact Hd.
Qed.

Lemma renderFrame_palette_change_rerenders_group_witness :
  ∃ r1 log1 r2 log2,
    CSSRenderer.renderFrame CSSRenderer.new demoFrame = Some (r1, log1)
    ∧ CSSRenderer.renderFrame r1 demoFrameBlack = Some (r2, log2)
    ∧ ∀ g, 0 <= g < 4 →
        (TileCache.bgSheetUpdated (CSSRenderer.tileCache r2) g = true
         ↔ ∃ j : nat, 4 * g <= Z.of_nat j < 4 * g + 4
                      ∧ nth j (PPUState.bgPalette demoFrameBlack) 0
                        ≠ nth j (PPUState.bgPalette demoFrame) 0)
        ∧ (TileCache.sprSheetUpdated (CSSRenderer.tileCache r2) g = true
           ↔ ∃ j : nat, 4 * g <= Z.of_nat j < 4 * g + 4
                        ∧ nth j (PPUState.sprPalette demoFrameBlack) 0
                          ≠ nth j (PPUState.sprPalette demoFrame) 0).
Proof.
  apply (renderFrame_palette_change_rerenders_group CSSRenderer.new demoFrame
           demoFrameBlack).
  - vm_compute. reflexivity.
  - vm_compute. reflexivity.
  - vm_compute. reflexivity.
  - reflexivity.
  - reflexivity.
  - reflexivity.
  - reflexivity.
  - reflexivity.
  - reflexivity.
  - reflexivity.
Defined.
